(* ===== verification/_CoqProject ===== *)
-Q . S2P
Prelude.v
Binary64.v
Scalars.v
Ranges.v
IntervalSets.v
StoutStrings.v
Values.v
Attributes.v
Fairness.v
EventLoop.v
EventLoopLaws.v
Roles.v
Shutdown.v
ShutdownLaws.v
Url.v
Fetcher.v
FetcherLaws.v
Logging.v
Resource.v
ResourceValidate.v
Resources.v
ResourcesLaws.v
ResourcesEqual.v
ResourcesApply.v
ResourcesUtils.v
ResourcesParse.v
ResourcesMaps.v
Base64.v
Assoc.v
Json.v
JsonProtobuf.v
JsonProtobufLaws.v
Broker.v
CommandQueue.v
MessageBroker.v
PollThreads.v
Scheduler.v
DriverJoin.v
TypeUtils.v
TypeUtilsLaws.v
TypeUtilsV1.v
StoutPath.v
SchedulerDriver.v
SchedulerLaws.v
SchedulerExamples.v
Wire.v
Python.v
PythonScheduler.v
LinkedHashMap.v
Executor.v
DriverLife.v
ExecutorLaws.v
ExecutorExamples.v
PythonExecutor.v
PythonLaws.v
Jni.v
JniScheduler.v
JniExecutor.v
JniLoad.v
JniLaws.v
PythonModule.v
BindingsJoin.v
