(* ===== verification/Prelude.v ===== *)
(** * URB: the Universal Resource Broker client library

    URB lets Mesos frameworks run on another cluster manager.  Its C++ core is
    [liburb] (src/urb-core/source/cpp/liburb): a reimplementation of the Mesos
    scheduler and executor drivers that talks to the URB service over Redis, and
    the Mesos resource algebra that frameworks use to reason about offers, with
    bindings for Python and Java and the program that fetches a task's files.
    This development models that core and proves what makes it correct.

    ** The program and its model

    The values that resources hold (values.cpp):
    - [Binary64]: the C++ [double] as IEEE binary64, on the Standard Library's
      specification of floats, with the rounding lemmas the scalars need;
    - [Scalars]: scalars are doubles compared and added as fixed-point
      thousandths ([convertToFixed], [convertToFloating] and the operators);
    - [Ranges]: ranges of uint64 with wrap-around, the in-place [coalesce] and the
      operators; [IntervalSets] instantiates the interval sets of boost, which are
      the parameter [Icl] with the laws [IclLaws];
    - [StoutStrings], [Values]: the string functions of stout, [numify], the
      parser and the printers of values, and the set operators; [StoutPath]: the
      other string functions and the paths of stout (strings.hpp, path.hpp).

    Names, addresses and attributes: [Roles] (roles.cpp), [Url] (url.hpp) and
    [Attributes] (attributes.cpp): attribute lists, their parser and equality.

    The resource algebra (resources.cpp, resources.hpp, resources_utils.cpp):
    - [Resource]: one resource with its reservations, disk and sharing; equality,
      [addable], [subtractable], [contains] and the operators;
    - [ResourceValidate]: [Resources::validate] and the predicates on a resource;
    - [Resources]: the collection class, a vector of entries with share counts,
      and its operations; [ResourcesLaws]: its class invariant [resources_wf] and
      the laws of [add] and [subtract]; [ResourcesEqual]: when two collections are
      equal ([operator==]), and what [add] followed by [subtract] gives;
    - [ResourcesApply]: printing, [find], and [apply] of offer operations;
    - [ResourcesUtils]: conversions between the reservation formats, the
      normalisation of offer operations and the application of checkpointed
      resources; [ResourcesParse]: [parse]; [ResourcesMaps]: the remaining operators,
      [sum], and maps from agents to resources.

    [TypeUtils], [TypeUtilsLaws] (type_utils.cpp, type_utils.hpp, messages.cpp): the
    comparison operators, hashes and printers of the Mesos messages; [TypeUtilsV1]:
    those of the v1 API (v1/mesos.hpp).

    Messages as JSON text (json_protobuf.cpp and the libraries it is built on, under
    3rdparty/):
    - [Base64] (libb64): the block encoder and decoder with their state, and the
      stream loops over a buffer;
    - [Assoc], [Json] (json_value.cpp): objects as sorted association lists, the
      values of jsoncpp and their conversions, integers at their width;
    - [JsonProtobuf]: [convert_to_json] and [update_from_json] over descriptors and
      messages as the reflection interface of protobuf shows them;
      [JsonProtobufLaws]: the round trip and its limits;
    - [Wire]: the messages of the two processes with descriptors from messages.proto
      and mesos.proto, from the sender's fields to the receiver's handler.  The
      payload that is sent names the type of the message and the one that is received
      does not: between the two processes is the service, a Python program, of which
      the handler that forwards the data of an executor is modelled here
      (service/mesos_handler.py, messaging/message.py); Python's json module is the
      parameter [PyJson].

    The event loop and the threads (evhelper.cpp, timer.hpp, concurrent_queue.hpp,
    lock.cpp):
    - [EventLoop], [EventLoopLaws]: the timers, a store of shared objects and the
      map of [EvHelper] ordered by fire time, with the turns of the loop over the
      watchers of libev; the clock is the parameter [Clock] and the methods that
      timers call are arbitrary;
    - [CommandQueue]: the queue shared by threads and the hand-over of commands
      from [sendMessage] to [async_cb], interleaved statement by statement;
    - [DriverJoin]: [Lock], and the calls of a driver interleaved with [join];
    - [Fairness]: labelled steps, infinite runs, fairness and the rule for "leads
      to"; [Shutdown]: the event thread, the callbacks of its watchers and the
      destructors of the processes and of [EvHelper] as programs of statements that
      interleave, with the calls of the application, [write] under the mutex of the
      loop among them (evhelper.cpp, message_broker_redis.cpp, scheduler_process.cpp,
      executor_process.cpp); [ShutdownLaws]: its invariant, rank and theorems;
    - [DriverLife]: the constructors, the destructor and [run] of the drivers.

    The framework side (message_broker.cpp, message_broker_redis.cpp,
    scheduler_process.cpp, sched.cpp):
    - [Broker]: the client of the message broker; Redis is the parameter [Redis];
    - [MessageBroker]: the [Message] class with its JSON form (jsoncpp's text is the
      parameter [JsonText]), the replies of Redis and the cycle of polls;
    - [PollThreads]: the same cycle with the threads of [CommandQueue]: calls,
      replies, callbacks and wake-ups interleave statement by statement;
    - [Scheduler]: [UrbSchedulerProcess], its state and every handler and
      operation; the state of driver, process, broker, timers and of what the
      application was told is one record, [World];
    - [SchedulerDriver]: the calls of [MesosSchedulerDriver], the dispatch of
      incoming messages, and the worlds a framework can reach by calls, messages
      and timers; the application is the parameter [Application], an arbitrary
      function from the callbacks it received to the driver calls it makes;
    - [SchedulerLaws]: the invariant and the theorems; [SchedulerExamples]: a
      concrete session that witnesses them.

    The executor side (executor_process.cpp, exec.cpp, stout's linkedhashmap.hpp):
    - [LinkedHashMap]: the insertion-ordered map, a list of nodes with a map of
      iterators, and its refinement of an association list;
    - [Executor]: [UrbExecutorProcess] with every handler, the dispatch of
      messages and the calls of [MesosExecutorDriver], on one record [ExecWorld],
      for the same kind of arbitrary application;
    - [ExecutorLaws]: its theorems; [ExecutorExamples]: a session for them.

    The bindings:
    - [Python] (native_common/common.hpp): references, the interpreter lock and the
      pending exception as state, the conversion of messages, and the waits for the
      driver with and without the lock ([Waits]; whether they end is the parameter
      [DriverWaits]); the interpreter is the parameter [Interpreter];
      [PythonScheduler], [PythonExecutor]: the proxies that call the application and
      the methods of the driver objects (proxy_scheduler.cpp,
      mesos_scheduler_driver_impl.cpp and those of the executor); [PythonLaws]:
      their theorems; [PythonModule]: the type objects with the contract of their
      slots ([TypeLaws]), and module.cpp;
    - [Jni] (convert.cpp, construct.cpp): a thread of the JVM with its attachment,
      pending exception and pinned arrays; the Java side is the parameter
      [JavaSide]; [JniScheduler], [JniExecutor]: callbacks and native methods
      (org_apache_mesos_MesosSchedulerDriver.cpp, ...MesosExecutorDriver.cpp);
      [JniLoad]: loading of the library, and the other conversions; [JniLaws]: their
      theorems;
    - [BindingsJoin]: the [join] of the Java drivers.

    The fetcher (mesos/fetcher.cpp, slave/containerizer/fetcher.cpp, hdfs.hpp):
    [Fetcher], the program with its calls of the operating system as a trace (the
    parameter [OS] answers them; [os::shell] formats its argument first), and
    [FetcherLaws].  [Logging] (logging.cpp,
    flags.cpp): the flags and the state of glog; the parameter [LogOs] answers.

    A [Try<T>] that holds an error, and an exception, is [Err]; a failed [CHECK],
    a [LOG(FATAL)] and the use of an unset pointer are [Fatal] (type [outcome]).

    ** What the theorems show

    - Values: fixed-point conversion and scalar arithmetic are exact; [coalesce]
      equals sort-and-merge, its CHECKs never fail and its result is canonical;
      comparison, sum and difference of ranges and sets are those of the sets they
      denote; printed ranges and sets parse back.
    - Roles, URLs, strings: validation accepts exactly the role paths, the subrole
      relation is a strict order, a printed URL parses back, [tokenize] returns the
      maximal runs; joining paths appends their components, and [dirname] and
      [basename] take them apart.
    - Resources: equality is an equivalence and containment a partial order on
      well-formed resources; sums and differences cancel and stay valid; the
      collection keeps its invariant and its totals are exact; subtracting what was
      added gives an equal collection when the values were not there before; [apply]
      never aborts on operands that are not shared, conserves the amounts, numbers and
      items under every name, and RESERVE is undone by UNRESERVE;
      format conversion, checkpointing, parsing and sums over agents likewise; a
      normalised operation has the same values, valid and in the new format.
    - JSON: a message without the features that the converter cannot express comes
      back unchanged from its JSON form, whatever is read keeps its type, base64 is
      inverse and its buffers suffice; what a process sends is decoded unchanged from
      what the service forwards, and the data of an executor reaches the callback of
      its framework through the handler of the service.
    - Scheduler: for every application that launches nothing before the first
      registration attempt, every behaviour of the broker and messages that decode
      and name this framework ([event_ok]), no reachable world has an event that
      crashes the driver (safety), events are handled to their end (termination),
      calls speak only when the protocol allows, launches account for every task,
      status updates are delivered, acknowledged and recorded, reconciliation asks
      for exactly the staged tasks.
    - Executor: the linked map behaves as an association list in insertion order;
      events are handled to their end for every application that does not start
      the driver from a callback, and well-ordered messages that decode
      ([exec_event_ok]); a reconnection resends exactly the status updates that were
      sent and not acknowledged, in the order they were sent, when the uuids, which
      the code cuts at a zero byte, are distinct.
    - Event loop: a timer runs at most once, the due timers run in order, an active
      timer runs once its time has come (if the clock is not set back and nobody
      cancels), at most a tenth of a second early.
    - Threads: the queue is linearizable; commands are handed over in order and no
      wake-up is lost; every call of a driver returns, a single [join] outside of
      callbacks too once the driver is stopped.  These theorems bound the steps of
      every schedule and describe the states in which no thread can step, so they
      need no fairness.
    - Shutdown: in every fair run (a statement that can run again and again is run)
      the destructor of a process returns if no callback destroys one, and after
      that the event loop has ended and runs no callback again; without fairness the
      event thread could be starved while the destructor sleeps and wakes.
    - Broker: a message survives the network; every registration keeps one poll
      alive; replies become the messages in them.  The threads refine the atomic
      events while the connections stay valid: whatever the interleaving, they come
      to rest after a bounded number of steps, in a state that the atomic events
      reach, with every poll at Redis.
    - Messages: operators decide equality up to the order of repeated fields without
      duplicates; equal keys have equal hashes; a container id can be read back.
    - Bindings: a callback leaves no reference, lock, exception or attachment behind
      and aborts the driver exactly when the application threw ([error] of the
      Python proxies apart, which does not abort); a method makes one driver call or
      raises, and [join] and [run] wait without the interpreter lock; with the
      scheduler's theorems, an application that throws is left with a driver that
      does not run; a Python driver object owns what the collector visits, whatever
      is done with it, and leaks nothing.
    - Fetcher: without percent signs in what is given to the Hadoop client, no
      character of a URI reaches a shell outside of quotes; when the basenames of the
      URIs name files, files are written only to the sandbox and the cache file; the
      exit status is exact on every input.
    - Logging: the options mean what their help text says.
    - Negative results are theorems too: wrap-around at the largest uint64, ranges
      whose overlap validation misses, equalities that are not symmetric,
      operations that abort on a TEXT resource, endless recursion of a relaunching
      application, a launch before registration, a malformed URL, a second start
      of an executor driver, a cancelled timer that still runs, a second [join] that
      never returns, heartbeats and polls that multiply with each registration, an
      empty sub-message that is refused, a driver destroyed inside a callback, a
      [join] inside a callback, an event loop that ends during the last sleep of
      [~EvHelper], an update lost to a zero byte in a uuid, a URI that ends in two dots
      or has a percent sign, labels of an executor that are not compared, a Python
      driver initialised twice.

    ** Bounds and fuel

    Scalars are exact up to 2^50 thousandths ([fixed_bound]); every theorem on
    amounts has this bound as a hypothesis, and it is far above any cluster.  The
    loops of the string functions and of the URL parser run with fuel one more
    than the length of their input, which lemmas show to be enough.  The nesting of
    driver calls and callbacks is bounded by a depth: the safety theorems hold for
    every depth, an exhausted depth is never a success, and a depth of two is
    proved enough for applications that launch no task from a status update, and
    for every application of the executor that does not start the driver.

    The threads of [CommandQueue], [PollThreads] and [DriverJoin] and the events of [EventLoop]
    and [MessageBroker] are sequences of steps of any length, and the runs of
    [Shutdown] are infinite: no bound is needed there.  The JSON converters recurse
    on the message and on the value.

    ** What is not modelled

    In the scheduler and the executor a call, a message or a timer is one atomic
    event: the threads are interleaved only for the queue, the event loop's mutex,
    the driver's mutex and the shutdown, in the files above.  The Python service is
    modelled only in the one handler named above; the theorem on all messages takes its
    forwarding as a premise.  The generated protobuf
    code, boost, glog, the text of jsoncpp, redis3m, libev, libuuid, CPython and the
    JVM are third-party code: parameters where the model needs them, with their
    documented behaviour as laws.  What is logged is left out.  FetcherProcess and the
    v1 conversions of the Java bindings are inside comments in the source; the v1
    headers other than v1/mesos.hpp declare classes whose code is not in the
    repository, and of jvm.hpp only the cast [JNIENV_CAST] is used.

    The handlers of the scheduler and of the executor stay atomic because nothing in the
    code orders them: the callback of the event thread takes no lock, so a call of the
    application that runs at the same time is a data race, which has no meaning to model.
    *)

From stdpp Require Export base list gmap strings numbers sorting.
From Stdlib Require Export Lia.

Declare Scope urb_scope.
Delimit Scope urb_scope with urb.
#[global] Open Scope urb_scope.
#[global] Open Scope Z_scope.

(** ** Outcomes

    The C++ code fails in two ways.  A [Try<T>] (or an [Option<Error>]) holds
    an error that the caller inspects; a glog [CHECK], a [LOG(FATAL)] or the use
    of a pointer that was never set ends the process.  [outcome] has both:
    [Err] for the first, [Fatal] for the second. *)
Inductive outcome (A : Type) : Type :=
  | Ok (a : A)
  | Err (msg : string)
  | Fatal.
Arguments Ok {A} a.
Arguments Err {A} msg.
Arguments Fatal {A}.

#[export] Instance outcome_ret : MRet outcome := fun A a => Ok a.
#[export] Instance outcome_bind : MBind outcome := fun A B f m =>
  match m with
  | Ok a => f a
  | Err e => Err e
  | Fatal => Fatal
  end.
#[export] Instance outcome_fmap : FMap outcome := fun A B f m =>
  match m with
  | Ok a => Ok (f a)
  | Err e => Err e
  | Fatal => Fatal
  end.

(** glog's [CHECK(b)]. *)
Definition CHECK (b : bool) : outcome unit := if b then Ok tt else Fatal.

(** An exception that no handler catches: [std::terminate]. *)
Definition uncaught {A : Type} (r : outcome A) : outcome A :=
  match r with Err _ => Fatal | _ => r end.

Definition returns {A : Type} (r : outcome A) : Prop := ∃ a, r = Ok a.

(** A loop whose body may fail: [for (x : l) acc = f(acc, x)]. *)
Fixpoint mfold {A B : Type} (f : A → B → outcome A) (acc : A) (l : list B)
    : outcome A :=
  match l with
  | [] => Ok acc
  | x :: l' => acc' ← f acc x; mfold f acc' l'
  end.

(** The protobuf accessor of an optional field: its value, or the default. *)
Definition get_or {A : Type} (d : A) (o : option A) : A := default d o.

(** [has_x()] of an optional field. *)
Definition has {A : Type} (o : option A) : bool :=
  match o with Some _ => true | None => false end.

(** ** Automation *)

Create HintDb urb.
Create Rewrite HintDb urb_bool.
Create Rewrite HintDb urb_simpl.
Create Rewrite HintDb urb_str.

#[export] Hint Rewrite andb_true_iff orb_true_iff negb_true_iff
  andb_false_iff orb_false_iff negb_false_iff
  Z.eqb_eq Z.leb_le Z.ltb_lt Z.eqb_neq Z.leb_gt Z.ltb_ge
  Nat.eqb_eq Nat.leb_le Nat.ltb_lt
  bool_decide_eq_true bool_decide_eq_false : urb_bool.

(** Turn boolean tests into propositions, in the context and in the goal. *)
Ltac breflect := autorewrite with urb_bool in *.

(** Split the tests of the source one by one. *)
Ltac case_if :=
  match goal with
  | |- context [if ?b then _ else _] => destruct b eqn:?
  | H : context [if ?b then _ else _] |- _ => destruct b eqn:?
  end.

(** Invert the [outcome] monad: an [Ok] result of a bind comes from an [Ok]
    first step. *)
Lemma bind_Ok {A B : Type} (m : outcome A) (f : A → outcome B) (b : B) :
  m ≫= f = Ok b ↔ ∃ a, m = Ok a ∧ f a = Ok b.
Proof.
  split.
  - destruct m; [intros H; eauto | done | done].
  - intros (a & -> & H); exact H.
Qed.

Lemma bind_Ok_l {A B : Type} (a : A) (f : A → outcome B) :
  (Ok a ≫= f) = f a.
Proof. done. Qed.

Lemma fmap_Ok {A B : Type} (m : outcome A) (f : A → B) (b : B) :
  f <$> m = Ok b ↔ ∃ a, m = Ok a ∧ b = f a.
Proof.
  split.
  - destruct m; inversion 1; eauto.
  - intros (a & -> & ->); done.
Qed.

Lemma uncaught_returns {A : Type} (r : outcome A) :
  (∃ a, r = Ok a ∧ uncaught r = Ok a) ∨ (¬ returns r ∧ uncaught r = Fatal).
Proof. destruct r as [a|e|]; [left; eauto|right..]; (split; [by intros [? ?]|done]). Qed.

Lemma CHECK_Ok (b : bool) (u : unit) : CHECK b = Ok u ↔ b = true.
Proof. destruct b, u; done. Qed.

#[export] Hint Rewrite @bind_Ok_l : urb_simpl.

Ltac outcome_step :=
  match goal with
  | H : (_ ≫= _) = Ok _ |- _ =>
      let a := fresh "a" in let E := fresh "E" in
      apply bind_Ok in H as (a & E & H)
  | H : (_ <$> _) = Ok _ |- _ =>
      let a := fresh "a" in let E := fresh "E" in
      apply fmap_Ok in H as (a & E & ->)
  | H : CHECK _ = Ok _ |- _ => apply CHECK_Ok in H
  | H : Ok _ = Ok _ |- _ => injection H as H
  | H : mret _ = Ok _ |- _ => unfold mret, outcome_ret in H
  | H : Err _ = Ok _ |- _ => discriminate H
  | H : Fatal = Ok _ |- _ => discriminate H
  end.
Ltac outcome_inv := repeat outcome_step; subst.

(** ** Monadic folds *)

Lemma mfold_app {A B : Type} (f : A → B → outcome A) (acc : A) (l1 l2 : list B) :
  mfold f acc (l1 ++ l2) = (acc' ← mfold f acc l1; mfold f acc' l2).
Proof.
  revert acc. induction l1 as [|x l1 IH]; intros acc; [done|].
  cbn. destruct (f acc x); cbn; auto.
Qed.

(** The loop rule: an invariant kept by every iteration holds at the end. *)
Lemma mfold_invariant {A B : Type} (f : A → B → outcome A) (P : A → Prop)
    (l : list B) (acc res : A) :
  (∀ a x a', x ∈ l → P a → f a x = Ok a' → P a') →
  P acc → mfold f acc l = Ok res → P res.
Proof.
  revert acc. induction l as [|x l IH]; intros acc Hstep HP Hf; cbn in Hf.
  - by simplify_eq.
  - outcome_inv. eapply IH; [|eapply Hstep; [left|..]; eauto|eauto].
    intros; eapply Hstep; eauto. by right.
Qed.

(** The total-correctness rule: when every iteration succeeds from a state of
    the invariant, so does the loop. *)
Lemma mfold_total {A B : Type} (f : A → B → outcome A) (P : A → Prop)
    (l : list B) (acc : A) :
  (∀ a x, x ∈ l → P a → ∃ a', f a x = Ok a' ∧ P a') →
  P acc → ∃ res, mfold f acc l = Ok res ∧ P res.
Proof.
  revert acc. induction l as [|x l IH]; intros acc Hstep HP; cbn; [eauto|].
  destruct (Hstep acc x) as (a' & -> & HP'); [left|done|].
  apply IH; [|done]. intros; apply Hstep; [by right|done].
Qed.

(** ** Machine integers *)

Definition u64_modulus : Z := 18446744073709551616.
Definition u64_max : Z := 18446744073709551615.
Definition u64_wrap (z : Z) : Z := z mod u64_modulus.
Definition is_u64 (z : Z) : Prop := 0 ≤ z < u64_modulus.

Definition LLONG_MIN : Z := -9223372036854775808.
Definition LLONG_MAX : Z := 9223372036854775807.
Definition i64_wrap (z : Z) : Z :=
  (z + 9223372036854775808) mod 18446744073709551616 - 9223372036854775808.

Lemma u64_wrap_small (z : Z) : is_u64 z → u64_wrap z = z.
Proof. intros H. apply Z.mod_small, H. Qed.

Lemma u64_wrap_succ_max : u64_wrap (u64_max + 1) = 0.
Proof. done. Qed.

Lemma i64_wrap_small (z : Z) : LLONG_MIN ≤ z ≤ LLONG_MAX → i64_wrap z = z.
Proof.
  unfold i64_wrap, LLONG_MIN, LLONG_MAX. intros H.
  rewrite Z.mod_small; lia.
Qed.

#[export] Hint Resolve u64_wrap_small i64_wrap_small : urb.

(** ** Lists *)

(** A boolean search loop with an early exit: the [found]/[break] idiom. *)
Definition any {A : Type} (p : A → bool) (l : list A) : bool := existsb p l.

Lemma any_true {A : Type} (p : A → bool) (l : list A) :
  any p l = true ↔ ∃ x, x ∈ l ∧ p x = true.
Proof.
  unfold any. rewrite existsb_exists.
  by setoid_rewrite list_elem_of_In.
Qed.

Lemma any_false {A : Type} (p : A → bool) (l : list A) :
  any p l = false ↔ ∀ x, x ∈ l → p x = false.
Proof.
  rewrite <-not_true_iff_false, any_true. split.
  - intros H x Hx. destruct (p x) eqn:E; [exfalso; eauto|done].
  - intros H (x & Hx & E). rewrite H in E; done.
Qed.

(** Every element passes: a loop that returns [false] at the first failure. *)
Definition all {A : Type} (p : A → bool) (l : list A) : bool := forallb p l.

Lemma all_true {A : Type} (p : A → bool) (l : list A) :
  all p l = true ↔ ∀ x, x ∈ l → p x = true.
Proof.
  unfold all. rewrite forallb_forall.
  by setoid_rewrite list_elem_of_In.
Qed.

Lemma list_filter_all {A : Type} (P : A → Prop) `{∀ x, Decision (P x)} (l : list A) :
  Forall P l → filter P l = l.
Proof.
  induction 1 as [|x l Hx _ IH]; [done|]. by rewrite filter_cons_True, IH.
Qed.

Lemma list_filter_nil {A : Type} (P : A → Prop) `{∀ x, Decision (P x)} (l : list A) :
  (∀ x, x ∈ l → ¬ P x) → filter P l = [].
Proof.
  induction l as [|x l IH]; intros Hp; [done|].
  rewrite filter_cons_False by (apply Hp; left). apply IH. intros; apply Hp; by right.
Qed.

Lemma list_filter_ext {A : Type} (P Q : A → Prop) `{∀ x, Decision (P x)}
    `{∀ x, Decision (Q x)} (l : list A) :
  (∀ x, x ∈ l → P x ↔ Q x) → filter P l = filter Q l.
Proof.
  induction l as [|x l IH]; intros Hpq; [done|]. rewrite !filter_cons.
  rewrite IH by (intros; apply Hpq; by right).
  pose proof (Hpq x (list_elem_of_here _ _)). by repeat case_decide; intuition.
Qed.

Lemma cons_eq_iff {A : Type} (x y : A) (l k : list A) :
  x :: l = y :: k ↔ x = y ∧ l = k.
Proof. split; [by intros [= -> ->]|by intros [-> ->]]. Qed.

Lemma Some_eq_iff {A : Type} (x y : A) : Some x = Some y ↔ x = y.
Proof. split; [by intros [= ->]|by intros ->]. Qed.
