(* ===== verification/Binary64.v ===== *)
(** * Binary64: the [double] of the C++ code

    IEEE 754 binary64 numbers as the standard library specifies them
    ([SpecFloat], precision 53, exponent bound 1024), with the operations the
    library uses: conversion of a [long long], [+], [*], [/], comparison and
    [std::llround].

    The lemmas bound the rounding error of an addition and of a product.  To
    stay in the integers, a number [m * 2^e] is measured by
    [dval = m * 2^(e + scale)], where [scale] is larger than any exponent the
    format can produce here. *)

From S2P Require Import Prelude.
From Stdlib Require Import SpecFloat.

Definition double := spec_float.

Definition prec64 : Z := 53.
Definition emax64 : Z := 1024.

Definition dadd (x y : double) : double := SFadd prec64 emax64 x y.
Definition dmul (x y : double) : double := SFmul prec64 emax64 x y.
Definition ddiv (x y : double) : double := SFdiv prec64 emax64 x y.

(** [static_cast<double>(z)], and the literals [0], [1000], [1000.0]. *)
Definition d_of_Z (z : Z) : double := binary_normalize prec64 emax64 z 0 false.

Definition dzero : double := S754_zero false.

(** [x == y] and [x < y]; false on NaN. *)
Definition deqb (x y : double) : bool := SFeqb x y.
Definition dltb (x y : double) : bool := SFltb x y.

(** The nearest integer of [m * 2^e], halfway cases away from zero. *)
Definition round_half_away (m e : Z) : Z :=
  if 0 <=? e then m * 2 ^ e
  else (2 * m + 2 ^ (- e)) / (2 * 2 ^ (- e)).

(** [std::llround].  On a NaN, an infinity or a value outside [long long] the C
    standard leaves the result unspecified; x86-64 returns [LLONG_MIN]. *)
Definition llround (x : double) : Z :=
  match x with
  | S754_zero _ => 0
  | S754_infinity _ | S754_nan => LLONG_MIN
  | S754_finite s m e =>
      let r := round_half_away (Zpos m) e in
      let z := if s then - r else r in
      if (LLONG_MIN <=? z) && (z <=? LLONG_MAX) then z else LLONG_MIN
  end.

(** ** Shifting right with sticky bits *)

Lemma digits2_log2 (m : positive) : Zpos (digits2_pos m) = Z.log2 (Zpos m) + 1.
Proof.
  induction m as [m IH|m IH|]; [| |done]; cbn [digits2_pos];
    rewrite Pos2Z.inj_succ, IH.
  - rewrite (Pos2Z.inj_xI m), Z.log2_succ_double by lia. lia.
  - rewrite (Pos2Z.inj_xO m), Z.log2_double by lia. lia.
Qed.

Lemma iter_pos_iter {A : Type} (f : A → A) (n : positive) (x : A) :
  iter_pos f n x = Nat.iter (Pos.to_nat n) f x.
Proof.
  revert x. induction n as [n IH|n IH|]; intros x; cbn [iter_pos]; [| |done].
  - rewrite !IH, Pos2Nat.inj_xI, <-Nat.iter_add, <-Nat.iter_succ_r.
    f_equal; lia.
  - rewrite !IH, Pos2Nat.inj_xO, <-Nat.iter_add. f_equal; lia.
Qed.

(** What the record of a shifted mantissa says of the part shifted out. *)
Definition shr_ok (m : Z) (k : nat) (r : shr_record) : Prop :=
  ∃ rho : Z,
    m = shr_m r * 2 ^ Z.of_nat k + rho ∧ 0 ≤ shr_m r ∧ 0 ≤ rho < 2 ^ Z.of_nat k ∧
    match shr_r r, shr_s r with
    | false, false => rho = 0
    | false, true => 0 < 2 * rho < 2 ^ Z.of_nat k
    | true, false => 2 * rho = 2 ^ Z.of_nat k
    | true, true => 2 ^ Z.of_nat k < 2 * rho
    end.

Lemma shr_1_ok (m : Z) (k : nat) (r : shr_record) :
  shr_ok m k r → shr_ok m (S k) (shr_1 r).
Proof.
  destruct r as [mr b s]. intros (rho & Hm & Hpos & Hrho & Hrs); cbn in *.
  set (P := 2 ^ Z.of_nat k) in *.
  assert (HP : 2 ^ Z.of_nat (S k) = 2 * P).
  { unfold P. rewrite Nat2Z.inj_succ, Z.pow_succ_r; lia. }
  unfold shr_ok. rewrite HP.
  destruct mr as [|[p|p|]|p]; [| | | |lia]; cbn.
  - exists rho. destruct b, s; cbn; lia.
  - exists (P + rho). rewrite (Pos2Z.inj_xI p) in Hm. destruct b, s; cbn; lia.
  - exists rho. rewrite (Pos2Z.inj_xO p) in Hm. destruct b, s; cbn; lia.
  - exists (P + rho). destruct b, s; cbn; lia.
Qed.

Lemma shr_iter_ok (m : Z) (k : nat) :
  0 ≤ m → shr_ok m k (Nat.iter k shr_1 (Build_shr_record m false false)).
Proof.
  intros Hm. induction k as [|k IH].
  - exists 0. cbn. lia.
  - cbn [Nat.iter]. by apply shr_1_ok.
Qed.

(** Rounding to nearest is off by at most half a unit of the result. *)
Lemma round_nearest_even_ok (m : Z) (k : nat) (r : shr_record) :
  shr_ok m k r →
  let M := round_nearest_even (shr_m r) (loc_of_shr_record r) in
  2 * Z.abs (M * 2 ^ Z.of_nat k - m) ≤ 2 ^ Z.of_nat k ∧
  shr_m r ≤ M ≤ shr_m r + 1 ∧ 0 ≤ M ∧ (k = 0%nat → M = m).
Proof.
  destruct r as [mr b s]. intros (rho & Hm & Hpos & Hrho & Hrs); cbn in *.
  assert (Hk : k = 0%nat → 2 ^ Z.of_nat k = 1) by (intros ->; done).
  set (P := 2 ^ Z.of_nat k) in *.
  destruct b, s; cbn; try destruct (Z.even mr); repeat split; try nia;
    intros ->; specialize (Hk eq_refl); nia.
Qed.

(** ** The rounding error of one operation *)

Definition scale : Z := 1200.

(** [2^e] in units of [2^-scale]. *)
Definition unit_at (e : Z) : Z := 2 ^ (e + scale).

(** The magnitude of a finite number, in units of [2^-scale]. *)
Definition dabs (x : double) : Z :=
  match x with
  | S754_finite _ m e => Zpos m * unit_at e
  | _ => 0
  end.

(** A finite number (zero included) whose sign bit is [s]. *)
Definition dsigned (s : bool) (x : double) : Prop :=
  match x with
  | S754_zero b => b = s
  | S754_finite b _ e => b = s ∧ -1074 ≤ e
  | _ => False
  end.

Definition fexp64 (e : Z) : Z := fexp prec64 emax64 e.

Lemma fexp64_max (e : Z) : fexp64 e = Z.max (e - 53) (-1074).
Proof. done. Qed.

Lemma unit_at_pos (e : Z) : 0 ≤ e + scale → 0 < unit_at e.
Proof. intros. apply Z.pow_pos_nonneg; lia. Qed.

Lemma unit_at_shift (e k : Z) :
  0 ≤ e + scale → 0 ≤ k → unit_at (e + k) = 2 ^ k * unit_at e.
Proof.
  intros. unfold unit_at. rewrite <-Z.pow_add_r by lia. f_equal; lia.
Qed.

Lemma Zdigits2_log2 (m : Z) : 0 < m → Zdigits2 m = Z.log2 m + 1.
Proof. destruct m; [lia| |lia]. intros _. apply digits2_log2. Qed.

(** The first shift of [binary_round_aux]. *)
Lemma shr_fexp_ok (m : positive) (ex : Z) :
  let k := Z.max 0 (fexp64 (Z.log2 (Zpos m) + 1 + ex) - ex) in
  ∃ r, shr_fexp prec64 emax64 (Zpos m) ex loc_Exact = (r, ex + k) ∧
       shr_ok (Zpos m) (Z.to_nat k) r.
Proof.
  cbn zeta. unfold shr_fexp, shr, fexp64. cbn [shr_record_of_loc].
  rewrite Zdigits2_log2 by lia.
  set (n := fexp prec64 emax64 _ - ex).
  destruct n as [|p|p] eqn:En.
  - eexists; split; [f_equal; lia|]. apply (shr_iter_ok _ 0); lia.
  - eexists; split; [f_equal; lia|]. rewrite iter_pos_iter.
    replace (Z.to_nat _) with (Pos.to_nat p) by lia. apply shr_iter_ok; lia.
  - eexists; split; [f_equal; lia|]. apply (shr_iter_ok _ 0); lia.
Qed.

(** The second shift: after rounding, the mantissa has at most 53 bits or is
    exactly [2^53]; either way the value does not change. *)
Lemma shr_fexp_exact (M e : Z) :
  0 < M ≤ 2 ^ 53 → -1074 ≤ e →
  ∃ r e'', shr_fexp prec64 emax64 M e loc_Exact = (r, e'') ∧
           0 < shr_m r ∧ e ≤ e'' ≤ e + 1 ∧ shr_m r * 2 ^ (e'' - e) = M.
Proof.
  intros [HM0 HM] He. unfold shr_fexp, shr. cbn [shr_record_of_loc].
  rewrite Zdigits2_log2 by lia. fold (fexp64 (Z.log2 M + 1 + e)).
  destruct (decide (M = 2 ^ 53)) as [->|Hne].
  - rewrite Z.log2_pow2 by lia. rewrite fexp64_max.
    replace (Z.max _ _ - e) with 1 by lia.
    exists (Build_shr_record (2 ^ 52) false false), (e + 1).
    replace (e + 1 - e) with 1 by lia. repeat split; cbn; lia.
  - assert (Z.log2 M < 53) by (apply Z.log2_lt_pow2; lia).
    rewrite fexp64_max.
    destruct (Z.max _ _ - e) as [|p|p] eqn:En; [|lia|];
      exists (Build_shr_record M false false), e;
      replace (e - e) with 0 by lia; repeat split; cbn; lia.
Qed.

Lemma mantissa_bound (m : Z) (k : nat) (r : shr_record) :
  0 < m → shr_ok m k r → Z.log2 m + 1 ≤ 53 + Z.of_nat k → shr_m r < 2 ^ 53.
Proof.
  intros Hm (rho & Heq & Hpos & Hrho & _) Hk.
  assert (m < 2 ^ 53 * 2 ^ Z.of_nat k).
  { rewrite <-Z.pow_add_r by lia. apply Z.log2_lt_pow2; lia. }
  nia.
Qed.

Lemma binary_round_aux_spec (s : bool) (m : positive) (ex : Z) :
  let f := fexp64 (Z.log2 (Zpos m) + 1 + ex) in
  let r := binary_round_aux prec64 emax64 s (Zpos m) ex loc_Exact in
  0 ≤ ex + scale → Z.max f ex < 900 →
  dsigned s r ∧
  2 * Z.abs (dabs r - Zpos m * unit_at ex) ≤ unit_at (Z.max f ex) ∧
  (f ≤ ex → dabs r = Zpos m * unit_at ex).
Proof.
  intros f r Hex Hov. subst r. unfold binary_round_aux.
  destruct (shr_fexp_ok m ex) as (r1 & -> & Hr1). fold f in Hr1 |- *.
  set (k := Z.max 0 (f - ex)) in *.
  assert (Hf : f = Z.max (Z.log2 (Zpos m) + 1 + ex - 53) (-1074))
    by apply fexp64_max.
  assert (Hk : Z.of_nat (Z.to_nat k) = k) by lia.
  pose proof (mantissa_bound (Zpos m) (Z.to_nat k) r1 ltac:(lia) Hr1 ltac:(lia))
    as Hbound.
  destruct (round_nearest_even_ok _ _ _ Hr1) as (Herr & HMr & HM0 & Hexact).
  set (M := round_nearest_even _ _) in *. rewrite Hk in Herr.
  assert (HU : unit_at (Z.max f ex) = 2 ^ k * unit_at ex).
  { rewrite <-unit_at_shift by lia. f_equal; lia. }
  pose proof (unit_at_pos ex ltac:(lia)) as Hu.
  assert (Hval : 2 * Z.abs (M * (2 ^ k * unit_at ex) - Zpos m * unit_at ex)
                 ≤ 2 ^ k * unit_at ex).
  { replace (M * (2 ^ k * unit_at ex) - Zpos m * unit_at ex)
      with ((M * 2 ^ k - Zpos m) * unit_at ex) by ring.
    rewrite Z.abs_mul, (Z.abs_eq (unit_at ex)) by lia. nia. }
  assert (Hex' : f ≤ ex → M * (2 ^ k * unit_at ex) = Zpos m * unit_at ex).
  { intros Hle. replace k with 0 by lia. rewrite Hexact by lia. lia. }
  rewrite HU.
  destruct (decide (M = 0)) as [->|HMne].
  - unfold shr_fexp, shr. cbn [shr_record_of_loc Zdigits2].
    destruct (fexp prec64 emax64 (0 + (ex + k)) - (ex + k)) eqn:En; cbn;
      [|fold (fexp64 (0 + (ex + k))) in En; rewrite fexp64_max in En; lia|];
      repeat split; lia.
  - destruct (shr_fexp_exact M (ex + k)) as (r2 & e2 & -> & Hpos & He2 & HMeq);
      [lia|lia|].
    destruct (shr_m r2) as [|p|p] eqn:Ep; [lia| |lia].
    rewrite (proj2 (Z.leb_le _ _)) by (unfold emax64, prec64; lia). cbn [dsigned dabs].
    replace (Zpos p * unit_at e2) with (M * (2 ^ k * unit_at ex)).
    { repeat split; try lia; done. }
    rewrite <-HMeq, <-(unit_at_shift ex k) by lia.
    replace (unit_at e2) with (unit_at (ex + k + (e2 - (ex + k))))
      by (f_equal; lia).
    rewrite (unit_at_shift (ex + k)) by lia. ring.
Qed.

Lemma Pos_iter_xO (m d : positive) : Zpos (Pos.iter xO m d) = Zpos m * 2 ^ Zpos d.
Proof.
  rewrite Pos2Nat.inj_iter, <-(positive_nat_Z d).
  induction (Pos.to_nat d) as [|n IH]; [cbn; lia|].
  rewrite Nat2Z.inj_succ, Z.pow_succ_r by lia. cbn. lia.
Qed.

(** Aligning a mantissa to a smaller exponent keeps the value. *)
Lemma shl_align_spec (m : positive) (e e' : Z) :
  let '(m', e'') := shl_align m e e' in
  e'' = Z.min e e' ∧ Zpos m' = Zpos m * 2 ^ (e - Z.min e e').
Proof.
  unfold shl_align. destruct (e' - e) as [|p|p] eqn:E.
  - split; [lia|]. replace (e - _) with 0 by lia. lia.
  - split; [lia|]. replace (e - _) with 0 by lia. lia.
  - split; [lia|]. rewrite Pos_iter_xO. repeat f_equal. lia.
Qed.

Lemma binary_round_spec (s : bool) (m : positive) (ex : Z) :
  let f := fexp64 (Z.log2 (Zpos m) + 1 + ex) in
  let r := binary_round prec64 emax64 s m ex in
  0 ≤ ex + scale → f < 900 → ex < 900 →
  dsigned s r ∧
  2 * Z.abs (dabs r - Zpos m * unit_at ex) ≤ unit_at f ∧
  (f ≤ ex → dabs r = Zpos m * unit_at ex).
Proof.
  intros f r Hex Hf Hex9. subst r. unfold binary_round.
  rewrite digits2_log2. fold (fexp64 (Z.log2 (Zpos m) + 1 + ex)). fold f.
  pose proof (shl_align_spec m ex f) as Hal.
  destruct (shl_align m ex f) as [m' e'']. destruct Hal as [-> Hm'].
  assert (Hf0 : -1074 ≤ f) by (unfold f; rewrite fexp64_max; lia).
  assert (Hlog : Z.log2 (Zpos m') = Z.log2 (Zpos m) + (ex - Z.min ex f)).
  { rewrite Hm'. rewrite Z.log2_mul_pow2 by lia. lia. }
  assert (Hval : Zpos m' * unit_at (Z.min ex f) = Zpos m * unit_at ex).
  { replace (unit_at ex) with (unit_at (Z.min ex f + (ex - Z.min ex f)))
      by (f_equal; lia).
    rewrite Hm', unit_at_shift by (unfold scale in *; lia). ring. }
  pose proof (binary_round_aux_spec s m' (Z.min ex f)) as Hr.
  cbn zeta in Hr. rewrite Hlog in Hr.
  replace (Z.log2 (Zpos m) + _ + 1 + Z.min ex f)
    with (Z.log2 (Zpos m) + 1 + ex) in Hr by lia. fold f in Hr.
  rewrite Hval in Hr. unfold scale in *.
  destruct Hr as (Hs & Herr & Hexact); [lia|lia|].
  replace (Z.max f (Z.min ex f)) with f in Herr by lia.
  repeat split; [done|done|]. intros. apply Hexact; lia.
Qed.

(** ** The operations *)

Definition signed (s : bool) (z : Z) : Z := if s then - z else z.

Lemma unit_at_mono (e e' : Z) : 0 ≤ e + scale → e ≤ e' → unit_at e ≤ unit_at e'.
Proof. intros. apply Z.pow_le_mono_r; lia. Qed.

(** The exponent of the last bit of a value below [2^t]. *)
Lemma fexp64_bound (m : positive) (e t : Z) :
  0 ≤ e + scale → -1000 < t → Zpos m * unit_at e < unit_at t →
  fexp64 (Z.log2 (Zpos m) + 1 + e) ≤ t - 53 ∧ e < t.
Proof.
  intros He Ht Hlt. rewrite fexp64_max.
  assert (Z.log2 (Zpos m * unit_at e) < t + scale).
  { apply Z.log2_lt_pow2; [|done]. pose proof (unit_at_pos e); nia. }
  unfold unit_at in *. rewrite Z.log2_mul_pow2 in H by lia.
  pose proof (Z.log2_nonneg (Zpos m)). lia.
Qed.

(** [static_cast<double>] of a [long long] below [2^53] is exact. *)
Lemma d_of_Z_spec (s : bool) (z : Z) :
  0 < z < 2 ^ 53 →
  dsigned s (d_of_Z (signed s z)) ∧ dabs (d_of_Z (signed s z)) = z * unit_at 0.
Proof.
  intros [Hz Hz']. destruct z as [|p|p]; [lia| |lia].
  assert (Hf : fexp64 (Z.log2 (Zpos p) + 1 + 0) ≤ 0).
  { rewrite fexp64_max. assert (Z.log2 (Zpos p) < 53); [|lia].
    apply Z.log2_lt_pow2; lia. }
  destruct (binary_round_spec s p 0) as (Hs & _ & Hexact);
    [unfold scale; lia|lia|lia|].
  replace (d_of_Z (signed s (Zpos p))) with (binary_round prec64 emax64 s p 0)
    by (destruct s; done).
  auto.
Qed.

Lemma binary_normalize_signed (s : bool) (m : positive) (e : Z) :
  binary_normalize prec64 emax64 (signed s (Zpos m)) e false =
  binary_round prec64 emax64 s m e.
Proof. destruct s; done. Qed.

(** Two numbers of the same sign: the sum is off by at most half a unit in
    the last place. *)
Lemma dadd_spec (s : bool) (x y : double) (t : Z) :
  dsigned s x → dsigned s y → dabs x + dabs y < unit_at t → -1000 < t < 900 →
  (dabs x = 0 → dabs y = 0 → False) →
  dsigned s (dadd x y) ∧
  2 * Z.abs (dabs (dadd x y) - (dabs x + dabs y)) ≤ unit_at (t - 53).
Proof.
  intros Hx Hy Hlt Ht Hnz.
  assert (H0 : 0 < unit_at (t - 53)) by (apply unit_at_pos; unfold scale; lia).
  destruct x as [sx|sx| |sx mx ex], y as [sy|sy| |sy my ey]; try done; cbn in Hx, Hy;
    unfold dadd; cbn [SFadd].
  - destruct Hnz; done.
  - destruct Hy as [-> Hy]. repeat split; cbn in *; lia.
  - destruct Hx as [-> Hx]. repeat split; cbn in *; lia.
  - destruct Hx as [-> Hx], Hy as [-> Hy]. cbn [dabs] in Hlt |- *.
    pose proof (shl_align_spec mx ex (Z.min ex ey)) as Hax.
    pose proof (shl_align_spec my ey (Z.min ex ey)) as Hay.
    destruct (shl_align mx ex (Z.min ex ey)) as [mx' ez], Hax as [_ Hmx].
    destruct (shl_align my ey (Z.min ex ey)) as [my' ez'], Hay as [_ Hmy].
    cbn [fst]. set (e := Z.min ex ey) in *.
    replace (Z.min ex e) with e in Hmx by lia.
    replace (Z.min ey e) with e in Hmy by lia.
    replace (cond_Zopp s (Zpos mx') + cond_Zopp s (Zpos my'))
      with (signed s (Zpos (mx' + my'))) by (destruct s; cbn; lia).
    rewrite binary_normalize_signed.
    assert (He : 0 ≤ e + scale) by (unfold scale; lia).
    assert (Hsum : Zpos mx * unit_at ex + Zpos my * unit_at ey
                   = Zpos (mx' + my') * unit_at e).
    { rewrite Pos2Z.inj_add, Hmx, Hmy.
      replace ex with (e + (ex - e)) at 1 by lia.
      replace ey with (e + (ey - e)) at 1 by lia.
      rewrite !unit_at_shift by lia. ring. }
    rewrite Hsum in Hlt |- *.
    destruct (fexp64_bound (mx' + my') e t) as [Hf Het]; [done|lia|done|].
    destruct (binary_round_spec s (mx' + my') e) as (Hs & Herr & _); [lia..|].
    split; [done|]. etransitivity; [done|]. apply unit_at_mono; [|done].
    rewrite fexp64_max. unfold scale; lia.
Qed.

(** A product by a finite number. *)
Lemma dmul_spec (s : bool) (x : double) (my : positive) (ey t : Z) :
  dsigned s x → dabs x ≠ 0 → -100 ≤ ey ≤ 0 →
  Zpos my * dabs x < 2 ^ (- ey) * unit_at t → -1000 < t < 900 →
  let r := dmul x (S754_finite false my ey) in
  dsigned s r ∧
  2 * Z.abs (2 ^ (- ey) * dabs r - Zpos my * dabs x)
    ≤ 2 ^ (- ey) * unit_at (t - 53).
Proof.
  intros Hx Hnz Hey Hlt Ht r. subst r.
  destruct x as [sx|sx| |sx mx ex]; [done|done|done|].
  destruct Hx as [-> Hx]. unfold dmul. cbn [SFmul]. rewrite xorb_false_r.
  cbn [dabs] in Hlt.
  assert (Hval : Zpos my * (Zpos mx * unit_at ex)
                 = 2 ^ (- ey) * (Zpos (mx * my) * unit_at (ex + ey))).
  { replace ex with (ex + ey + - ey) at 1 by lia.
    rewrite unit_at_shift by (unfold scale; lia). lia. }
  assert (HP : 0 < 2 ^ (- ey)) by (apply Z.pow_pos_nonneg; lia).
  rewrite Hval in Hlt. apply Z.mul_lt_mono_pos_l in Hlt; [|done].
  destruct (fexp64_bound (mx * my) (ex + ey) t) as [Hf Het];
    [unfold scale; lia|lia|done|].
  destruct (binary_round_aux_spec s (mx * my) (ex + ey)) as (Hs & Herr & Hexact);
    [unfold scale; lia|lia|].
  split; [done|]. cbn [dabs]. rewrite Hval, <-Z.mul_sub_distr_l, Z.abs_mul.
  rewrite (Z.abs_eq (2 ^ (- ey))) by lia.
  assert (HU : 0 < unit_at (t - 53)) by (apply unit_at_pos; unfold scale; lia).
  enough (2 * Z.abs (dabs (binary_round_aux prec64 emax64 s (Zpos (mx * my))
            (ex + ey) loc_Exact) - Zpos (mx * my) * unit_at (ex + ey))
          ≤ unit_at (t - 53)) by nia.
  destruct (decide (fexp64 (Z.log2 (Zpos (mx * my)) + 1 + (ex + ey)) ≤ ex + ey))
    as [Hle|Hgt].
  - rewrite Hexact by done. lia.
  - etransitivity; [exact Herr|]. apply unit_at_mono; [unfold scale; lia|lia].
Qed.

(** [llround] finds the integer that is closer than one half. *)
Lemma llround_spec (s : bool) (x : double) (n : Z) :
  dsigned s x → 0 ≤ n ≤ LLONG_MAX →
  2 * Z.abs (dabs x - n * unit_at 0) < unit_at 0 →
  llround x = signed s n.
Proof.
  intros Hx Hn Herr.
  assert (H0 : 0 < unit_at 0) by (apply unit_at_pos; unfold scale; lia).
  destruct x as [sx|sx| |sx m e]; cbn in Hx; [|done|done|].
  { subst sx. cbn in Herr. assert (n = 0) as -> by nia. destruct s; done. }
  destruct Hx as [-> He]. cbn [dabs llround] in *.
  assert (Hr : round_half_away (Zpos m) e = n).
  { unfold round_half_away. destruct (Z.leb_spec 0 e).
    - replace e with (0 + e) in Herr by lia.
      rewrite unit_at_shift in Herr by (unfold scale; lia).
      assert (2 * Z.abs (Zpos m * 2 ^ e - n) < 1); [|lia].
      rewrite Z.mul_assoc, <-Z.mul_sub_distr_r, Z.abs_mul in Herr.
      rewrite (Z.abs_eq (unit_at 0)) in Herr by lia. nia.
    - assert (HU : unit_at 0 = 2 ^ (- e) * unit_at e).
      { rewrite <-unit_at_shift by (unfold scale; lia). f_equal; lia. }
      assert (Hu : 0 < unit_at e) by (apply unit_at_pos; unfold scale; lia).
      set (P := 2 ^ (- e)) in *.
      assert (2 * Z.abs (Zpos m - n * P) < P).
      { rewrite HU, Z.mul_assoc, <-Z.mul_sub_distr_r, Z.abs_mul in Herr.
        rewrite (Z.abs_eq (unit_at e)) in Herr by lia. nia. }
      symmetry. apply Z.div_unique with (2 * Zpos m + P - n * (2 * P)); lia. }
  rewrite Hr. unfold signed, LLONG_MIN, LLONG_MAX in *.
  destruct s; rewrite !(proj2 (Z.leb_le _ _)) by lia; done.
Qed.

(** [static_cast<uint64_t>(x)]: truncation; out of range it is undefined in
    C++ and 0 here. *)
Definition d_to_u64 (x : double) : Z :=
  match x with
  | S754_finite false m e =>
      let v := if 0 <=? e then Zpos m * 2 ^ e else Zpos m / 2 ^ (- e) in
      if v <? 18446744073709551616 then v else 0
  | _ => 0
  end.
