(* ===== verification/Scalars.v ===== *)
(** * Scalars: [Value::Scalar] of values.cpp

    A scalar holds a [double], but every operator of values.cpp works on the
    number of thousandths: [convertToFixed] rounds to it, the operator computes
    in [long long], [convertToFloating] converts back.  The main result is that
    the two conversions are inverse on the integers of at most [2^50]
    thousandths, which makes scalar arithmetic exact there. *)

From S2P Require Import Prelude Binary64.
From Stdlib Require Import SpecFloat.

(** ** The operators *)

(** [long long convertToFixed(double)] *)
Definition convertToFixed (floatValue : double) : Z :=
  llround (dmul floatValue (d_of_Z 1000)).

(** [double convertToFloating(long long)]; C++ division truncates. *)
Definition convertToFloating (fixedValue : Z) : double :=
  let quotient := d_of_Z (Z.quot fixedValue 1000) in
  let remainder := ddiv (d_of_Z (Z.rem fixedValue 1000)) (d_of_Z 1000) in
  dadd quotient remainder.

Record Scalar := mkScalar { scalar_value : double }.

(** The scalar of a message whose field is not set. *)
Definition scalar_default : Scalar := mkScalar dzero.

(** [operator==], [operator<=] *)
Definition scalar_eq (left right : Scalar) : bool :=
  convertToFixed (scalar_value left) =? convertToFixed (scalar_value right).
Definition scalar_le (left right : Scalar) : bool :=
  convertToFixed (scalar_value left) <=? convertToFixed (scalar_value right).

(** [operator+=], [operator-=]: the sum is computed in [long long].  An
    overflow is undefined behaviour in C++; the model wraps, and the theorems
    are about sums in range. *)
Definition scalar_add (left right : Scalar) : Scalar :=
  let sum := i64_wrap (convertToFixed (scalar_value left)
                       + convertToFixed (scalar_value right)) in
  mkScalar (convertToFloating sum).
Definition scalar_sub (left right : Scalar) : Scalar :=
  let diff := i64_wrap (convertToFixed (scalar_value left)
                        - convertToFixed (scalar_value right)) in
  mkScalar (convertToFloating diff).

(** ** The fixed-point value *)

(** The number of thousandths of a scalar: what the operators compare. *)
Definition fixed (s : Scalar) : Z := convertToFixed (scalar_value s).

(** The bound below which the conversions lose nothing. *)
Definition fixed_bound : Z := 2 ^ 50.
Definition in_range (z : Z) : Prop := Z.abs z ≤ fixed_bound.

(** ** One thousandth at a time

    The fraction of a scalar takes 1999 values, so the error of its division
    is established by computing them. *)

Definition remainder_ok (s : bool) (r : Z) : bool :=
  match ddiv (d_of_Z (signed s r)) (d_of_Z 1000) with
  | S754_finite b m e =>
      let v := Zpos m * 2 ^ (e + 64) in
      Bool.eqb b s && (-64 <=? e) && (v <? 2 ^ 64) &&
      (2 * Z.abs (1000 * v - r * 2 ^ 64) <=? 1000 * 2 ^ 11)
  | _ => false
  end.

Lemma remainders_ok :
  forallb (fun r => remainder_ok false r && remainder_ok true r) (seqZ 1 999) = true.
Proof. vm_compute. reflexivity. Qed.

Lemma remainder_spec (s : bool) (r : Z) :
  0 < r < 1000 →
  let f := ddiv (d_of_Z (signed s r)) (d_of_Z 1000) in
  dsigned s f ∧ dabs f ≠ 0 ∧ dabs f < unit_at 0 ∧
  2 * Z.abs (1000 * dabs f - r * unit_at 0) ≤ 1000 * unit_at (-53).
Proof.
  intros Hr f. pose proof remainders_ok as H.
  rewrite forallb_forall in H. specialize (H r).
  rewrite <-list_elem_of_In, elem_of_seqZ in H.
  assert (Hok : remainder_ok s r = true).
  { specialize (H ltac:(lia)). destruct s; breflect; tauto. }
  unfold remainder_ok in Hok. fold f in Hok. clear H.
  destruct f as [|?| |b m e]; try discriminate.
  breflect. destruct Hok as [[[Hb He] Hlt] Herr].
  apply Bool.eqb_prop in Hb. cbn [dsigned dabs].
  assert (Hv : unit_at e = 2 ^ (e + 64) * unit_at (-64)).
  { rewrite <-unit_at_shift by (unfold scale; lia). f_equal; lia. }
  assert (HU : unit_at 0 = 2 ^ 64 * unit_at (-64) ∧
               unit_at (-53) = 2 ^ 11 * unit_at (-64) ∧ 0 < unit_at (-64))
    by (repeat split; vm_compute; reflexivity).
  destruct HU as (-> & -> & HU). rewrite Hv, Z.mul_assoc.
  assert (0 < Zpos m * 2 ^ (e + 64)).
  { pose proof (Z.pow_pos_nonneg 2 (e + 64)). lia. }
  generalize dependent (Zpos m * 2 ^ (e + 64)). intros v Hlt Herr Hpos.
  repeat split; [done|lia|nia|nia|].
  replace (1000 * (v * unit_at (-64)) - r * (2 ^ 64 * unit_at (-64)))
    with ((1000 * v - r * 2 ^ 64) * unit_at (-64)) by ring.
  rewrite Z.abs_mul, (Z.abs_eq (unit_at (-64))) by lia. nia.
Qed.

Lemma d_of_Z_1000 : d_of_Z 1000 = S754_finite false 8796093022208000 (-43).
Proof. vm_compute. reflexivity. Qed.

Lemma signed_quot_rem (s : bool) (a : Z) :
  0 ≤ a →
  Z.quot (signed s a) 1000 = signed s (a / 1000) ∧
  Z.rem (signed s a) 1000 = signed s (a mod 1000).
Proof.
  intros Ha. unfold signed.
  destruct s; rewrite ?Z.quot_opp_l, ?Z.rem_opp_l,
    ?Z.quot_div_nonneg, ?Z.rem_mod_nonneg by lia; lia.
Qed.

(** The floating-point value of [a] thousandths, up to the rounding of the
    sum. *)
Lemma convertToFloating_spec (s : bool) (a : Z) :
  0 < a ≤ fixed_bound →
  let y := convertToFloating (signed s a) in
  dsigned s y ∧ dabs y ≠ 0 ∧
  2 * Z.abs (1000 * dabs y - a * unit_at 0)
    ≤ 1000 * unit_at (-12) + 1000 * unit_at (-53).
Proof.
  intros Ha y. subst y. unfold convertToFloating, fixed_bound in *.
  destruct (signed_quot_rem s a) as [-> ->]; [lia|].
  pose proof (Z.div_mod a 1000 ltac:(lia)) as Hdm.
  pose proof (Z.mod_pos_bound a 1000 ltac:(lia)) as Hrb.
  generalize dependent (a / 1000). intros q Hdm.
  generalize dependent (a mod 1000). intros r Hdm Hrb.
  assert (HU : unit_at 0 = 2 ^ 53 * unit_at (-53) ∧
               unit_at (-12) = 2 ^ 41 * unit_at (-53) ∧
               unit_at 41 = 2 ^ 94 * unit_at (-53) ∧ 0 < unit_at (-53))
    by (repeat split; vm_compute; reflexivity).
  destruct HU as (HU0 & HU12 & HU41 & HUpos).
  destruct (decide (r = 0)) as [Hr|Hr], (decide (q = 0)) as [Hq|Hq].
  - lia.
  - rewrite Hr. destruct (d_of_Z_spec s q) as [Hs Habs]; [lia|].
    replace (dadd _ _) with (d_of_Z (signed s q)).
    { rewrite Habs. repeat split; [done|nia|].
      replace (1000 * (q * unit_at 0)) with (a * unit_at 0) by nia. lia. }
    replace (ddiv _ _) with (S754_zero false) by (destruct s; done).
    destruct (d_of_Z (signed s q)) as [| | |] eqn:E; cbn in Habs, Hs; try done.
    nia.
  - rewrite Hq. destruct (remainder_spec s r) as (Hs & Hnz & Hlt & Herr); [lia|].
    assert (a = r) as -> by lia.
    replace (d_of_Z (signed s 0)) with (S754_zero false) by (destruct s; done).
    destruct (ddiv _ _) eqn:E; try done. unfold dadd; cbn [SFadd].
    split; [done|]. split; [done|]. lia.
  - destruct (remainder_spec s r) as (Hs & Hnz & Hlt & Herr); [lia|].
    destruct (d_of_Z_spec s q) as [Hqs Hqabs]; [lia|].
    destruct (dadd_spec s (d_of_Z (signed s q))
                (ddiv (d_of_Z (signed s r)) (d_of_Z 1000)) 41) as [Hs' Herr'];
      [done|done| |lia|nia|].
    { rewrite Hqabs, HU41, HU0 in *. nia. }
    rewrite Hqabs in Herr'. change (41 - 53) with (-12) in Herr'.
    repeat split; [done| |].
    + intros H0. rewrite H0, HU12 in Herr'. rewrite HU0 in *. nia.
    + assert (a * unit_at 0 = 1000 * (q * unit_at 0) + r * unit_at 0) by nia.
      lia.
Qed.

(** The round trip of the fixed-point representation. *)
Lemma fixed_floating (n : Z) :
  in_range n → convertToFixed (convertToFloating n) = n.
Proof.
  unfold in_range. intros Hn.
  destruct (decide (n = 0)) as [->|Hn0]; [vm_compute; reflexivity|].
  set (s := n <? 0). set (a := Z.abs n).
  assert (Hna : n = signed s a).
  { unfold s, a, signed. destruct (Z.ltb_spec n 0); lia. }
  rewrite Hna. destruct (convertToFloating_spec s a) as (Hs & Hnz & Herr); [lia|].
  set (y := convertToFloating _) in *. unfold convertToFixed.
  unfold fixed_bound in *.
  assert (HU : unit_at 0 = 2 ^ 53 * unit_at (-53) ∧
               unit_at (-12) = 2 ^ 41 * unit_at (-53) ∧
               unit_at (-2) = 2 ^ 51 * unit_at (-53) ∧
               unit_at 51 = 2 ^ 104 * unit_at (-53) ∧ 0 < unit_at (-53))
    by (repeat split; vm_compute; reflexivity).
  destruct HU as (HU0 & HU12 & HU2 & HU51 & HUpos).
  rewrite d_of_Z_1000.
  destruct (dmul_spec s y 8796093022208000 (-43) 51) as [Hs' Herr'];
    [done|done|lia| |lia|].
  { rewrite HU0, HU12, HU51 in *. change (2 ^ (- -43)) with 8796093022208. nia. }
  change (51 - 53) with (-2) in Herr'.
  change (2 ^ (- -43)) with 8796093022208 in Herr'.
  apply llround_spec; [done|unfold LLONG_MAX; lia|].
  rewrite HU0, HU12, HU2 in *. nia.
Qed.

#[export] Hint Resolve fixed_floating : urb.

(** ** Scalar arithmetic *)

Lemma in_range_i64 (z : Z) : in_range z → LLONG_MIN ≤ z ≤ LLONG_MAX.
Proof. unfold in_range, fixed_bound, LLONG_MIN, LLONG_MAX. lia. Qed.

Lemma fixed_add (a b : Scalar) :
  in_range (fixed a + fixed b) → fixed (scalar_add a b) = fixed a + fixed b.
Proof.
  intros H. unfold fixed at 1, scalar_add. cbn [scalar_value].
  fold (fixed a) (fixed b). rewrite i64_wrap_small by auto using in_range_i64.
  auto with urb.
Qed.

Lemma fixed_sub (a b : Scalar) :
  in_range (fixed a - fixed b) → fixed (scalar_sub a b) = fixed a - fixed b.
Proof.
  intros H. unfold fixed at 1, scalar_sub. cbn [scalar_value].
  fold (fixed a) (fixed b). rewrite i64_wrap_small by auto using in_range_i64.
  auto with urb.
Qed.

Lemma scalar_eq_fixed (a b : Scalar) : scalar_eq a b = true ↔ fixed a = fixed b.
Proof. apply Z.eqb_eq. Qed.

Lemma scalar_le_fixed (a b : Scalar) : scalar_le a b = true ↔ fixed a ≤ fixed b.
Proof. apply Z.leb_le. Qed.

Lemma fixed_default : fixed scalar_default = 0.
Proof. vm_compute. reflexivity. Qed.

(** A scalar computed by an operator is determined by its thousandths. *)
Lemma scalar_add_value (a b : Scalar) :
  in_range (fixed a + fixed b) →
  scalar_value (scalar_add a b) = convertToFloating (fixed a + fixed b).
Proof.
  intros H. unfold scalar_add; cbn. fold (fixed a) (fixed b).
  by rewrite i64_wrap_small by auto using in_range_i64.
Qed.

Lemma scalar_sub_value (a b : Scalar) :
  in_range (fixed a - fixed b) →
  scalar_value (scalar_sub a b) = convertToFloating (fixed a - fixed b).
Proof.
  intros H. unfold scalar_sub; cbn. fold (fixed a) (fixed b).
  by rewrite i64_wrap_small by auto using in_range_i64.
Qed.

#[export] Hint Rewrite scalar_eq_fixed scalar_le_fixed : urb_bool.

(** The sign test [scalar.value() < 0] agrees with the thousandths on the
    results of the operators. *)
Lemma convertToFloating_neg (n : Z) :
  in_range n → dltb (convertToFloating n) dzero = (n <? 0).
Proof.
  unfold in_range. intros Hn.
  destruct (decide (n = 0)) as [->|Hn0]; [vm_compute; reflexivity|].
  set (s := n <? 0). set (a := Z.abs n).
  assert (Hna : n = signed s a).
  { unfold s, a, signed. destruct (Z.ltb_spec n 0); lia. }
  rewrite Hna at 1. destruct (convertToFloating_spec s a) as (Hs & Hnz & _); [lia|].
  destruct (convertToFloating _) as [| | |b m e]; try done.
  destruct Hs as [-> _]. unfold dltb, SFltb, dzero; cbn. by destruct s.
Qed.

Lemma convertToFloating_finite (n : Z) :
  in_range n → n ≠ 0 → ∃ s m e, convertToFloating n = S754_finite s m e.
Proof.
  unfold in_range. intros Hn Hn0. set (s := n <? 0). set (a := Z.abs n).
  assert (Hna : n = signed s a).
  { unfold s, a, signed. destruct (Z.ltb_spec n 0); lia. }
  rewrite Hna. destruct (convertToFloating_spec s a) as (Hs & Hnz & _); [lia|].
  destruct (convertToFloating _) as [| | |b m e]; try done. eauto.
Qed.

(** ** Properties *)

(** The fixed-point round trip: converting any number of thousandths of
    magnitude at most [2^50] to a [double] and back gives the same number, so
    the 3-decimal precision of scalars is never lost by the conversions. *)
Theorem fixed_roundtrip (n : Z) :
  in_range n → convertToFixed (convertToFloating n) = n.
Proof. auto with urb. Qed.

Lemma fixed_roundtrip_witness :
  in_range 1234567 ∧ convertToFixed (convertToFloating 1234567) = 1234567.
Proof.
  assert (in_range 1234567) by (unfold in_range, fixed_bound; lia).
  split; [done|]. by apply (fixed_roundtrip 1234567).
Defined.

(** Scalar arithmetic is exact to a thousandth: subtracting what was
    added gives back an equal scalar, the sum contains each non-negative
    summand, and addition commutes to the very same [double]. *)
Theorem scalar_arithmetic_exact (a b : Scalar) :
  in_range (fixed a + fixed b) → in_range (fixed a) → 0 ≤ fixed b →
  scalar_eq (scalar_sub (scalar_add a b) b) a = true ∧
  scalar_le a (scalar_add a b) = true ∧
  scalar_add a b = scalar_add b a.
Proof.
  intros Hab Ha Hb. rewrite scalar_eq_fixed, scalar_le_fixed.
  rewrite fixed_sub; rewrite fixed_add by done; [|by rewrite Z.add_simpl_r].
  split; [lia|]. split; [lia|]. unfold scalar_add. do 2 f_equal.
  by rewrite Z.add_comm.
Qed.

(** 0.1 + 0.2, the classic sum that is not 0.3 in binary floating point. *)
Lemma scalar_arithmetic_exact_witness :
  let a := mkScalar (convertToFloating 100) in
  let b := mkScalar (convertToFloating 200) in
  (in_range (fixed a + fixed b) ∧ in_range (fixed a) ∧ 0 ≤ fixed b) ∧
  scalar_eq (scalar_sub (scalar_add a b) b) a = true ∧
  scalar_le a (scalar_add a b) = true ∧ scalar_add a b = scalar_add b a.
Proof.
  intros a b.
  assert (H : in_range (fixed a + fixed b) ∧ in_range (fixed a) ∧ 0 ≤ fixed b).
  { unfold in_range, fixed_bound. split; [|split]; vm_compute; discriminate. }
  split; [exact H|]. destruct H as (H1 & H2 & H3).
  exact (scalar_arithmetic_exact a b H1 H2 H3).
Defined.
