(* ===== verification/Ranges.v ===== *)
(** * Ranges: [Value::Ranges] of values.cpp

    A list of closed ranges of [uint64_t].  [coalesce] sorts them and merges
    the overlapping and adjacent ones in place; [operator==], [<=], [+], [-]
    are built on it, and subtraction goes through stout's [IntervalSet], a
    wrapper of boost's [interval_set].  That class is third-party code: it is a
    parameter here, an interface with the set-theoretic laws boost documents.

    The main results: [coalesce] returns the canonical list of the union of
    its inputs, and the operators decide or compute equality, inclusion, union
    and difference of the denoted sets. *)

From S2P Require Import Prelude.

Record Range := mkRange { range_begin : Z; range_end : Z }.
#[export] Instance Range_eq_dec : EqDecision Range.
Proof. solve_decision. Defined.

Definition Ranges := list Range.

(** ** [internal::coalesce] *)

(** The order of [std::sort]: [std::tie(start, end)].  Elements that compare
    equal are equal, so the result does not depend on the sorting algorithm. *)
Definition range_before (l r : Range) : Prop :=
  range_begin l < range_begin r ∨
  (range_begin l = range_begin r ∧ range_end l ≤ range_end r).
#[export] Instance range_before_dec l r : Decision (range_before l r).
Proof. unfold range_before. apply _. Defined.

Definition sort_ranges (ranges : list Range) : list Range :=
  merge_sort range_before ranges.

(** The state of the single pass: the vector that is read and overwritten, the
    number of finished ranges plus one, and the range being extended. *)
Record coalesce_state := mkCS {
  cs_ranges : list Range;
  cs_count : nat;
  cs_current : Range }.

Definition range_zero : Range := mkRange 0 0.

(** One iteration of the [foreach], on the element at index [i]. *)
Definition coalesce_step (st : coalesce_state) (i : nat) : coalesce_state :=
  let ranges := cs_ranges st in
  let count := cs_count st in
  let current := cs_current st in
  let range := default range_zero (ranges !! i) in
  if (range_begin range =? range_begin current) &&
     (range_end range =? range_end current)
  then st
  else if (range_begin range =? range_begin current) &&
          (range_end current <? range_end range)
  then mkCS ranges count (mkRange (range_begin current) (range_end range))
  else if range_begin current <? range_begin range
  then if range_begin range <=? u64_wrap (range_end current + 1)
       then mkCS ranges count
              (mkRange (range_begin current)
                 (Z.max (range_end current) (range_end range)))
       else mkCS (<[(count - 1)%nat := current]> ranges) (S count) range
  else st.

(** Copying the first [count] ranges into the protobuf. *)
Definition copy_step (ranges : list Range) (result : Ranges) (i : nat) : Ranges :=
  let result :=
    if (length result <=? i)%nat then result ++ [range_zero] else result in
  <[i := default range_zero (ranges !! i)]> result.

(** The pass over the sorted vector. *)
Definition coalesce_run (ranges : list Range) : coalesce_state :=
  foldl coalesce_step (mkCS ranges 1 (default range_zero (ranges !! 0%nat)))
    (seq 0 (length ranges)).

(** Recording the last range, then moving the vector into the protobuf. *)
Definition coalesce_finish (result : Ranges) (st : coalesce_state)
    : outcome Ranges :=
  let count := cs_count st in
  let ranges := <[(count - 1)%nat := cs_current st]> (cs_ranges st) in
  _ ← CHECK (count <=? length ranges)%nat;
  let result :=
    if (count <? length result)%nat then take count result else result in
  let result := foldl (copy_step ranges) result (seq 0 count) in
  _ ← CHECK (length result =? count)%nat;
  Ok result.

Definition coalesce_checked (result : Ranges) (ranges : list Range)
    : outcome Ranges :=
  match ranges with
  | [] => Ok []
  | _ => coalesce_finish result (coalesce_run (sort_ranges ranges))
  end.

(** The checks never fail ([coalesce_checked_ok] below), so callers see the
    result. *)
Definition internal_coalesce (result : Ranges) (ranges : list Range) : Ranges :=
  match coalesce_checked result ranges with Ok r => r | _ => result end.

(** ** The overloads of [coalesce] *)

Definition coalesce (result : Ranges) (addedRanges : list Ranges) : Ranges :=
  internal_coalesce result (result ++ concat addedRanges).

Definition coalesce_self (result : Ranges) : Ranges := coalesce result [[]].

Definition coalesce_range (result : Ranges) (addedRange : Range) : Ranges :=
  coalesce result [[addedRange]].

(** ** Stout's [IntervalSet<uint64_t>]

    The boost class is reached through five operations.  [iset_intervals] is
    what iteration yields: right-open intervals [(lower, upper)]. *)
Class IntervalSet (T : Type) := {
  iset_empty : T;
  iset_add : T → Z * Z → T;
  iset_diff : T → T → T;
  iset_intervals : T → list (Z * Z) }.

Definition iset_mem `{IntervalSet T} (x : Z) (s : T) : Prop :=
  ∃ i, i ∈ iset_intervals s ∧ i.1 ≤ x < i.2.

(** The documented behaviour of [boost::icl::interval_set]: the element-wise
    set operations, and iteration in order over non-empty intervals that are
    joined when they touch. *)
Class IntervalSetLaws (T : Type) `{IntervalSet T} : Prop := {
  iset_mem_empty x : ¬ iset_mem x iset_empty;
  iset_mem_add x s i : iset_mem x (iset_add s i) ↔ iset_mem x s ∨ i.1 ≤ x < i.2;
  iset_mem_diff x s t : iset_mem x (iset_diff s t) ↔ iset_mem x s ∧ ¬ iset_mem x t;
  iset_nonempty s i : i ∈ iset_intervals s → i.1 < i.2;
  iset_sorted s : StronglySorted (fun i j => i.2 < j.1) (iset_intervals s) }.

(** The implementation the library is linked with. *)
Class Icl := { icl_T : Type; icl_ops :: IntervalSet icl_T }.
Class IclLaws `{Icl} : Prop := icl_laws :: IntervalSetLaws icl_T.

Section Operators.
Context {T : Type} `{IntervalSet T}.

(** [(Bound::closed(b), Bound::closed(e))]: stored right-open, so the upper
    bound is the [uint64_t] successor. *)
Definition closed_interval (r : Range) : Z * Z :=
  (range_begin r, u64_wrap (range_end r + 1)).

Definition rangesToIntervalSet (ranges : Ranges) : T :=
  foldl (fun set range => iset_add set (closed_interval range)) iset_empty ranges.

Definition intervalSetToRanges (set : T) : Ranges :=
  map (fun i => mkRange i.1 (u64_wrap (i.2 - 1))) (iset_intervals set).

(** [operator-=] *)
Definition ranges_sub_assign (left right : Ranges) : Ranges :=
  intervalSetToRanges
    (iset_diff (rangesToIntervalSet left) (rangesToIntervalSet right)).

(** [operator-]: the left operand is coalesced first. *)
Definition ranges_sub (left right : Ranges) : Ranges :=
  ranges_sub_assign (coalesce [] [left]) right.
End Operators.

(** [operator==]: same number of coalesced ranges, and each left one is found
    on the right. *)
Definition same_range (l r : Range) : bool :=
  (range_begin l =? range_begin r) && (range_end l =? range_end r).

Definition ranges_eq (_left _right : Ranges) : bool :=
  let left := coalesce [] [_left] in
  let right := coalesce [] [_right] in
  if (length left =? length right)%nat
  then all (fun l => any (same_range l) right) left
  else false.

(** [operator<=]: each coalesced left range lies inside a right one. *)
Definition inside_range (l r : Range) : bool :=
  (range_begin r <=? range_begin l) && (range_end l <=? range_end r).

Definition ranges_le (_left _right : Ranges) : bool :=
  let left := coalesce [] [_left] in
  let right := coalesce [] [_right] in
  all (fun l => any (inside_range l) right) left.

(** [operator+], [operator+=] *)
Definition ranges_add (left right : Ranges) : Ranges := coalesce [] [left; right].
Definition ranges_add_assign (left right : Ranges) : Ranges := coalesce left [right].

(** ** The single pass equals a structural merge *)

Fixpoint merge_into (cur : Range) (l : list Range) : list Range :=
  match l with
  | [] => [cur]
  | r :: l' =>
      if (range_begin r =? range_begin cur) ||
         (range_begin r <=? u64_wrap (range_end cur + 1))
      then merge_into
             (mkRange (range_begin cur) (Z.max (range_end cur) (range_end r))) l'
      else cur :: merge_into r l'
  end.

(** The reference definition of [coalesce]. *)
Definition coalesce_ref (ranges : list Range) : Ranges :=
  match sort_ranges ranges with
  | [] => []
  | r :: l => merge_into r l
  end.

Lemma foldl_snoc {A B : Type} (f : A → B → A) (a : A) (l : list B) (x : B) :
  foldl f a (l ++ [x]) = f (foldl f a l) x.
Proof. by rewrite foldl_app. Qed.

(** The invariant of the pass before element [i]: the vector is untouched from
    [i] on, its prefix holds the finished ranges, and merging what is left
    into the current range completes the answer. *)
Definition coalesce_inv (target sorted : list Range) (i : nat)
    (st : coalesce_state) : Prop :=
  ∃ done : list Range,
    cs_count st = S (length done) ∧ (length done < max i 1)%nat ∧
    length (cs_ranges st) = length sorted ∧
    (∀ j, (i ≤ j)%nat → cs_ranges st !! j = sorted !! j) ∧
    (∀ j, (j < length done)%nat → cs_ranges st !! j = done !! j) ∧
    (∀ x, x ∈ drop i sorted → range_begin (cs_current st) ≤ range_begin x) ∧
    (i = 0%nat → sorted !! 0%nat = Some (cs_current st)) ∧
    target = done ++ merge_into (cs_current st) (drop i sorted).

Definition begins_sorted : list Range → Prop :=
  StronglySorted (fun a b => range_begin a ≤ range_begin b).

Lemma coalesce_inv_step (target sorted : list Range) (i : nat) (st : coalesce_state) :
  begins_sorted sorted → (i < length sorted)%nat →
  coalesce_inv target sorted i st →
  coalesce_inv target sorted (S i) (coalesce_step st i).
Proof.
  intros Hsort Hi (fin & Hcount & Hlen & Hsize & Hrest & Hpre & Hbeg & Hfst & Htgt).
  destruct st as [v count cur]; cbn in *.
  destruct (lookup_lt_is_Some_2 sorted i Hi) as [x Hx].
  assert (Hdrop : drop i sorted = x :: drop (S i) sorted) by by apply drop_S.
  assert (Hxb : range_begin cur ≤ range_begin x).
  { apply Hbeg. rewrite Hdrop. left. }
  assert (Hafter : ∀ y, y ∈ drop (S i) sorted → range_begin x ≤ range_begin y).
  { apply Forall_forall.
    assert (Hs : begins_sorted (drop i sorted)).
    { rewrite <-(take_drop i sorted) in Hsort.
      by apply StronglySorted_app_1_r in Hsort. }
    rewrite Hdrop in Hs. by inversion Hs. }
  assert (Hbeg' : ∀ y, y ∈ drop (S i) sorted → range_begin cur ≤ range_begin y).
  { intros y Hy. specialize (Hafter y Hy). lia. }
  rewrite Hdrop in Htgt. cbn [merge_into] in Htgt.
  unfold coalesce_step; cbn. rewrite Hrest, Hx by lia. cbn.
  assert (Hkeep : ∀ cur', range_begin cur' = range_begin cur →
    target = fin ++ merge_into cur' (drop (S i) sorted) →
    coalesce_inv target sorted (S i) (mkCS v count cur')).
  { intros cur' Hb Ht. exists fin; cbn.
    repeat split; try done; [lia|intros; apply Hrest; lia|by rewrite Hb]. }
  assert (Hi0 : i = 0%nat → x = cur).
  { intros ->. rewrite Hfst in Hx by done. by injection Hx. }
  repeat case_if; breflect; try lia;
    try (apply Hkeep; [done|]; rewrite Htgt; do 2 f_equal;
         destruct cur; cbn in *; f_equal; lia).
  assert (i ≠ 0%nat) by (intros Hz; specialize (Hi0 Hz); subst x; lia).
  exists (fin ++ [cur]); cbn. rewrite length_app, length_insert; cbn.
  repeat split; try done; try lia.
  - intros j Hj. rewrite list_lookup_insert_ne by lia. apply Hrest; lia.
  - intros j Hj. destruct (decide (j = length fin)) as [->|Hne].
    + rewrite Hcount, Nat.sub_succ, Nat.sub_0_r.
      rewrite list_lookup_insert_eq by lia. by rewrite list_lookup_middle.
    + rewrite list_lookup_insert_ne by lia.
      rewrite lookup_app_l by lia. apply Hpre; lia.
  - by rewrite Htgt, <-app_assoc.
Qed.

Lemma coalesce_pass (target sorted : list Range) (st : coalesce_state) (n : nat) :
  begins_sorted sorted → (n ≤ length sorted)%nat →
  coalesce_inv target sorted 0 st →
  coalesce_inv target sorted n (foldl coalesce_step st (seq 0 n)).
Proof.
  intros Hsort Hn H0. induction n as [|n IH]; [done|].
  rewrite seq_S, foldl_snoc. apply coalesce_inv_step; [done|lia|].
  apply IH; lia.
Qed.

Lemma sort_ranges_begins (ranges : list Range) : begins_sorted (sort_ranges ranges).
Proof.
  assert (Hs : StronglySorted range_before (sort_ranges ranges)).
  { apply StronglySorted_merge_sort.
    - intros a b c. unfold range_before. lia.
    - intros a b. unfold range_before. lia. }
  unfold begins_sorted. revert Hs. generalize (sort_ranges ranges).
  induction 1 as [|r l _ IH Hl]; constructor; [done|].
  eapply Forall_impl; [done|]. intros x. unfold range_before. lia.
Qed.

(** Copying leaves exactly the computed ranges in the protobuf, whatever it
    held before. *)
Lemma copy_result (ranges result : list Range) (n : nat) :
  (n ≤ length ranges)%nat →
  let out := foldl (copy_step ranges) result (seq 0 n) in
  take n out = take n ranges ∧ (length result ≤ n → length out = n)%nat ∧
  (n ≤ length result → length out = length result)%nat.
Proof.
  intros Hn. induction n as [|n IH]; [cbn; split; [done|lia]|].
  rewrite seq_S, foldl_snoc; cbn.
  destruct IH as (Htake & Hle & Hge); [lia|].
  set (out := foldl _ _ _) in *. unfold copy_step.
  destruct (lookup_lt_is_Some_2 ranges n ltac:(lia)) as [x Hx]. rewrite Hx; cbn.
  rewrite (take_S_r ranges n x) by done.
  assert (Hlen : (n ≤ length out)%nat).
  { destruct (decide (length result ≤ n)%nat); lia. }
  destruct (Nat.leb_spec (length out) n).
  - assert (length out = n) by lia. rewrite length_insert, length_app; cbn.
    split; [|lia]. rewrite take_ge by (rewrite length_insert, length_app; cbn; lia).
    rewrite insert_app_r_alt by lia. replace (n - length out)%nat with 0%nat by lia.
    cbn. rewrite take_ge in Htake by lia. by rewrite Htake.
  - rewrite length_insert. split; [|lia].
    erewrite take_S_r by (apply list_lookup_insert_eq; lia).
    rewrite take_insert_ge by lia. by rewrite Htake.
Qed.

(** The vector after the pass: its first [count] entries are the merge. *)
Lemma coalesce_run_spec (r : Range) (l : list Range) :
  begins_sorted (r :: l) →
  let st := coalesce_run (r :: l) in
  let v := <[(cs_count st - 1)%nat := cs_current st]> (cs_ranges st) in
  (cs_count st ≤ length v)%nat ∧ take (cs_count st) v = merge_into r l.
Proof.
  intros Hsort st v.
  pose proof (coalesce_pass (merge_into r l) (r :: l) (mkCS (r :: l) 1 r)
                (length (r :: l)) Hsort ltac:(lia)) as Hinv.
  change (foldl _ _ _) with st in Hinv.
  destruct Hinv as (fin & Hcount & Hlen & Hsize & _ & Hpre & _ & _ & Htgt).
  { exists []. repeat split; try done; [cbn; lia|cbn; lia| |].
    - intros x. cbn. rewrite list_elem_of_In. intros [->|Hx]; [lia|].
      inversion Hsort as [|? ? _ Hall]; subst.
      rewrite List.Forall_forall in Hall. by apply Hall.
    - cbn. rewrite Z.eqb_refl. cbn. f_equal. destruct r; cbn; f_equal. lia. }
  rewrite drop_all in Htgt. cbn [merge_into] in Htgt.
  assert (Hvlen : length v = length (r :: l)) by by unfold v; rewrite length_insert.
  split; [cbn in *; lia|].
  rewrite Htgt, Hcount. unfold v. rewrite Hcount, Nat.sub_succ, Nat.sub_0_r.
  erewrite take_S_r by (apply list_lookup_insert_eq; cbn in *; lia).
  rewrite take_insert_ge by lia. f_equal.
  apply list_eq. intros j. destruct (decide (j < length fin)%nat).
  - rewrite lookup_take_lt by lia. by apply Hpre.
  - rewrite lookup_take_ge by lia. symmetry. apply lookup_ge_None. lia.
Qed.

(** Copying leaves exactly those entries, whatever the result held before. *)
Lemma coalesce_finish_spec (result : Ranges) (st : coalesce_state) :
  let v := <[(cs_count st - 1)%nat := cs_current st]> (cs_ranges st) in
  (cs_count st ≤ length v)%nat →
  coalesce_finish result st = Ok (take (cs_count st) v).
Proof.
  intros v Hcv. unfold coalesce_finish. fold v.
  rewrite (proj2 (Nat.leb_le _ _) Hcv). cbn [CHECK mbind outcome_bind].
  set (result' := if (cs_count st <? length result)%nat
                  then take (cs_count st) result else result).
  assert (Hres : (length result' ≤ cs_count st)%nat).
  { unfold result'. destruct (Nat.ltb_spec (cs_count st) (length result)); [|lia].
    rewrite length_take. lia. }
  destruct (copy_result v result' (cs_count st) Hcv) as (Htake & Hlen' & _).
  rewrite (Hlen' Hres), Nat.eqb_refl. cbn.
  specialize (Hlen' Hres). rewrite take_ge in Htake by lia.
  f_equal. exact Htake.
Qed.

Lemma coalesce_checked_ok (result : Ranges) (ranges : list Range) :
  coalesce_checked result ranges = Ok (coalesce_ref ranges).
Proof.
  destruct ranges as [|r0 rest] eqn:Eranges; [done|]. cbn [coalesce_checked].
  rewrite <-Eranges. unfold coalesce_ref.
  pose proof (merge_sort_Permutation range_before ranges) as Hp.
  fold (sort_ranges ranges) in Hp. pose proof (sort_ranges_begins ranges) as Hsort.
  destruct (sort_ranges ranges) as [|r l].
  { apply Permutation_nil in Hp. congruence. }
  destruct (coalesce_run_spec r l Hsort) as [Hlen Htake].
  by rewrite coalesce_finish_spec, Htake.
Qed.

Lemma internal_coalesce_ref (result : Ranges) (ranges : list Range) :
  internal_coalesce result ranges = coalesce_ref ranges.
Proof. unfold internal_coalesce. by rewrite coalesce_checked_ok. Qed.

Lemma coalesce_eq (result : Ranges) (added : list Ranges) :
  coalesce result added = coalesce_ref (result ++ concat added).
Proof. apply internal_coalesce_ref. Qed.

#[export] Hint Rewrite internal_coalesce_ref coalesce_eq app_nil_r : urb_simpl.

(** ** The set of numbers a list of ranges denotes *)

Definition rmem (x : Z) (rs : Ranges) : Prop :=
  ∃ r, r ∈ rs ∧ range_begin r ≤ x ≤ range_end r.

(** Well formed: not inverted, and below the largest [uint64_t] (see
    [coalesce_at_u64_max] for what happens there). *)
Definition range_wf (r : Range) : Prop :=
  0 ≤ range_begin r ≤ range_end r ∧ range_end r < u64_max.

(** Canonical: sorted, disjoint and not adjacent. *)
Definition canonical (rs : Ranges) : Prop :=
  StronglySorted (fun a b => range_end a + 1 < range_begin b) rs ∧
  Forall range_wf rs.

Lemma rmem_nil (x : Z) : ¬ rmem x [].
Proof. intros (r & Hr & _). by apply not_elem_of_nil in Hr. Qed.

Lemma rmem_cons (x : Z) (r : Range) (rs : Ranges) :
  rmem x (r :: rs) ↔ range_begin r ≤ x ≤ range_end r ∨ rmem x rs.
Proof.
  unfold rmem. setoid_rewrite elem_of_cons. split.
  - intros (y & [->|Hy] & Hx); eauto.
  - intros [Hx|(y & Hy & Hx)]; eauto.
Qed.

Lemma rmem_app (x : Z) (a b : Ranges) : rmem x (a ++ b) ↔ rmem x a ∨ rmem x b.
Proof.
  unfold rmem. setoid_rewrite elem_of_app. split.
  - intros (r & [Hr|Hr] & Hx); eauto.
  - intros [(r & Hr & Hx)|(r & Hr & Hx)]; eauto.
Qed.

Lemma rmem_perm (x : Z) (a b : Ranges) : a ≡ₚ b → rmem x a ↔ rmem x b.
Proof. intros Hp. unfold rmem. by setoid_rewrite Hp. Qed.

#[export] Hint Rewrite rmem_cons rmem_app : urb_simpl.

Lemma rmem_dec (x : Z) (rs : Ranges) : rmem x rs ∨ ¬ rmem x rs.
Proof.
  induction rs as [|r rs IH]; [right; apply rmem_nil|]. rewrite rmem_cons.
  destruct (decide (range_begin r ≤ x ≤ range_end r)); tauto.
Qed.

(** ** [coalesce] computes the canonical list *)

Lemma range_wf_succ (r : Range) :
  range_wf r → u64_wrap (range_end r + 1) = range_end r + 1.
Proof.
  unfold range_wf, u64_max. intros [Hr He]. apply u64_wrap_small.
  unfold is_u64, u64_modulus. lia.
Qed.

Lemma begins_sorted_cons (r : Range) (l : list Range) :
  begins_sorted (r :: l) ↔
  begins_sorted l ∧ ∀ x, x ∈ l → range_begin r ≤ range_begin x.
Proof.
  unfold begins_sorted. split.
  - inversion 1; subst. rewrite <-Forall_forall. auto.
  - intros [Hs Hl]. constructor; [done|]. by apply Forall_forall.
Qed.

Lemma merge_into_spec (l : list Range) (cur : Range) :
  begins_sorted (cur :: l) → Forall range_wf (cur :: l) →
  canonical (merge_into cur l) ∧
  (∀ x, rmem x (merge_into cur l) ↔ rmem x (cur :: l)) ∧
  (∀ r, r ∈ merge_into cur l → range_begin cur ≤ range_begin r).
Proof.
  revert cur. induction l as [|r l IH]; intros cur Hs Hwf; cbn [merge_into].
  - split; [|done || (split; [done|])].
    + split; [|done]. by repeat constructor.
    + intros r Hr. apply list_elem_of_singleton in Hr as ->. lia.
  - apply Forall_cons in Hwf as [Hcur Hwf]. pose proof Hwf as Hwf'.
    apply Forall_cons in Hwf' as [Hr Hl].
    apply begins_sorted_cons in Hs as [Hsl Hle]. pose proof Hsl as Hsl'.
    apply begins_sorted_cons in Hsl' as [Hsl' Hle'].
    pose proof (Hle r ltac:(left)) as Hcr.
    rewrite range_wf_succ by done. unfold range_wf in Hcur, Hr.
    destruct ((_ || _)%bool) eqn:Em; breflect.
    + set (cur' := mkRange _ _).
      destruct (IH cur') as (Hcan & Hmem & Hhd).
      { apply begins_sorted_cons. split; [done|].
        intros x Hx. specialize (Hle' x Hx). unfold cur'; cbn. lia. }
      { constructor; [|done]. unfold range_wf, cur'; cbn. lia. }
      split; [done|]. split; [|done].
      intros x. rewrite Hmem, !rmem_cons. cbn. intuition lia.
    + destruct (IH r Hsl Hwf) as (Hcan & Hmem & Hhd). split; [|split].
      * destruct Hcan as [Hss Hfw]. split; [|by constructor].
        constructor; [done|]. apply Forall_forall.
        intros y Hy. specialize (Hhd y Hy). lia.
      * intros x. by rewrite rmem_cons, Hmem, (rmem_cons x cur).
      * intros y. rewrite elem_of_cons. intros [->|Hy]; [lia|].
        specialize (Hhd y Hy). lia.
Qed.

Lemma coalesce_ref_spec (ranges : list Range) :
  Forall range_wf ranges →
  canonical (coalesce_ref ranges) ∧
  ∀ x, rmem x (coalesce_ref ranges) ↔ rmem x ranges.
Proof.
  intros Hwf. unfold coalesce_ref.
  pose proof (merge_sort_Permutation range_before ranges) as Hp.
  fold (sort_ranges ranges) in Hp. rewrite <-Hp in Hwf.
  pose proof (sort_ranges_begins ranges) as Hs.
  destruct (sort_ranges ranges) as [|r l].
  - apply Permutation_nil in Hp as ->.
    split; [split; constructor|done].
  - destruct (merge_into_spec l r Hs Hwf) as (Hcan & Hmem & _).
    split; [done|]. intros x. by rewrite Hmem, (rmem_perm x _ _ Hp).
Qed.

(** ** Canonical lists are determined by the set *)

Lemma canonical_cons (r : Range) (l : Ranges) :
  canonical (r :: l) ↔
  canonical l ∧ range_wf r ∧ ∀ x, x ∈ l → range_end r + 1 < range_begin x.
Proof.
  unfold canonical. split.
  - intros [Hs Hf]. inversion Hs; subst. inversion Hf; subst.
    split; [done|]. split; [done|]. by apply Forall_forall.
  - intros ([Hs Hf] & Hr & Hl). split; constructor; try done.
    by apply Forall_forall.
Qed.

(** The points of a canonical tail lie beyond the gap. *)
Lemma canonical_gap (r : Range) (l : Ranges) (x : Z) :
  canonical (r :: l) → rmem x l → range_end r + 1 < x.
Proof.
  rewrite canonical_cons. intros (_ & _ & Hl) (y & Hy & Hx).
  specialize (Hl y Hy). lia.
Qed.

Lemma canonical_head_le (r q : Range) (a b : Ranges) :
  canonical (r :: a) → canonical (q :: b) →
  (∀ x, rmem x (r :: a) ↔ rmem x (q :: b)) →
  range_begin q ≤ range_begin r ∧ range_end q ≤ range_end r.
Proof.
  intros Ha Hb Hab.
  pose proof (fun x => canonical_gap r a x Ha) as Hgr.
  pose proof (fun x => canonical_gap q b x Hb) as Hgq.
  apply canonical_cons in Ha as (_ & [Hr _] & _), Hb as (_ & [Hq _] & _).
  assert (Hbeg : range_begin q ≤ range_begin r).
  { destruct (proj1 (rmem_cons (range_begin r) q b)) as [?|H].
    - apply Hab, rmem_cons. left. lia.
    - lia.
    - apply Hgq in H. lia. }
  split; [done|]. destruct (Z.le_gt_cases (range_end q) (range_end r)); [done|].
  destruct (proj1 (rmem_cons (range_end r + 1) r a)) as [?|Hm].
  - apply Hab, rmem_cons. left. lia.
  - lia.
  - apply Hgr in Hm. lia.
Qed.

Lemma canonical_unique (a b : Ranges) :
  canonical a → canonical b → (∀ x, rmem x a ↔ rmem x b) → a = b.
Proof.
  assert (Hpoint : ∀ r l, canonical (r :: l) → rmem (range_begin r) (r :: l)).
  { intros r l (_ & [Hr _] & _)%canonical_cons. apply rmem_cons. left. lia. }
  revert b. induction a as [|r a IH]; intros [|q b] Ha Hb Hab; [done| | |].
  - destruct (rmem_nil (range_begin q)). apply Hab. by apply Hpoint.
  - destruct (rmem_nil (range_begin r)). apply Hab. by apply Hpoint.
  - destruct (canonical_head_le r q a b) as [Hb1 He1]; [done..|].
    destruct (canonical_head_le q r b a) as [Hb2 He2]; [done|done|by symmetry|].
    assert (r = q) as -> by (destruct r, q; cbn in *; f_equal; lia).
    f_equal. pose proof (fun x => canonical_gap q a x Ha) as Hga.
    pose proof (fun x => canonical_gap q b x Hb) as Hgb.
    apply canonical_cons in Ha as (Ha & _), Hb as (Hb & _).
    apply IH; [done|done|]. intros x. specialize (Hab x).
    rewrite !rmem_cons in Hab. specialize (Hga x). specialize (Hgb x).
    intuition lia.
Qed.

(** ** The operators on the denoted sets *)

Lemma canonical_wf (rs : Ranges) : canonical rs → Forall range_wf rs.
Proof. by intros [_ H]. Qed.

Lemma canonical_NoDup (rs : Ranges) : canonical rs → NoDup rs.
Proof.
  induction rs as [|r rs IH]; [constructor|].
  intros (Hc & [Hr _] & Hl)%canonical_cons. constructor; [|by apply IH].
  intros Hin. specialize (Hl r Hin). lia.
Qed.

(** The successor of the end of a canonical range is in no range. *)
Lemma canonical_succ (rs : Ranges) (r : Range) :
  canonical rs → r ∈ rs → ¬ rmem (range_end r + 1) rs.
Proof.
  induction rs as [|q rs IH]; [by intros _ ?%not_elem_of_nil|].
  intros Hc Hin Hm. pose proof (fun x => canonical_gap q rs x Hc) as Hgap.
  apply canonical_cons in Hc as (Hc & [Hq _] & Hl).
  apply rmem_cons in Hm. apply elem_of_cons in Hin as [->|Hin].
  - destruct Hm as [?|Hm]; [lia|]. apply Hgap in Hm. lia.
  - destruct Hm as [?|Hm]; [|by apply IH].
    specialize (Hl r Hin).
    assert (range_wf r) as [? _].
    { apply canonical_wf in Hc. by rewrite Forall_forall in Hc; apply Hc. }
    lia.
Qed.

Section Specs.
Context (left right : Ranges).
Context (Hleft : Forall range_wf left) (Hright : Forall range_wf right).

Lemma coalesce_one : coalesce [] [left] = coalesce_ref left.
Proof using. rewrite coalesce_eq. cbn. by rewrite app_nil_r. Qed.

Lemma ranges_eq_iff :
  ranges_eq left right = true ↔ ∀ x, rmem x left ↔ rmem x right.
Proof using Hleft Hright.
  unfold ranges_eq. rewrite !coalesce_eq; cbn. rewrite !app_nil_r.
  destruct (coalesce_ref_spec left Hleft) as [Hcl Hml].
  destruct (coalesce_ref_spec right Hright) as [Hcr Hmr].
  setoid_rewrite <-Hml. setoid_rewrite <-Hmr. split.
  - destruct (Nat.eqb_spec (length (coalesce_ref left)) (length (coalesce_ref right)))
      as [Hlen|]; [|done].
    rewrite all_true. intros Hall x. apply rmem_perm.
    apply submseteq_length_Permutation; [|lia].
    apply NoDup_submseteq; [by apply canonical_NoDup|].
    intros l Hl. specialize (Hall l Hl). apply any_true in Hall as (r & Hr & Hs).
    unfold same_range in Hs. breflect. destruct l, r; cbn in *.
    by destruct Hs as [-> ->].
  - intros Heq. rewrite (canonical_unique _ _ Hcl Hcr Heq), Nat.eqb_refl.
    apply all_true. intros l Hl. apply any_true. exists l. split; [done|].
    unfold same_range. by rewrite !Z.eqb_refl.
Qed.

Lemma ranges_le_iff :
  ranges_le left right = true ↔ ∀ x, rmem x left → rmem x right.
Proof using Hleft Hright.
  unfold ranges_le. rewrite !coalesce_eq; cbn. rewrite !app_nil_r.
  destruct (coalesce_ref_spec left Hleft) as [Hcl Hml].
  destruct (coalesce_ref_spec right Hright) as [Hcr Hmr].
  setoid_rewrite <-Hml. setoid_rewrite <-Hmr. rewrite all_true. split.
  - intros Hall x (l & Hl & Hx). specialize (Hall l Hl).
    apply any_true in Hall as (r & Hr & Hs). unfold inside_range in Hs.
    breflect. exists r. split; [done|lia].
  - intros Hsub l Hl. apply any_true.
    assert (range_wf l) as [Hlb _].
    { apply canonical_wf in Hcl. by rewrite Forall_forall in Hcl; apply Hcl. }
    destruct (Hsub (range_begin l)) as (r & Hr & Hb).
    { exists l. split; [done|lia]. }
    exists r. split; [done|]. unfold inside_range. breflect. split; [lia|].
    destruct (Z.le_gt_cases (range_end l) (range_end r)); [done|].
    destruct (canonical_succ _ r Hcr Hr). apply Hsub.
    exists l. split; [done|lia].
Qed.

Lemma ranges_add_assign_spec :
  canonical (ranges_add_assign left right) ∧
  ∀ x, rmem x (ranges_add_assign left right) ↔ rmem x left ∨ rmem x right.
Proof using Hleft Hright.
  unfold ranges_add_assign. rewrite coalesce_eq; cbn. rewrite app_nil_r.
  destruct (coalesce_ref_spec (left ++ right)) as [Hc Hm].
  { by apply Forall_app. }
  split; [done|]. intros x. by rewrite Hm, rmem_app.
Qed.

Lemma ranges_add_same : ranges_add left right = ranges_add_assign left right.
Proof using.
  unfold ranges_add, ranges_add_assign. rewrite !coalesce_eq. cbn.
  by rewrite !app_nil_r.
Qed.
End Specs.

Section Subtraction.
Context {T : Type} `{IntervalSetLaws T}.

Lemma rangesToIntervalSet_mem (rs : Ranges) (x : Z) :
  Forall range_wf rs → iset_mem x (rangesToIntervalSet rs : T) ↔ rmem x rs.
Proof.
  intros Hwf. unfold rangesToIntervalSet.
  enough (Hgen : ∀ s : T, iset_mem x (foldl (fun set range =>
      iset_add set (closed_interval range)) s rs) ↔ iset_mem x s ∨ rmem x rs).
  { rewrite Hgen. split; [intros [?%iset_mem_empty|]; done|auto]. }
  induction Hwf as [|r rs Hr Hrs IH]; intros s; cbn.
  - split; [auto|]. intros [?|?%rmem_nil]; done.
  - rewrite IH, iset_mem_add, rmem_cons. unfold closed_interval; cbn.
    rewrite range_wf_succ by done. intuition lia.
Qed.

Lemma intervalSetToRanges_spec (s : T) :
  (∀ x, iset_mem x s → 0 ≤ x < u64_max) →
  canonical (intervalSetToRanges s) ∧
  ∀ x, rmem x (intervalSetToRanges s) ↔ iset_mem x s.
Proof.
  intros Hb. unfold intervalSetToRanges.
  assert (Hint : ∀ i, i ∈ iset_intervals s →
    0 ≤ i.1 < i.2 ∧ i.2 ≤ u64_max ∧ u64_wrap (i.2 - 1) = i.2 - 1).
  { intros i Hi. pose proof (iset_nonempty s i Hi) as Hne.
    pose proof (Hb i.1 ltac:(exists i; split; [done|lia])).
    pose proof (Hb (i.2 - 1) ltac:(exists i; split; [done|lia])).
    repeat split; try lia. apply u64_wrap_small.
    unfold is_u64, u64_modulus, u64_max in *. lia. }
  split.
  - pose proof (iset_sorted s) as Hs. revert Hs Hint.
    generalize (iset_intervals s). clear Hb.
    induction 1 as [|i l Hs IH Hi]; intros Hint; cbn; [split; constructor|].
    apply canonical_cons. destruct (Hint i ltac:(left)) as (Hi1 & Hi2 & Hw).
    repeat split; cbn.
    + apply IH. intros j Hj. apply Hint. by right.
    + apply IH. intros j Hj. apply Hint. by right.
    + lia.
    + rewrite Hw. lia.
    + rewrite Hw. lia.
    + intros r (j & -> & Hj)%list_elem_of_fmap.
      rewrite Hw; cbn. rewrite Forall_forall in Hi. specialize (Hi j Hj). lia.
  - intros x. unfold rmem, iset_mem. split.
    + intros (r & Hr & Hx). apply list_elem_of_fmap in Hr as (i & -> & Hi).
      exists i. split; [done|]. destruct (Hint i Hi) as (_ & _ & Hw).
      cbn in Hx. rewrite Hw in Hx. lia.
    + intros (i & Hi & Hx). destruct (Hint i Hi) as (_ & _ & Hw).
      eexists. split; [apply list_elem_of_fmap; eauto|]. cbn. rewrite Hw. lia.
Qed.

Lemma rmem_bound (rs : Ranges) (x : Z) :
  Forall range_wf rs → rmem x rs → 0 ≤ x < u64_max.
Proof.
  intros Hwf (r & Hr & Hx). rewrite Forall_forall in Hwf.
  destruct (Hwf r Hr). lia.
Qed.

Lemma ranges_sub_assign_spec (left right : Ranges) :
  Forall range_wf left → Forall range_wf right →
  canonical (ranges_sub_assign (T:=T) left right) ∧
  ∀ x, rmem x (ranges_sub_assign (T:=T) left right) ↔
       rmem x left ∧ ¬ rmem x right.
Proof.
  intros Hl Hr. unfold ranges_sub_assign.
  assert (Hmem : ∀ x, iset_mem x (iset_diff (rangesToIntervalSet left)
             (rangesToIntervalSet right) : T) ↔ rmem x left ∧ ¬ rmem x right).
  { intros x. by rewrite iset_mem_diff, !rangesToIntervalSet_mem. }
  destruct (intervalSetToRanges_spec (iset_diff (rangesToIntervalSet left)
             (rangesToIntervalSet right) : T)) as [Hc Hm].
  { intros x [Hx _]%Hmem. by apply (rmem_bound left). }
  split; [done|]. intros x. by rewrite Hm, Hmem.
Qed.
End Subtraction.

(** ** Properties *)

(** C28: The in-place pass of [internal::coalesce] never fails its two
    [CHECK]s, and whatever the old contents of the result it computes the
    structural reference: sort, then merge neighbours. *)
Theorem coalesce_implements_reference (result : Ranges) (ranges : list Range) :
  coalesce_checked result ranges = Ok (coalesce_ref ranges).
Proof. apply coalesce_checked_ok. Qed.

(** [coalesce] returns the canonical list (sorted, disjoint, no two
    ranges adjacent) of exactly the numbers of the result and the added
    ranges, and is the only canonical list of that set. *)
Theorem coalesce_canonical (result : Ranges) (added : list Ranges) :
  Forall range_wf (result ++ concat added) →
  canonical (coalesce result added) ∧
  (∀ x, rmem x (coalesce result added) ↔ rmem x result ∨ rmem x (concat added)) ∧
  (∀ rs, canonical rs → (∀ x, rmem x rs ↔ rmem x result ∨ rmem x (concat added)) →
         rs = coalesce result added).
Proof.
  intros Hwf. rewrite coalesce_eq. destruct (coalesce_ref_spec _ Hwf) as [Hc Hm].
  setoid_rewrite rmem_app in Hm. split; [done|]. split; [done|].
  intros rs Hrs Heq. apply canonical_unique; [done|done|].
  intros x. by rewrite Heq, Hm.
Qed.

Lemma coalesce_canonical_witness :
  let result := [mkRange 31000 32000] in
  let added := [[mkRange 1 5; mkRange 6 9]; [mkRange 31500 33000]] in
  canonical (coalesce result added) ∧
  (∀ x, rmem x (coalesce result added) ↔ rmem x result ∨ rmem x (concat added)) ∧
  coalesce result added = [mkRange 1 9; mkRange 31000 33000].
Proof.
  intros result added.
  assert (Hwf : Forall range_wf (result ++ concat added)).
  { repeat constructor; unfold range_wf, u64_max; cbn; lia. }
  destruct (coalesce_canonical result added Hwf) as (Hc & Hm & _).
  split; [exact Hc|]. split; [exact Hm|]. vm_compute. reflexivity.
Defined.

(** [operator==] and [operator<=] on ranges decide equality and
    inclusion of the denoted sets of numbers, for any representation of them
    (unsorted, overlapping, split). *)
Theorem ranges_compare_sets (left right : Ranges) :
  Forall range_wf left → Forall range_wf right →
  (ranges_eq left right = true ↔ ∀ x, rmem x left ↔ rmem x right) ∧
  (ranges_le left right = true ↔ ∀ x, rmem x left → rmem x right).
Proof.
  intros Hl Hr. split; [by apply ranges_eq_iff|by apply ranges_le_iff].
Qed.

Lemma ranges_compare_sets_witness :
  let left := [mkRange 4 6; mkRange 1 3] in
  let right := [mkRange 1 6] in
  ranges_eq left right = true ∧
  (ranges_eq left right = true ↔ ∀ x, rmem x left ↔ rmem x right).
Proof.
  intros left right. split; [vm_compute; reflexivity|].
  apply (ranges_compare_sets left right);
    repeat constructor; unfold range_wf, u64_max; cbn; lia.
Defined.

(** [operator-] removes exactly the numbers of the right operand and
    leaves a canonical list, and adding them back restores the left operand
    when it contained them. *)
Theorem ranges_sub_difference {T : Type} `{IntervalSetLaws T} (left right : Ranges) :
  Forall range_wf left → Forall range_wf right →
  canonical (ranges_sub (T:=T) left right) ∧
  (∀ x, rmem x (ranges_sub (T:=T) left right) ↔ rmem x left ∧ ¬ rmem x right) ∧
  (ranges_le right left = true →
   ranges_eq (ranges_add (ranges_sub (T:=T) left right) right) left = true).
Proof.
  intros Hl Hr. unfold ranges_sub. rewrite coalesce_one.
  destruct (coalesce_ref_spec left Hl) as [Hc Hm].
  destruct (ranges_sub_assign_spec (T:=T) (coalesce_ref left) right) as [Hcs Hms];
    [by apply canonical_wf|done|].
  setoid_rewrite Hm in Hms. split; [done|]. split; [done|].
  intros Hle. rewrite ranges_le_iff in Hle by done. rewrite ranges_add_same.
  destruct (ranges_add_assign_spec _ right (canonical_wf _ Hcs) Hr) as [Hca Hma].
  apply ranges_eq_iff; [by apply canonical_wf|done|].
  intros x. rewrite Hma, Hms.
  destruct (rmem_dec x right); naive_solver.
Qed.

(** At the largest [uint64_t] the sum [current.end + 1] wraps to 0: a
    range that ends there is not merged with the ranges it contains, and
    [operator==] then tells two representations of one set apart. *)
Theorem coalesce_at_u64_max :
  let whole := [mkRange 0 u64_max] in
  let split_up := [mkRange 0 u64_max; mkRange 5 6] in
  (∀ x, rmem x whole ↔ rmem x split_up) ∧
  coalesce [] [split_up] = split_up ∧
  ranges_eq whole split_up = false.
Proof.
  intros whole split_up. split; [|split; vm_compute; reflexivity].
  intros x. unfold whole, split_up. rewrite !rmem_cons. cbn. unfold u64_max.
  pose proof (rmem_nil x). intuition lia.
Qed.
