(* ===== verification/IntervalSets.v ===== *)
(** * IntervalSets: a concrete [IntervalSet]

    The interface of Ranges.v is satisfiable: a finite set of integers, whose
    intervals are the maximal runs of consecutive elements, meets all its laws.
    The concrete inputs of the development use this instance. *)

From S2P Require Import Prelude Ranges.

(** The maximal runs of an increasing list, as right-open intervals. *)
Fixpoint runs (l : list Z) : list (Z * Z) :=
  match l with
  | [] => []
  | x :: l' =>
      match runs l' with
      | (a, b) :: rest =>
          if a =? x + 1 then (x, b) :: rest else (x, x + 1) :: (a, b) :: rest
      | [] => [(x, x + 1)]
      end
  end.

Definition sorted_elements (s : gset Z) : list Z := merge_sort Z.le (elements s).

#[export] Instance gset_interval_set : IntervalSet (gset Z) := {
  iset_empty := ∅;
  iset_add s i := s ∪ list_to_set (seqZ i.1 (i.2 - i.1));
  iset_diff s t := s ∖ t;
  iset_intervals s := runs (sorted_elements s) }.

Definition increasing : list Z → Prop := StronglySorted Z.lt.

Lemma runs_head (x : Z) (l : list Z) : ∃ b rest, runs (x :: l) = (x, b) :: rest.
Proof. cbn. destruct (runs l) as [|[a b] rest]; [eauto|]. case_if; eauto. Qed.

Lemma increasing_cons (x : Z) (l : list Z) :
  increasing (x :: l) ↔ increasing l ∧ ∀ y, y ∈ l → x < y.
Proof.
  unfold increasing. split.
  - inversion 1; subst. rewrite <-Forall_forall. auto.
  - intros [Hs Hl]. constructor; [done|]. by apply Forall_forall.
Qed.

(** What [runs] promises of an increasing list. *)
Definition runs_ok (l : list Z) (rs : list (Z * Z)) : Prop :=
  (∀ x, (∃ i, i ∈ rs ∧ i.1 ≤ x < i.2) ↔ x ∈ l) ∧
  (∀ i, i ∈ rs → i.1 < i.2 ∧ i.1 ∈ l) ∧
  StronglySorted (fun i j => i.2 < j.1) rs.

Lemma exists_cons {A : Type} (P : A → Prop) (x : A) (l : list A) :
  (∃ i, i ∈ x :: l ∧ P i) ↔ P x ∨ ∃ i, i ∈ l ∧ P i.
Proof.
  split.
  - intros (i & Hi & HP). apply elem_of_cons in Hi as [->|Hi]; eauto.
  - intros [HP|(i & Hi & HP)]; [exists x; split; [left|done]|].
    exists i. split; [by right|done].
Qed.

(** Extending the first run downwards. *)
Lemma runs_ok_extend (x b : Z) (l : list Z) (rest : list (Z * Z)) :
  runs_ok l ((x + 1, b) :: rest) → runs_ok (x :: l) ((x, b) :: rest).
Proof.
  intros (Hmem & Hne & Hs). destruct (Hne (x + 1, b) ltac:(left)) as [Hab _].
  cbn in Hab. split; [|split].
  - intros y. specialize (Hmem y). rewrite exists_cons in *; cbn in *.
    rewrite elem_of_cons, <-Hmem. intuition lia.
  - intros i. rewrite !elem_of_cons. intros [->|Hi]; cbn; [split; [lia|by left]|].
    destruct (Hne i); [by right|auto].
  - inversion Hs as [|? ? Hs' Hf]; subst. by constructor.
Qed.

(** Starting a new run below the first one. *)
Lemma runs_ok_new (x : Z) (l : list Z) (rs : list (Z * Z)) :
  runs_ok l rs → Forall (fun i => x + 1 < i.1) rs →
  runs_ok (x :: l) ((x, x + 1) :: rs).
Proof.
  intros (Hmem & Hne & Hs) Hgap. split; [|split].
  - intros y. specialize (Hmem y). rewrite exists_cons; cbn.
    rewrite elem_of_cons, <-Hmem. intuition lia.
  - intros i. rewrite !elem_of_cons. intros [->|Hi]; cbn; [split; [lia|by left]|].
    destruct (Hne i Hi); auto.
  - by constructor.
Qed.

Lemma runs_spec (l : list Z) : increasing l → runs_ok l (runs l).
Proof.
  induction l as [|x l IH]; intros Hl.
  { split; [set_solver|]. split; [set_solver|constructor]. }
  apply increasing_cons in Hl as [Hl Hx]. pose proof (IH Hl) as Hok. cbn [runs].
  destruct (runs l) as [|[a b] rest]; [by apply runs_ok_new|].
  pose proof Hok as (_ & Hne & Hs).
  destruct (Z.eqb_spec a (x + 1)) as [->|Hgap]; [by apply runs_ok_extend|].
  apply runs_ok_new; [done|].
  destruct (Hne (a, b) ltac:(left)) as [Hab Hal]. cbn in Hab, Hal. specialize (Hx a Hal).
  inversion Hs as [|? ? _ Hf]; subst. constructor; [cbn; lia|].
  eapply Forall_impl; [exact Hf|]. cbn. lia.
Qed.

Lemma sorted_elements_spec (s : gset Z) :
  increasing (sorted_elements s) ∧ ∀ x, x ∈ sorted_elements s ↔ x ∈ s.
Proof.
  unfold sorted_elements. split.
  - assert (Hs : StronglySorted Z.le (merge_sort Z.le (elements s)))
      by (apply StronglySorted_merge_sort; apply _).
    assert (Hd : NoDup (merge_sort Z.le (elements s)))
      by (rewrite merge_sort_Permutation; apply NoDup_elements).
    revert Hs Hd. generalize (merge_sort Z.le (elements s)).
    induction 1 as [|x l Hs IH Hx]; intros Hd; [constructor|].
    apply NoDup_cons in Hd as [Hnin Hd]. apply increasing_cons.
    split; [by apply IH|]. intros y Hy. rewrite Forall_forall in Hx.
    specialize (Hx y Hy). assert (x ≠ y) by (intros ->; done). lia.
  - intros x. rewrite merge_sort_Permutation. apply elem_of_elements.
Qed.

Lemma gset_iset_mem (x : Z) (s : gset Z) : iset_mem x s ↔ x ∈ s.
Proof.
  destruct (sorted_elements_spec s) as [Hi Hm].
  unfold iset_mem; cbn. rewrite (proj1 (runs_spec _ Hi) x). apply Hm.
Qed.

#[export] Instance gset_interval_set_laws : IntervalSetLaws (gset Z).
Proof.
  split; intros.
  - rewrite gset_iset_mem; cbn. set_solver.
  - rewrite !gset_iset_mem; cbn.
    rewrite elem_of_union, elem_of_list_to_set, elem_of_seqZ. intuition lia.
  - rewrite !gset_iset_mem; cbn. by rewrite elem_of_difference.
  - destruct (sorted_elements_spec s) as [Hi _]. by apply (runs_spec _ Hi).
  - destruct (sorted_elements_spec s) as [Hi _]. by apply (runs_spec _ Hi).
Qed.

Definition gset_icl : Icl := {| icl_T := gset Z |}.
Lemma gset_icl_laws : @IclLaws gset_icl.
Proof. exact gset_interval_set_laws. Qed.

Lemma ranges_sub_difference_witness :
  let left := [mkRange 31 32; mkRange 1 10] in
  let right := [mkRange 4 5] in
  ranges_sub (T:=gset Z) left right = [mkRange 1 3; mkRange 6 10; mkRange 31 32] ∧
  canonical (ranges_sub (T:=gset Z) left right) ∧
  ranges_eq (ranges_add (ranges_sub (T:=gset Z) left right) right) left = true.
Proof.
  intros left right.
  destruct (ranges_sub_difference (T:=gset Z) left right) as (Hc & _ & Hadd);
    [repeat constructor; unfold range_wf, u64_max; cbn; lia..|].
  split; [vm_compute; reflexivity|]. split; [exact Hc|].
  apply Hadd. vm_compute. reflexivity.
Defined.
