(* ===== verification/StoutStrings.v ===== *)
(** * StoutStrings: stout's strings.hpp

    The string helpers the library is built on.  A [std::string] is a
    [string]; a position that is [npos] in the source is [None].  The loops
    of [tokenize], [split] and [replace] scan with an offset as in the source,
    with the number of iterations bounded by the length of the text plus one;
    the lemmas show that the bound is never reached, by proving the loops equal
    to structural reference functions. *)

From S2P Require Import Prelude.
From Stdlib Require Export Ascii.
#[global] Open Scope string_scope.
#[global] Arguments String.append !_ _ : simpl nomatch.
#[global] Open Scope Z_scope.

(** ** [std::string] *)

Fixpoint str_drop (n : nat) (s : string) : string :=
  match n, s with
  | O, _ => s
  | S _, "" => ""
  | S n', String _ s' => str_drop n' s'
  end.

Fixpoint str_take (n : nat) (s : string) : string :=
  match n, s with
  | O, _ => ""
  | S _, "" => ""
  | S n', String c s' => String c (str_take n' s')
  end.

(** [s.substr(pos)], [s.substr(pos, len)]; every call has [pos <= s.size()]. *)
Definition substr_from (s : string) (pos : nat) : string := str_drop pos s.
Definition substr (s : string) (pos len : nat) : string := str_take len (str_drop pos s).

Definition str_empty (s : string) : bool := match s with "" => true | _ => false end.

Fixpoint find_char (p : ascii → bool) (s : string) : option nat :=
  match s with
  | "" => None
  | String c s' => if p c then Some O else S <$> find_char p s'
  end.

Fixpoint rfind_char (p : ascii → bool) (s : string) : option nat :=
  match s with
  | "" => None
  | String c s' =>
      match rfind_char p s' with
      | Some i => Some (S i)
      | None => if p c then Some O else None
      end
  end.

Fixpoint mem_char (c : ascii) (chars : string) : bool :=
  match chars with
  | "" => false
  | String d chars' => Ascii.eqb c d || mem_char c chars'
  end.

Definition find_first_of (s chars : string) (offset : nat) : option nat :=
  Nat.add offset <$> find_char (fun c => mem_char c chars) (str_drop offset s).
Definition find_first_not_of (s chars : string) (offset : nat) : option nat :=
  Nat.add offset <$> find_char (fun c => negb (mem_char c chars)) (str_drop offset s).
Definition find_last_of (s chars : string) : option nat :=
  rfind_char (fun c => mem_char c chars) s.
Definition find_last_not_of (s chars : string) : option nat :=
  rfind_char (fun c => negb (mem_char c chars)) s.

(** [s.find(sub)], [s.find(sub, pos)] *)
Fixpoint find_sub (sub s : string) : option nat :=
  if String.prefix sub s then Some O
  else match s with
       | "" => None
       | String _ s' => S <$> find_sub sub s'
       end.
Definition find_str (s sub : string) (pos : nat) : option nat :=
  if (pos <=? String.length s)%nat
  then Nat.add pos <$> find_sub sub (str_drop pos s) else None.

(** ** The helpers *)

Definition WHITESPACE : string :=
  String " " (String "009" (String "010" (String "013" ""))).

Inductive Mode := PREFIX | SUFFIX | ANY.

Definition trim (from : string) (mode : Mode) (chars : string) : string :=
  let start :=
    match mode with
    | ANY | PREFIX => find_first_not_of from chars 0
    | SUFFIX => Some O
    end in
  let end_ :=
    match mode with
    | ANY | SUFFIX => find_last_not_of from chars
    | PREFIX => None
    end in
  match start with
  | None => ""
  | Some start =>
      match end_ with
      | Some e => substr from start (e + 1 - start)
      | None => substr_from from start
      end
  end.

Definition str_replace (s : string) (index len : nat) (to : string) : string :=
  str_take index s ++ to ++ str_drop (index + len) s.

Fixpoint replace_loop (fuel : nat) (result from to : string) (index : nat) : string :=
  match fuel with
  | O => result
  | S fuel' =>
      match find_str result from index with
      | None => result
      | Some index =>
          replace_loop fuel' (str_replace result index (String.length from) to)
            from to (index + String.length to)
      end
  end.

Definition replace (s from to : string) : string :=
  if str_empty from then s
  else replace_loop (S (String.length s)) s from to 0.

Definition limit_reached (maxTokens : option nat) (tokens : list string) : bool :=
  match maxTokens with
  | Some m => (length tokens =? m - 1)%nat
  | None => false
  end.

Fixpoint tokenize_loop (fuel : nat) (s delims : string) (maxTokens : option nat)
    (tokens : list string) (offset : nat) : list string :=
  match fuel with
  | O => tokens
  | S fuel' =>
      match find_first_not_of s delims offset with
      | None => tokens
      | Some nonDelim =>
          match find_first_of s delims nonDelim with
          | None => tokens ++ [substr_from s nonDelim]
          | Some delim =>
              if limit_reached maxTokens tokens
              then tokens ++ [substr_from s nonDelim]
              else tokenize_loop fuel' s delims maxTokens
                     (tokens ++ [substr s nonDelim (delim - nonDelim)]) delim
          end
      end
  end%list.

Definition tokenize (s delims : string) (maxTokens : option nat) : list string :=
  match maxTokens with
  | Some O => []
  | _ => tokenize_loop (S (String.length s)) s delims maxTokens [] 0
  end.

Fixpoint split_loop (fuel : nat) (s delims : string) (maxTokens : option nat)
    (tokens : list string) (offset : nat) : list string :=
  match fuel with
  | O => tokens
  | S fuel' =>
      match find_first_of s delims offset with
      | None => tokens ++ [substr_from s offset]
      | Some next =>
          if limit_reached maxTokens tokens
          then tokens ++ [substr_from s offset]
          else split_loop fuel' s delims maxTokens
                 (tokens ++ [substr s offset (next - offset)]) (next + 1)
      end
  end%list.

Definition split (s delims : string) (maxTokens : option nat) : list string :=
  match maxTokens with
  | Some O => []
  | _ => split_loop (S (String.length s)) s delims maxTokens [] 0
  end.

Fixpoint brackets_loop (s : string) (openBracket closeBracket : ascii) (count : Z)
    : bool :=
  match s with
  | "" => count =? 0
  | String c s' =>
      let count :=
        if Ascii.eqb c openBracket then count + 1
        else if Ascii.eqb c closeBracket then count - 1 else count in
      if count <? 0 then false
      else brackets_loop s' openBracket closeBracket count
  end.

Definition checkBracketsMatching (s : string) (openBracket closeBracket : ascii) : bool :=
  brackets_loop s openBracket closeBracket 0.

Definition startsWith (s p : string) : bool := String.prefix p s.
Definition startsWith_char (s : string) (c : ascii) : bool :=
  match s with "" => false | String d _ => Ascii.eqb d c end.

Fixpoint str_back (s : string) : option ascii :=
  match s with
  | "" => None
  | String c "" => Some c
  | String _ s' => str_back s'
  end.

Definition endsWith (s suffix : string) : bool :=
  (String.length suffix <=? String.length s)%nat &&
  String.eqb (str_drop (String.length s - String.length suffix) s) suffix.
Definition endsWith_char (s : string) (c : ascii) : bool :=
  match str_back s with None => false | Some d => Ascii.eqb d c end.

Definition contains (s sub : string) : bool := has (find_str s sub 0).

(** ** Reference functions *)

(** The text is over or goes on with a delimiter. *)
Definition ends_here (p : ascii → bool) (s : string) : bool :=
  match s with "" => true | String d _ => p d end.

(** The maximal runs of characters that are no delimiters. *)
Fixpoint words (p : ascii → bool) (s : string) : list string :=
  match s with
  | "" => []
  | String c s' =>
      if p c then words p s'
      else if ends_here p s' then String c "" :: words p s'
      else match words p s' with
           | w :: ws => String c w :: ws
           | [] => [String c ""]
           end
  end.

(** The fields between delimiters, empty ones included. *)
Fixpoint fields (p : ascii → bool) (s : string) : list string :=
  match s with
  | "" => [""]
  | String c s' =>
      if p c then "" :: fields p s'
      else match fields p s' with
           | w :: ws => String c w :: ws
           | [] => [String c ""]
           end
  end.

Fixpoint str_filter (p : ascii → bool) (s : string) : string :=
  match s with
  | "" => ""
  | String c s' => if p c then String c (str_filter p s') else str_filter p s'
  end.

Fixpoint str_all (p : ascii → bool) (s : string) : bool :=
  match s with
  | "" => true
  | String c s' => p c && str_all p s'
  end.

Fixpoint str_concat (l : list string) : string :=
  match l with
  | [] => ""
  | s :: l' => s ++ str_concat l'
  end.

(** ** Lemmas on positions *)

Lemma str_drop_drop (m n : nat) (s : string) :
  str_drop m (str_drop n s) = str_drop (n + m) s.
Proof.
  revert s. induction n as [|n IH]; intros s; [done|].
  destruct s as [|c s]; cbn; [by destruct m|apply IH].
Qed.

Lemma length_str_drop (n : nat) (s : string) :
  String.length (str_drop n s) = (String.length s - n)%nat.
Proof.
  revert s. induction n as [|n IH]; intros s; [cbn; lia|].
  destruct s as [|c s]; cbn; [lia|apply IH].
Qed.

Lemma str_take_drop (n : nat) (s : string) : str_take n s ++ str_drop n s = s.
Proof.
  revert s. induction n as [|n IH]; intros [|c s]; cbn; [done..|by rewrite IH].
Qed.

Lemma str_app_assoc (a b c : string) : (a ++ b) ++ c = a ++ b ++ c.
Proof. induction a as [|x a IH]; cbn; [done|by rewrite IH]. Qed.

Lemma str_app_nil (a : string) : a ++ "" = a.
Proof. induction a as [|x a IH]; cbn; [done|by rewrite IH]. Qed.

Lemma str_length_app (a b : string) :
  String.length (a ++ b) = (String.length a + String.length b)%nat.
Proof. induction a as [|x a IH]; cbn; [done|by rewrite IH]. Qed.

Lemma str_drop_app (a b : string) : str_drop (String.length a) (a ++ b) = b.
Proof. induction a as [|x a IH]; cbn; [done|exact IH]. Qed.

Lemma str_take_app (a b : string) : str_take (String.length a) (a ++ b) = a.
Proof. induction a as [|x a IH]; cbn; [done|by rewrite IH]. Qed.

Lemma str_all_app (p : ascii → bool) (a b : string) :
  str_all p (a ++ b) = str_all p a && str_all p b.
Proof. induction a as [|x a IH]; cbn; [done|by rewrite IH, andb_assoc]. Qed.

Lemma str_filter_app (p : ascii → bool) (a b : string) :
  str_filter p (a ++ b) = str_filter p a ++ str_filter p b.
Proof. induction a as [|x a IH]; cbn; [done|]. rewrite IH. by destruct (p x). Qed.

#[export] Hint Rewrite str_app_assoc str_app_nil str_length_app str_drop_app
  str_take_app str_all_app str_filter_app str_drop_drop length_str_drop : urb_str.

(** What a search returns: the text splits into a prefix without a hit, the
    hit, and the rest. *)
Lemma find_char_Some (p : ascii → bool) (s : string) (i : nat) :
  find_char p s = Some i →
  ∃ a c b, s = a ++ String c b ∧ String.length a = i ∧
           str_all (fun x => negb (p x)) a = true ∧ p c = true.
Proof.
  revert i. induction s as [|c s IH]; intros i; cbn; [done|].
  destruct (p c) eqn:Hc.
  - intros [= <-]. by exists "", c, s.
  - destruct (find_char p s) as [j|]; [|done]. intros [= <-].
    destruct (IH j eq_refl) as (a & d & b & -> & Hl & Ha & Hd).
    exists (String c a), d, b. cbn. by rewrite Hc, Hl, Ha.
Qed.

Lemma find_char_None (p : ascii → bool) (s : string) :
  find_char p s = None → str_all (fun x => negb (p x)) s = true.
Proof.
  induction s as [|c s IH]; cbn; [done|].
  destruct (p c); [done|]. destruct (find_char p s); [done|]. auto.
Qed.

Lemma find_char_absent (p : ascii → bool) (s : string) :
  str_all (fun x => negb (p x)) s = true → find_char p s = None.
Proof.
  induction s as [|c s IH]; cbn; [done|].
  intros [->%negb_true_iff Hs]%andb_true_iff. by rewrite IH.
Qed.

(** ** [words] and [fields] on a split text *)

Lemma words_skip (p : ascii → bool) (a b : string) :
  str_all p a = true → words p (a ++ b) = words p b.
Proof.
  induction a as [|c a IH]; cbn; [done|].
  intros [-> Ha]%andb_true_iff. auto.
Qed.

(** A maximal token followed by the end of the text or by a delimiter. *)
Lemma words_token (p : ascii → bool) (a b : string) :
  a ≠ "" → str_all (fun x => negb (p x)) a = true → ends_here p b = true →
  words p (a ++ b) = a :: words p b.
Proof.
  intros Hne Ha Hb. induction a as [|c a IH]; [done|]. clear Hne.
  cbn in Ha. apply andb_true_iff in Ha as [Hc%negb_true_iff Ha].
  cbn. rewrite Hc. destruct a as [|d a]; [cbn; by rewrite Hb|].
  rewrite IH by done. cbn in *.
  by apply andb_true_iff in Ha as [->%negb_true_iff _].
Qed.

Lemma fields_token (p : ascii → bool) (a b : string) (d : ascii) :
  str_all (fun x => negb (p x)) a = true → p d = true →
  fields p (a ++ String d b) = a :: fields p b.
Proof.
  intros Ha Hd. induction a as [|c a IH]; cbn; [by rewrite Hd|].
  cbn in Ha. apply andb_true_iff in Ha as [Hc%negb_true_iff Ha].
  by rewrite Hc, IH.
Qed.

Lemma fields_last (p : ascii → bool) (a : string) :
  str_all (fun x => negb (p x)) a = true → fields p a = [a].
Proof.
  induction a as [|c a IH]; cbn; [done|].
  intros [Hc%negb_true_iff Ha]%andb_true_iff. by rewrite Hc, IH.
Qed.

Lemma words_all (p : ascii → bool) (s : string) :
  str_all p s = true → words p s = [].
Proof. intros Hs. by rewrite <-(str_app_nil s), words_skip. Qed.

Lemma str_all_ext (p q : ascii → bool) (s : string) :
  (∀ c, p c = q c) → str_all p s = str_all q s.
Proof. intros Heq. induction s as [|c s IH]; cbn; [done|by rewrite Heq, IH]. Qed.

Lemma str_all_impl (p q : ascii → bool) (s : string) :
  (∀ c, p c = true → q c = true) → str_all p s = true → str_all q s = true.
Proof.
  intros Hpq. induction s as [|c s IH]; cbn; [done|].
  intros [Hc Hs]%andb_true_iff. by rewrite Hpq, IH.
Qed.

(** ** The loops compute the reference functions *)

Lemma has_find_char (p : ascii → bool) (s : string) :
  has (find_char p s) = negb (str_all (fun x => negb (p x)) s).
Proof.
  induction s as [|c s IH]; cbn; [done|].
  destruct (p c); [done|]. cbn. rewrite <-IH. by destruct (find_char p s).
Qed.

Section Scanning.
Context (delims : string).
Let p (c : ascii) : bool := mem_char c delims.

(** The scan of a text that is over: only delimiters are left. *)
Lemma find_first_not_of_None (s : string) (offset : nat) :
  find_first_not_of s delims offset = None → words p (str_drop offset s) = [].
Proof.
  unfold find_first_not_of. destruct (find_char _ _) eqn:E; [done|]. intros _.
  apply words_all. apply find_char_None in E. rewrite <-E.
  apply str_all_ext. intros c. by rewrite negb_involutive.
Qed.

(** A hit skips delimiters only, and stands at no delimiter. *)
Lemma find_first_not_of_Some (s : string) (offset i : nat) :
  find_first_not_of s delims offset = Some i →
  ∃ c b, str_drop i s = String c b ∧ p c = false ∧ (offset ≤ i)%nat ∧
         words p (str_drop offset s) = words p (String c b).
Proof.
  unfold find_first_not_of. destruct (find_char _ _) as [j|] eqn:E; [|done].
  intros [= <-]. apply find_char_Some in E as (a & c & b & Hs & Hl & Ha & Hc).
  exists c, b. apply negb_true_iff in Hc. split; [|split; [done|split; [lia|]]].
  - by rewrite <-str_drop_drop, Hs, <-Hl, str_drop_app.
  - rewrite Hs. apply words_skip. rewrite <-Ha.
    apply str_all_ext. intros x. by rewrite negb_involutive.
Qed.

Lemma find_first_of_None (s : string) (offset : nat) :
  find_first_of s delims offset = None →
  str_all (fun c => negb (p c)) (str_drop offset s) = true.
Proof.
  unfold find_first_of. destruct (find_char _ _) eqn:E; [done|]. intros _.
  by apply find_char_None.
Qed.

Lemma find_first_of_Some (s : string) (offset i : nat) :
  find_first_of s delims offset = Some i →
  ∃ a d b, str_drop offset s = a ++ String d b ∧ p d = true ∧
           str_all (fun c => negb (p c)) a = true ∧
           i = (offset + String.length a)%nat ∧ str_drop i s = String d b.
Proof.
  unfold find_first_of. destruct (find_char _ _) as [j|] eqn:E; [|done].
  intros [= <-]. apply find_char_Some in E as (a & d & b & Hs & Hl & Ha & Hd).
  exists a, d, b. do 4 (split; [done || by rewrite Hl|]).
  by rewrite <-str_drop_drop, Hs, <-Hl, str_drop_app.
Qed.

Lemma tokenize_loop_words (fuel : nat) (s : string) (tokens : list string) (offset : nat) :
  (String.length s - offset < fuel)%nat →
  tokenize_loop fuel s delims None tokens offset
  = (tokens ++ words p (str_drop offset s))%list.
Proof.
  revert tokens offset. induction fuel as [|fuel IH]; intros tokens offset Hf; [lia|].
  cbn [tokenize_loop limit_reached].
  destruct (find_first_not_of s delims offset) as [i|] eqn:Ei.
  - apply find_first_not_of_Some in Ei as (c & b & Hi & Hc & Hle & ->).
    rewrite <-Hi. destruct (find_first_of s delims i) as [j|] eqn:Ej.
    + apply find_first_of_Some in Ej as (a & d & b' & Ha & Hd & Hall & -> & Hj).
      assert (Hne : a ≠ "").
      { intros ->. rewrite Hi in Ha. cbn in Ha. injection Ha as -> _. congruence. }
      assert (Hlen : (0 < String.length a)%nat) by (destruct a; cbn; [done|lia]).
      assert (Hpos : (i < String.length s)%nat).
      { pose proof (length_str_drop i s) as H. rewrite Hi in H. cbn in H. lia. }
      rewrite IH by lia. rewrite Hj, Ha, words_token by done.
      unfold substr. replace (i + String.length a - i)%nat with (String.length a) by lia.
      by rewrite Ha, str_take_app, <-app_assoc.
    + apply find_first_of_None in Ej. unfold substr_from. f_equal.
      rewrite <-(str_app_nil (str_drop i s)) at 2.
      rewrite words_token; [done|by rewrite Hi|done|done].
  - rewrite find_first_not_of_None by done. by rewrite app_nil_r.
Qed.

Lemma split_loop_fields (fuel : nat) (s : string) (tokens : list string) (offset : nat) :
  (String.length s - offset < fuel)%nat →
  split_loop fuel s delims None tokens offset
  = (tokens ++ fields p (str_drop offset s))%list.
Proof.
  revert tokens offset. induction fuel as [|fuel IH]; intros tokens offset Hf; [lia|].
  cbn [split_loop limit_reached].
  destruct (find_first_of s delims offset) as [j|] eqn:Ej.
  - apply find_first_of_Some in Ej as (a & d & b & Ha & Hd & Hall & -> & Hj).
    assert (Hpos : (offset + String.length a < String.length s)%nat).
    { pose proof (length_str_drop (offset + String.length a) s) as H.
      rewrite Hj in H. cbn in H. lia. }
    rewrite IH by lia. rewrite <-str_drop_drop, Hj, Ha, fields_token by done.
    unfold substr.
    replace (offset + String.length a - offset)%nat with (String.length a) by lia.
    by rewrite Ha, str_take_app, <-app_assoc.
  - apply find_first_of_None in Ej. unfold substr_from. by rewrite fields_last.
Qed.

Lemma tokenize_words (s : string) : tokenize s delims None = words p s.
Proof. unfold tokenize. by rewrite tokenize_loop_words by lia. Qed.

Lemma split_fields (s : string) : split s delims None = fields p s.
Proof. unfold split. by rewrite split_loop_fields by lia. Qed.

(** Splitting in two: at the first delimiter, if any. *)
Lemma split_two (s : string) :
  split s delims (Some 2%nat) =
  match find_char p s with
  | Some i => [str_take i s; str_drop (S i) s]
  | None => [s]
  end.
Proof.
  unfold split. cbn [split_loop limit_reached length Nat.eqb Nat.sub].
  unfold find_first_of at 1. cbn [str_drop]. fold p.
  destruct (find_char p s) as [i|] eqn:E; [|done]. cbn [fmap option_fmap option_map].
  apply find_char_Some in E as (a & d & b & -> & <- & _ & _).
  rewrite str_length_app. cbn [String.length]. rewrite Nat.add_succ_r.
  cbn [split_loop limit_reached length app Nat.eqb Nat.sub].
  unfold substr_from, substr. rewrite Nat.add_0_l, Nat.sub_0_r, Nat.add_1_r.
  by destruct (find_first_of _ _ _).
Qed.
End Scanning.

#[export] Hint Rewrite tokenize_words split_fields : urb_str.

(** ** What [words] returns *)

Lemma words_tokens (p : ascii → bool) (s : string) :
  Forall (fun w => w ≠ "" ∧ str_all (fun c => negb (p c)) w = true) (words p s).
Proof.
  induction s as [|c s IH]; cbn; [constructor|]. destruct (p c) eqn:Hc; [done|].
  assert (Hsing : ∀ w, str_all (fun c => negb (p c)) w = true →
    String c w ≠ "" ∧ str_all (fun c => negb (p c)) (String c w) = true).
  { intros w Hw. split; [done|]. cbn. by rewrite Hc, Hw. }
  destruct (ends_here p s); [constructor; auto|].
  destruct (words p s) as [|w ws]; [by constructor; auto|].
  inversion IH as [|? ? [_ Hw] Hws]; subst. constructor; auto.
Qed.

Lemma words_concat (p : ascii → bool) (s : string) :
  str_concat (words p s) = str_filter (fun c => negb (p c)) s.
Proof.
  induction s as [|c s IH]; cbn; [done|]. rewrite <-IH.
  destruct (p c); cbn; [done|]. destruct (ends_here p s); [done|].
  by destruct (words p s).
Qed.

(** Joining with a separator, as a list is written in a configuration. *)
Fixpoint str_join (sep : string) (l : list string) : string :=
  match l with
  | [] => ""
  | [s] => s
  | s :: l' => s ++ sep ++ str_join sep l'
  end.

Lemma str_join_cons (sep s t : string) (l : list string) :
  str_join sep (s :: t :: l) = s ++ sep ++ str_join sep (t :: l).
Proof. done. Qed.

Lemma words_join (p : ascii → bool) (d : ascii) (l : list string) :
  p d = true →
  Forall (fun w => w ≠ "" ∧ str_all (fun c => negb (p c)) w = true) l →
  words p (str_join (String d "") l) = l.
Proof.
  intros Hd. induction 1 as [|w l [Hne Hw] Hl IH]; [done|].
  destruct l as [|w' l]; cbn [str_join].
  - rewrite <-(str_app_nil w) at 1. by rewrite words_token.
  - rewrite words_token; [|done|done|exact Hd]. f_equal.
    by rewrite words_skip; [|cbn; rewrite Hd].
Qed.

Lemma fields_join (p : ascii → bool) (d : ascii) (l : list string) :
  p d = true → l ≠ [] →
  Forall (fun w => str_all (fun c => negb (p c)) w = true) l →
  fields p (str_join (String d "") l) = l.
Proof.
  intros Hd Hne. induction 1 as [|w l Hw Hl IH]; [done|].
  destruct l as [|w' l]; cbn [str_join]; [by rewrite fields_last|].
  cbn [String.append]. rewrite fields_token by done. f_equal. by apply IH.
Qed.

(** A delimiter at the end changes nothing. *)
Lemma words_snoc (p : ascii → bool) (s : string) (d : ascii) :
  p d = true → words p (s ++ String d "") = words p s.
Proof.
  intros Hd. induction s as [|c s IH]; cbn; [by rewrite Hd|]. rewrite IH.
  replace (ends_here p (s ++ String d "")) with (ends_here p s); [done|].
  by destruct s; cbn.
Qed.

(** ** [replace] of one character *)

Fixpoint subst_char (c : ascii) (to s : string) : string :=
  match s with
  | "" => ""
  | String d s' => if Ascii.eqb c d then to ++ subst_char c to s'
                   else String d (subst_char c to s')
  end.

Lemma prefix_char (c d : ascii) (s : string) :
  String.prefix (String c "") (String d s) = Ascii.eqb c d.
Proof.
  cbn. destruct (ascii_dec c d) as [->|Hne]; [rewrite Ascii.eqb_refl; by destruct s|].
  symmetry. by apply Ascii.eqb_neq.
Qed.

Lemma find_sub_char (c : ascii) (s : string) :
  find_sub (String c "") s = find_char (Ascii.eqb c) s.
Proof.
  induction s as [|d s IH]; [done|]. cbn [find_sub find_char].
  by rewrite prefix_char, IH.
Qed.

Lemma subst_char_app (c : ascii) (to a b : string) :
  str_all (fun x => negb (Ascii.eqb c x)) a = true →
  subst_char c to (a ++ b) = a ++ subst_char c to b.
Proof.
  induction a as [|x a IH]; cbn; [done|].
  intros [->%negb_true_iff Ha]%andb_true_iff. by rewrite IH.
Qed.

Lemma replace_loop_char (fuel : nat) (c : ascii) (to before rest : string) :
  (String.length rest < fuel)%nat →
  replace_loop fuel (before ++ rest) (String c "") to (String.length before)
  = before ++ subst_char c to rest.
Proof.
  revert before rest. induction fuel as [|fuel IH]; intros before rest Hf; [lia|].
  cbn [replace_loop]. unfold find_str.
  rewrite (proj2 (Nat.leb_le _ _)) by (rewrite str_length_app; lia).
  rewrite str_drop_app, find_sub_char.
  destruct (find_char _ rest) as [i|] eqn:E; cbn [fmap option_fmap option_map].
  - apply find_char_Some in E as (a & d & b & -> & <- & Ha & Hd).
    apply Ascii.eqb_eq in Hd as <-. rewrite subst_char_app by done. cbn [subst_char].
    rewrite Ascii.eqb_refl. unfold str_replace. cbn [String.length].
    rewrite <-str_length_app, <-(str_app_assoc before a (String c b)).
    rewrite str_take_app, <-str_drop_drop, str_drop_app. cbn [str_drop].
    rewrite <-str_length_app, <-str_app_assoc, IH.
    + by rewrite !str_app_assoc.
    + rewrite str_length_app in Hf. cbn in Hf. lia.
  - apply find_char_None in E.
    rewrite <-(str_app_nil rest) at 2. by rewrite subst_char_app, str_app_nil.
Qed.

Lemma replace_char (c : ascii) (to s : string) :
  replace s (String c "") to = subst_char c to s.
Proof. apply (replace_loop_char _ c to ""). lia. Qed.

Lemma subst_char_remove (c : ascii) (s : string) :
  subst_char c "" s = str_filter (fun x => negb (Ascii.eqb c x)) s.
Proof.
  induction s as [|d s IH]; cbn; [done|]. rewrite IH. by destruct (Ascii.eqb c d).
Qed.

(** ** [trim] *)

Lemma rfind_char_app (p : ascii → bool) (a b : string) (i : nat) :
  rfind_char p b = Some i → rfind_char p (a ++ b) = Some (String.length a + i)%nat.
Proof. intros Hb. induction a as [|c a IH]; cbn; [done|by rewrite IH]. Qed.

Lemma rfind_char_None (p : ascii → bool) (s : string) :
  rfind_char p s = None → str_all (fun x => negb (p x)) s = true.
Proof.
  induction s as [|c s IH]; cbn; [done|].
  destruct (rfind_char p s); [done|]. destruct (p c); [done|]. auto.
Qed.

Lemma rfind_char_Some (p : ascii → bool) (s : string) (i : nat) :
  rfind_char p s = Some i →
  ∃ a c b, s = a ++ String c b ∧ String.length a = i ∧ p c = true ∧
           str_all (fun x => negb (p x)) b = true.
Proof.
  revert i. induction s as [|c s IH]; intros i; cbn; [done|].
  destruct (rfind_char p s) as [j|] eqn:E.
  - intros [= <-]. destruct (IH j eq_refl) as (a & d & b & -> & Hl & Hd & Hb).
    exists (String c a), d, b. cbn. by rewrite Hl.
  - destruct (p c) eqn:Hc; [|done]. intros [= <-].
    exists "", c, s. split; [done|]. split; [done|]. split; [done|].
    by apply rfind_char_None.
Qed.

Lemma str_take_snoc (a : string) (d : ascii) (b : string) :
  str_take (String.length a + 1) (a ++ String d b) = a ++ String d "".
Proof. induction a as [|c a IH]; cbn; [done|by rewrite IH]. Qed.

Lemma str_back_snoc (a : string) (d : ascii) : str_back (a ++ String d "") = Some d.
Proof.
  induction a as [|c a IH]; cbn; [done|].
  destruct (a ++ String d "") eqn:E; [by destruct a|]. done.
Qed.

(** What trimming leaves: a text that is empty or starts and ends outside
    [chars]. *)
Definition trimmed (chars s : string) : Prop :=
  s = "" ∨ ∃ c t d, s = String c t ∧ str_back s = Some d ∧
                    mem_char c chars = false ∧ mem_char d chars = false.

Lemma trim_any_spec (s chars : string) :
  ∃ a b, s = a ++ trim s ANY chars ++ b ∧ trimmed chars (trim s ANY chars) ∧
         str_all (fun c => mem_char c chars) (a ++ b) = true.
Proof.
  set (q := fun c => negb (mem_char c chars)).
  assert (Hq : ∀ t, str_all (fun x => negb (q x)) t = str_all (fun c => mem_char c chars) t).
  { intros t. apply str_all_ext. intros c. apply negb_involutive. }
  unfold trim, find_first_not_of, find_last_not_of. cbn [str_drop]. fold q.
  destruct (find_char q s) as [i|] eqn:E; cbn [fmap option_fmap option_map].
  - apply find_char_Some in E as (a & c & t & -> & <- & Ha & Hc).
    destruct (rfind_char q (String c t)) as [j|] eqn:Er.
    2:{ apply rfind_char_None in Er. cbn in Er. by rewrite Hc in Er. }
    rewrite (rfind_char_app _ _ _ _ Er).
    apply rfind_char_Some in Er as (a' & d & b & Ht & <- & Hd & Hb).
    unfold substr. rewrite Nat.add_0_l, str_drop_app.
    replace (_ + 1 - _)%nat with (String.length a' + 1)%nat by lia.
    rewrite Ht, str_take_snoc. exists a, b. split; [by rewrite str_app_assoc|].
    split; [|by rewrite str_all_app, <-!Hq, Ha].
    apply negb_true_iff in Hc, Hd. right. rewrite str_back_snoc.
    destruct a' as [|x a']; cbn in Ht; injection Ht as -> ->.
    + by exists d, "", d.
    + by exists x, (a' ++ String d ""), d.
  - apply find_char_None in E. rewrite Hq in E. exists s, "". cbn.
    rewrite !str_app_nil. split; [done|]. split; [by left|done].
Qed.

Lemma str_back_app (a b : string) : b ≠ "" → str_back (a ++ b) = str_back b.
Proof.
  intros Hb. induction a as [|c a IH]; [done|]. cbn [String.append].
  rewrite <-IH. destruct (a ++ b) eqn:E; [|done]. by destruct a, b.
Qed.

Lemma str_back_all (p : ascii → bool) (s : string) (c : ascii) :
  str_all p s = true → str_back s = Some c → p c = true.
Proof.
  induction s as [|d s IH]; [done|]. cbn [str_all].
  intros [Hd Hs]%andb_true_iff. destruct s as [|e s]; [by intros [= <-]|]. by apply IH.
Qed.

(** ** Prefixes *)

Lemma prefix_iff (a s : string) : String.prefix a s = true ↔ ∃ t, s = a ++ t.
Proof.
  revert s. induction a as [|c a IH]; intros s.
  { split; [by exists s|]. intros _. by destruct s. }
  destruct s as [|d s]; cbn [String.prefix].
  { split; [done|]. by intros (t & ?). }
  destruct (ascii_dec c d) as [<-|Hne].
  - rewrite IH. split; intros (t & Ht); exists t; [by subst|by injection Ht].
  - split; [done|]. intros (t & Ht). by injection Ht.
Qed.

Lemma find_str_start (s sub : string) :
  find_str s sub 0 = Some O ↔ ∃ t, s = sub ++ t.
Proof.
  rewrite <-prefix_iff. unfold find_str. cbn [Nat.leb str_drop].
  destruct s as [|c s]; cbn [find_sub]; destruct (String.prefix sub _); try done.
  by destruct (find_sub sub s).
Qed.

(** ** Brackets *)

Fixpoint count_char (c : ascii) (s : string) : Z :=
  match s with
  | "" => 0
  | String d s' => (if Ascii.eqb d c then 1 else 0) + count_char c s'
  end.

Lemma brackets_loop_spec (s : string) (o c : ascii) (n : Z) :
  o ≠ c → 0 ≤ n →
  brackets_loop s o c n = true ↔
  (∀ a b, s = a ++ b → 0 ≤ n + count_char o a - count_char c a) ∧
  n + count_char o s - count_char c s = 0.
Proof.
  intros Hoc. revert n. induction s as [|d s IH]; intros n Hn; cbn [brackets_loop].
  - breflect. split; [intros ->; split; [|done]|cbn; lia].
    intros [|? ?] b; [cbn; lia|done].
  - set (step := (if Ascii.eqb d o then 1 else 0) - (if Ascii.eqb d c then 1 else 0)).
    replace (if Ascii.eqb d o then _ else _) with (n + step).
    2:{ unfold step. destruct (Ascii.eqb_spec d o), (Ascii.eqb_spec d c); subst;
        congruence || lia. }
    destruct (Z.ltb_spec (n + step) 0) as [Hneg|Hpos].
    + split; [done|]. intros [H _]. specialize (H (String d "") s eq_refl).
      cbn in H. unfold step in Hneg. lia.
    + rewrite IH by done. cbn [count_char]. unfold step in *.
      split; (intros [Hpre Hsum]; split; [|lia]).
      * intros [|x a] b; [cbn; lia|]. cbn. intros [= -> ->].
        specialize (Hpre a b eq_refl). lia.
      * intros a b ->. specialize (Hpre (String d a) b eq_refl). cbn in Hpre. lia.
Qed.

(** ** Properties *)

(** [tokenize] returns, in order, the maximal runs of characters that are
    no delimiters: every token is non-empty and free of delimiters, their
    concatenation is the text without its delimiters, and joining tokens of
    that form with any delimiter and tokenizing gives them back. *)
Theorem tokenize_correct (s delims : string) (d : ascii) (ts : list string) :
  let token w := w ≠ "" ∧ str_all (fun c => negb (mem_char c delims)) w = true in
  Forall token (tokenize s delims None) ∧
  str_concat (tokenize s delims None)
    = str_filter (fun c => negb (mem_char c delims)) s ∧
  (mem_char d delims = true → Forall token ts →
   tokenize (str_join (String d "") ts) delims None = ts).
Proof.
  intros token. rewrite !tokenize_words.
  split; [apply words_tokens|]. split; [apply words_concat|].
  apply (words_join (fun c => mem_char c delims)).
Qed.

Lemma tokenize_correct_witness :
  tokenize (str_join "," ["a"; "b-c"]) ",;" None = ["a"; "b-c"].
Proof.
  refine (proj2 (proj2 (tokenize_correct "" ",;" "," ["a"; "b-c"])) _ _).
  - reflexivity.
  - repeat constructor; done.
Defined.

Lemma fields_nonempty (p : ascii → bool) (s : string) : fields p s ≠ [].
Proof. destruct s as [|c s]; cbn; [done|]. destruct (p c); [done|]. by destruct (fields p s). Qed.

Lemma fields_unjoin (d : ascii) (s : string) :
  str_join (String d "") (fields (fun c => mem_char c (String d "")) s) = s.
Proof.
  induction s as [|c s IH]; [done|]. cbn [fields mem_char].
  rewrite orb_false_r. destruct (Ascii.eqb_spec c d) as [->|Hne].
  - rewrite <-IH at 2. pose proof (fields_nonempty (fun c => mem_char c (String d "")) s) as Hne.
    by destruct (fields _ s).
  - rewrite <-IH at 2. by destruct (fields _ s) as [|w [|w' ws]].
Qed.

(** Splitting at a character loses nothing: joining the fields with that
    character is the original text, empty fields included; and splitting in
    two, as the parsers of [key:value] do, cuts at the first occurrence. *)
Theorem split_roundtrip (s : string) (d : ascii) :
  str_join (String d "") (split s (String d "") None) = s ∧
  str_join (String d "") (split s (String d "") (Some 2%nat)) = s ∧
  (length (split s (String d "") (Some 2%nat)) ≤ 2)%nat.
Proof.
  rewrite split_fields, split_two. split; [apply fields_unjoin|].
  destruct (find_char _ s) as [i|] eqn:E; [|cbn; auto].
  apply find_char_Some in E as (a & c & b & -> & <- & _ & Hc).
  cbn in Hc. rewrite orb_false_r in Hc. apply Ascii.eqb_eq in Hc as ->.
  rewrite str_take_app, <-Nat.add_1_r, <-str_drop_drop, str_drop_app. auto.
Qed.
