(* ===== verification/Values.v ===== *)
(** * Values: sets, texts and the value parser of values.cpp

    [Value::Set] is a list of strings, compared and combined item by item;
    [internal::values::parse] reads the textual form of every kind of value.
    Numbers are read by [numify], whose work is done by
    [boost::lexical_cast]: the cast is a parameter.  Double quotes inside the
    source's messages are written as single ones. *)

From S2P Require Import Prelude Binary64 Scalars Ranges StoutStrings.
From stdpp Require Import pretty.
#[local] Open Scope string_scope.
#[local] Open Scope Z_scope.

(** ** Data *)

Inductive ValueType := SCALAR | RANGES | SET | TEXT.
#[export] Instance ValueType_eq_dec : EqDecision ValueType.
Proof. solve_decision. Defined.
Definition type_eqb (a b : ValueType) : bool := bool_decide (a = b).

(** [Value::Set]: its items. *)
Abbreviation VSet := (list string).

Record Value := mkValue {
  value_type : ValueType;
  value_scalar : option Scalar;
  value_ranges : option Ranges;
  value_set : option VSet;
  value_text : option string }.

(** ** Operators on sets *)

(** The inner search loop: is the item among [items]? *)
Definition has_item (item : string) (items : VSet) : bool := any (String.eqb item) items.

Definition item_at (s : VSet) (i : nat) : string := default "" (s !! i).

(** [operator==], as written: the inner loop runs over [j] and compares
    [right.item(i)]. *)
Definition set_eq (left right : VSet) : bool :=
  if (length left =? length right)%nat
  then all (fun i => any (fun _ => String.eqb (item_at left i) (item_at right i))
                       (seq 0 (length right)))
         (seq 0 (length left))
  else false.

Definition set_le (left right : VSet) : bool :=
  if (length left <=? length right)%nat
  then all (fun l => has_item l right) left
  else false.

Definition add_item (result : VSet) (item : string) : VSet :=
  if has_item item result then result else (result ++ [item])%list.

(** [operator+], [operator+=]: items of the right that are new are appended. *)
Definition set_add_assign (left right : VSet) : VSet := foldl add_item left right.
Definition set_add (left right : VSet) : VSet :=
  let result := foldl (fun acc l => acc ++ [l])%list [] left in
  foldl add_item result right.

(** [operator-] *)
Definition set_sub (left right : VSet) : VSet :=
  foldl (fun result l => if has_item l right then result else (result ++ [l])%list)
    [] left.

(** [DeleteSubrange(j, 1)] at the first [j] that holds the item. *)
Fixpoint delete_first (item : string) (items : VSet) : VSet :=
  match items with
  | [] => []
  | x :: items' => if String.eqb item x then items' else x :: delete_first item items'
  end.

(** [operator-=] *)
Definition set_sub_assign (left right : VSet) : VSet :=
  foldl (fun left item => delete_first item left) left right.

Definition text_eq (left right : string) : bool := String.eqb left right.

(** ** Printing *)

Definition print_uint64 (n : Z) : string := pretty (Z.to_N n).

(** [int] *)
Definition print_int (n : Z) : string := pretty n.

Definition print_range (r : Range) : string :=
  print_uint64 (range_begin r) ++ "-" ++ print_uint64 (range_end r).

(** The loop writes a comma and a space after every item but the last. *)
Definition print_ranges (ranges : Ranges) : string :=
  "[" ++ str_join ", " (map print_range ranges) ++ "]".

Definition print_set (set : VSet) : string := "{" ++ str_join ", " set ++ "}".

(** ** [numify] *)

Section Numify.
(** [boost::lexical_cast<T>], the extraction of a [T] from a stream in
    hexadecimal that must end the stream, and unary minus on [T]. *)
Context {T : Type}.
Context (lexical_cast : string → option T) (hex_extract : string → option T).
Context (negate : T → T).

Definition numify (s : string) : outcome T :=
  match lexical_cast s with
  | Some v => Ok v
  | None =>
      let failure := Err ("Failed to convert '" ++ s ++ "' to number") in
      if startsWith s "0x" || startsWith s "0X" ||
         startsWith s "-0x" || startsWith s "-0X"
      then if negb (contains s ".") && negb (contains s "p")
           then if startsWith s "-"
                then match hex_extract (substr_from s 1) with
                     | Some result => Ok (negate result)
                     | None => failure
                     end
                else match hex_extract s with
                     | Some result => Ok result
                     | None => failure
                     end
           else failure
      else failure
  end.
End Numify.

(** ** [internal::values::parse] *)

Section Parse.
Context (numify_u64 : string → outcome Z) (numify_double : string → outcome double).

Definition range_delims : string := "[]-," ++ String "010" "".
Definition set_delims : string := "{}," ++ String "010" "".

(** The loop over pairs of tokens. *)
Fixpoint parse_pairs (tokens : list string) (ranges : Ranges) : outcome Ranges :=
  match tokens with
  | b :: e :: tokens' =>
      match numify_u64 b, numify_u64 e with
      | Ok begin, Ok end_ => parse_pairs tokens' (ranges ++ [mkRange begin end_])%list
      | _, _ => Err ("Expecting non-negative integers in '" ++ b ++ "'")
      end
  | _ => Ok ranges
  end.

Definition parse_ranges (temp : string) : outcome Value :=
  let tokens := tokenize temp range_delims None in
  if negb (length tokens mod 2 =? 0)%nat
  then Err "Expecting one or more 'ranges'"
  else ranges ← parse_pairs tokens [];
       Ok (mkValue RANGES None (Some (coalesce_self ranges)) None None).

Definition parse_set (temp : string) : Value :=
  let tokens := tokenize temp set_delims None in
  mkValue SET None None (Some (foldl (fun set t => set ++ [t])%list [] tokens)) None.

Definition parse_scalar_or_text (temp : string) : Value :=
  match numify_double temp with
  | Ok value => mkValue SCALAR (Some (mkScalar value)) None None None
  | _ => mkValue TEXT None None None (Some temp)
  end.

Definition parse (text : string) : outcome Value :=
  let temp := replace text " " "" in
  if (String.length temp =? 0)%nat then Err "Expecting non-empty string"
  else if negb (checkBracketsMatching temp "{" "}") ||
          negb (checkBracketsMatching temp "[" "]") ||
          negb (checkBracketsMatching temp "(" ")")
  then Err "Mismatched brackets"
  else match find_first_of temp "[" 0 with
       | Some O => parse_ranges temp
       | None =>
           match find_first_of temp "{" 0 with
           | Some O => Ok (parse_set temp)
           | None => Ok (parse_scalar_or_text temp)
           | Some _ => Err "Unexpected '{' found"
           end
       | Some _ => Err "Unexpected '[' found"
       end.
End Parse.

(** ** Lemmas on sets *)

Lemma has_item_true (item : string) (items : VSet) :
  has_item item items = true ↔ item ∈ items.
Proof.
  unfold has_item. rewrite any_true. split.
  - by intros (x & Hx & ->%String.eqb_eq).
  - intros H. exists item. by rewrite String.eqb_refl.
Qed.

Lemma has_item_false (item : string) (items : VSet) :
  has_item item items = false ↔ item ∉ items.
Proof. by rewrite <-not_true_iff_false, has_item_true. Qed.

#[export] Hint Rewrite has_item_true has_item_false : urb_bool.

Lemma foldl_push {A : Type} (l acc : list A) :
  foldl (fun acc x => acc ++ [x])%list acc l = (acc ++ l)%list.
Proof.
  revert acc. induction l as [|x l IH]; intros acc; cbn; [by rewrite app_nil_r|].
  by rewrite IH, <-app_assoc.
Qed.

Lemma set_add_same (left right : VSet) : set_add left right = set_add_assign left right.
Proof. unfold set_add. by rewrite foldl_push. Qed.

Lemma set_add_assign_spec (left right : VSet) :
  (∀ x, x ∈ set_add_assign left right ↔ x ∈ left ∨ x ∈ right) ∧
  (NoDup left → NoDup (set_add_assign left right)).
Proof.
  unfold set_add_assign. revert left. induction right as [|r right IH]; intros left; cbn.
  { split; [|done]. intros x. rewrite elem_of_nil. tauto. }
  destruct (IH (add_item left r)) as [Hmem Hnd]. unfold add_item in *.
  destruct (has_item r left) eqn:E; breflect; split.
  - intros x. rewrite Hmem, elem_of_cons. split; [tauto|].
    intros [|[->|]]; auto.
  - done.
  - intros x. rewrite Hmem, elem_of_app, list_elem_of_singleton, elem_of_cons. tauto.
  - intros Hl. apply Hnd, NoDup_app. split; [done|]. split; [|apply NoDup_singleton].
    intros x Hx ->%list_elem_of_singleton. done.
Qed.

Lemma set_sub_filter (left right : VSet) :
  set_sub left right = filter (fun l => l ∉ right) left.
Proof.
  unfold set_sub.
  enough (Hgen : ∀ acc, foldl (fun result l => if has_item l right then result
    else (result ++ [l])%list) acc left = (acc ++ filter (fun l => l ∉ right) left)%list)
    by apply Hgen.
  induction left as [|l left IH]; intros acc; cbn [foldl delete_first]; [by rewrite app_nil_r|].
  rewrite IH. destruct (has_item l right) eqn:E; breflect.
  - by rewrite filter_cons_False by auto.
  - by rewrite filter_cons_True, <-app_assoc.
Qed.

Lemma delete_first_NoDup (item : string) (items : VSet) :
  NoDup items → delete_first item items = filter (fun l => l ≠ item) items.
Proof.
  induction 1 as [|x items Hx Hnd IH]; cbn [foldl delete_first]; [done|].
  destruct (String.eqb_spec item x) as [->|Hne].
  - rewrite filter_cons_False by auto. symmetry. apply list_filter_all.
    apply Forall_forall. by intros y Hy ->.
  - by rewrite filter_cons_True, IH by auto.
Qed.

Lemma set_sub_assign_filter (left right : VSet) :
  NoDup left → set_sub_assign left right = filter (fun l => l ∉ right) left.
Proof.
  unfold set_sub_assign. revert left.
  induction right as [|r right IH]; intros left Hnd; cbn.
  { symmetry. apply list_filter_all, Forall_forall. intros ? _. apply not_elem_of_nil. }
  rewrite IH by (rewrite delete_first_NoDup by done; by apply NoDup_filter).
  rewrite delete_first_NoDup, list_filter_filter by done. apply list_filter_iff.
  intros x. rewrite not_elem_of_cons. tauto.
Qed.

Lemma set_eq_iff (left right : VSet) : set_eq left right = true ↔ left = right.
Proof.
  unfold set_eq. destruct (Nat.eqb_spec (length left) (length right)) as [Hlen|Hlen].
  - rewrite all_true. split.
    + intros Hall. apply list_eq_same_length with (n:=length left); [by symmetry|done|].
      intros i x y Hi Hx Hy. specialize (Hall i). rewrite any_true in Hall.
      destruct Hall as (_ & _ & Heq%String.eqb_eq); [apply elem_of_seq; lia|].
      unfold item_at in Heq. by rewrite Hx, Hy in Heq.
    + intros <- i Hi%elem_of_seq. apply any_true. exists O.
      split; [apply elem_of_seq; lia|apply String.eqb_refl].
  - split; [done|]. by intros ->.
Qed.

Lemma set_le_subset (left right : VSet) :
  NoDup left → set_le left right = true ↔ left ⊆ right.
Proof.
  intros Hnd. unfold set_le. split.
  - destruct (length left <=? length right)%nat; [|done]. rewrite all_true.
    intros Hall x Hx. apply has_item_true. auto.
  - intros Hsub. assert (Hlen : (length left ≤ length right)%nat)
      by by apply submseteq_length, NoDup_submseteq.
    apply Nat.leb_le in Hlen as ->. apply all_true. intros x Hx.
    apply has_item_true. auto.
Qed.

(** ** Decimal numbers *)

Definition is_digit (c : ascii) : bool := mem_char c "0123456789".

Definition digit_value (c : ascii) : N := N_of_ascii c - 48.

Fixpoint dec_value (acc : N) (s : string) : N :=
  match s with
  | "" => acc
  | String c s' => dec_value (acc * 10 + digit_value c) s'
  end.

Lemma dec_value_app (acc : N) (a b : string) :
  dec_value acc (a ++ b) = dec_value (dec_value acc a) b.
Proof. revert acc. induction a as [|c a IH]; intros acc; cbn; [done|apply IH]. Qed.

Lemma pretty_char_digit (d : N) :
  (d < 10)%N →
  is_digit (pretty_N_char d) = true ∧ digit_value (pretty_N_char d) = d.
Proof.
  intros Hd. assert (Hin : d ∈ [0;1;2;3;4;5;6;7;8;9]%N).
  { rewrite !elem_of_cons, elem_of_nil. lia. }
  by repeat (apply elem_of_cons in Hin as [->|Hin]); [..|apply elem_of_nil in Hin].
Qed.

Lemma pretty_go_digits (x : N) (s : string) :
  ∃ ds, pretty_N_go x s = ds ++ s ∧ str_all is_digit ds = true ∧
        dec_value 0 ds = x ∧ (x ≠ 0%N → ds ≠ "").
Proof.
  revert s. induction (N.lt_wf_0 x) as [x _ IH]. intros s.
  destruct (decide (x = 0%N)) as [->|Hx].
  { exists "". rewrite pretty_N_go_0. done. }
  rewrite pretty_N_go_step by lia.
  pose proof (N.mod_lt x 10 ltac:(lia)) as Hm.
  destruct (pretty_char_digit (x mod 10) Hm) as [Hd Hv].
  destruct (IH (x / 10)%N (N.div_lt x 10 ltac:(lia) ltac:(lia))
              (String (pretty_N_char (x mod 10)) s)) as (ds & -> & Hall & Hval & _).
  exists (ds ++ String (pretty_N_char (x mod 10)) ""). split; [by rewrite str_app_assoc|].
  split; [rewrite str_all_app, Hall; cbn [str_all]; by rewrite Hd|]. split.
  - rewrite dec_value_app, Hval. cbn [dec_value]. rewrite Hv.
    pose proof (N.div_mod x 10 ltac:(lia)). lia.
  - intros _. by destruct ds.
Qed.

Lemma print_uint64_digits (n : Z) :
  0 ≤ n →
  str_all is_digit (print_uint64 n) = true ∧ print_uint64 n ≠ "" ∧
  Z.of_N (dec_value 0 (print_uint64 n)) = n.
Proof.
  intros Hn. unfold print_uint64, pretty, pretty_N. case_decide as Hz.
  - split; [done|]. split; [done|]. transitivity 0; [reflexivity|lia].
  - destruct (pretty_go_digits (Z.to_N n) "") as (ds & -> & Hall & Hval & Hne).
    rewrite str_app_nil, Hval. split; [done|]. split; [auto|lia].
Qed.

Lemma is_digit_spec (c : ascii) :
  is_digit c = true → mem_char c "{}[]() ," = false ∧ mem_char c range_delims = false ∧
                      mem_char c set_delims = false.
Proof.
  unfold is_digit. cbn [mem_char]. rewrite !orb_true_iff, !Ascii.eqb_eq.
  intros H. repeat destruct H as [->|H]; try done.
Qed.

(** ** Enclosed lists *)

Lemma str_filter_id (p : ascii → bool) (s : string) :
  str_all p s = true → str_filter p s = s.
Proof.
  induction s as [|c s IH]; cbn; [done|].
  intros [-> Hs]%andb_true_iff. by rewrite IH.
Qed.

Lemma str_filter_join (p : ascii → bool) (sep : string) (l : list string) :
  str_filter p (str_join sep l) = str_join (str_filter p sep) (map (str_filter p) l).
Proof.
  induction l as [|s [|t l] IH]; [done|done|].
  rewrite str_join_cons, !str_filter_app, IH. done.
Qed.

Lemma str_all_join (p : ascii → bool) (sep : string) (l : list string) :
  str_all p sep = true → Forall (fun s => str_all p s = true) l →
  str_all p (str_join sep l) = true.
Proof.
  intros Hsep. induction 1 as [|s l Hs Hl IH]; [done|].
  destruct l as [|t l]; [done|]. rewrite str_join_cons.
  by rewrite !str_all_app, Hs, Hsep, IH.
Qed.

Lemma brackets_plain (a b : string) (o c : ascii) (n : Z) :
  0 ≤ n → str_all (fun x => negb (Ascii.eqb x o) && negb (Ascii.eqb x c)) a = true →
  brackets_loop (a ++ b) o c n = brackets_loop b o c n.
Proof.
  intros Hn. induction a as [|x a IH]; cbn; [done|].
  intros [[->%negb_true_iff ->%negb_true_iff]%andb_true_iff Ha]%andb_true_iff.
  destruct (Z.ltb_spec n 0); [lia|auto].
Qed.

(** A body free of brackets and spaces. *)
Definition plain (s : string) : Prop :=
  str_all (fun c => negb (mem_char c "{}[]() ")) s = true.

Lemma brackets_enclosed (o c : ascii) (body : string) (o' c' : ascii) :
  plain body → (o, c) = ("[", "]")%char ∨ (o, c) = ("{", "}")%char →
  (o', c') ∈ [("{", "}"); ("[", "]"); ("(", ")")]%char →
  checkBracketsMatching (String o (body ++ String c "")) o' c' = true.
Proof.
  intros Hbody Hoc Hin. unfold checkBracketsMatching. cbn [brackets_loop].
  assert (Hpl : ∀ n, 0 ≤ n →
    brackets_loop (body ++ String c "") o' c' n = brackets_loop (String c "") o' c' n).
  { intros n Hn. apply brackets_plain; [done|].
    eapply str_all_impl; [|exact Hbody]. intros x. cbn [mem_char].
    rewrite negb_true_iff, !orb_false_iff, andb_true_iff, !negb_true_iff.
    repeat (apply elem_of_cons in Hin as [[= -> ->]|Hin]; [tauto|]).
    by apply elem_of_nil in Hin. }
  repeat (apply elem_of_cons in Hin as [[= -> ->]|Hin]); [..|by apply elem_of_nil in Hin].
  all: destruct Hoc as [[= -> ->]|[= -> ->]]; cbn; rewrite Hpl by lia; reflexivity.
Qed.

(** Printing a list and removing the spaces: commas only. *)
Lemma replace_spaces (o c : ascii) (l : list string) :
  mem_char o " " = false → mem_char c " " = false → Forall plain l →
  replace (String o (str_join ", " l ++ String c "")) " " ""
  = String o (str_join "," l ++ String c "").
Proof.
  intros Ho Hc Hl. rewrite replace_char, subst_char_remove.
  cbn [mem_char] in Ho, Hc. rewrite orb_false_r in Ho, Hc.
  cbn [str_filter]. rewrite (Ascii.eqb_sym " " o), Ho. cbn [negb]. f_equal.
  rewrite str_filter_app, str_filter_join. cbn [str_filter].
  rewrite (Ascii.eqb_sym " " c), Hc. cbn [negb]. do 2 f_equal.
  rewrite <-(map_id l) at 2. apply map_ext_in. intros s Hs.
  apply str_filter_id. rewrite List.Forall_forall in Hl.
  eapply str_all_impl; [|exact (Hl s Hs)]. intros x. cbn [mem_char].
  rewrite !negb_true_iff, !orb_false_iff, (Ascii.eqb_sym " " x). tauto.
Qed.

Lemma plain_join (l : list string) : Forall plain l → plain (str_join "," l).
Proof. by apply str_all_join. Qed.

(** The prologue of [parse] on an enclosed list: no error, and the kind is
    decided by the first bracket. *)
Lemma parse_enclosed nu nd (l : list string) :
  Forall plain l →
  parse nu nd ("[" ++ str_join ", " l ++ "]")
    = parse_ranges nu ("[" ++ str_join "," l ++ "]") ∧
  parse nu nd ("{" ++ str_join ", " l ++ "}")
    = Ok (parse_set ("{" ++ str_join "," l ++ "}")).
Proof.
  intros Hl. pose proof (plain_join l Hl) as Hj. unfold parse.
  cbn [String.append]. rewrite !replace_spaces by done. cbn [String.length Nat.eqb].
  rewrite !brackets_enclosed by (auto || set_solver). cbn [negb orb]. split.
  - done.
  - unfold find_first_of. cbn [str_drop find_char mem_char].
    assert (Hnone : find_char (fun c => mem_char c "[") (str_join "," l ++ "}") = None).
    { apply find_char_absent. rewrite str_all_app.
      rewrite (str_all_impl (fun c => negb (mem_char c "{}[]() "))); [done| |done].
      intros c. cbn [mem_char]. rewrite !negb_true_iff, !orb_false_iff. tauto. }
    cbn [mem_char] in Hnone. by rewrite Hnone.
Qed.

Lemma words_ranges (rs : Ranges) (rest : string) :
  Forall (fun r => 0 ≤ range_begin r ∧ 0 ≤ range_end r) rs →
  ends_here (fun c => mem_char c range_delims) rest = true →
  words (fun c => mem_char c range_delims)
    (str_join "," (map print_range rs) ++ rest)
  = (flat_map (fun r => [print_uint64 (range_begin r); print_uint64 (range_end r)]) rs
     ++ words (fun c => mem_char c range_delims) rest)%list.
Proof.
  intros Hrs Hrest.
  assert (Htok : ∀ n b, 0 ≤ n → ends_here (fun c => mem_char c range_delims) b = true →
    words (fun c => mem_char c range_delims) (print_uint64 n ++ b)
    = print_uint64 n :: words (fun c => mem_char c range_delims) b).
  { intros n b Hn Hb. destruct (print_uint64_digits n Hn) as (Hd & Hne & _).
    apply words_token; [done| |done]. eapply str_all_impl; [|exact Hd].
    intros c Hc. by rewrite negb_true_iff; apply is_digit_spec. }
  induction Hrs as [|r rs [Hb He] Hrs IH]; [done|].
  destruct rs as [|q rs].
  - cbn [map str_join flat_map]. unfold print_range. rewrite !str_app_assoc, Htok by done.
    change (words _ ("-" ++ ?x)) with (words (fun c => mem_char c range_delims) x).
    by rewrite Htok.
  - change (map print_range (r :: q :: rs)) with
      (print_range r :: print_range q :: map print_range rs).
    rewrite str_join_cons. unfold print_range at 1. rewrite !str_app_assoc, Htok by done.
    change (words _ ("-" ++ ?x)) with (words (fun c => mem_char c range_delims) x).
    rewrite Htok by done.
    change (words _ ("," ++ ?x)) with (words (fun c => mem_char c range_delims) x).
    cbn [map] in IH. by rewrite IH.
Qed.

Section ParseSpec.
Context (numify_u64 : string → outcome Z) (numify_double : string → outcome double).
Context (Hnumify : ∀ n, is_u64 n → numify_u64 (print_uint64 n) = Ok n).

Lemma parse_pairs_printed (rs acc : Ranges) :
  Forall (fun r => is_u64 (range_begin r) ∧ is_u64 (range_end r)) rs →
  parse_pairs numify_u64
    (flat_map (fun r => [print_uint64 (range_begin r); print_uint64 (range_end r)]) rs) acc
  = Ok (acc ++ rs)%list.
Proof using Hnumify.
  intros Hrs. revert acc. induction Hrs as [|r rs [Hb He] Hrs IH]; intros acc; cbn.
  { by rewrite app_nil_r. }
  rewrite !Hnumify, IH, <-app_assoc by done. by destruct r.
Qed.

Lemma parse_print_ranges (rs : Ranges) :
  Forall (fun r => is_u64 (range_begin r) ∧ is_u64 (range_end r)) rs →
  parse numify_u64 numify_double (print_ranges rs)
  = Ok (mkValue RANGES None (Some (coalesce_ref rs)) None None).
Proof using Hnumify.
  intros Hrs. assert (Hpos : Forall (fun r => 0 ≤ range_begin r ∧ 0 ≤ range_end r) rs).
  { eapply Forall_impl; [exact Hrs|]. unfold is_u64. lia. }
  assert (Hplain : Forall plain (map print_range rs)).
  { apply Forall_fmap. eapply Forall_impl; [exact Hpos|]. intros r [Hb He].
    unfold plain; cbn. unfold print_range. rewrite !str_all_app. cbn [str_all].
    destruct (print_uint64_digits _ Hb) as (Hb1 & _), (print_uint64_digits _ He) as (He1 & _).
    rewrite !(str_all_impl is_digit); [done| |done| |done];
      intros c Hc%is_digit_spec; cbn [mem_char] in *; rewrite !orb_false_iff in Hc;
      rewrite negb_true_iff, !orb_false_iff; tauto. }
  unfold print_ranges. rewrite (proj1 (parse_enclosed _ _ _ Hplain)).
  unfold parse_ranges. rewrite tokenize_words.
  change (words _ ("[" ++ ?x)) with (words (fun c => mem_char c range_delims) x).
  rewrite words_ranges by done. cbn [words mem_char]. rewrite app_nil_r.
  replace (length _) with (length rs * 2)%nat
    by (clear; induction rs; cbn in *; lia).
  rewrite Nat.Div0.mod_mul.
  cbn [Nat.eqb negb]. rewrite parse_pairs_printed by done. cbn.
  unfold coalesce_self. rewrite coalesce_eq. cbn. by rewrite app_nil_r.
Qed.
End ParseSpec.

(** A concrete reader of decimal numbers, for the witnesses. *)
Definition decimal_u64 (s : string) : outcome Z :=
  if negb (str_empty s) && str_all is_digit s &&
     (Z.of_N (dec_value 0 s) <? u64_modulus)
  then Ok (Z.of_N (dec_value 0 s)) else Err "not a number".

Lemma decimal_u64_print (n : Z) : is_u64 n → decimal_u64 (print_uint64 n) = Ok n.
Proof.
  intros [Hn Hlt]. destruct (print_uint64_digits n Hn) as (Hd & Hne & Hv).
  unfold decimal_u64. rewrite Hv, Hd. destruct (print_uint64 n); [done|].
  by rewrite (proj2 (Z.ltb_lt _ _) Hlt).
Qed.

(** ** Properties *)

(** Printing ranges and parsing the text gives back the same set of
    numbers in canonical form; a canonical list comes back unchanged. *)
Theorem parse_ranges_roundtrip numify_u64 numify_double (rs : Ranges) :
  (∀ n, is_u64 n → numify_u64 (print_uint64 n) = Ok n) →
  canonical rs →
  parse numify_u64 numify_double (print_ranges rs)
  = Ok (mkValue RANGES None (Some rs) None None).
Proof.
  intros Hnum Hrs. pose proof (canonical_wf _ Hrs) as Hwf.
  rewrite parse_print_ranges; [|done|].
  - destruct (coalesce_ref_spec rs Hwf) as [Hc Hm]. do 3 f_equal.
    by apply canonical_unique.
  - eapply Forall_impl; [exact Hwf|]. unfold range_wf, is_u64, u64_max, u64_modulus. lia.
Qed.

Lemma parse_ranges_roundtrip_witness :
  parse decimal_u64 (fun _ => Err "") (print_ranges [mkRange 1 9; mkRange 31000 32000])
  = Ok (mkValue RANGES None (Some [mkRange 1 9; mkRange 31000 32000]) None None).
Proof.
  apply (parse_ranges_roundtrip decimal_u64 (fun _ => Err "")).
  - exact decimal_u64_print.
  - split; repeat constructor; unfold range_wf, u64_max; cbn; lia.
Defined.

(** Printing a set of plain items (no brackets, spaces, commas or
    newlines) and parsing the text gives back exactly its items, in order. *)
Theorem parse_set_roundtrip numify_u64 numify_double (items : VSet) :
  Forall (fun s => s ≠ "" ∧ plain s ∧
                   str_all (fun c => negb (mem_char c set_delims)) s = true) items →
  parse numify_u64 numify_double (print_set items)
  = Ok (mkValue SET None None (Some items) None).
Proof.
  intros Hitems. assert (Hplain : Forall plain items).
  { eapply Forall_impl; [exact Hitems|]. by intros s (_ & ? & _). }
  unfold print_set. rewrite (proj2 (parse_enclosed _ _ items Hplain)).
  unfold parse_set. rewrite foldl_push, tokenize_words. do 3 f_equal. cbn [app].
  change (words _ ("{" ++ ?x)) with (words (fun c => mem_char c set_delims) x).
  rewrite <-(words_join (fun c => mem_char c set_delims) "," items) at 2; [|done|].
  2:{ eapply Forall_impl; [exact Hitems|]. by intros s (? & _ & ?). }
  apply words_snoc. reflexivity.
Qed.

Lemma parse_set_roundtrip_witness :
  parse decimal_u64 (fun _ => Err "") (print_set ["gpu0"; "gpu1"])
  = Ok (mkValue SET None None (Some ["gpu0"; "gpu1"]) None).
Proof.
  apply (parse_set_roundtrip decimal_u64 (fun _ => Err "")).
  repeat (constructor; [split; [discriminate|split; reflexivity]|]). constructor.
Defined.

(** [operator+] and [operator-] on sets are union and difference: [+]
    keeps a duplicate-free set duplicate-free, [-=] agrees with [-] on
    duplicate-free sets, and [<=] is inclusion. *)
Theorem set_operators_correct (left right : VSet) :
  NoDup left →
  (NoDup (set_add left right) ∧ ∀ x, x ∈ set_add left right ↔ x ∈ left ∨ x ∈ right) ∧
  (∀ x, x ∈ set_sub left right ↔ x ∈ left ∧ x ∉ right) ∧
  set_sub_assign left right = set_sub left right ∧
  set_add_assign left right = set_add left right ∧
  (set_le left right = true ↔ left ⊆ right).
Proof.
  intros Hnd. rewrite set_add_same, set_sub_filter.
  destruct (set_add_assign_spec left right) as [Hmem Hadd].
  split; [auto|]. split; [|split; [by apply set_sub_assign_filter|]].
  - intros x. rewrite list_elem_of_filter. tauto.
  - split; [done|]. by apply set_le_subset.
Qed.

Lemma set_operators_correct_witness :
  set_sub_assign ["a"; "b"; "c"] ["b"] = set_sub ["a"; "b"; "c"] ["b"] ∧
  NoDup (set_add ["a"; "b"; "c"] ["b"; "d"]).
Proof.
  assert (Hnd : NoDup ["a"; "b"; "c"]) by (apply (bool_decide_unpack _); reflexivity).
  split.
  - apply (set_operators_correct ["a"; "b"; "c"] ["b"]). exact Hnd.
  - apply (set_operators_correct ["a"; "b"; "c"] ["b"; "d"]). exact Hnd.
Defined.

(** [operator==] on sets is equality of the item lists: the inner loop
    compares [right.item(i)], so two sets with the same items in another order
    are different to it although each is [<=] the other. *)
Theorem set_eq_order_sensitive :
  (∀ left right, set_eq left right = true ↔ left = right) ∧
  set_eq ["a"; "b"] ["b"; "a"] = false ∧
  set_le ["a"; "b"] ["b"; "a"] = true ∧ set_le ["b"; "a"] ["a"; "b"] = true.
Proof. split; [apply set_eq_iff|]. repeat split; reflexivity. Qed.
