(* ===== verification/Attributes.v ===== *)
(** * Attributes: attributes.cpp, attributes.hpp

    The attributes of an agent: named values, given on the command line as
    [name:value;...].  Attributes are scalars, ranges or texts; sets are not
    supported, and the code aborts on them ([Fatal]).  Values are read by the
    parser of [Values]. *)

From S2P Require Import Prelude Binary64 Scalars Ranges StoutStrings Values.
#[local] Open Scope string_scope.
#[local] Open Scope list_scope.
#[local] Open Scope Z_scope.

(** ** Data *)

(** The [Attribute] message; every field has its [has_] bit. *)
Record Attribute := mkAttribute {
  a_name : option string;
  a_type : option ValueType;
  a_scalar : option Scalar;
  a_ranges : option Ranges;
  a_set : option VSet;
  a_text : option string }.

Definition attr_name (a : Attribute) : string := get_or "" (a_name a).
(** An unset enumeration reads as its first value. *)
Definition attr_type (a : Attribute) : ValueType := get_or SCALAR (a_type a).

(** The class: the list of its attributes. *)
Definition Attributes : Type := list Attribute.

Definition attributes_add (a : Attribute) (l : Attributes) : Attributes := l ++ [a].

(** ** Lookup *)

Definition same_key (a b : Attribute) : bool :=
  String.eqb (attr_name a) (attr_name b) && type_eqb (attr_type a) (attr_type b).

(** [get(thatAttribute)]: the first with its name and type. *)
Fixpoint attributes_get (that : Attribute) (l : Attributes) : option Attribute :=
  match l with
  | [] => None
  | a :: l' => if same_key a that then Some a else attributes_get that l'
  end.

(** [get<T>(name, t)]: the value of the first attribute of that name and type. *)
Fixpoint get_first {A} (name : string) (ty : ValueType) (value : Attribute → A) (d : A)
    (l : Attributes) : A :=
  match l with
  | [] => d
  | a :: l' =>
      if String.eqb (attr_name a) name && type_eqb (attr_type a) ty then value a
      else get_first name ty value d l'
  end.

Definition get_scalar (name : string) (d : Scalar) (l : Attributes) : Scalar :=
  get_first name SCALAR (fun a => get_or scalar_default (a_scalar a)) d l.
Definition get_ranges (name : string) (d : Ranges) (l : Attributes) : Ranges :=
  get_first name RANGES (fun a => get_or [] (a_ranges a)) d l.
Definition get_text (name : string) (d : string) (l : Attributes) : string :=
  get_first name TEXT (fun a => get_or "" (a_text a)) d l.

(** ** Equality *)

(** The [switch] of [operator==] for one attribute and its counterpart. *)
Definition same_value (a b : Attribute) : outcome bool :=
  match attr_type a with
  | SCALAR => Ok (scalar_eq (get_or scalar_default (a_scalar a)) (get_or scalar_default (a_scalar b)))
  | RANGES => Ok (ranges_eq (get_or [] (a_ranges a)) (get_or [] (a_ranges b)))
  | TEXT => Ok (text_eq (get_or "" (a_text a)) (get_or "" (a_text b)))
  | SET => Fatal
  end.

Fixpoint all_found (left right : Attributes) : outcome bool :=
  match left with
  | [] => Ok true
  | a :: left' =>
      match attributes_get a right with
      | None => Ok false
      | Some b =>
          same ← same_value a b;
          if (same : bool) then all_found left' right else Ok false
      end
  end.

Definition attributes_eq (left right : Attributes) : outcome bool :=
  if (length left =? length right)%nat then all_found left right else Ok false.

(** ** Validity *)

Definition isValid (a : Attribute) : bool :=
  match a_name a, a_type a with
  | Some name, Some ty =>
      negb (String.eqb name "") &&
      match ty with
      | SCALAR => has (a_scalar a)
      | RANGES => has (a_ranges a)
      | TEXT => has (a_text a)
      | SET => false
      end
  | _, _ => false
  end.

(** ** Printing and parsing *)

Section print.
(** How a stream prints a [double]. *)
Context (print_scalar : Scalar → string).

Definition print_attribute (a : Attribute) : string :=
  attr_name a +:+ "=" +:+
  match attr_type a with
  | SCALAR => print_scalar (get_or scalar_default (a_scalar a))
  | RANGES => print_ranges (get_or [] (a_ranges a))
  | SET => print_set (get_or [] (a_set a))
  | TEXT => get_or "" (a_text a)
  end.

End print.

Section parse.
Context (parse_value : string → outcome Value).

(** [Attributes::parse(name, text)]; every error is a [LOG(FATAL)]. *)
Definition parse_attribute (name text : string) : outcome Attribute :=
  match parse_value text with
  | Ok v =>
      match value_type v with
      | RANGES => Ok (mkAttribute (Some name) (Some RANGES) None
                        (Some (get_or [] (value_ranges v))) None None)
      | TEXT => Ok (mkAttribute (Some name) (Some TEXT) None None None
                      (Some (get_or "" (value_text v))))
      | SCALAR => Ok (mkAttribute (Some name) (Some SCALAR)
                        (Some (get_or scalar_default (value_scalar v))) None None None)
      | SET => Fatal
      end
  | _ => Fatal
  end.

Definition attribute_delims : string := String ";" (String "010" "").

Definition parse_pair (token : string) : outcome Attribute :=
  match split token ":" (Some 2%nat) with
  | [name; text] =>
      if str_empty name || str_empty text then Fatal else parse_attribute name text
  | _ => Fatal
  end.

Definition parse_attributes (s : string) : outcome Attributes :=
  mfold (fun l token => a ← parse_pair token; Ok (attributes_add a l)) []
        (tokenize s attribute_delims None).

(** ** What parsing yields *)

Lemma parse_attribute_valid name text a :
  name ≠ "" → parse_attribute name text = Ok a → isValid a = true.
Proof.
  intros Hn. unfold parse_attribute. destruct (parse_value text) as [v|e|]; [|done|done].
  assert (Hne : String.eqb name "" = false) by (by apply String.eqb_neq).
  destruct (value_type v); intros [= <-]; unfold isValid; cbn; by rewrite Hne.
Qed.

Lemma parse_pair_valid token a : parse_pair token = Ok a → isValid a = true.
Proof.
  unfold parse_pair. destruct (split _ _ _) as [|name [|text [|]]]; try done.
  destruct (str_empty name) eqn:Hn; [done|]. cbn. case_if; [done|].
  apply parse_attribute_valid. by intros ->.
Qed.

Lemma parse_pair_no_error token e : parse_pair token ≠ Err e.
Proof.
  unfold parse_pair, parse_attribute. repeat case_match; congruence.
Qed.

(** [Attributes::parse] returns only valid attributes, and has no way to report
    an error: on a bad pair or value it ends the process. *)
Theorem parsed_attributes_valid s :
  match parse_attributes s with
  | Ok l => Forall (fun a => isValid a = true) l
  | Err _ => False
  | Fatal => True
  end.
Proof.
  unfold parse_attributes. generalize (tokenize s attribute_delims None) as ts. intros ts.
  assert (Hacc : Forall (fun a => isValid a = true) []) by constructor. revert Hacc.
  generalize (@nil Attribute). induction ts as [|t ts IH]; intros acc Hacc; cbn; [done|].
  destruct (parse_pair t) as [a|e|] eqn:E; cbn; [|by apply parse_pair_no_error in E|done].
  apply IH, Forall_app. split; [done|]. repeat constructor. by eapply parse_pair_valid.
Qed.

(** A name and a text that make one pair. *)
Definition pair_ok (p : string * string) : Prop :=
  p.1 ≠ "" ∧ p.2 ≠ "" ∧
  str_all (fun c => negb (mem_char c (String ":" attribute_delims))) p.1 = true ∧
  str_all (fun c => negb (mem_char c attribute_delims)) p.2 = true.

Lemma parse_pair_eq name text :
  pair_ok (name, text) → parse_pair (name +:+ ":" +:+ text) = parse_attribute name text.
Proof.
  intros (Hn & Ht & Hname & _). cbn in Hn, Ht, Hname. unfold parse_pair. rewrite split_two.
  assert (Hf : find_char (fun c => mem_char c ":") (name +:+ ":" +:+ text)
               = Some (String.length name)).
  { clear Hn. induction name as [|c name IH]; cbn in *; [done|].
    apply andb_true_iff in Hname as [Hc Hname]. rewrite negb_true_iff in Hc.
    apply orb_false_iff in Hc as [Hc _]. rewrite Hc. cbn. by rewrite IH. }
  rewrite Hf, str_take_app.
  replace (str_drop (S (String.length name)) (name +:+ ":" +:+ text)) with text.
  { destruct name; [done|]. by destruct text. }
  clear. induction name as [|c name IH]; [done|]. exact IH.
Qed.

Lemma pair_token p :
  pair_ok p →
  p.1 +:+ ":" +:+ p.2 ≠ "" ∧
  str_all (fun c => negb (mem_char c attribute_delims)) (p.1 +:+ ":" +:+ p.2) = true.
Proof.
  destruct p as [name text]. intros (Hn & _ & Hname & Htext). cbn in *. split.
  - by destruct name.
  - rewrite !str_all_app. apply andb_true_iff. split; [|by cbn].
    eapply str_all_impl; [|exact Hname]. intros c. cbn.
    rewrite !negb_true_iff, !orb_false_iff. tauto.
Qed.

(** The text [name1:value1;name2:value2;...] parses to one attribute per pair, in
    order, each with the value its text parses to; the values may contain colons. *)
Theorem parse_attributes_pairs (ps : list (string * string)) :
  Forall pair_ok ps →
  parse_attributes (str_join ";" ((fun p => p.1 +:+ ":" +:+ p.2) <$> ps)) =
  mfold (fun l p => a ← parse_attribute p.1 p.2; Ok (attributes_add a l)) [] ps.
Proof.
  intros Hps. unfold parse_attributes. rewrite tokenize_words.
  rewrite (words_join (fun c => mem_char c attribute_delims) ";").
  2:{ done. }
  2:{ apply Forall_fmap. eapply Forall_impl; [exact Hps|]. apply pair_token. }
  generalize (@nil Attribute) as acc.
  induction Hps as [|[name text] ps Hp _ IH]; intros acc; [done|].
  pose proof (parse_pair_eq name text Hp) as E. cbn in E |- *. rewrite E. destruct (parse_attribute name text); cbn; [apply IH|done|done].
Qed.

End parse.

(** ** Equality as a relation *)

Definition key (a : Attribute) : string * ValueType := (attr_name a, attr_type a).

(** What the class is used for: no sets, well-formed ranges, and one attribute per
    name and type. *)
Definition attribute_ok (a : Attribute) : Prop :=
  attr_type a ≠ SET ∧ Forall range_wf (get_or [] (a_ranges a)).

Record attributes_ok (l : Attributes) : Prop := mkAttributesOk {
  attributes_ok_all : Forall attribute_ok l;
  attributes_ok_keys : NoDup (key <$> l) }.

Lemma same_attribute_key_iff a b : same_key a b = true ↔ key a = key b.
Proof.
  unfold same_key, type_eqb, key. rewrite andb_true_iff, String.eqb_eq, bool_decide_eq_true.
  split; [by intros [-> ->]|by intros [= -> ->]].
Qed.

Lemma attributes_get_Some a l b :
  attributes_get a l = Some b → b ∈ l ∧ key b = key a.
Proof.
  induction l as [|c l IH]; cbn; [done|]. case_if.
  - intros [= ->]. split; [left|by apply same_attribute_key_iff].
  - intros Hb. destruct (IH Hb). split; [by right|done].
Qed.

Lemma attributes_get_key a l b :
  NoDup (key <$> l) → b ∈ l → key b = key a → attributes_get a l = Some b.
Proof.
  induction l as [|c l IH]; cbn; intros Hnd Hb Hk; [by apply elem_of_nil in Hb|].
  apply NoDup_cons in Hnd as [Hni Hnd]. apply elem_of_cons in Hb as [->|Hb].
  - by rewrite (proj2 (same_attribute_key_iff c a)).
  - case_if; [|by apply IH]. apply same_attribute_key_iff in Heqb0.
    destruct Hni. apply list_elem_of_fmap. exists b. split; [congruence|done].
Qed.

Lemma same_value_refl a : attribute_ok a → same_value a a = Ok true.
Proof.
  intros [Hs Hr]. unfold same_value. destruct (attr_type a); try done; f_equal.
  - by apply scalar_eq_fixed.
  - by apply ranges_eq_iff.
  - unfold text_eq. apply String.eqb_refl.
Qed.

Lemma same_value_sym a b :
  attribute_ok a → attribute_ok b → key a = key b →
  same_value a b = Ok true → same_value b a = Ok true.
Proof.
  intros [_ Ha] [_ Hb] [= _ Ht]. unfold same_value. rewrite <-Ht.
  destruct (attr_type a); try done; intros [= H]; f_equal.
  - apply scalar_eq_fixed in H. by apply scalar_eq_fixed.
  - rewrite ranges_eq_iff in H |- * by done. intros x. by rewrite H.
  - unfold text_eq in *. by rewrite String.eqb_sym.
Qed.

Lemma same_value_trans a b c :
  attribute_ok a → attribute_ok b → attribute_ok c → key a = key b →
  same_value a b = Ok true → same_value b c = Ok true → same_value a c = Ok true.
Proof.
  intros [_ Ha] [_ Hb] [_ Hc] [= _ Ht]. unfold same_value. rewrite <-Ht.
  destruct (attr_type a); try done; intros [= H1] [= H2]; f_equal.
  - apply scalar_eq_fixed in H1, H2. apply scalar_eq_fixed. congruence.
  - rewrite ranges_eq_iff in H1, H2 |- * by done. intros x. by rewrite H1.
  - unfold text_eq in *. apply String.eqb_eq in H1, H2. apply String.eqb_eq. congruence.
Qed.

(** The loop succeeds exactly when every attribute has an equal counterpart. *)
Lemma all_found_iff left right :
  NoDup (key <$> right) →
  all_found left right = Ok true ↔
  ∀ a, a ∈ left → ∃ b, b ∈ right ∧ key b = key a ∧ same_value a b = Ok true.
Proof.
  intros Hnd. induction left as [|a left IH]; cbn.
  { split; [|done]. intros _ a Ha. by apply elem_of_nil in Ha. }
  split.
  - destruct (attributes_get a right) as [b|] eqn:E; [|done]. intros H. outcome_inv.
    case_if; [|done]. intros c [->|Hc]%elem_of_cons; [|by apply IH].
    apply attributes_get_Some in E as [Hb Hk]. eauto.
  - intros H. destruct (H a) as (b & Hb & Hk & Hs); [left|].
    rewrite (attributes_get_key a right b), Hs by done. cbn.
    apply IH. intros c Hc. apply H. by right.
Qed.

Lemma attributes_eq_iff left right :
  NoDup (key <$> right) →
  attributes_eq left right = Ok true ↔
  length left = length right ∧
  ∀ a, a ∈ left → ∃ b, b ∈ right ∧ key b = key a ∧ same_value a b = Ok true.
Proof.
  intros Hnd. unfold attributes_eq. rewrite <-all_found_iff by done.
  destruct (Nat.eqb_spec (length left) (length right)); naive_solver.
Qed.

(** With as many attributes on both sides, every key of one is a key of the other. *)
Lemma keys_permute left right :
  NoDup (key <$> left) → length left = length right →
  (∀ a, a ∈ left → ∃ b, b ∈ right ∧ key b = key a) →
  key <$> left ≡ₚ key <$> right.
Proof.
  intros Hnd Hlen Hall. apply submseteq_length_Permutation.
  - apply NoDup_submseteq; [done|]. intros k (a & -> & Ha)%list_elem_of_fmap.
    destruct (Hall a Ha) as (b & Hb & Hk). apply list_elem_of_fmap. by exists b.
  - rewrite !length_fmap. lia.
Qed.

(** On attributes without sets and with one value per name and type, [==] is an
    equivalence: it never aborts, holds of a list and itself, is symmetric and
    transitive, whatever the order of the attributes. *)
Theorem attributes_eq_equivalence l1 l2 l3 :
  attributes_ok l1 → attributes_ok l2 → attributes_ok l3 →
  (∃ b, attributes_eq l1 l2 = Ok b) ∧
  attributes_eq l1 l1 = Ok true ∧
  (attributes_eq l1 l2 = Ok true → attributes_eq l2 l1 = Ok true) ∧
  (attributes_eq l1 l2 = Ok true → attributes_eq l2 l3 = Ok true → attributes_eq l1 l3 = Ok true).
Proof.
  intros [H1 K1] [H2 K2] [H3 K3]. rewrite !Forall_forall in *.
  rewrite !attributes_eq_iff by done. split_and!.
  - unfold attributes_eq. case_if; [|eauto]. clear Heqb K1 K2 K3 H3.
    induction l1 as [|a l IH]; cbn; [eauto|].
    destruct (attributes_get a l2) as [b|]; [|eauto].
    destruct (H1 a) as [Hs _]; [left|].
    destruct (same_value a b) as [[]|e|] eqn:E; cbn.
    + apply IH. intros; apply H1. by right.
    + eauto.
    + unfold same_value in E. by destruct (attr_type a).
    + unfold same_value in E. by destruct (attr_type a).
  - done.
  - intros a Ha. exists a. split_and!; [done|done|]. by apply same_value_refl, H1.
  - intros [Hlen Hall]. split; [done|]. intros b Hb.
    assert (Hk : key b ∈ key <$> l1).
    { rewrite (keys_permute l1 l2); [apply list_elem_of_fmap; eauto|done|done|].
      intros a Ha. destruct (Hall a Ha) as (b' & ? & ? & _). eauto. }
    apply list_elem_of_fmap in Hk as (a & Hka & Ha). exists a. split_and!; [done|done|].
    destruct (Hall a Ha) as (b' & Hb' & Hkb' & Hs).
    assert (b' = b) as ->.
    { pose proof (attributes_get_key a l2 b' K2 Hb' Hkb') as E1.
      rewrite (attributes_get_key a l2 b K2 Hb Hka) in E1. congruence. }
    apply same_value_sym; auto.
  - intros [L12 A12] [L23 A23]. split; [congruence|]. intros a Ha.
    destruct (A12 a Ha) as (b & Hb & Hkb & Hsb). destruct (A23 b Hb) as (c & Hc & Hkc & Hsc).
    exists c. split_and!; [done|congruence|]. eapply same_value_trans; [..|exact Hsb|done]; auto.
Qed.

(** ** Examples *)

Definition text_attribute (name value : string) : Attribute :=
  mkAttribute (Some name) (Some TEXT) None None None (Some value).

(** Repeated attributes break symmetry, and a set aborts. *)
Lemma attributes_eq_not_symmetric :
  let x := text_attribute "rack" "a" in
  let y := text_attribute "zone" "b" in
  attributes_eq [x; x] [x; y] = Ok true ∧ attributes_eq [x; y] [x; x] = Ok false ∧
  (let s := mkAttribute (Some "s") (Some SET) None None (Some []) None in
   attributes_eq [s] [s] = Fatal).
Proof. done. Qed.

Definition sample_value : string → outcome Value := Values.parse decimal_u64 (fun _ => Err "").

Lemma parse_attributes_pairs_witness :
  parse_attributes sample_value "rack:a:1;ports:[1-9]" =
  Ok [text_attribute "rack" "a:1";
      mkAttribute (Some "ports") (Some RANGES) None (Some [mkRange 1 9]) None None].
Proof.
  change "rack:a:1;ports:[1-9]" with
    (str_join ";" ((fun p => p.1 +:+ ":" +:+ p.2) <$> [("rack", "a:1"); ("ports", "[1-9]")])).
  rewrite (parse_attributes_pairs sample_value [("rack", "a:1"); ("ports", "[1-9]")]).
  - vm_compute. reflexivity.
  - repeat constructor; done.
Defined.

Lemma attributes_eq_equivalence_witness :
  let l := [text_attribute "rack" "a"; text_attribute "zone" "b"] in
  let r := [text_attribute "zone" "b"; text_attribute "rack" "a"] in
  attributes_eq r l = Ok true.
Proof.
  set (l := [text_attribute "rack" "a"; text_attribute "zone" "b"]).
  set (r := [text_attribute "zone" "b"; text_attribute "rack" "a"]).
  assert (Hl : attributes_ok l).
  { split; [by repeat constructor|]. repeat constructor; set_solver. }
  assert (Hr : attributes_ok r).
  { split; [by repeat constructor|]. repeat constructor; set_solver. }
  exact (proj1 (proj2 (proj2 (attributes_eq_equivalence l r l Hl Hr Hl))) eq_refl).
Defined.
