(* ===== verification/Fairness.v ===== *)
(** * Fairness: runs of threads that are all scheduled

    A small temporal logic for the programs whose threads wait for each other.  A
    system is a step relation labelled by the thread that moves, [None] for a step
    of the environment.  A run is an infinite sequence of states; a program that
    has come to an end goes on with steps of the environment that change nothing.
    A thread is treated fairly when it moves again and again unless, from some time
    on, it can never move: being able to move at infinitely many moments is enough
    to move, which is what a thread that competes for a mutex needs.

    [leads_to_fair] is the rule for "P leads to Q by the work of thread t": a
    measure that no step raises and that the steps of [t] lower. *)

From S2P Require Import Prelude.
#[local] Open Scope list_scope.
#[local] Open Scope nat_scope.

Section fairness.
Context {State Tid : Type} (step : option Tid → State → State → Prop).

Definition enabled (t : Tid) (s : State) : Prop := ∃ s', step (Some t) s s'.

(** The states of a run, and who makes the steps. *)
Record is_run (σ : nat → State) (who : nat → option Tid) : Prop := {
  run_steps : ∀ n, step (who n) (σ n) (σ (S n)) }.

Definition fair (σ : nat → State) (who : nat → option Tid) (t : Tid) : Prop :=
  ∀ n, ∃ m, n ≤ m ∧ (who m = Some t ∨ ∀ k, m ≤ k → ¬ enabled t (σ k)).

(** From every state of the run with [P], a state with [Q] is reached. *)
Definition leads_to (σ : nat → State) (P Q : State → Prop) : Prop :=
  ∀ n, P (σ n) → ∃ m, n ≤ m ∧ Q (σ m).

Section run.
Context (σ : nat → State) (who : nat → option Tid) (Hrun : is_run σ who).

Lemma leads_to_refl (P Q : State → Prop) : (∀ s, P s → Q s) → leads_to σ P Q.
Proof using. intros HPQ n HP. exists n. auto. Qed.

Lemma leads_to_trans (P Q R : State → Prop) :
  leads_to σ P Q → leads_to σ Q R → leads_to σ P R.
Proof using.
  intros HPQ HQR n HP. destruct (HPQ n HP) as (m & Hnm & HQ).
  destruct (HQR m HQ) as (k & Hmk & HR). exists k. split; [lia|done].
Qed.

Lemma leads_to_or (P1 P2 Q : State → Prop) :
  leads_to σ P1 Q → leads_to σ P2 Q → leads_to σ (λ s, P1 s ∨ P2 s) Q.
Proof using. intros H1 H2 n [HP|HP]; [by apply H1|by apply H2]. Qed.

(** What every step keeps holds from then on. *)
Lemma stable_holds (P : State → Prop) n m :
  (∀ o s s', P s → step o s s' → P s') → P (σ n) → n ≤ m → P (σ m).
Proof using Hrun.
  intros Hst HP. induction 1 as [|m _ IH]; [done|]. eapply Hst; [exact IH|]. apply Hrun.
Qed.

(** What every step keeps, unless it reaches [Q]. *)
Lemma keeps_until (P Q : State → Prop) n m :
  (∀ o s s', P s → step o s s' → P s' ∨ Q s') → P (σ n) → n ≤ m →
  P (σ m) ∨ ∃ j, n ≤ j ∧ Q (σ j).
Proof using Hrun.
  intros Hst HP. induction 1 as [|m Hm [HPm|?]]; [by left| |by right].
  destruct (Hst _ _ _ HPm (run_steps _ _ Hrun m)) as [?|HQ]; [by left|].
  right. exists (S m). split; [lia|done].
Qed.

(** A stable property holds with the one that was reached. *)
Lemma leads_to_stable (P Q R : State → Prop) :
  (∀ o s s', R s → step o s s' → R s') →
  leads_to σ P Q → leads_to σ (λ s, P s ∧ R s) (λ s, Q s ∧ R s).
Proof using Hrun.
  intros Hst HPQ n [HP HR]. destruct (HPQ n HP) as (m & Hnm & HQ).
  exists m. split_and!; [done|done|]. by eapply stable_holds.
Qed.

Section rule.
Context {A : Type} (lt : relation A) (Hwf : well_founded lt) (Htrans : Transitive lt).
Context (μ : State → A) (P Q : State → Prop) (t : Tid).
(** No step leaves [P], except to [Q], or raises the measure. *)
Context (Hkeep : ∀ o s s', P s → step o s s' →
  Q s' ∨ P s' ∧ (μ s' = μ s ∨ lt (μ s') (μ s))).
(** The steps of [t] lower the measure. *)
Context (Hdecr : ∀ s s', P s → step (Some t) s s' → Q s' ∨ P s' ∧ lt (μ s') (μ s)).
(** [t] is able to move again and again. *)
Context (Hable : leads_to σ P (λ s, Q s ∨ enabled t s)).

Lemma keep_for n d :
  P (σ n) →
  (∃ j, n ≤ j ∧ Q (σ j)) ∨
  P (σ (d + n)) ∧ (μ (σ (d + n)) = μ (σ n) ∨ lt (μ (σ (d + n))) (μ (σ n))).
Proof using Hkeep Hrun Htrans.
  intros HP. induction d as [|d [?|[HPd Hμ]]]; [by right; auto|by left|].
  destruct (Hkeep _ _ _ HPd (run_steps _ _ Hrun (d + n))) as [HQ|[HP' Hle]].
  - left. exists (S (d + n)). split; [lia|done].
  - right. split; [done|]. cbn. destruct Hμ as [Hμ|Hμ], Hle as [Hle|Hle].
    + left. congruence.
    + right. by rewrite <-Hμ.
    + right. by rewrite Hle.
    + right. by etransitivity.
Qed.

Theorem leads_to_fair : fair σ who t → leads_to σ P Q.
Proof using Hwf Htrans Hkeep Hdecr Hable Hrun.
  intros Hfair n. remember (μ (σ n)) as a eqn:Ha. revert n Ha.
  induction a as [a IH] using (well_founded_ind Hwf). intros n -> HP.
  destruct (Hfair n) as (m & Hnm & Hm).
  destruct (keep_for n (m - n) HP) as [?|[HPm Hμ]]; [done|].
  rewrite Nat.sub_add in HPm, Hμ by done.
  destruct Hm as [Hm|Hoff].
  - pose proof (run_steps _ _ Hrun m) as Hs. rewrite Hm in Hs.
    destruct (Hdecr _ _ HPm Hs) as [HQ|[HP' Hlt]]; [exists (S m); split; [lia|done]|].
    assert (Hlt' : lt (μ (σ (S m))) (μ (σ n))).
    { destruct Hμ as [Hμ|Hμ]; [by rewrite <-Hμ|by etransitivity]. }
    destruct (IH _ Hlt' (S m) eq_refl HP') as (k & Hk & HQ). exists k. split; [lia|done].
  - destruct (Hable m HPm) as (k & Hk & [HQ|Hen]); [exists k; split; [lia|done]|].
    by destruct (Hoff k Hk).
Qed.
End rule.
End run.

(** A run that comes to rest, with no thread able to move, is fair. *)
Lemma resting_run_fair (σ : nat → State) (who : nat → option Tid) (N : nat) (t : Tid) :
  (∀ n, N ≤ n → σ n = σ N) → ¬ enabled t (σ N) → fair σ who t.
Proof.
  intros Hrest Hoff n. exists (n `max` N). split; [lia|]. right. intros k Hk.
  rewrite Hrest by lia. done.
Qed.
End fairness.
