(* ===== verification/EventLoop.v ===== *)
(** * EventLoop: evhelper.cpp, evhelper.hpp, timer.hpp

    The event loop that runs URB's timers.  [EvHelper] keeps a map from fire
    times, in tenths of a second, to lists of timers; [Timer] objects of the
    program put themselves in it.  A [Timer] never enters the map itself: every
    [delay] allocates an inner timer, which the map and the outer object share.
    Inner timers are therefore objects with an identity, kept in [heap].

    The clock and libev are outside of the program.  [Clock] gives the value of
    the n-th reading of [system_clock::now()], in nanoseconds.  Of libev, the
    model has what its manual says of the calls used here: an [ev_async_send]
    makes the next iteration run [async_cb], a fed event runs its callback in the
    same iteration, and the watcher fires at the first iteration at or after its
    deadline.  The methods that timers run are given by the timer operations
    they make, in [methods]. *)

From S2P Require Import Prelude.
#[local] Open Scope list_scope.
#[local] Open Scope Z_scope.

Class Clock := system_clock : nat → Z.

(** [timer_time_point] counts tenths of a second, and [time_point_cast]
    truncates. *)
Definition deci : Z := 100000000.
Definition time_point_cast (ns : Z) : Z := Z.quot ns deci.

Section evloop.
Context {M : Type}.

(** An inner [Timer]: what [EvHelper] sees of it. *)
Record TimerBase := mkTimer {
  active_ : bool;
  fireTime_ : Z;
  method : option M }.

(** A [Timer] member of some object: its own flag, and its inner timer. *)
Record Timer := mkOuter {
  outer_active_ : bool;
  inner : option nat }.

(** What a program does with its timers. *)
Inductive TimerOp :=
  | op_delay (t : nat) (ns : Z) (m : M)
  | op_delay_ticks (t : nat) (ticks : Z) (m : M)
  | op_cancel (t : nat).

Record EvHelper := mkEv {
  heap : list TimerBase;
  outers : gmap nat Timer;
  s_timers_ : list (Z * list nat);
  s_enabled_ : bool;
  loopExited_ : bool;
  async_sent : bool;
  fed : bool;
  deadline : option Z;
  reads : nat;
  executed : list (nat * Z) }.

(** The constructor: the watcher starts with no delay. *)
Definition new_EvHelper : EvHelper :=
  mkEv [] ∅ [] true false false false (Some 0) 0 [].

(** ** The timers *)

(** [s_timers_[key].push_back(t)], after an empty list was put under a new key;
    a [std::map] keeps its keys in order. *)
Fixpoint push_timer (key : Z) (id : nat) (l : list (Z * list nat)) : list (Z * list nat) :=
  match l with
  | [] => [(key, [id])]
  | (k, ids) :: l' =>
      if key <? k then (key, [id]) :: l
      else if key =? k then (k, ids ++ [id]) :: l'
      else (k, ids) :: push_timer key id l'
  end.

Definition refresh (s : EvHelper) : EvHelper :=
  mkEv (heap s) (outers s) (s_timers_ s) (s_enabled_ s) (loopExited_ s) true (fed s)
       (deadline s) (reads s) (executed s).

Definition scheduleTimer (id : nat) (key : Z) (s : EvHelper) : EvHelper :=
  refresh (mkEv (heap s) (outers s) (push_timer key id (s_timers_ s)) (s_enabled_ s)
                (loopExited_ s) (async_sent s) (fed s) (deadline s) (reads s) (executed s)).

Definition get_outer (t : nat) (s : EvHelper) : Timer :=
  default (mkOuter false None) (outers s !! t).

(** [make_shared<Timer<T>>], its fields, and [scheduleTimer(inner)]. *)
Definition start_inner (t : nat) (fire : Z) (m : M) (s : EvHelper) : EvHelper :=
  let id := length (heap s) in
  scheduleTimer id fire
    (mkEv (heap s ++ [mkTimer true fire (Some m)])
          (<[t := mkOuter (outer_active_ (get_outer t s)) (Some id)]> (outers s))
          (s_timers_ s) (s_enabled_ s) (loopExited_ s) (async_sent s) (fed s)
          (deadline s) (reads s) (executed s)).

Definition set_active (b : bool) (id : nat) (s : EvHelper) : EvHelper :=
  mkEv (alter (fun tm => mkTimer b (fireTime_ tm) (method tm)) id (heap s)) (outers s)
       (s_timers_ s) (s_enabled_ s) (loopExited_ s) (async_sent s) (fed s)
       (deadline s) (reads s) (executed s).

Definition cancel (t : nat) (s : EvHelper) : EvHelper :=
  let o := get_outer t s in
  let s := mkEv (heap s) (<[t := mkOuter false (inner o)]> (outers s)) (s_timers_ s)
                (s_enabled_ s) (loopExited_ s) (async_sent s) (fed s) (deadline s)
                (reads s) (executed s) in
  match inner o with Some id => set_active false id s | None => s end.

Section ops.
Context `{Clock}.

Definition read_clock (s : EvHelper) : Z * EvHelper :=
  (system_clock (reads s),
   mkEv (heap s) (outers s) (s_timers_ s) (s_enabled_ s) (loopExited_ s) (async_sent s)
        (fed s) (deadline s) (S (reads s)) (executed s)).

(** [Timer::delay(const Duration&, method)]. *)
Definition delay (t : nat) (ns : Z) (m : M) (s : EvHelper) : EvHelper :=
  if outer_active_ (get_outer t s) then s
  else let '(now, s) := read_clock s in
       start_inner t (time_point_cast (i64_wrap (now + ns))) m s.

(** [Timer::delay(const timer_time_point::duration&, method)]. *)
Definition delay_ticks (t : nat) (ticks : Z) (m : M) (s : EvHelper) : EvHelper :=
  if outer_active_ (get_outer t s) then s
  else let '(now, s) := read_clock s in
       start_inner t (i64_wrap (time_point_cast now + ticks)) m s.

Definition timer_op (s : EvHelper) (o : TimerOp) : EvHelper :=
  match o with
  | op_delay t ns m => delay t ns m s
  | op_delay_ticks t ticks m => delay_ticks t ticks m s
  | op_cancel t => cancel t s
  end.

Section loop.
Context (methods : M → list TimerOp).

(** ** Running due timers *)

Definition getActive (id : nat) (s : EvHelper) : bool :=
  match heap s !! id with Some tm => active_ tm | None => false end.

(** [executeMethod]; [executed] remembers the timers whose method ran, and the
    clock reading of the [timeout_cb] that ran them. *)
Definition executeMethod (now : Z) (s : EvHelper) (id : nat) : EvHelper :=
  match heap s !! id with
  | Some tm =>
      if active_ tm then
        let s := set_active false id s in
        match method tm with
        | Some m =>
            foldl timer_op
              (mkEv (heap s) (outers s) (s_timers_ s) (s_enabled_ s) (loopExited_ s)
                    (async_sent s) (fed s) (deadline s) (reads s) (executed s ++ [(id, now)]))
              (methods m)
        | None => s
        end
      else s
  | None => s
  end.

Definition run_callback (now : Z) (s : EvHelper) (id : nat) : EvHelper :=
  if getActive id s then executeMethod now s id else s.

(** The timers before [upper_bound(now)], and those from there on. *)
Fixpoint split_due (now : Z) (l : list (Z * list nat)) : list nat * list (Z * list nat) :=
  match l with
  | [] => ([], [])
  | (k, ids) :: l' =>
      if k <=? now then let '(due, rest) := split_due now l' in (ids ++ due, rest)
      else ([], l)
  end.

(** [ev_timer_again]: the deadline is relative to the time of the iteration; a
    repeat of zero stops the watcher. *)
Definition ev_timer_again (T : Z) (repeat : Z) (s : EvHelper) : EvHelper :=
  mkEv (heap s) (outers s) (s_timers_ s) (s_enabled_ s) (loopExited_ s) (async_sent s)
       (fed s) (if repeat =? 0 then None else Some (T + repeat * deci)) (reads s) (executed s).

(** How long until the next timer, or a minute. *)
Definition next_duration (now : Z) (rest : list (Z * list nat)) : Z :=
  match rest with (k, _) :: _ => k - now | [] => 600 end.

(** The guard [now >= begin()->first] is that of the first step of [split_due]. *)
Definition timeout_cb (T : Z) (s : EvHelper) : EvHelper :=
  if negb (s_enabled_ s) then s
  else
    let '(now_ns, s) := read_clock s in
    let now := time_point_cast now_ns in
    let '(callbacks, rest) := split_due now (s_timers_ s) in
    let s := mkEv (heap s) (outers s) rest (s_enabled_ s) (loopExited_ s) (async_sent s)
                  (fed s) (deadline s) (reads s) (executed s) in
    ev_timer_again T (next_duration now rest) (foldl (run_callback now_ns) s callbacks).

Definition async_cb (s : EvHelper) : EvHelper :=
  if negb (s_enabled_ s) then s
  else
    mkEv (heap s) (outers s) (s_timers_ s) (s_enabled_ s) (loopExited_ s) (async_sent s)
         true None (reads s) (executed s).

(** One [ev_run(loop, EVRUN_ONCE)]: what is pending at the time of the iteration.  The
    time by which libev decides whether the watcher is due is a reading of the same clock
    as that of [timeout_cb]. *)
Definition ev_run_once (s : EvHelper) : EvHelper :=
  let '(T, s) := read_clock s in
  let s := if async_sent s
           then async_cb (mkEv (heap s) (outers s) (s_timers_ s) (s_enabled_ s) (loopExited_ s)
                               false (fed s) (deadline s) (reads s) (executed s))
           else s in
  if fed s || match deadline s with Some d => d <=? T | None => false end
  then timeout_cb T (mkEv (heap s) (outers s) (s_timers_ s) (s_enabled_ s) (loopExited_ s)
                          (async_sent s) false None (reads s) (executed s))
  else s.

(** One turn of the loop of [eventLoop], or its exit. *)
Definition eventLoop_turn (s : EvHelper) : EvHelper :=
  if s_enabled_ s then ev_run_once s
  else mkEv (heap s) (outers s) (s_timers_ s) (s_enabled_ s) true (async_sent s) (fed s)
            (deadline s) (reads s) (executed s).

(** [shutdown], from the main or the loop's thread, or from another one. *)
Definition ev_shutdown (own_thread : bool) (s : EvHelper) : EvHelper :=
  let s := mkEv (heap s) (outers s) (s_timers_ s) false (loopExited_ s) (async_sent s) (fed s)
                (deadline s) (reads s) (executed s) in
  if own_thread then refresh s else s.

(** ** A running event loop *)

Inductive EvEvent :=
  | ev_op (o : TimerOp)
  | ev_turn
  | ev_stop (own_thread : bool).

Definition ev_event (s : EvHelper) (e : EvEvent) : EvHelper :=
  match e with
  | ev_op o => timer_op s o
  | ev_turn => eventLoop_turn s
  | ev_stop b => ev_shutdown b s
  end.

Inductive ev_reachable : EvHelper → Prop :=
  | ev_reachable_new : ev_reachable new_EvHelper
  | ev_reachable_step s e : ev_reachable s → ev_reachable (ev_event s e).

End loop.
End ops.
End evloop.

Arguments TimerBase : clear implicits.
Arguments TimerOp : clear implicits.
Arguments EvHelper : clear implicits.
Arguments EvEvent : clear implicits.
