(* ===== verification/EventLoopLaws.v ===== *)
(** * EventLoopLaws: what the event loop does with timers

    The invariant of the timer map ([ev_inv]): its keys are in order, every timer
    is under its fire time and at most once, and a timer that is still active is in
    the map.  From it: due timers run, in order and once; none runs early; and a
    turn of the loop after a timer's time runs it. *)

From S2P Require Import Prelude EventLoop.
#[local] Open Scope list_scope.
#[local] Open Scope Z_scope.

(** The timers in the map, in the order in which they will run. *)
Definition pending {M} (s : EvHelper M) : list nat := mjoin (snd <$> s_timers_ s).

Definition keys_sorted (l : list (Z * list nat)) : Prop := StronglySorted Z.lt (fst <$> l).

(** [id] is in the map under [k]. *)
Definition under (k : Z) (id : nat) (l : list (Z * list nat)) : Prop :=
  ∃ ids, (k, ids) ∈ l ∧ id ∈ ids.

(** ** The map *)

Lemma push_timer_perm k id l :
  mjoin (snd <$> push_timer k id l) ≡ₚ id :: mjoin (snd <$> l).
Proof.
  induction l as [|[k' ids] l IH]; cbn; [done|].
  repeat case_if; cbn; [done| |].
  - rewrite <-(assoc_L (++)). cbn. by rewrite <-Permutation_middle.
  - by rewrite IH, <-Permutation_middle.
Qed.

Lemma under_cons k id k' ids l :
  under k id ((k', ids) :: l) ↔ (k = k' ∧ id ∈ ids) ∨ under k id l.
Proof. unfold under. set_solver. Qed.

Lemma under_nil k id : ¬ under k id [].
Proof. unfold under. set_solver. Qed.

Lemma push_timer_under k id l k' id' :
  under k' id' (push_timer k id l) ↔ (k' = k ∧ id' = id) ∨ under k' id' l.
Proof.
  induction l as [|[k0 ids] l IH]; cbn.
  - rewrite under_cons. set_solver.
  - repeat case_if; breflect; rewrite !under_cons, ?IH; set_solver.
Qed.

Lemma push_timer_keys k id l x :
  x ∈ fst <$> push_timer k id l → x = k ∨ x ∈ fst <$> l.
Proof.
  induction l as [|[k0 ids] l IH]; cbn; [set_solver|].
  repeat case_if; set_solver.
Qed.

Lemma push_timer_sorted k id l : keys_sorted l → keys_sorted (push_timer k id l).
Proof.
  unfold keys_sorted. induction l as [|[k0 ids] l IH]; cbn; intros Hs.
  - repeat constructor.
  - apply StronglySorted_inv in Hs as [Hs Hf].
    repeat case_if; breflect; cbn.
    + constructor; [by constructor|]. constructor; [done|].
      eapply Forall_impl; [exact Hf|]. cbn; lia.
    + by constructor.
    + constructor; [by apply IH|]. apply Forall_forall. intros x Hx.
      apply push_timer_keys in Hx as [->|Hx]; [lia|].
      by eapply Forall_forall in Hf.
Qed.

Lemma pending_under {M} (s : EvHelper M) id : id ∈ pending s ↔ ∃ k, under k id (s_timers_ s).
Proof.
  unfold pending, under. rewrite list_elem_of_join. setoid_rewrite list_elem_of_fmap. split.
  - intros (ids & Hin & ((k & ids') & -> & Hl)). eauto.
  - intros (k & ids & Hl & Hin). exists ids. split; [done|]. by exists (k, ids).
Qed.

Lemma split_due_concat now l :
  (split_due now l).1 ++ mjoin (snd <$> (split_due now l).2) = mjoin (snd <$> l).
Proof.
  induction l as [|[k ids] l IH]; cbn; [done|].
  case_if; cbn; [|done]. destruct (split_due now l) as [due rest]. cbn in *.
  by rewrite <-(assoc_L (++)), IH.
Qed.

Lemma split_due_sorted now l : keys_sorted l → keys_sorted (split_due now l).2.
Proof.
  unfold keys_sorted. induction l as [|[k ids] l IH]; cbn; intros Hs; [done|].
  case_if; [|done]. apply StronglySorted_inv in Hs as [Hs _].
  specialize (IH Hs). by destruct (split_due now l).
Qed.

(** The rest of the map has the later timers, the due ones have passed. *)
Lemma split_due_rest now l k id :
  keys_sorted l → under k id (split_due now l).2 ↔ under k id l ∧ now < k.
Proof.
  unfold keys_sorted. induction l as [|[k0 ids] l IH]; cbn; intros Hs.
  { split; [by intros ?%under_nil|by intros [?%under_nil _]]. }
  apply StronglySorted_inv in Hs as [Hs Hf]. specialize (IH Hs).
  case_if; breflect.
  - destruct (split_due now l) as [due rest]; cbn in *.
    rewrite under_cons, IH. split; [tauto|].
    intros [[[-> _]|Hu] Hk]; [lia|done].
  - cbn. split; [|by intros [? _]]. intros Hu. split; [done|].
    apply under_cons in Hu as [[-> _]|(ids' & Hin & _)]; [lia|].
    eapply Forall_forall in Hf; [|apply list_elem_of_fmap; eexists; split; [|exact Hin]; done].
    cbn in Hf. lia.
Qed.

Lemma split_due_due now l id :
  id ∈ (split_due now l).1 → ∃ k, under k id l ∧ k ≤ now.
Proof.
  induction l as [|[k ids] l IH]; cbn; [set_solver|].
  case_if; [|set_solver]. breflect.
  destruct (split_due now l) as [due rest]; cbn in *.
  rewrite elem_of_app. intros [Hin|Hin].
  - exists k. rewrite under_cons. auto.
  - destruct (IH Hin) as (k' & Hu & Hle). exists k'. rewrite under_cons. auto.
Qed.

(** The due timers are those whose time has come, in the order of the map. *)
Lemma split_due_filter now (fire : nat → Z) l :
  keys_sorted l → (∀ k id, under k id l → fire id = k) →
  (split_due now l).1 = filter (fun id => fire id ≤ now) (mjoin (snd <$> l)).
Proof.
  unfold keys_sorted. induction l as [|[k ids] l IH]; cbn; intros Hs Hk; [done|].
  apply StronglySorted_inv in Hs as [Hs Hf].
  assert (Hids : ∀ id, id ∈ ids → fire id = k)
    by (intros id Hin; apply Hk, under_cons; auto).
  rewrite filter_app. case_if; breflect.
  - rewrite list_filter_all by (apply Forall_forall; intros id Hin; by rewrite Hids).
    specialize (IH Hs). destruct (split_due now l). cbn in *. rewrite IH; [done|].
    intros k' id Hu. apply Hk, under_cons. auto.
  - symmetry. rewrite <-filter_app. apply list_filter_nil.
    intros id [Hin|Hin]%elem_of_app; [rewrite Hids; [lia|done]|].
    apply list_elem_of_join in Hin as (ids' & Hin & ((k' & ids0) & -> & Hl)%list_elem_of_fmap).
    rewrite (Hk k') by (apply under_cons; right; by exists ids0).
    eapply Forall_forall in Hf; [|apply list_elem_of_fmap; eexists; split; [|exact Hl]; done].
    cbn in Hf. lia.
Qed.

(** ** The invariant

    [B] are the timers that the running [timeout_cb] has taken out of the map and
    not yet looked at; it is empty between events.  [c] is its clock reading. *)

Section invariant.
Context {M : Type}.
Implicit Types (h : list (TimerBase M)) (l : list (Z * list nat)) (ex : list (nat * Z)).

Definition due_at (c : Z) h (id : nat) : Prop :=
  ∃ tm, h !! id = Some tm ∧ fireTime_ tm ≤ time_point_cast c.

Definition has_run h (id : nat) (c : Z) : Prop :=
  ∃ tm, h !! id = Some tm ∧ active_ tm = false ∧ fireTime_ tm ≤ time_point_cast c.

Record tinv (c : Z) (B : list nat) h l ex : Prop := mkTinv {
  tinv_sorted : keys_sorted l;
  tinv_under : ∀ k id, under k id l → ∃ tm, h !! id = Some tm ∧ fireTime_ tm = k;
  tinv_nodup : NoDup (B ++ mjoin (snd <$> l) ++ ex.*1);
  tinv_due : ∀ id, id ∈ B → due_at c h id;
  tinv_active : ∀ id tm, h !! id = Some tm → active_ tm = true → id ∈ B ++ mjoin (snd <$> l);
  tinv_ran : ∀ id c', (id, c') ∈ ex → has_run h id c';
  tinv_method : Forall (fun tm => method tm ≠ None) h }.

(** Every timer the invariant speaks of has been allocated. *)
Lemma tinv_allocated c B h l ex id :
  tinv c B h l ex → id ∈ B ++ mjoin (snd <$> l) ++ ex.*1 → (id < length h)%nat.
Proof.
  intros Hi. rewrite !elem_of_app. intros [Hin|[Hin|Hin]].
  - destruct (tinv_due _ _ _ _ _ Hi _ Hin) as (tm & Hl & _). by eapply lookup_lt_Some.
  - apply list_elem_of_join in Hin as (ids & Hin & ((k & ids') & -> & Hl)%list_elem_of_fmap).
    destruct (tinv_under _ _ _ _ _ Hi k id) as (tm & Ht & _); [by exists ids'|].
    by eapply lookup_lt_Some.
  - apply list_elem_of_fmap in Hin as ([i c'] & -> & Hin).
    destruct (tinv_ran _ _ _ _ _ Hi _ _ Hin) as (tm & Ht & _). by eapply lookup_lt_Some.
Qed.

Lemma tinv_start c B h l ex fire m :
  tinv c B h l ex →
  tinv c B (h ++ [mkTimer true fire (Some m)]) (push_timer fire (length h) l) ex.
Proof.
  intros Hi. assert (Hkeep : ∀ id tm, h !! id = Some tm →
    (h ++ [mkTimer true fire (Some m)]) !! id = Some tm) by (intros; by apply lookup_app_l_Some).
  split.
  - by apply push_timer_sorted, Hi.
  - intros k id [[-> ->]|Hu]%push_timer_under.
    + exists (mkTimer true fire (Some m)). by rewrite lookup_app_r, Nat.sub_diag by lia.
    + destruct (tinv_under _ _ _ _ _ Hi _ _ Hu) as (tm & Ht & Hf). eauto.
  - rewrite push_timer_perm. cbn. rewrite <-Permutation_middle. constructor; [|apply Hi].
    intros Hin. eapply tinv_allocated in Hin; [|done]. lia.
  - intros id Hin. destruct (tinv_due _ _ _ _ _ Hi _ Hin) as (tm & Ht & Hf).
    exists tm. auto.
  - intros id tm Ht Ha. rewrite push_timer_perm.
    apply lookup_snoc_Some in Ht as [[Hlt Ht]|[-> <-]]; [|set_solver].
    pose proof (tinv_active _ _ _ _ _ Hi _ _ Ht Ha). set_solver.
  - intros id c' Hin. destruct (tinv_ran _ _ _ _ _ Hi _ _ Hin) as (tm & Ht & Ha & Hf).
    exists tm. auto.
  - apply Forall_app. split; [apply Hi|]. by repeat constructor.
Qed.

(** Timers only ever lose their [active_] flag. *)
Lemma lookup_set_false h id i tm :
  alter (fun tm => mkTimer false (fireTime_ tm) (method tm)) id h !! i = Some tm →
  ∃ tm0, h !! i = Some tm0 ∧ fireTime_ tm = fireTime_ tm0 ∧
         (active_ tm = true → active_ tm0 = true ∧ i ≠ id).
Proof.
  destruct (decide (i = id)) as [->|Hne].
  - rewrite list_lookup_alter_eq. intros (tm0 & Ht & ->)%fmap_Some. by exists tm0.
  - rewrite list_lookup_alter_ne by done. eauto.
Qed.

Lemma lookup_set_false_intro h id i tm0 :
  h !! i = Some tm0 →
  ∃ tm, alter (fun tm => mkTimer false (fireTime_ tm) (method tm)) id h !! i = Some tm ∧
        fireTime_ tm = fireTime_ tm0 ∧
        (i = id ∨ active_ tm0 = false → active_ tm = false).
Proof.
  intros Ht. destruct (decide (i = id)) as [->|Hne].
  - rewrite list_lookup_alter_eq, Ht. cbn. eauto.
  - rewrite list_lookup_alter_ne by done. exists tm0. naive_solver.
Qed.

Lemma tinv_deactivate c B h l ex id :
  tinv c B h l ex →
  tinv c B (alter (fun tm => mkTimer false (fireTime_ tm) (method tm)) id h) l ex.
Proof.
  intros Hi. split; [apply Hi| |apply Hi| | | |].
  - intros k i Hu. destruct (tinv_under _ _ _ _ _ Hi _ _ Hu) as (tm & Ht & <-).
    destruct (lookup_set_false_intro h id i tm Ht) as (tm' & ? & ? & _). eauto.
  - intros i Hin. destruct (tinv_due _ _ _ _ _ Hi _ Hin) as (tm & Ht & Hf).
    destruct (lookup_set_false_intro h id i tm Ht) as (tm' & ? & Hf' & _).
    exists tm'. by rewrite Hf'.
  - intros i tm (tm0 & Ht0 & _ & Ha)%lookup_set_false Hact.
    destruct (Ha Hact). by eapply tinv_active.
  - intros i c' Hin. destruct (tinv_ran _ _ _ _ _ Hi _ _ Hin) as (tm & Ht & Ha & Hf).
    destruct (lookup_set_false_intro h id i tm Ht) as (tm' & ? & Hf' & Ha').
    exists tm'. rewrite Hf'. auto.
  - apply Forall_alter; [apply Hi|]. intros tm Ht Hm. apply Hm.
Qed.

Lemma tinv_run c B h l ex id :
  tinv c (id :: B) h l ex →
  tinv c B (alter (fun tm => mkTimer false (fireTime_ tm) (method tm)) id h) l
       (ex ++ [(id, c)]).
Proof.
  intros Hi. pose proof (tinv_deactivate _ _ _ _ _ id Hi) as Hd. split; try apply Hd.
  - rewrite fmap_app. cbn.
    assert (B ++ mjoin (snd <$> l) ++ ex.*1 ++ [id] ≡ₚ (id :: B) ++ mjoin (snd <$> l) ++ ex.*1)
      as -> by (cbn; rewrite !(assoc_L (++)); by rewrite <-Permutation_cons_append).
    apply Hi.
  - intros i Hin. apply Hd. by right.
  - intros i tm Ht Ha. apply lookup_set_false in Ht as (tm0 & Ht0 & _ & Hact).
    destruct (Hact Ha) as [Ha0 Hne].
    pose proof (tinv_active _ _ _ _ _ Hi _ _ Ht0 Ha0). set_solver.
  - intros i c'. rewrite elem_of_app, list_elem_of_singleton. intros [Hin|[= -> ->]].
    + by apply Hd.
    + destruct (tinv_due _ _ _ _ _ Hi id) as (tm & Ht & Hf); [set_solver|].
      destruct (lookup_set_false_intro h id id tm Ht) as (tm' & ? & Hf' & Ha').
      exists tm'. rewrite Hf'. auto.
Qed.

Lemma tinv_skip c B h l ex id :
  tinv c (id :: B) h l ex → (∀ tm, h !! id = Some tm → active_ tm = false) →
  tinv c B h l ex.
Proof.
  intros Hi Hna. split; try apply Hi.
  - pose proof (tinv_nodup _ _ _ _ _ Hi) as Hn. by apply NoDup_cons in Hn as [_ ?].
  - intros i Hin. apply Hi. by right.
  - intros i tm Ht Ha. pose proof (tinv_active _ _ _ _ _ Hi _ _ Ht Ha) as Hin.
    apply elem_of_cons in Hin as [->|Hin]; [|done]. rewrite (Hna _ Ht) in Ha. done.
Qed.

Lemma tinv_split c0 c h l ex :
  tinv c0 [] h l ex →
  tinv c (split_due (time_point_cast c) l).1 h (split_due (time_point_cast c) l).2 ex.
Proof.
  intros Hi. pose proof (split_due_concat (time_point_cast c) l) as Hc.
  split; try apply Hi.
  - apply split_due_sorted, Hi.
  - intros k id [Hu _]%split_due_rest; [|apply Hi]. by apply (tinv_under _ _ _ _ _ Hi).
  - rewrite (assoc_L (++)), Hc. apply Hi.
  - intros id Hin%split_due_due. destruct Hin as (k & Hu & Hle).
    destruct (tinv_under _ _ _ _ _ Hi _ _ Hu) as (tm & Ht & <-). by exists tm.
  - intros id tm Ht Ha. rewrite Hc. by eapply (tinv_active _ _ _ _ _ Hi).
Qed.

Lemma tinv_change_clock c c' h l ex : tinv c [] h l ex → tinv c' [] h l ex.
Proof. intros Hi. split; try apply Hi. intros id Hin. set_solver. Qed.

End invariant.

(** ** States *)

Definition ev_inv {M} (c : Z) (B : list nat) (s : EvHelper M) : Prop :=
  tinv c B (heap s) (s_timers_ s) (executed s).

Definition is_cancel {M} (o : TimerOp M) : bool :=
  match o with op_cancel _ => true | _ => false end.

(** What a callback may do to the loop: it schedules timers, which wakes the loop
    up, and deactivates timers; it runs none. *)
Record later {M} (s s' : EvHelper M) : Prop := mkLater {
  later_heap : ∀ id tm, heap s !! id = Some tm →
    ∃ tm', heap s' !! id = Some tm' ∧ fireTime_ tm' = fireTime_ tm ∧
           (active_ tm' = true → active_ tm = true);
  later_under : ∀ k id, under k id (s_timers_ s) → under k id (s_timers_ s');
  later_woken : ∀ k id, under k id (s_timers_ s') →
    under k id (s_timers_ s) ∨ (async_sent s' = true ∧ (length (heap s) ≤ id)%nat);
  later_async : async_sent s = true → async_sent s' = true;
  later_enabled : s_enabled_ s' = s_enabled_ s;
  later_length : (length (heap s) ≤ length (heap s'))%nat;
  later_reads : (reads s ≤ reads s')%nat;
  later_executed : ∃ ran, executed s' = executed s ++ ran }.

#[export] Instance later_preorder {M} : PreOrder (@later M).
Proof.
  split.
  - intros s. split; eauto. exists []. by rewrite app_nil_r.
  - intros s1 s2 s3 H12 H23. split.
    + intros id tm Ht. destruct (later_heap _ _ H12 _ _ Ht) as (tm2 & Ht2 & Hf2 & Ha2).
      destruct (later_heap _ _ H23 _ _ Ht2) as (tm3 & Ht3 & Hf3 & Ha3).
      exists tm3. split_and!; [done|congruence|auto].
    + intros k id Hu. by apply H23, H12.
    + intros k id Hu. pose proof (later_length _ _ H12).
      destruct (later_woken _ _ H23 _ _ Hu) as [Hu2|[? ?]]; [|right; split; [done|lia]].
      destruct (later_woken _ _ H12 _ _ Hu2) as [|[Ha ?]]; [auto|].
      right. split; [by apply (later_async _ _ H23)|done].
    + intros Ha. by apply H23, H12.
    + rewrite (later_enabled _ _ H23). apply H12.
    + pose proof (later_length _ _ H12). pose proof (later_length _ _ H23). lia.
    + pose proof (later_reads _ _ H12). pose proof (later_reads _ _ H23). lia.
    + destruct (later_executed _ _ H12) as [r1 E1], (later_executed _ _ H23) as [r2 E2].
      exists (r1 ++ r2). by rewrite E2, E1, (assoc_L (++)).
Qed.

Section preservation.
Context {M : Type} `{Clock}.
Implicit Types s : EvHelper M.

Lemma start_inner_inv c B t fire m s :
  ev_inv c B s → ev_inv c B (start_inner t fire m s).
Proof. apply tinv_start. Qed.

Lemma start_inner_later t fire m s : later s (start_inner t fire m s).
Proof.
  split; cbn; try done; [| | |rewrite length_app; lia|exists []; by rewrite app_nil_r].
  - intros id tm Ht. exists tm. split_and!; [by apply lookup_app_l_Some|done|done].
  - intros k id Hu. rewrite push_timer_under. auto.
  - intros k id [[-> ->]|Hu]%push_timer_under; auto.
Qed.

Lemma read_clock_later s : later s (read_clock s).2.
Proof. split; cbn; eauto with lia. exists []. by rewrite app_nil_r. Qed.

Lemma set_active_later id s : later s (set_active false id s).
Proof.
  split; cbn; eauto; [|by rewrite length_alter|exists []; by rewrite app_nil_r].
  intros i tm Ht. destruct (lookup_set_false_intro _ id i tm Ht) as (tm' & Ht' & Hf & Ha).
  exists tm'. split_and!; [done|done|]. intros Hact.
  destruct (active_ tm); [done|]. rewrite Ha in Hact; auto.
Qed.

Lemma timer_op_inv c B s o : ev_inv c B s → ev_inv c B (timer_op s o).
Proof.
  intros Hi. destruct o as [t ns m|t ticks m|t]; cbn.
  - unfold delay. case_if; [done|]. by apply start_inner_inv.
  - unfold delay_ticks. case_if; [done|]. by apply start_inner_inv.
  - unfold cancel. destruct (inner (get_outer t s)); [|done]. by apply tinv_deactivate.
Qed.

Lemma timer_op_later s o : later s (timer_op s o).
Proof.
  destruct o as [t ns m|t ticks m|t]; cbn.
  - unfold delay. case_if; [done|].
    etrans; [apply read_clock_later|apply start_inner_later].
  - unfold delay_ticks. case_if; [done|].
    etrans; [apply read_clock_later|apply start_inner_later].
  - unfold cancel. destruct (inner (get_outer t s)) as [id|].
    + etrans; [|apply set_active_later].
      split; cbn; eauto. exists []. by rewrite app_nil_r.
    + split; cbn; eauto. exists []. by rewrite app_nil_r.
Qed.

(** Timer operations run no timer. *)
Lemma timer_op_executed s o : executed (timer_op s o) = executed s.
Proof.
  destruct o; cbn; [unfold delay|unfold delay_ticks|unfold cancel].
  - by case_if.
  - by case_if.
  - by case_match.
Qed.

(** Without [cancel], the timers that exist stay active. *)
Lemma timer_op_keeps s o id tm :
  is_cancel o = false → heap s !! id = Some tm → heap (timer_op s o) !! id = Some tm.
Proof.
  intros Hc Ht. destruct o; cbn in *; [unfold delay|unfold delay_ticks|done].
  - case_if; [done|]. by apply lookup_app_l_Some.
  - case_if; [done|]. by apply lookup_app_l_Some.
Qed.

Lemma timer_ops_frame c B ops s :
  ev_inv c B s →
  ev_inv c B (foldl timer_op s ops) ∧ later s (foldl timer_op s ops).
Proof.
  revert s. induction ops as [|o ops IH]; intros s Hi; cbn; [done|].
  destruct (IH (timer_op s o)) as [H1 H2]; [by apply timer_op_inv|].
  split; [done|]. etrans; [apply timer_op_later|done].
Qed.

Lemma timer_ops_executed ops s : executed (foldl timer_op s ops) = executed s.
Proof.
  revert s. induction ops as [|o ops IH]; intros s; cbn; [done|].
  by rewrite IH, timer_op_executed.
Qed.

Lemma timer_ops_keep ops s id tm :
  Forall (fun o => is_cancel o = false) ops →
  heap s !! id = Some tm → heap (foldl timer_op s ops) !! id = Some tm.
Proof.
  intros Hc. revert s. induction Hc as [|o ops Ho _ IH]; intros s Ht; cbn; [done|].
  by apply IH, timer_op_keeps.
Qed.

Section loop.
Context (methods : M → list (TimerOp M)).
Abbreviation run_callback := (run_callback methods).

(** The state in which the method of timer [id] starts. *)
Definition ran_state (c : Z) (s : EvHelper M) (id : nat) : EvHelper M :=
  let s := set_active false id s in
  mkEv (heap s) (outers s) (s_timers_ s) (s_enabled_ s) (loopExited_ s) (async_sent s)
       (fed s) (deadline s) (reads s) (executed s ++ [(id, c)]).

Lemma ran_state_later c s id : later s (ran_state c s id).
Proof.
  etrans; [apply set_active_later|]. split; cbn; eauto.
Qed.

Lemma run_callback_cases c s id tm :
  heap s !! id = Some tm →
  (active_ tm = false ∧ run_callback c s id = s) ∨
  (active_ tm = true ∧ method tm = None ∧ run_callback c s id = set_active false id s) ∨
  (∃ m, active_ tm = true ∧ method tm = Some m ∧
        run_callback c s id = foldl timer_op (ran_state c s id) (methods m)).
Proof.
  intros Ht. unfold EventLoop.run_callback, getActive, executeMethod. rewrite Ht.
  destruct (active_ tm) eqn:Ha; [|auto]. right. destruct (method tm) as [m|]; [|auto].
  right. by exists m.
Qed.

Lemma run_callback_frame c B s id :
  ev_inv c (id :: B) s →
  ev_inv c B (run_callback c s id) ∧ later s (run_callback c s id).
Proof.
  intros Hi. destruct (tinv_due _ _ _ _ _ Hi id) as (tm & Ht & Hf); [by left|].
  destruct (run_callback_cases c s id tm Ht) as [[Ha ->]|[(Ha & Hm & ->)|(m & Ha & Hm & ->)]].
  - split; [|done]. eapply tinv_skip; [done|]. intros tm' Ht'. by simplify_eq.
  - split; [|apply set_active_later]. eapply tinv_skip; [by apply tinv_deactivate|].
    intros tm' (tm0 & Ht0 & _ & Hact)%lookup_set_false.
    destruct (active_ tm'); [|done]. by destruct (Hact eq_refl).
  - destruct (timer_ops_frame c B (methods m) (ran_state c s id)) as [H1 H2].
    { by apply tinv_run. }
    split; [done|]. etrans; [apply ran_state_later|done].
Qed.

Lemma run_callbacks_frame c B s :
  ev_inv c B s →
  ev_inv c [] (foldl (run_callback c) s B) ∧ later s (foldl (run_callback c) s B).
Proof.
  revert s. induction B as [|id B IH]; intros s Hi; cbn; [done|].
  destruct (run_callback_frame c B s id Hi) as [H1 H2].
  destruct (IH _ H1) as [H3 H4]. split; [done|]. by etrans.
Qed.

(** The state that [timeout_cb] hands to the callbacks. *)
Definition taken (s : EvHelper M) : EvHelper M :=
  let c := system_clock (reads s) in
  mkEv (heap s) (outers s) (split_due (time_point_cast c) (s_timers_ s)).2 (s_enabled_ s)
       (loopExited_ s) (async_sent s) (fed s) (deadline s) (S (reads s)) (executed s).

Definition due_now (s : EvHelper M) : list nat :=
  (split_due (time_point_cast (system_clock (reads s))) (s_timers_ s)).1.

Lemma timeout_cb_eq T s :
  s_enabled_ s = true →
  timeout_cb methods T s =
  ev_timer_again T (next_duration (time_point_cast (system_clock (reads s))) (s_timers_ (taken s)))
    (foldl (run_callback (system_clock (reads s))) (taken s) (due_now s)).
Proof.
  intros He. unfold timeout_cb, taken, due_now, read_clock. rewrite He. cbn.
  by destruct (split_due _ _).
Qed.

Lemma taken_inv c s : ev_inv c [] s → ev_inv (system_clock (reads s)) (due_now s) (taken s).
Proof. apply tinv_split. Qed.

Lemma timeout_cb_inv c T s : ev_inv c [] s → ev_inv c [] (timeout_cb methods T s).
Proof.
  intros Hi. destruct (s_enabled_ s) eqn:He.
  - rewrite timeout_cb_eq by done. eapply tinv_change_clock.
    apply (run_callbacks_frame (system_clock (reads s)) (due_now s)). by eapply taken_inv.
  - unfold timeout_cb. by rewrite He.
Qed.

Lemma ev_event_inv c s e : ev_inv c [] s → ev_inv c [] (ev_event methods s e).
Proof.
  intros Hi. destruct e as [o| |b]; cbn.
  - by apply timer_op_inv.
  - unfold eventLoop_turn. case_if; [|done]. unfold ev_run_once, read_clock.
    unfold async_cb. repeat (case_if; cbn in *); try done; by apply timeout_cb_inv.
  - unfold ev_shutdown. by case_if.
Qed.

Lemma ev_reachable_inv s : ev_reachable methods s → ev_inv 0 [] s.
Proof.
  induction 1 as [|s e _ IH]; [|by apply ev_event_inv].
  split; cbn; try (set_solver || constructor).
  by intros k id ?%under_nil.
Qed.

(** ** Exactly the due timers run *)

Definition never_cancels : Prop := ∀ m, Forall (fun o => is_cancel o = false) (methods m).

Lemma run_callback_keeps c s id i tm :
  never_cancels → i ≠ id → heap s !! i = Some tm → heap (run_callback c s id) !! i = Some tm.
Proof.
  intros Hnc Hne Ht.
  assert (Hset : heap (set_active false id s) !! i = Some tm)
    by (cbn; by rewrite list_lookup_alter_ne).
  destruct (heap s !! id) as [tm0|] eqn:Hid.
  - destruct (run_callback_cases c s id tm0 Hid) as [[_ ->]|[(_ & _ & ->)|(m & _ & _ & ->)]];
      [done|done|]. by apply timer_ops_keep.
  - unfold EventLoop.run_callback, getActive. by rewrite Hid.
Qed.

Lemma run_callback_executed c s id tm :
  heap s !! id = Some tm → method tm ≠ None →
  executed (run_callback c s id) = executed s ++ (if active_ tm then [(id, c)] else []).
Proof.
  intros Ht Hm.
  destruct (run_callback_cases c s id tm Ht) as [[Ha ->]|[(_ & ? & _)|(m & Ha & _ & ->)]].
  - by rewrite Ha, app_nil_r.
  - done.
  - by rewrite Ha, timer_ops_executed.
Qed.

Lemma getActive_lookup s id tm : heap s !! id = Some tm → getActive id s = active_ tm.
Proof. intros Ht. unfold getActive. by rewrite Ht. Qed.

Lemma run_callbacks_executed c B s :
  never_cancels → ev_inv c B s →
  executed (foldl (run_callback c) s B) =
  executed s ++ ((fun id => (id, c)) <$> filter (fun id => getActive id s = true) B).
Proof.
  intros Hnc. revert s. induction B as [|id B IH]; intros s Hi; [by rewrite app_nil_r|].
  change (foldl (run_callback c) s (id :: B)) with (foldl (run_callback c) (run_callback c s id) B).
  destruct (tinv_due _ _ _ _ _ Hi id) as (tm & Ht & _); [by left|].
  assert (Hm : method tm ≠ None).
  { pose proof (tinv_method _ _ _ _ _ Hi) as Hm. by eapply Forall_lookup_1 in Hm. }
  rewrite IH by (by apply run_callback_frame). rewrite (run_callback_executed c s id tm) by done.
  rewrite filter_cons, (getActive_lookup _ _ _ Ht), <-(assoc_L (++)). f_equal.
  assert (filter (fun i => getActive i (run_callback c s id) = true) B =
          filter (fun i => getActive i s = true) B) as ->.
  { apply list_filter_ext. intros i Hin.
    destruct (tinv_due _ _ _ _ _ Hi i) as (tm' & Ht' & _); [by right|].
    pose proof (tinv_nodup _ _ _ _ _ Hi) as Hnd. apply NoDup_cons in Hnd as [Hni _].
    assert (i ≠ id) by (intros ->; apply Hni; set_solver).
    erewrite !getActive_lookup; [done|done|]. by apply run_callback_keeps. }
  by destruct (active_ tm).
Qed.
Definition fire_time (s : EvHelper M) (id : nat) : Z :=
  match heap s !! id with Some tm => fireTime_ tm | None => 0 end.

Lemma fire_time_under c B s k id :
  ev_inv c B s → under k id (s_timers_ s) → fire_time s id = k.
Proof.
  intros Hi Hu. destruct (tinv_under _ _ _ _ _ Hi _ _ Hu) as (tm & Ht & <-).
  unfold fire_time. by rewrite Ht.
Qed.

Lemma due_now_filter c s :
  ev_inv c [] s →
  due_now s =
  filter (fun id => fire_time s id ≤ time_point_cast (system_clock (reads s))) (pending s).
Proof.
  intros Hi. apply split_due_filter; [apply Hi|]. intros k id. by eapply fire_time_under.
Qed.
(** ** The flag that [delay] tests is never set *)

Definition no_outer_active (s : EvHelper M) : Prop :=
  ∀ t, outer_active_ (get_outer t s) = false.

Lemma insert_outer_inactive s s' t i :
  no_outer_active s → outers s' = <[t := mkOuter false i]> (outers s) → no_outer_active s'.
Proof.
  intros Hn Ho t'. unfold get_outer. rewrite Ho. destruct (decide (t' = t)) as [->|Hne].
  - by rewrite lookup_insert_eq.
  - rewrite lookup_insert_ne by done. apply Hn.
Qed.

Lemma timer_op_outers s o : no_outer_active s → no_outer_active (timer_op s o).
Proof.
  intros Hn. destruct o as [t ns m|t ticks m|t]; cbn.
  - unfold delay. rewrite (Hn t). cbn. eapply insert_outer_inactive; [done|].
    cbn. f_equal. unfold get_outer. cbn. f_equal. apply Hn.
  - unfold delay_ticks. rewrite (Hn t). cbn. eapply insert_outer_inactive; [done|].
    cbn. f_equal. unfold get_outer. cbn. f_equal. apply Hn.
  - unfold cancel. destruct (inner (get_outer t s)) as [id|];
      by eapply insert_outer_inactive.
Qed.

Lemma timer_ops_outers ops s : no_outer_active s → no_outer_active (foldl timer_op s ops).
Proof.
  revert s. induction ops as [|o ops IH]; intros s Hn; cbn; [done|].
  by apply IH, timer_op_outers.
Qed.

Lemma run_callback_outers c s id : no_outer_active s → no_outer_active (run_callback c s id).
Proof.
  intros Hn. destruct (heap s !! id) as [tm|] eqn:Ht.
  - destruct (run_callback_cases c s id tm Ht) as [[_ ->]|[(_ & _ & ->)|(m & _ & _ & ->)]];
      [done|done|]. by apply timer_ops_outers.
  - unfold EventLoop.run_callback, getActive. by rewrite Ht.
Qed.

Lemma run_callbacks_outers c B s :
  no_outer_active s → no_outer_active (foldl (run_callback c) s B).
Proof.
  revert s. induction B as [|id B IH]; intros s Hn; cbn; [done|].
  by apply IH, run_callback_outers.
Qed.

Lemma timeout_cb_outers T s : no_outer_active s → no_outer_active (timeout_cb methods T s).
Proof.
  intros Hn. destruct (s_enabled_ s) eqn:He.
  - rewrite timeout_cb_eq by done. by apply (run_callbacks_outers _ _ (taken s)).
  - unfold timeout_cb. by rewrite He.
Qed.

(** A turn of the loop is [timeout_cb] on the same timers, or nothing. *)
Definition same_timers (s s' : EvHelper M) : Prop :=
  heap s' = heap s ∧ outers s' = outers s ∧ s_timers_ s' = s_timers_ s ∧
  executed s' = executed s ∧ s_enabled_ s' = s_enabled_ s.

Lemma turn_cases s :
  (same_timers s (eventLoop_turn methods s) ∧
     async_sent (eventLoop_turn methods s) = async_sent s ∧
     (s_enabled_ s = true → async_sent s = false ∧
        ∀ d, deadline s = Some d → system_clock (reads s) < d) ∧
     deadline (eventLoop_turn methods s) = deadline s) ∨
  (∃ s', same_timers s s' ∧ s_enabled_ s = true ∧ reads s' = S (reads s) ∧
         fed s' = false ∧ async_sent s' = false ∧
         eventLoop_turn methods s = timeout_cb methods (system_clock (reads s)) s').
Proof.
  unfold eventLoop_turn. destruct (s_enabled_ s) eqn:He; [|by left; unfold same_timers; rewrite He].
  unfold ev_run_once, read_clock, async_cb. cbn -[timeout_cb]. rewrite He. cbn -[timeout_cb].
  destruct (async_sent s) eqn:Has; cbn -[timeout_cb].
  { right. eexists. split_and!; [| | | | |reflexivity]; done. }
  destruct (fed s || _) eqn:Hf.
  { right. eexists. split_and!; [| | | | |reflexivity]; done. }
  left. apply orb_false_iff in Hf as [_ Hd]. split_and!; try done.
  intros _. split; [done|]. intros d Hds. rewrite Hds in Hd. by apply Z.leb_gt in Hd.
Qed.

Lemma ev_event_outers s e : no_outer_active s → no_outer_active (ev_event methods s e).
Proof.
  intros Hn. destruct e as [o| |b]; cbn.
  - by apply timer_op_outers.
  - destruct (turn_cases s) as [[(_ & Ho & _) _]|(s' & (_ & Ho & _) & _ & _ & _ & _ & ->)].
    + intros t. unfold get_outer. rewrite Ho. apply Hn.
    + apply timeout_cb_outers. intros t. unfold get_outer. rewrite Ho. apply Hn.
  - unfold ev_shutdown. by case_if.
Qed.

Lemma ev_reachable_outers s : ev_reachable methods s → no_outer_active s.
Proof. induction 1 as [|s e _ IH]; [done|by apply ev_event_outers]. Qed.
(** ** Waking up *)

(** The clock does not go backwards, and is past the epoch. *)
Class ClockLaws : Prop := {
  clock_monotone : ∀ n m, (n ≤ m)%nat → system_clock n ≤ system_clock m;
  clock_epoch : ∀ n, 0 ≤ system_clock n }.

(** The loop will run [timeout_cb] no later than a tick after any timer's time. *)
Definition armed (s : EvHelper M) : Prop :=
  s_enabled_ s = true → async_sent s = true ∨
  ∀ k id, under k id (s_timers_ s) → ∃ d, deadline s = Some d ∧ d < (k + 1) * deci.

Lemma time_point_cast_bounds c :
  0 ≤ c → time_point_cast c * deci ≤ c < (time_point_cast c + 1) * deci.
Proof.
  intros Hc. unfold time_point_cast, deci. rewrite Z.quot_div_nonneg by lia.
  pose proof (Z.div_mod c 100000000). pose proof (Z.mod_pos_bound c 100000000). lia.
Qed.

Lemma split_due_head now l k0 ids l' : (split_due now l).2 = (k0, ids) :: l' → now < k0.
Proof.
  induction l as [|[k ids'] l IH]; cbn; [done|]. case_if; breflect.
  - by destruct (split_due now l).
  - cbn. intros [= -> -> ->]. lia.
Qed.

Lemma head_key_least k0 ids l k id :
  keys_sorted ((k0, ids) :: l) → under k id ((k0, ids) :: l) → k0 ≤ k.
Proof.
  intros Hs [[-> _]|(ids' & Hin & _)]%under_cons; [lia|].
  apply StronglySorted_inv in Hs as [_ Hf].
  eapply Forall_forall in Hf; [|apply list_elem_of_fmap; eexists; split; [|exact Hin]; done].
  cbn in Hf. lia.
Qed.

(** The watcher is set again for the first timer that remains. *)
Lemma next_duration_bound now l k id :
  keys_sorted l → under k id (split_due now l).2 →
  0 < next_duration now (split_due now l).2 ≤ k - now.
Proof.
  intros Hs%(split_due_sorted now) Hu.
  destruct (split_due now l).2 as [|[k0 ids] l'] eqn:E; [by apply under_nil in Hu|].
  apply split_due_head in E. pose proof (head_key_least _ _ _ _ _ Hs Hu). cbn. lia.
Qed.

Lemma timeout_cb_armed `{!ClockLaws} c T s :
  ev_inv c [] s → T ≤ system_clock (reads s) → armed (timeout_cb methods T s).
Proof.
  intros Hi HT He. destruct (s_enabled_ s) eqn:Hen.
  2:{ unfold timeout_cb in He. rewrite Hen in He. cbn in He. congruence. }
  rewrite timeout_cb_eq by done. pose proof (taken_inv _ _ Hi) as Ht.
  destruct (run_callbacks_frame _ _ _ Ht) as [_ Hl]. set (s' := foldl _ _ _) in *.
  destruct (async_sent s') eqn:Ha; [by left|]. right. intros k id Hu. cbn in *.
  destruct (later_woken _ _ Hl _ _ Hu) as [Hk|[? _]]; [|congruence].
  pose proof (next_duration_bound _ _ _ _ (tinv_sorted _ _ _ _ _ Hi) Hk).
  destruct (Z.eqb_spec (next_duration (time_point_cast (system_clock (reads s)))
    (split_due (time_point_cast (system_clock (reads s))) (s_timers_ s)).2) 0); [lia|].
  eexists. split; [done|].
  pose proof (time_point_cast_bounds (system_clock (reads s)) (clock_epoch _)). unfold deci in *.
  lia.
Qed.

Lemma timer_op_deadline s o : deadline (timer_op s o) = deadline s.
Proof.
  destruct o; cbn; [unfold delay|unfold delay_ticks|unfold cancel].
  - by case_if.
  - by case_if.
  - by case_match.
Qed.

Lemma ev_event_armed `{!ClockLaws} c s e :
  ev_inv c [] s → armed s → armed (ev_event methods s e).
Proof.
  intros Hi Ha. destruct e as [o| |b]; cbn.
  - intros He. pose proof (timer_op_later s o) as Hl. rewrite (later_enabled _ _ Hl) in He.
    destruct (async_sent (timer_op s o)) eqn:Has; [by left|]. right. intros k id Hu.
    rewrite timer_op_deadline.
    destruct (later_woken _ _ Hl _ _ Hu) as [Hk|[? _]]; [|congruence].
    destruct (Ha He) as [Hs|Hd]; [|eauto].
    rewrite (later_async _ _ Hl Hs) in Has. done.
  - destruct (turn_cases s) as [[(_ & _ & Ht & _ & He') (Hs & _ & Hd)]
                               |(s' & (Hh & _ & Ht & Hx & _) & _ & Hr & _ & _ & ->)].
    + intros He. rewrite Hs, Ht, Hd. apply Ha. by rewrite <-He'.
    + eapply timeout_cb_armed; [|rewrite Hr; apply clock_monotone; lia].
      unfold ev_inv. by rewrite Hh, Ht, Hx.
  - intros He. unfold ev_shutdown in He. by case_if.
Qed.

Lemma ev_reachable_armed `{!ClockLaws} s : ev_reachable methods s → armed s.
Proof.
  induction 1 as [|s e Hr IH].
  - intros _. right. by intros k id ?%under_nil.
  - eapply ev_event_armed; [by apply ev_reachable_inv|done].
Qed.

(** The log of runs only grows. *)
Lemma timeout_cb_executed T s c :
  never_cancels → ev_inv c [] s → s_enabled_ s = true →
  executed (timeout_cb methods T s) =
  executed s ++ ((fun id => (id, system_clock (reads s))) <$>
    filter (fun id => getActive id s = true ∧
      fire_time s id ≤ time_point_cast (system_clock (reads s))) (pending s)).
Proof.
  intros Hnc Hi He. rewrite timeout_cb_eq by done. cbn.
  rewrite run_callbacks_executed by (done || by eapply taken_inv).
  cbn. do 2 f_equal. rewrite (due_now_filter c) by done. by rewrite list_filter_filter.
Qed.
(** Fire times of existing timers never change. *)
Lemma ev_event_fire_time c s e id tm :
  ev_inv c [] s → heap s !! id = Some tm →
  ∃ tm', heap (ev_event methods s e) !! id = Some tm' ∧ fireTime_ tm' = fireTime_ tm.
Proof.
  intros Hi Ht. destruct e as [o| |b]; cbn.
  - destruct (later_heap _ _ (timer_op_later s o) _ _ Ht) as (tm' & ? & ? & _). eauto.
  - destruct (turn_cases s) as [[(Hh & _) _]|(s' & (Hh & _ & Hs & Hx & He) & Hen & _ & _ & _ & ->)].
    + rewrite Hh. eauto.
    + assert (Hi' : ev_inv c [] s') by (unfold ev_inv; by rewrite Hh, Hs, Hx).
      rewrite timeout_cb_eq by congruence.
      destruct (run_callbacks_frame _ _ _ (taken_inv _ _ Hi')) as [_ Hl].
      destruct (later_heap _ _ Hl id tm) as (tm' & ? & ? & _); [by rewrite <-Hh in Ht|].
      cbn. eauto.
  - unfold ev_shutdown. case_if; eauto.
Qed.

Lemma ev_events_fire_time es s id tm :
  ev_reachable methods s → heap s !! id = Some tm →
  ev_reachable methods (foldl (ev_event methods) s es) ∧
  ∃ tm', heap (foldl (ev_event methods) s es) !! id = Some tm' ∧ fireTime_ tm' = fireTime_ tm.
Proof.
  revert s tm. induction es as [|e es IH]; intros s tm Hr Ht; cbn; [eauto|].
  destruct (ev_event_fire_time 0 s e id tm) as (tm1 & Ht1 & Hf1);
    [by apply ev_reachable_inv|done|].
  destruct (IH _ _ (ev_reachable_step _ _ e Hr) Ht1) as (Hr' & tm' & Ht' & Hf').
  split; [done|]. exists tm'. by rewrite Hf'.
Qed.

(** ** The theorems *)

(** Whatever the methods that timers run do, and in whatever order timers are
    started, cancelled and the loop turns: a timer runs at most once, is inactive
    afterwards, and does not run before the tenth of a second of its fire time. *)
Theorem timers_run_at_most_once s :
  ev_reachable methods s →
  NoDup (executed s).*1 ∧
  ∀ id c, (id, c) ∈ executed s →
    getActive id s = false ∧ fire_time s id ≤ time_point_cast c.
Proof.
  intros Hi%ev_reachable_inv. split.
  - pose proof (tinv_nodup _ _ _ _ _ Hi) as Hn. cbn in Hn.
    by apply NoDup_app in Hn as (_ & _ & ?).
  - intros id c Hin. destruct (tinv_ran _ _ _ _ _ Hi _ _ Hin) as (tm & Ht & Ha & Hf).
    unfold getActive, fire_time. by rewrite Ht.
Qed.

(** [timeout_cb] runs exactly the active timers whose time has come, in the
    order of their fire times and, for equal ones, in the order they were started;
    the others stay in the map. *)
Theorem due_timers_run_in_order T s :
  ev_reachable methods s → never_cancels → s_enabled_ s = true →
  let c := system_clock (reads s) in
  let s' := timeout_cb methods T s in
  executed s' = executed s ++ ((fun id => (id, c)) <$>
    filter (fun id => getActive id s = true ∧ fire_time s id ≤ time_point_cast c) (pending s)) ∧
  StronglySorted Z.lt (fst <$> s_timers_ s) ∧
  (∀ id, id ∈ pending s → id ∈ pending s' ↔ time_point_cast c < fire_time s id).
Proof.
  intros Hi%ev_reachable_inv Hnc He. cbn zeta. split_and!.
  - by eapply timeout_cb_executed.
  - apply Hi.
  - intros id Hp. rewrite timeout_cb_eq by done. pose proof (taken_inv _ _ Hi) as Ht.
    destruct (run_callbacks_frame _ _ _ Ht) as [Hi' Hl]. set (s' := foldl _ _ _) in *.
    apply pending_under in Hp as (k & Hu). rewrite (fire_time_under _ _ _ _ _ Hi Hu).
    rewrite pending_under. cbn. split.
    + intros (k' & Hu'). pose proof (fire_time_under _ _ _ _ _ Hi' Hu') as Hk'.
      assert (k' = k) as ->.
      { destruct (tinv_under _ _ _ _ _ Hi _ _ Hu) as (tm & Htm & <-).
        destruct (later_heap _ _ Hl _ _ Htm) as (tm' & Htm' & <- & _).
        unfold fire_time in Hk'. by rewrite Htm' in Hk'. }
      destruct (decide (time_point_cast (system_clock (reads s)) < k)); [done|].
      assert (Hd : id ∈ due_now s).
      { erewrite due_now_filter by done. apply list_elem_of_filter.
        rewrite (fire_time_under _ _ _ _ _ Hi Hu). split; [lia|].
        apply pending_under. eauto. }
      pose proof (tinv_nodup _ _ _ _ _ Ht) as Hnd. apply NoDup_app in Hnd as (_ & Hnd & _).
      exfalso. destruct (later_woken _ _ Hl _ _ Hu') as [Hu2|[_ Hlen]].
      * apply (Hnd _ Hd), elem_of_app. left. apply (pending_under (taken s)). eauto.
      * destruct (tinv_due _ _ _ _ _ Ht _ Hd) as (tm & Htm & _).
        apply lookup_lt_Some in Htm. lia.
    + intros Hk. exists k. apply (later_under _ _ Hl). cbn.
      apply split_due_rest; [apply Hi|done].
Qed.

(** C14: Every active timer runs, when the system clock is never set back and no method
    cancels a timer: once the clock has passed the fire time by a tick, the next turn
    of the enabled loop runs it.  The loop needs no other event for that: the watcher
    or the async event is always set early enough.  (libev's own clock, which decides
    when the watcher is due, is taken to show the time of the system clock.) *)
Theorem active_timer_runs `{!ClockLaws} s id tm :
  ev_reachable methods s → never_cancels → s_enabled_ s = true →
  heap s !! id = Some tm → active_ tm = true →
  (fireTime_ tm + 1) * deci ≤ system_clock (reads s) →
  ∃ c, (id, c) ∈ executed (eventLoop_turn methods s).
Proof.
  intros Hr Hnc He Ht Ha Hc. pose proof (ev_reachable_inv _ Hr) as Hi.
  assert (Hp : id ∈ pending s) by (by apply (tinv_active _ _ _ _ _ Hi) in Ht).
  destruct (turn_cases s) as [[_ (_ & Hq & _)]|(s' & (Hh & _ & Hts & Hx & Hen) & _ & Hrd & _ & _ & ->)].
  - exfalso. assert (Hu : under (fireTime_ tm) id (s_timers_ s)).
    { apply pending_under in Hp as (k & Hu).
      destruct (tinv_under _ _ _ _ _ Hi _ _ Hu) as (tm' & ? & <-). by simplify_eq. }
    destruct (Hq He) as [Hs Hd]. destruct (ev_reachable_armed _ Hr He) as [Has|Hdl].
    { congruence. }
    destruct (Hdl _ _ Hu) as (d & Hds & Hlt). specialize (Hd _ Hds). lia.
  - assert (Hi' : ev_inv 0 [] s') by (unfold ev_inv; by rewrite Hh, Hts, Hx).
    exists (system_clock (reads s')). erewrite timeout_cb_executed by (done || congruence).
    apply elem_of_app. right. apply list_elem_of_fmap. exists id. split; [done|].
    apply list_elem_of_filter. unfold getActive, fire_time, pending. rewrite Hh, Hts, Ht.
    split_and!; [done| |done].
    assert (system_clock (reads s) ≤ system_clock (reads s')) by (apply clock_monotone; lia).
    pose proof (time_point_cast_bounds (system_clock (reads s')) (clock_epoch _)).
    unfold deci in *. lia.
Qed.

(** C40: A timer started with [delay] of a duration runs less than a tenth of a
    second before that duration has passed, whatever happens in between. *)
Theorem timer_at_most_a_tick_early s0 t ns m es c :
  ev_reachable methods s0 →
  let start := system_clock (reads s0) in
  0 ≤ start + ns ≤ LLONG_MAX → 0 ≤ c →
  (length (heap s0), c) ∈ executed (foldl (ev_event methods) (delay t ns m s0) es) →
  start + ns < c + deci.
Proof.
  intros Hr start Hb Hc Hin.
  assert (Hd : heap (delay t ns m s0) !! length (heap s0) =
               Some (mkTimer true (time_point_cast (start + ns)) (Some m))).
  { unfold delay. rewrite (ev_reachable_outers _ Hr). cbn.
    rewrite lookup_app_r, Nat.sub_diag by lia. cbn.
    by rewrite i64_wrap_small by (unfold LLONG_MIN; lia). }
  assert (Hr' : ev_reachable methods (delay t ns m s0))
    by apply (ev_reachable_step _ s0 (ev_op (op_delay t ns m)) Hr).
  destruct (ev_events_fire_time es _ _ _ Hr' Hd) as (Hrf & tm & Ht & Hf).
  pose proof (tinv_ran _ _ _ _ _ (ev_reachable_inv _ Hrf) _ _ Hin) as (tm' & Ht' & _ & Hle).
  simplify_eq. cbn in Hf. rewrite Hf in Hle.
  pose proof (time_point_cast_bounds _ Hc). pose proof (time_point_cast_bounds (start + ns)).
  unfold deci in *. lia.
Qed.

(** [delay] tests the [active_] flag of the outer timer, which nothing ever sets:
    a second [delay] starts a second timer, and [cancel] then only cancels that
    one; the first is still active and in the map. *)
Theorem cancel_misses_first_timer s t ns1 m1 ns2 m2 :
  ev_reachable methods s →
  let s' := cancel t (delay t ns2 m2 (delay t ns1 m1 s)) in
  let id := length (heap s) in
  id ∈ pending s' ∧ getActive id s' = true ∧ getActive (S id) s' = false.
Proof.
  intros Hr s' id. pose proof (ev_reachable_outers _ Hr) as Ho.
  pose proof (timer_op_outers _ (op_delay t ns1 m1) Ho) as Ho1.
  assert (E : s' = cancel t (start_inner t
      (time_point_cast (i64_wrap (system_clock (S (reads s)) + ns2))) m2
      (read_clock (start_inner t (time_point_cast (i64_wrap (system_clock (reads s) + ns1))) m1
        (read_clock s).2)).2)).
  { subst s'. cbn in Ho1. unfold delay at 1. rewrite Ho1. unfold delay.
    by rewrite Ho. }
  rewrite E, pending_under. clear E s'. unfold cancel, get_outer. cbn.
  rewrite lookup_insert_eq. cbn. split_and!.
  - eexists. rewrite !push_timer_under. eauto.
  - unfold getActive. cbn. rewrite list_lookup_alter_ne by (rewrite length_app; cbn; lia).
    rewrite lookup_app_l by (rewrite length_app; cbn; lia).
    by rewrite lookup_app_r, Nat.sub_diag by lia.
  - unfold getActive. cbn. rewrite length_app. cbn. rewrite Nat.add_1_r.
    rewrite list_lookup_alter_eq, lookup_app_r by (rewrite length_app; cbn; lia).
    rewrite length_app. cbn. by rewrite Nat.add_1_r, Nat.sub_diag.
Qed.
End loop.
End preservation.

(** ** A session

    A clock that advances half a second per reading, and timers whose method
    starts them again for a second later. *)
Module EventLoopSession.

#[local] Instance half_seconds : Clock := fun n => Z.of_nat n * 500000000.

#[local] Instance half_seconds_laws : ClockLaws.
Proof. split; unfold system_clock, half_seconds; intros; lia. Qed.

Definition again (m : nat) : list (TimerOp nat) := [op_delay m 1000000000 m].

Lemma again_never_cancels : never_cancels again.
Proof. intros m. by repeat constructor. Qed.

(** Timer 3 is started for 800 ms and timer 4, half a second later, for 100 ms. *)
Definition two_timers : EvHelper nat :=
  foldl (ev_event again) new_EvHelper
    [ev_op (op_delay 3 800000000 3%nat); ev_op (op_delay 4 100000000 4%nat)].

Lemma two_timers_reachable : ev_reachable again two_timers.
Proof. repeat constructor. Qed.

Lemma timers_run_at_most_once_witness :
  executed (eventLoop_turn again two_timers) ≠ [] ∧
  NoDup (executed (eventLoop_turn again two_timers)).*1.
Proof.
  split; [by vm_compute|].
  apply (timers_run_at_most_once again (eventLoop_turn again two_timers)
           (ev_reachable_step again two_timers ev_turn two_timers_reachable)).
Defined.

Lemma due_timers_run_in_order_witness :
  ∃ c, executed (timeout_cb again 0 two_timers) = [(1%nat, c); (0%nat, c)].
Proof.
  exists (system_clock (reads two_timers)).
  rewrite (proj1 (due_timers_run_in_order again 0 two_timers two_timers_reachable
             again_never_cancels eq_refl)).
  vm_compute. reflexivity.
Defined.

Lemma active_timer_runs_witness : ∃ c, (0%nat, c) ∈ executed (eventLoop_turn again two_timers).
Proof.
  apply (active_timer_runs again two_timers 0 (mkTimer true 8 (Some 3%nat)) two_timers_reachable
           again_never_cancels); [reflexivity|reflexivity|reflexivity|].
  vm_compute. discriminate.
Defined.

Lemma timer_at_most_a_tick_early_witness :
  system_clock (reads (new_EvHelper (M:=nat))) + 800000000 < 1500000000 + deci.
Proof.
  apply (timer_at_most_a_tick_early again new_EvHelper 3 800000000 3%nat
           [ev_op (op_delay 4 100000000 4%nat); ev_turn] 1500000000
           (ev_reachable_new again)); vm_compute.
  - split; discriminate.
  - discriminate.
  - right. left.
Defined.

Lemma cancel_misses_first_timer_witness :
  0%nat ∈ pending (cancel 3 (delay 3 5 3%nat (delay 3 5 3%nat new_EvHelper))).
Proof.
  apply (cancel_misses_first_timer again new_EvHelper 3 5 3%nat 5 3%nat).
  constructor.
Defined.

End EventLoopSession.
