(* ===== verification/Roles.v ===== *)
(** * Roles: roles.cpp

    Role names are slash-separated paths.  [validate] is shown to accept
    exactly the well-formed paths, and [isStrictSubroleOf] to be the strict
    prefix order on them. *)

From S2P Require Import Prelude StoutStrings.

Definition isStrictSubroleOf (left right : string) : bool :=
  (String.length right <? String.length left)%nat &&
  match str_drop (String.length right) left with
  | String c _ => Ascii.eqb c "/"
  | "" => false
  end &&
  startsWith left right.

(** [\x09\x0a\x0b\x0c\x0d\x20\x7f] *)
Definition INVALID_CHARACTERS : string :=
  String "009" (String "010" (String "011" (String "012"
    (String "013" (String "032" (String "127" "")))))).

(** The body of the loop of [validate]: the error of one component. *)
Definition validate_component (role component : string) : outcome (option string) :=
  _ ← CHECK (negb (str_empty component));
  Ok (if String.eqb component "." then
        Some ("Role '" ++ role ++ "' cannot include '.' as a component")
      else if String.eqb component ".." then
        Some ("Role '" ++ role ++ "' cannot include '..' as a component")
      else if String.eqb component "*" then
        Some ("Role '" ++ role ++ "' cannot include '*' as a component")
      else if startsWith_char component "-" then
        Some ("Role component '" ++ component ++
              "' is invalid because it starts with a dash")
      else if has (find_first_of component INVALID_CHARACTERS 0) then
        Some ("Role component '" ++ component ++
              "' is invalid because it contains backspace or whitespace")
      else None).

(** A [foreach] that returns the first error. *)
Fixpoint first_error {A : Type} (f : A → outcome (option string)) (l : list A)
    : outcome (option string) :=
  match l with
  | [] => Ok None
  | x :: l' =>
      error ← f x;
      match error with Some e => Ok (Some e) | None => first_error f l' end
  end.

Definition validate (role : string) : outcome (option string) :=
  if String.eqb role "*" then Ok None
  else if startsWith_char role "/" then
    Ok (Some ("Role '" ++ role ++ "' cannot start with a slash"))
  else if endsWith_char role "/" then
    Ok (Some ("Role '" ++ role ++ "' cannot end with a slash"))
  else if contains role "//" then
    Ok (Some ("Role '" ++ role ++ "' cannot contain two adjacent slashes"))
  else
    let components := tokenize role "/" None in
    match components with
    | [] => Ok (Some "Role names cannot be the empty string")
    | _ => first_error (validate_component role) components
    end.

Definition validate_roles (roles : list string) : outcome (option string) :=
  first_error validate roles.

Definition parse_roles (text : string) : outcome (list string) :=
  let roles := tokenize text "," None in
  error ← validate_roles roles;
  match error with Some e => Err e | None => Ok roles end.

(** ** Well-formed roles *)

Definition slash (c : ascii) : bool := mem_char c "/".

Definition component_ok (c : string) : bool :=
  negb (str_empty c) && negb (String.eqb c ".") && negb (String.eqb c "..") &&
  negb (String.eqb c "*") && negb (startsWith_char c "-") &&
  str_all (fun x => negb (mem_char x INVALID_CHARACTERS)) c.

(** A path of well-formed components joined by single slashes. *)
Definition role_path (role : string) : Prop :=
  ∃ components, components ≠ [] ∧ role = str_join "/" components ∧
    Forall (fun c => component_ok c = true ∧ str_all (fun x => negb (slash x)) c = true)
      components.

(** ** Loops that return the first error *)

Lemma first_error_total {A : Type} (f : A → outcome (option string)) (l : list A) :
  Forall (fun x => ∃ e, f x = Ok e) l → ∃ e, first_error f l = Ok e.
Proof.
  induction 1 as [|x l [[e|] He] Hl IH]; cbn; [eauto|rewrite He; cbn; eauto..].
Qed.

Lemma first_error_none {A : Type} (f : A → outcome (option string)) (l : list A) :
  first_error f l = Ok None ↔ Forall (fun x => f x = Ok None) l.
Proof.
  induction l as [|x l IH]; cbn; [split; [constructor|done]|].
  rewrite Forall_cons, <-IH. destruct (f x) as [[e|]| |]; cbn; intuition congruence.
Qed.

Lemma validate_component_none (role c : string) :
  validate_component role c = Ok None ↔ component_ok c = true.
Proof.
  unfold validate_component, component_ok, CHECK, find_first_of. cbn [str_drop].
  destruct (str_empty c); [done|]. cbn [negb mbind outcome_bind andb].
  destruct (String.eqb c "."), (String.eqb c ".."), (String.eqb c "*"),
    (startsWith_char c "-"); cbn; try done.
  destruct (find_char _ c) eqn:E; cbn.
  - split; [done|]. intros H. by rewrite find_char_absent in E.
  - by rewrite (find_char_None _ _ E).
Qed.

(** ** Slashes *)

Lemma words_fields (p : ascii → bool) (s : string) :
  words p s = filter (fun w => w ≠ "") (fields p s).
Proof.
  induction s as [|c s IH]; [done|]. cbn [words fields]. destruct (p c) eqn:Hc.
  { by rewrite filter_cons_False by auto. }
  destruct s as [|d s]; [done|]. cbn [ends_here]. rewrite IH. cbn [fields].
  destruct (p d) eqn:Hd.
  - rewrite filter_cons_False by auto. by rewrite filter_cons_True.
  - destruct (fields p s) as [|w ws]; [done|]. by rewrite !filter_cons_True.
Qed.

Lemma slash_eqb (c : ascii) : slash c = Ascii.eqb c "/".
Proof. unfold slash. cbn [mem_char]. apply orb_false_r. Qed.

Lemma contains_double_cons (c : ascii) (s : string) :
  contains (String c s) "//" = (slash c && startsWith_char s "/") || contains s "//".
Proof.
  unfold contains, find_str. cbn [Nat.leb str_drop find_sub].
  replace (String.prefix "//" (String c s)) with (slash c && startsWith_char s "/").
  2:{ rewrite slash_eqb. destruct (Ascii.eqb_spec c "/") as [->|Hc].
      - destruct s as [|d s]; [done|]. cbn [startsWith_char].
        destruct (Ascii.eqb_spec d "/") as [->|Hd]; [by destruct s|].
        cbn [String.prefix]. destruct (ascii_dec "/" d) as [<-|]; [done|].
        by destruct (ascii_dec "/" "/").
      - cbn [String.prefix]. by destruct (ascii_dec "/" c) as [<-|]. }
  destruct (slash c && startsWith_char s "/"); [done|].
  by destruct (find_sub "//" s).
Qed.

Lemma fields_hit (p : ascii → bool) (c : ascii) (s : string) :
  p c = true → fields p (String c s) = "" :: fields p s.
Proof. intros Hc. cbn. by rewrite Hc. Qed.

Lemma fields_miss (p : ascii → bool) (c : ascii) (s : string) :
  p c = false → ∃ w ws, fields p s = w :: ws ∧ fields p (String c s) = String c w :: ws.
Proof.
  intros Hc. cbn. rewrite Hc. pose proof (fields_nonempty p s).
  destruct (fields p s); [done|eauto].
Qed.

(** Without a trailing or a double slash only the first field can be empty. *)
Lemma fields_tail (s : string) :
  endsWith_char s "/" = false → contains s "//" = false →
  Forall (fun w => w ≠ "") (tail (fields slash s)) ∧
  (s ≠ "" → startsWith_char s "/" = false → head (fields slash s) ≠ Some "").
Proof.
  induction s as [|c s IH]; [by split|]. intros Hend Hdbl.
  destruct (slash c) eqn:Hc.
  - rewrite fields_hit by done. cbn [tail head startsWith_char].
    rewrite slash_eqb in Hc. rewrite Hc. split; [|done].
    destruct s as [|d s]; [unfold endsWith_char in Hend; cbn in Hend; congruence|].
    rewrite contains_double_cons, slash_eqb, Hc in Hdbl.
    apply orb_false_iff in Hdbl as [Hd Hdbl].
    destruct (IH Hend Hdbl) as [Htl Hhd]. specialize (Hhd ltac:(done) Hd).
    destruct (fields slash (String d s)) as [|w ws]; [constructor|].
    constructor; [|done]. cbn in Hhd. congruence.
  - destruct (fields_miss slash c s Hc) as (w & ws & Hf & ->). split; [|done].
    destruct s as [|d s]; [by injection Hf as <- <-|].
    rewrite contains_double_cons, Hc in Hdbl.
    destruct (IH Hend Hdbl) as [Htl _]. by rewrite Hf in Htl.
Qed.

Lemma role_components (role : string) :
  role ≠ "" → startsWith_char role "/" = false → endsWith_char role "/" = false →
  contains role "//" = false →
  words slash role = fields slash role ∧ str_join "/" (words slash role) = role.
Proof.
  intros Hne Hst Hend Hdbl. destruct (fields_tail role Hend Hdbl) as [Htl Hhd].
  specialize (Hhd Hne Hst). rewrite words_fields, list_filter_all.
  - split; [done|]. apply fields_unjoin.
  - destruct (fields slash role) as [|w ws]; [constructor|]. constructor; [|done].
    cbn in Hhd. congruence.
Qed.

Lemma contains_double_app (w s : string) :
  str_all (fun x => negb (slash x)) w = true → contains (w ++ s) "//" = contains s "//".
Proof.
  induction w as [|c w IH]; [done|]. cbn [str_all].
  intros [Hc%negb_true_iff Hw]%andb_true_iff. cbn [String.append].
  by rewrite contains_double_cons, Hc, IH.
Qed.

(** Conversely, joining non-empty components gives none of the slashes that
    [validate] rejects. *)
Lemma join_slashes (l : list string) :
  l ≠ [] → Forall (fun c => c ≠ "" ∧ str_all (fun x => negb (slash x)) c = true) l →
  let role := str_join "/" l in
  role ≠ "" ∧ startsWith_char role "/" = false ∧ endsWith_char role "/" = false ∧
  contains role "//" = false.
Proof.
  intros Hne. induction 1 as [|w l [Hw Hns] Hl IH]; [done|].
  assert (Hstart : ∀ t, w ++ t ≠ "" ∧ startsWith_char (w ++ t) "/" = false).
  { intros t. destruct w as [|c w]; [done|]. split; [done|].
    cbn [str_all] in Hns. apply andb_true_iff in Hns as [Hc%negb_true_iff _].
    unfold slash in Hc. cbn [mem_char] in Hc. by rewrite orb_false_r in Hc. }
  destruct l as [|w' l].
  - cbn. specialize (Hstart ""). rewrite str_app_nil in Hstart.
    do 2 (split; [tauto|]). split.
    + unfold endsWith_char. destruct (str_back w) as [c|] eqn:E; [|done].
      pose proof (str_back_all _ _ _ Hns E) as Hc%negb_true_iff.
      unfold slash in Hc. cbn [mem_char] in Hc. by rewrite orb_false_r in Hc.
    + by rewrite <-(str_app_nil w), contains_double_app.
  - cbv zeta. rewrite str_join_cons. destruct IH as (Hj & Hjs & Hje & Hjc); [done|].
    split; [apply Hstart|]. split; [apply Hstart|]. unfold endsWith_char in *.
    rewrite str_back_app by done. rewrite (str_back_app "/") by done.
    split; [done|]. rewrite contains_double_app by done. cbn [String.append].
    by rewrite contains_double_cons, Hjs, Hjc, andb_false_r.
Qed.

Lemma validate_total (role : string) : ∃ e, validate role = Ok e.
Proof.
  unfold validate. do 4 (case_if; [eauto|]). rewrite tokenize_words.
  destruct (words _ role) as [|w ws] eqn:E; [eauto|].
  apply first_error_total. rewrite <-E. eapply Forall_impl; [apply words_tokens|].
  intros c [Hc _]. unfold validate_component. destruct c; [done|]. cbn. eauto.
Qed.

Lemma validate_none (role : string) :
  validate role = Ok None ↔ role = "*" ∨ role_path role.
Proof.
  unfold validate. destruct (String.eqb_spec role "*") as [->|Hstar]; [tauto|].
  rewrite tokenize_words. fold slash. split.
  - do 3 (case_if; [done|]). intros Hval. right.
    assert (Hne : role ≠ "") by by intros ->.
    destruct (role_components role) as [Hf Hj]; [done..|].
    exists (words slash role). split.
    { rewrite Hf. apply fields_nonempty. }
    split; [done|]. destruct (words slash role) as [|w ws] eqn:E; [done|]. rewrite <-E in *.
    apply first_error_none in Hval. pose proof (words_tokens slash role) as Htok.
    apply Forall_and in Htok as [_ Htok]. apply Forall_and. split; [|done].
    eapply Forall_impl; [exact Hval|]. intros c. apply validate_component_none.
  - intros [->|(l & Hne & -> & Hl)]; [done|].
    assert (Hl' : Forall (fun c => c ≠ "" ∧ str_all (fun x => negb (slash x)) c = true) l).
    { eapply Forall_impl; [exact Hl|]. intros c [Hc ?]. split; [|done]. by intros ->. }
    destruct (join_slashes l Hne Hl') as (_ & -> & -> & ->).
    rewrite (words_join slash "/") by done. destruct l as [|w l]; [done|].
    apply first_error_none. eapply Forall_impl; [exact Hl|].
    intros c [Hc _]. by apply validate_component_none.
Qed.

Lemma isStrictSubroleOf_iff (left right : string) :
  isStrictSubroleOf left right = true ↔ ∃ rest, left = right ++ "/" ++ rest.
Proof.
  unfold isStrictSubroleOf, startsWith. split.
  - intros [[Hlen Hc]%andb_true_iff Hp]%andb_true_iff.
    apply prefix_iff in Hp as (t & ->).
    rewrite str_drop_app in Hc. destruct t as [|c t]; [done|].
    apply Ascii.eqb_eq in Hc as ->. by exists t.
  - intros (rest & ->). rewrite !andb_true_iff, str_drop_app, str_length_app, Nat.ltb_lt.
    split; [split; [cbn; lia|done]|]. apply prefix_iff. eauto.
Qed.

(** ** Properties *)

(** [roles::validate] never reaches its [CHECK] and accepts exactly "*"
    and the slash-separated paths of well-formed components. *)
Theorem validate_accepts_role_paths (role : string) :
  (∃ e, validate role = Ok e) ∧
  (validate role = Ok None ↔ role = "*" ∨ role_path role).
Proof. split; [apply validate_total|apply validate_none]. Qed.

(** [isStrictSubroleOf] is a strict order, and below a role are exactly
    the paths that extend it by a slash. *)
Theorem isStrictSubroleOf_strict_order (a b c : string) :
  isStrictSubroleOf a a = false ∧
  (isStrictSubroleOf a b = true → isStrictSubroleOf b c = true →
   isStrictSubroleOf a c = true) ∧
  (isStrictSubroleOf a b = true ↔ ∃ rest, a = b ++ "/" ++ rest).
Proof.
  split; [unfold isStrictSubroleOf; by rewrite Nat.ltb_irrefl|].
  rewrite !isStrictSubroleOf_iff. split; [|done].
  intros (r & ->) (r' & ->). exists (r' ++ "/" ++ r). by rewrite !str_app_assoc.
Qed.

Lemma isStrictSubroleOf_strict_order_witness :
  isStrictSubroleOf "eng/ci/nightly" "eng" = true.
Proof.
  refine (proj1 (proj2 (isStrictSubroleOf_strict_order
                          "eng/ci/nightly" "eng/ci" "eng")) _ _); reflexivity.
Defined.
