(* ===== verification/Shutdown.v ===== *)
(** * Shutdown: how the event thread and the destructors bring each other to an end

    The destructors of [UrbSchedulerProcess] and [UrbExecutorProcess] shut the
    broker down and wait until the event thread has left its loop; the event
    thread leaves it after [unloop_cb] (message_broker_redis.cpp), which the async
    event of [RedisMessageBroker::shutdown] runs; at the end of the program
    [~EvHelper] (evhelper.cpp) gives the event thread three seconds and ends the
    process otherwise.  Meanwhile other threads send commands and start timers, and
    all of them compete for [s_loopMutex_].

    Threads are interleaved statement by statement.  A thread is the list of the
    statements it still has to execute; the statements are those that touch what
    the threads share.  The event thread is in [eventLoop]: before the test of
    [s_enabled_], in [ev_run], or in the callbacks of one iteration.  Of libev, the
    model has what its manual says: an async event that is sent twice before the
    loop sees it happens once, an iteration runs the callbacks of everything that
    was pending, in any order, and a fed event in the same iteration.  Replies of
    the server and expiring timers come at any time. *)

From S2P Require Import Prelude Fairness.
#[local] Open Scope list_scope.
#[local] Open Scope nat_scope.

Section shutdown.
Context {M : Type}.

(** The async watchers: [async_watcher], [unloop_watcher] and [EvHelper::async_w_]. *)
Inductive Watcher := async_watcher | unloop_watcher | async_w_.
#[export] Instance Watcher_eq_dec : EqDecision Watcher.
Proof. solve_decision. Defined.

Inductive Stmt :=
  | lock_guard | unlock_guard
  | if_running | clear_running
  | connect_again
  | ev_async_send (w : Watcher)
  | disconnect
  | clear_enabled
  | feed_timeout
  | collect_timers
  | push_timer (m : M)
  | push_command | pop_commands
  | if_running_write | run_sync
  | await_exit
  | stop_watchers | try_exit (k : nat) | join_loop.

(** What code of the application, or of the library on its behalf, does. *)
Inductive Call :=
  | c_scheduleTimer (m : M)
  | c_sendMessage
  | c_write
  | c_write_to
  | c_setUrl
  | c_shutdown
  | c_destroy_broker
  | c_destroy_process (channelsCreated : bool).

Definition EvHelper_shutdown (own_thread : bool) : list Stmt :=
  clear_enabled :: if own_thread then [ev_async_send async_w_] else [].

Definition RedisMessageBroker_shutdown : list Stmt := [if_running].

Definition destroy_broker : list Stmt :=
  lock_guard :: RedisMessageBroker_shutdown ++ [unlock_guard].

(** [~UrbSchedulerProcess]: the loop that sleeps until [isLoopExited()] is a
    statement that waits for it. *)
Definition destroy_process (channelsCreated : bool) : list Stmt :=
  if channelsCreated then RedisMessageBroker_shutdown ++ [await_exit] else [].
(** [~UrbExecutorProcess] is the same code. *)
Definition destroy_executor_process (channelsCreated : bool) : list Stmt :=
  if channelsCreated then RedisMessageBroker_shutdown ++ [await_exit] else [].

Definition sendMessage : list Stmt :=
  [push_command; lock_guard; ev_async_send async_watcher; unlock_guard].

(** [RedisChannel::write(message, name)]: it holds the mutex while it runs the
    command on the synchronous connection, and the exception of a connection that
    fails is caught here, so [run_sync] returns either way. *)
Definition write_to : list Stmt := [lock_guard; run_sync; unlock_guard].

(** [RedisChannel::write(message)] looks at [isRunning_] first. *)
Definition write : list Stmt := [if_running_write].

Definition scheduleTimer (m : M) : list Stmt :=
  [lock_guard; push_timer m; ev_async_send async_w_; unlock_guard].

Definition code_of (c : Call) : list Stmt :=
  match c with
  | c_scheduleTimer m => scheduleTimer m
  | c_sendMessage => sendMessage
  | c_write => write
  | c_write_to => write_to
  | c_setUrl => [connect_again]
  | c_shutdown => RedisMessageBroker_shutdown
  | c_destroy_broker => destroy_broker
  | c_destroy_process b => destroy_process b
  end.

(** What libev has to run: an async event, the timer, a reply of the server, whose
    callback makes calls. *)
Inductive Event := e_async (w : Watcher) | e_timeout | e_reply (calls : list Call).

Definition unloop_cb : list Stmt :=
  lock_guard :: disconnect :: EvHelper_shutdown true ++ [unlock_guard].
Definition EvHelper_async_cb : list Stmt := [lock_guard; feed_timeout; unlock_guard].
Definition broker_async_cb : list Stmt := [lock_guard; pop_commands; unlock_guard].
(** The methods of the timers run after the mutex is released: see [collect_timers]. *)
Definition EvHelper_timeout_cb : list Stmt := [lock_guard; collect_timers; unlock_guard].

Definition handler (e : Event) : list Stmt :=
  match e with
  | e_async unloop_watcher => unloop_cb
  | e_async async_w_ => EvHelper_async_cb
  | e_async async_watcher => broker_async_cb
  | e_timeout => EvHelper_timeout_cb
  | e_reply calls => flat_map code_of calls
  end.

(** [~EvHelper], in the main thread.  [try_exit k] is the loop with [k] looks at
    [loopExited_] left: there are three, a sleep after each, and after the last
    sleep the process is terminated without another look. *)
Definition destroy_EvHelper : list Stmt :=
  stop_watchers :: EvHelper_shutdown true ++ [try_exit 3].

(** Where the event thread is; [in_callbacks] has the rest of the callback it runs. *)
Inductive LoopPc := at_while | at_ev_run | in_callbacks (code : list Stmt) | left.

Inductive Tid := event_thread | app_thread (i : nat).
#[export] Instance Tid_eq_dec : EqDecision Tid.
Proof. solve_decision. Defined.

Record Sys := mkSys {
  isRunning_ : bool;
  connected : bool;
  s_enabled_ : bool;
  loopExited_ : bool;
  s_loopMutex_ : option Tid;
  pending : list Event;
  current : list Event;
  s_timers_ : list M;
  commands_ : nat;
  watching : bool;
  terminated : bool;
  loop : LoopPc;
  threads : list (list Stmt) }.

(** The broker is connected and the loop waits; [n] threads of the application,
    the first of which is the main thread. *)
Definition started (n : nat) : Sys :=
  mkSys true true true false None [] [] [] 0 true false at_while (replicate n []).

Definition set_mutex (x : option Tid) (s : Sys) : Sys :=
  mkSys (isRunning_ s) (connected s) (s_enabled_ s) (loopExited_ s) x (pending s) (current s)
        (s_timers_ s) (commands_ s) (watching s) (terminated s) (loop s) (threads s).
Definition set_broker (running conn : bool) (s : Sys) : Sys :=
  mkSys running conn (s_enabled_ s) (loopExited_ s) (s_loopMutex_ s) (pending s) (current s)
        (s_timers_ s) (commands_ s) (watching s) (terminated s) (loop s) (threads s).
Definition set_enabled (b : bool) (s : Sys) : Sys :=
  mkSys (isRunning_ s) (connected s) b (loopExited_ s) (s_loopMutex_ s) (pending s) (current s)
        (s_timers_ s) (commands_ s) (watching s) (terminated s) (loop s) (threads s).
Definition set_events (pend cur : list Event) (s : Sys) : Sys :=
  mkSys (isRunning_ s) (connected s) (s_enabled_ s) (loopExited_ s) (s_loopMutex_ s) pend cur
        (s_timers_ s) (commands_ s) (watching s) (terminated s) (loop s) (threads s).
Definition set_timers (l : list M) (s : Sys) : Sys :=
  mkSys (isRunning_ s) (connected s) (s_enabled_ s) (loopExited_ s) (s_loopMutex_ s) (pending s)
        (current s) l (commands_ s) (watching s) (terminated s) (loop s) (threads s).
Definition set_commands (n : nat) (s : Sys) : Sys :=
  mkSys (isRunning_ s) (connected s) (s_enabled_ s) (loopExited_ s) (s_loopMutex_ s) (pending s)
        (current s) (s_timers_ s) n (watching s) (terminated s) (loop s) (threads s).
Definition set_watching (b : bool) (s : Sys) : Sys :=
  mkSys (isRunning_ s) (connected s) (s_enabled_ s) (loopExited_ s) (s_loopMutex_ s) (pending s)
        (current s) (s_timers_ s) (commands_ s) b (terminated s) (loop s) (threads s).
Definition terminate (s : Sys) : Sys :=
  mkSys (isRunning_ s) (connected s) (s_enabled_ s) (loopExited_ s) (s_loopMutex_ s) (pending s)
        (current s) (s_timers_ s) (commands_ s) (watching s) true (loop s) (threads s).
Definition set_loop (exited : bool) (pc : LoopPc) (s : Sys) : Sys :=
  mkSys (isRunning_ s) (connected s) (s_enabled_ s) exited (s_loopMutex_ s) (pending s)
        (current s) (s_timers_ s) (commands_ s) (watching s) (terminated s) pc (threads s).
Definition set_thread (i : nat) (code : list Stmt) (s : Sys) : Sys :=
  mkSys (isRunning_ s) (connected s) (s_enabled_ s) (loopExited_ s) (s_loopMutex_ s) (pending s)
        (current s) (s_timers_ s) (commands_ s) (watching s) (terminated s) (loop s)
        (<[i := code]> (threads s)).

(** An event that is pending already does not become pending again; neither the
    watcher of [EvHelper] nor its timer do anything once they were stopped. *)
Definition is_event (w : Watcher) (e : Event) : bool :=
  match e with e_async w' => bool_decide (w = w') | _ => false end.
Definition sends (w : Watcher) (s : Sys) : bool :=
  negb (existsb (is_event w) (pending s)) && (watching s || negb (bool_decide (w = async_w_))).
Definition send (w : Watcher) (s : Sys) : Sys :=
  if sends w s then set_events (pending s ++ [e_async w]) (current s) s else s.
Definition of_EvHelper (e : Event) : bool :=
  match e with e_timeout | e_async async_w_ => true | _ => false end.

Section steps.
Context (methods : M → list Call).

(** One statement of thread [t], whose code goes on with [rest]: the code it has
    left and the new state, or [None] while it is blocked.  [n] is how many timers
    are due when the callback of the timer looks. *)
Definition execute (t : Tid) (n : nat) (c : Stmt) (rest : list Stmt) (s : Sys)
    : option (list Stmt * Sys) :=
  match c with
  | lock_guard =>
      match s_loopMutex_ s with
      | None => Some (rest, set_mutex (Some t) s)
      | Some _ => None
      end
  | unlock_guard => Some (rest, set_mutex None s)
  | if_running =>
      Some (if isRunning_ s then clear_running :: ev_async_send unloop_watcher :: rest else rest, s)
  | clear_running => Some (rest, set_broker false (connected s) s)
  | connect_again => Some (rest, set_broker true true s)
  | ev_async_send w => Some (rest, send w s)
  | disconnect => Some (rest, set_broker (isRunning_ s) false s)
  | clear_enabled => Some (rest, set_enabled false s)
  | feed_timeout =>
      Some (rest, if s_enabled_ s && watching s
                  then set_events (pending s) (current s ++ [e_timeout]) s else s)
  | collect_timers =>
      if s_enabled_ s
      then Some (rest ++ flat_map code_of (flat_map methods (take n (s_timers_ s))),
                 set_timers (drop n (s_timers_ s)) s)
      else Some (rest, s)
  | push_timer m => Some (rest, set_timers (s_timers_ s ++ [m]) s)
  | push_command => Some (rest, set_commands (S (commands_ s)) s)
  | pop_commands => Some (rest, if isRunning_ s then set_commands 0 s else s)
  | if_running_write => Some (if isRunning_ s then write_to ++ rest else rest, s)
  | run_sync => Some (rest, s)
  | await_exit => if loopExited_ s then Some (rest, s) else None
  | stop_watchers =>
      Some (rest, set_watching false
                    (set_events (List.filter (λ e, negb (of_EvHelper e)) (pending s))
                                (List.filter (λ e, negb (of_EvHelper e)) (current s)) s))
  | try_exit k =>
      match k with
      | O => Some (rest, terminate s)
      | S k' => Some (if loopExited_ s then join_loop :: rest else try_exit k' :: rest, s)
      end
  | join_loop => match loop s with left => Some (rest, s) | _ => None end
  end.

(** One step of the event thread; [n] chooses the next event of the iteration. *)
Definition loop_step (n : nat) (s : Sys) : option Sys :=
  match loop s with
  | at_while =>
      Some (if s_enabled_ s then set_loop (loopExited_ s) at_ev_run s else set_loop true left s)
  | at_ev_run =>
      match pending s with
      | [] => None
      | es => Some (set_loop (loopExited_ s) (in_callbacks []) (set_events [] es s))
      end
  | in_callbacks [] =>
      match current s with
      | [] => Some (set_loop (loopExited_ s) at_while s)
      | es => e ← es !! n;
              Some (set_loop (loopExited_ s) (in_callbacks (handler e))
                      (set_events (pending s) (delete n es) s))
      end
  | in_callbacks (c :: code) =>
      '(code', s') ← execute event_thread n c code s;
      Some (set_loop (loopExited_ s') (in_callbacks code') s')
  | left => None
  end.

Definition thread_step (i : nat) (s : Sys) : option Sys :=
  match threads s !! i with
  | Some (c :: code) =>
      '(code', s') ← execute (app_thread i) 0 c code s; Some (set_thread i code' s')
  | _ => None
  end.

(** A step of a thread, a new call of an idle thread, the end of the program in the
    main thread, something that happens to the loop, or nothing. *)
Inductive Label :=
  | l_loop (n : nat)
  | l_thread (i : nat)
  | l_calls (i : nat) (c : Call)
  | l_exit
  | l_occurs (e : Event)
  | l_idle.

Definition sys_step (l : Label) (s : Sys) : option Sys :=
  if terminated s then match l with l_idle => Some s | _ => None end
  else
  match l with
  | l_loop n => loop_step n s
  | l_thread i => thread_step i s
  | l_calls i c =>
      match threads s !! i with
      | Some [] => Some (set_thread i (code_of c) s)
      | _ => None
      end
  | l_exit =>
      match threads s !! 0 with
      | Some [] => Some (set_thread 0 destroy_EvHelper s)
      | _ => None
      end
  | l_occurs e =>
      match e with
      | e_async _ => None
      | e_timeout => if watching s then Some (set_events (pending s ++ [e]) (current s) s) else None
      | e_reply _ => Some (set_events (pending s ++ [e]) (current s) s)
      end
  | l_idle => Some s
  end.

Definition mover (l : Label) : option Tid :=
  match l with
  | l_loop _ => Some event_thread
  | l_thread i => Some (app_thread i)
  | _ => None
  end.

Fixpoint sys_run (ls : list Label) (s : Sys) : option Sys :=
  match ls with
  | [] => Some s
  | l :: ls' => sys_step l s ≫= sys_run ls'
  end.

End steps.
End shutdown.
