(* ===== verification/ShutdownLaws.v ===== *)
(** * ShutdownLaws: every destructor returns

    [destructor_returns]: in every fair run of the threads, a destructor of a
    process that was started returns, and the event thread has left its loop by
    then.  [loop_never_restarts]: after that no callback ever runs again, whoever
    connects the broker anew.  [exit_is_clean]: a program that destroyed its driver
    is not terminated by [~EvHelper].  Callbacks are assumed to return: they do not
    destroy a driver themselves ([destroy_in_callback_hangs] is what happens if they
    do). *)

From S2P Require Import Prelude Fairness Shutdown.
#[local] Open Scope list_scope.
#[local] Open Scope nat_scope.

Section laws.
Context {M : Type}.
Implicit Types (s : Sys (M := M)) (c : Stmt (M := M)) (code : list (Stmt (M := M))).

(** ** The code of the threads *)

(** Calls that a callback may make. *)
Definition returning (c : Call (M := M)) : bool :=
  match c with c_destroy_process b => negb b | _ => true end.
Definition event_ok (e : Event (M := M)) : Prop :=
  match e with e_reply cs => forallb returning cs = true | _ => True end.

(** The statements of the event thread's code and of the application's. *)
Definition allowed (t : Tid) c : bool :=
  match t, c with
  | _, (stop_watchers | try_exit _ | join_loop) => false
  | event_thread, await_exit => false
  | app_thread _, (clear_enabled | feed_timeout | collect_timers | pop_commands | disconnect) =>
      false
  | _, _ => true
  end.

Definition sends_unloop code : bool :=
  match code with ev_async_send unloop_watcher :: _ => true | _ => false end.

(** The mutex is taken and released in turn, [held] at first, never waited for
    together with the end of the loop; [isRunning_] is cleared only to send the
    event at once. *)
Fixpoint well_formed (t : Tid) (held : bool) code : bool :=
  match code with
  | [] => negb held
  | c :: code' =>
      allowed t c &&
      match c with
      | lock_guard => negb held && well_formed t true code'
      | unlock_guard => held && well_formed t false code'
      | await_exit | if_running_write => negb held && well_formed t held code'
      | clear_running => sends_unloop code' && well_formed t held code'
      | _ => well_formed t held code'
      end
  end.

Lemma well_formed_app t b l1 l2 :
  well_formed t b l1 = true → well_formed t false l2 = true → well_formed t b (l1 ++ l2) = true.
Proof.
  intros H1 H2. revert b H1. induction l1 as [|c l1 IH]; intros b; cbn.
  - by destruct b.
  - rewrite !andb_true_iff. intros [Ha H1]. split; [done|].
    destruct c; rewrite ?andb_true_iff in *; try (by apply IH);
      (split; [apply H1|by apply IH, H1]) ||
      (destruct H1 as [Hs H1]; split; [|by apply IH]; by destruct l1 as [|[] l1]).
Qed.

Lemma well_formed_call t (c : Call (M := M)) :
  (t = event_thread → returning c = true) → well_formed t false (code_of c) = true.
Proof. by destruct c as [| | | | | | |[]], t; cbn; intros H; auto. Qed.

Lemma well_formed_calls (cs : list (Call (M := M))) :
  forallb returning cs = true → well_formed event_thread false (flat_map code_of cs) = true.
Proof.
  induction cs as [|c cs IH]; [done|]. cbn. intros [Hc Hcs]%andb_true_iff.
  apply well_formed_app; [by apply well_formed_call|auto].
Qed.

Lemma well_formed_handler (e : Event (M := M)) :
  event_ok e → well_formed event_thread false (handler e) = true.
Proof. destruct e as [[]| |cs]; cbn; [done..|apply well_formed_calls]. Qed.

(** ** One thread, whichever it is *)

Definition code_at (t : Tid) s : option (list Stmt) :=
  match t with
  | event_thread => Some (match loop s with in_callbacks code => code | _ => [] end)
  | app_thread i => threads s !! i
  end.
Definition put_code (t : Tid) code s : Sys :=
  match t with
  | event_thread => set_loop (loopExited_ s) (in_callbacks code) s
  | app_thread i => set_thread i code s
  end.
Definition holds (t : Tid) s : bool := bool_decide (s_loopMutex_ s = Some t).

Lemma code_put t code code0 s :
  code_at t s = Some code0 → code_at t (put_code t code s) = Some code.
Proof.
  destruct t as [|i]; cbn; [done|]. intros Hi.
  apply list_lookup_insert_eq. by eapply lookup_lt_Some.
Qed.
Lemma code_put_ne t t' code s : t ≠ t' → code_at t' (put_code t code s) = code_at t' s.
Proof.
  destruct t as [|i], t' as [|j]; cbn; try done. intros Hne.
  apply list_lookup_insert_ne. congruence.
Qed.

Section methods.
Context (methods : M → list (Call (M := M))).

(** What the environment does; callbacks return, and the program does not end. *)
Definition well_behaved (l : Label (M := M)) : Prop :=
  match l with l_exit => False | l_occurs e => event_ok e | _ => True end.
Definition step (o : option Tid) s s' : Prop :=
  ∃ l, mover l = o ∧ well_behaved l ∧ sys_step methods l s = Some s'.

(** The same steps, one case for each kind. *)
Inductive move : option Tid → Sys → Sys → Prop :=
  | m_stmt t n c rest code' s1 s :
      code_at t s = Some (c :: rest) → execute methods t n c rest s = Some (code', s1) →
      move (Some t) s (put_code t code' s1)
  | m_enter s :
      loop s = at_while → s_enabled_ s = true →
      move (Some event_thread) s (set_loop (loopExited_ s) at_ev_run s)
  | m_leave s :
      loop s = at_while → s_enabled_ s = false →
      move (Some event_thread) s (set_loop true left s)
  | m_take s :
      loop s = at_ev_run → pending s ≠ [] →
      move (Some event_thread) s
        (set_loop (loopExited_ s) (in_callbacks []) (set_events [] (pending s) s))
  | m_next s n e :
      loop s = in_callbacks [] → current s !! n = Some e →
      move (Some event_thread) s
        (set_loop (loopExited_ s) (in_callbacks (handler e))
           (set_events (pending s) (delete n (current s)) s))
  | m_again s :
      loop s = in_callbacks [] → current s = [] →
      move (Some event_thread) s (set_loop (loopExited_ s) at_while s)
  | m_call i (k : Call) s : threads s !! i = Some [] → move None s (set_thread i (code_of k) s)
  | m_occurs e s : event_ok e → move None s (set_events (pending s ++ [e]) (current s) s)
  | m_idle s : move None s s.

Lemma step_move o s s' : step o s s' → move o s s'.
Proof.
  intros (l & <- & Hw & Hs). unfold sys_step in Hs.
  destruct (terminated s); [by destruct l; simplify_eq; constructor|].
  destruct l as [n|i|i c| |e|]; cbn [mover well_behaved] in *; [..|by simplify_eq; constructor].
  - unfold loop_step in Hs. destruct (loop s) as [| |[|c code]|] eqn:Hl.
    + destruct (s_enabled_ s) eqn:He; simplify_eq; by constructor.
    + destruct (pending s) eqn:Hp; simplify_eq. rewrite <-Hp. constructor; [done|by rewrite Hp].
    + destruct (current s) as [|e es] eqn:Hc; [simplify_eq; by constructor|].
      apply bind_Some in Hs as (e' & He & [= <-]). rewrite <-Hc in He |- *. by constructor.
    + apply bind_Some in Hs as ([code' s1] & He & [= <-]).
      eapply (m_stmt event_thread); [|exact He]. cbn. by rewrite Hl.
    + done.
  - unfold thread_step in Hs. destruct (threads s !! i) as [[|c code]|] eqn:Hi; try done.
    apply bind_Some in Hs as ([code' s1] & He & [= <-]). by eapply (m_stmt (app_thread i)).
  - destruct (threads s !! i) as [[|]|] eqn:Hi; simplify_eq. by constructor.
  - done.
  - destruct e; try done; [destruct (watching s); try done|]; simplify_eq; by constructor.
Qed.

(** A thread whose next statement is not blocked can move. *)
Lemma can_move t c rest s :
  terminated s = false → code_at t s = Some (c :: rest) →
  is_Some (execute methods t 0 c rest s) → enabled step t s.
Proof.
  intros Ht Hc [[code' s1] He]. destruct t as [|i].
  - cbn in Hc. destruct (loop s) as [| |code|] eqn:Hl; simplify_eq.
    eexists _, (l_loop 0). split_and!; [done..|]. unfold sys_step, loop_step. rewrite Ht.
    by rewrite Hl, He.
  - cbn in Hc. eexists _, (l_thread i). split_and!; [done..|]. unfold sys_step, thread_step. rewrite Ht.
    by rewrite Hc, He.
Qed.

(** ** The invariant *)

(** [unloop_cb] has run as far as its effect, or will in this iteration. *)
Definition clears c : bool := match c with clear_enabled => true | _ => false end.
Definition loop_code s : list Stmt :=
  match loop s with in_callbacks code => code | _ => [] end.
Definition taken s : bool :=
  existsb (is_event unloop_watcher) (current s) || existsb clears (loop_code s).
Definition doomed s : Prop :=
  existsb (is_event unloop_watcher) (pending s) = true ∨ taken s = true ∨ s_enabled_ s = false.

(** The next thing of the thread is to send the event of [shutdown]. *)
Definition about_to_send code : bool :=
  match code with
  | clear_running :: code' => sends_unloop code'
  | _ => sends_unloop code
  end.
Definition about (t : Tid) s : Prop :=
  ∃ code, code_at t s = Some code ∧ about_to_send code = true.

Record inv s : Prop := mkInv {
  iv_code : ∀ t code, code_at t s = Some code → well_formed t (holds t s) code = true;
  iv_owner : ∀ t, s_loopMutex_ s = Some t → is_Some (code_at t s);
  iv_events : Forall event_ok (pending s ++ current s);
  iv_alive : terminated s = false ∧ watching s = true;
  iv_exited : loopExited_ s = true ↔ loop s = left;
  iv_run : s_enabled_ s = false → loop s ≠ at_ev_run;
  iv_current : current s = [] ∨ ∃ code, loop s = in_callbacks code;
  iv_shut : isRunning_ s = false → doomed s ∨ ∃ t, about t s }.

Lemma inv_started n : inv (started n).
Proof.
  split; cbn; [|done|by constructor|done|done|done|by left|done].
  intros [|i] code; cbn; [by intros [= <-]|]. by intros [-> _]%lookup_replicate.
Qed.

(** What a statement leaves alone. *)
Lemma execute_frame t n c rest s code' s' :
  allowed t c = true → execute methods t n c rest s = Some (code', s') →
  loop s' = loop s ∧ threads s' = threads s ∧ loopExited_ s' = loopExited_ s ∧
  terminated s' = terminated s ∧ watching s' = watching s ∧
  s_enabled_ s' = (s_enabled_ s && negb (clears c))%bool.
Proof.
  intros Ha He. destruct c; cbn in *; simplify_eq/=; try (by destruct t);
    repeat case_match; simplify_eq/=; rewrite ?andb_true_r, ?andb_false_r; try done;
    unfold send; by destruct (sends _ _); rewrite ?andb_true_r.
Qed.

Lemma code_at_frame t s s' : loop s' = loop s → threads s' = threads s → code_at t s' = code_at t s.
Proof. intros Hl Ht. destruct t; cbn; [by rewrite Hl|by rewrite Ht]. Qed.

Context (Hmethods : ∀ m, forallb returning (methods m) = true).

Lemma methods_returning (ms : list M) : forallb returning (flat_map methods ms) = true.
Proof using Hmethods. induction ms; cbn; [done|]. by rewrite forallb_app, Hmethods. Qed.

(** The code stays well formed, and a thread changes only its own hold on the mutex. *)
Lemma execute_code t n c rest s code' s' :
  well_formed t (holds t s) (c :: rest) = true → execute methods t n c rest s = Some (code', s') →
  well_formed t (holds t s') code' = true ∧
  (∀ t', t' ≠ t → holds t' s' = holds t' s) ∧
  (∀ t', s_loopMutex_ s' = Some t' → t' = t ∨ s_loopMutex_ s = Some t').
Proof using Hmethods.
  intros Hw He. cbn in Hw. apply andb_true_iff in Hw as [Ha Hw].
  assert (Hsame : s_loopMutex_ s' = s_loopMutex_ s → well_formed t (holds t s) code' = true →
    well_formed t (holds t s') code' = true ∧ (∀ t', t' ≠ t → holds t' s' = holds t' s) ∧
    (∀ t', s_loopMutex_ s' = Some t' → t' = t ∨ s_loopMutex_ s = Some t')).
  { intros Hm Hc. unfold holds in *. rewrite Hm. by split_and!; auto. }
  destruct c; cbn in He; try (injection He as <- <-); try (by apply Hsame); try (by destruct t).
  - destruct (s_loopMutex_ s) eqn:Hm; simplify_eq/=. apply andb_true_iff in Hw as [_ Hw].
    unfold holds. cbn. rewrite bool_decide_true by done. split_and!; [done| |].
    + intros t' Hne. rewrite Hm. by rewrite !bool_decide_false by congruence.
    + intros t' [= <-]. by left.
  - apply andb_true_iff in Hw as [Hh Hw]. unfold holds in *. apply bool_decide_eq_true in Hh.
    cbn. split_and!; [done| |done]. intros t' Hne. rewrite Hh. by rewrite !bool_decide_false by congruence.
  - apply Hsame; [done|]. destruct (isRunning_ s); [|done]. cbn. rewrite Hw. by destruct t.
  - apply Hsame; [done|]. by apply andb_true_iff in Hw as [_ Hw].
  - apply Hsame; [|done]. unfold send. by destruct (sends _ _).
  - destruct t; [|done]. by apply Hsame; [destruct (_ && _)|].
  - destruct t; [|done]. destruct (s_enabled_ s); simplify_eq; apply Hsame; try done.
    apply well_formed_app; [done|]. apply well_formed_calls, methods_returning.
  - destruct t; [|done]. by apply Hsame; [destruct (isRunning_ s)|].
  - apply andb_true_iff in Hw as [Hh Hw]. apply Hsame; [done|].
    destruct (isRunning_ s); [|done]. cbn. apply negb_true_iff in Hh. rewrite Hh in *.
    cbn. rewrite Hw. by destruct t.
  - destruct (loopExited_ s); simplify_eq. apply Hsame; [done|].
    by apply andb_true_iff in Hw as [_ Hw].
Qed.

(** Events are only added, and only those that the program sends. *)
Lemma execute_events t n c rest s code' s' :
  allowed t c = true → execute methods t n c rest s = Some (code', s') →
  ∃ p q, pending s' = pending s ++ p ∧ current s' = current s ++ q ∧
    Forall event_ok (p ++ q) ∧ (c = ev_async_send unloop_watcher →
      existsb (is_event unloop_watcher) (pending s') = true).
Proof.
  intros Ha He.
  assert (Hsame : pending s' = pending s → current s' = current s →
    c ≠ ev_async_send unloop_watcher → ∃ p q, pending s' = pending s ++ p ∧
    current s' = current s ++ q ∧ Forall event_ok (p ++ q) ∧
    (c = ev_async_send unloop_watcher →
      existsb (is_event unloop_watcher) (pending s') = true)).
  { intros Hp Hq Hne. exists [], []. rewrite !app_nil_r. by split_and!; auto. }
  destruct c; cbn in He; try (injection He as <- <-); try (by apply Hsame); try (by destruct t).
  - destruct (s_loopMutex_ s); simplify_eq/=. by apply Hsame.
  - unfold send. destruct (sends w s) eqn:Hs; cbn.
    + exists [e_async w], []. rewrite app_nil_r. split_and!; [done..|by repeat constructor|].
      intros [= ->]. by rewrite existsb_app, orb_true_r.
    + exists [], []. rewrite !app_nil_r. split_and!; [done..|by constructor|].
      intros [= ->]. unfold sends in Hs. cbn in Hs. rewrite orb_true_r, andb_true_r in Hs.
      by apply negb_false_iff.
  - destruct (_ && _); [|by apply Hsame]. exists [], [e_timeout].
    rewrite app_nil_r. by split_and!; [..|repeat constructor|].
  - destruct (s_enabled_ s); simplify_eq; by apply Hsame.
  - destruct (isRunning_ s); by apply Hsame.
  - destruct (loopExited_ s); simplify_eq. by apply Hsame.
Qed.

(** The code of the loop loses only the statement that was executed. *)
Lemma execute_clears t n c rest s code' s' :
  execute methods t n c rest s = Some (code', s') → clears c = false →
  existsb clears rest = true → existsb clears code' = true.
Proof.
  intros He Hc Hr. destruct c; cbn in He; repeat case_match; simplify_eq/=; try done.
  by rewrite existsb_app, Hr.
Qed.

Lemma inv_stmt t c rest s :
  inv s → code_at t s = Some (c :: rest) →
  allowed t c = true ∧ well_formed t (holds t s) (c :: rest) = true.
Proof.
  intros Hi Hc. pose proof (iv_code _ Hi _ _ Hc) as Hw. split; [|done].
  by apply andb_true_iff in Hw as [? _].
Qed.

(** *** What was set in motion goes on *)

Lemma loop_code_put_app i code s : loop_code (put_code (app_thread i) code s) = loop_code s.
Proof. done. Qed.

Lemma existsb_delete {A : Type} (f : A → bool) (l : list A) n x :
  l !! n = Some x → existsb f l = f x || existsb f (delete n l).
Proof.
  revert n. induction l as [|y l IH]; intros [|n] Hn; simplify_eq/=; [done|].
  rewrite (IH _ Hn). by destruct (f x), (f y).
Qed.

Lemma stmt_taken t n c rest s code' s' :
  allowed t c = true → code_at t s = Some (c :: rest) →
  execute methods t n c rest s = Some (code', s') → clears c = false →
  taken s = true → taken (put_code t code' s') = true.
Proof.
  intros Ha Hc He Hcl. unfold taken.
  destruct (execute_frame _ _ _ _ _ _ _ Ha He) as (Hl & _).
  destruct (execute_events _ _ _ _ _ _ _ Ha He) as (p & q & _ & Hq & _).
  rewrite !orb_true_iff. intros [Hcur|Hcode].
  - left. destruct t; cbn; by rewrite Hq, existsb_app, Hcur.
  - right. unfold loop_code in *. destruct t; cbn in *.
    + destruct (loop s); simplify_eq/=. rewrite Hcl in Hcode. by eapply execute_clears.
    + by rewrite Hl.
Qed.

Lemma move_doomed o s s' : inv s → move o s s' → doomed s → doomed s'.
Proof.
  intros Hi Hm Hd. destruct Hm as [t n c rest code' s1 s Hc He|s Hl He|s Hl He|s Hl Hp
    |s n e Hl He|s Hl He|i k s Hi'|e s He|s]; [|try done..].
  - destruct (inv_stmt _ _ _ _ Hi Hc) as [Ha _].
    destruct (execute_frame _ _ _ _ _ _ _ Ha He) as (_ & _ & _ & _ & _ & Hen).
    destruct (execute_events _ _ _ _ _ _ _ Ha He) as (p & q & Hp & _).
    assert (Hput : pending (put_code t code' s1) = pending s1 ∧
                   s_enabled_ (put_code t code' s1) = s_enabled_ s1) by by destruct t.
    destruct Hput as [Hput1 Hput2]. unfold doomed. rewrite Hput1, Hput2, Hen.
    destruct (clears c) eqn:Hcl; [right; right; by rewrite andb_false_r|].
    rewrite andb_true_r. destruct Hd as [Hd|[Hd|Hd]]; [| |by auto].
    + left. by rewrite Hp, existsb_app, Hd.
    + right; left. by eapply stmt_taken.
  - unfold doomed, taken, loop_code in *. rewrite Hl in Hd. cbn in *. naive_solver.
  - by right; right.
  - unfold doomed, taken in *. cbn. rewrite orb_false_r. destruct Hd as [Hd|[Hd|Hd]]; auto.
    exfalso. unfold loop_code in Hd. rewrite Hl in Hd.
    destruct (iv_current _ Hi) as [Hc|[? Hc]]; [by rewrite Hc in Hd|congruence].
  - unfold doomed, taken in *. unfold loop_code in *. rewrite Hl in Hd. cbn in *.
    destruct Hd as [Hd|[Hd|Hd]]; auto. right; left. rewrite orb_false_r in Hd.
    rewrite (existsb_delete _ _ _ _ He) in Hd. apply orb_true_iff in Hd as [Hd|Hd].
    + destruct e as [w| |]; try done. cbn in Hd. apply bool_decide_eq_true in Hd as <-.
      cbn. by rewrite orb_true_r.
    + by rewrite Hd.
  - unfold doomed, taken, loop_code in *. rewrite Hl, He in Hd. cbn in *. rewrite He. naive_solver.
  - unfold doomed in *. cbn. rewrite existsb_app.
    destruct Hd as [Hd|[Hd|Hd]]; [left; by rewrite Hd|by auto..].
Qed.

(** A thread that is about to send keeps being so, until it has sent. *)
Lemma move_about o s s' t :
  inv s → move o s s' → about t s → about t s' ∨ doomed s'.
Proof.
  intros Hi Hm (code & Hc & Ha). destruct Hm as [t' n c rest code' s1 s Hc' He|s Hl He|s Hl He|s Hl Hp
    |s n e Hl He|s Hl He|i k s Hi'|e s He|s].
  - destruct (inv_stmt _ _ _ _ Hi Hc') as [Hall _].
    destruct (execute_frame _ _ _ _ _ _ _ Hall He) as (Hl & Ht & _).
    destruct (decide (t' = t)) as [->|Hne].
    + rewrite Hc in Hc'. simplify_eq.
      destruct c; try done; cbn in Ha.
      * left. exists code'. split; [eapply code_put; by rewrite (code_at_frame _ _ _ Hl Ht)|].
        cbn in He. simplify_eq. destruct code' as [|[] ?]; try done.
      * destruct w; try done. right. left.
        destruct (execute_events _ _ _ _ _ _ _ Hall He) as (p & q & _ & _ & _ & Hs).
        destruct t; by apply Hs.
    + left. exists code. split; [|done].
      by rewrite code_put_ne, (code_at_frame _ _ _ Hl Ht).
  - left. exists code. split; [|done]. destruct t; [|done]. cbn in *. by rewrite Hl in Hc.
  - left. exists code. split; [|done]. destruct t; [|done]. cbn in *. by rewrite Hl in Hc.
  - left. exists code. split; [|done]. destruct t; [|done]. cbn in *. by rewrite Hl in Hc.
  - left. exists code. split; [|done]. destruct t; [|done]. cbn in *. rewrite Hl in Hc.
    by simplify_eq.
  - left. exists code. split; [|done]. destruct t; [|done]. cbn in *. by rewrite Hl in Hc.
  - left. exists code. split; [|done]. destruct t as [|j]; [done|]. cbn in *.
    rewrite list_lookup_insert_ne; [done|]. intros ->. rewrite Hi' in Hc. by simplify_eq.
  - left. by exists code.
  - left. by exists code.
Qed.

(** Only [shutdown] stops the broker, and then it is about to send. *)
Lemma execute_running t n c rest s code' s' :
  well_formed t (holds t s) (c :: rest) = true → execute methods t n c rest s = Some (code', s') →
  isRunning_ s = true → isRunning_ s' = false → sends_unloop code' = true.
Proof.
  intros Hw He Hr Hr'.
  destruct c; cbn in He; repeat case_match; simplify_eq/=; try congruence.
  - cbn in Hw. apply andb_true_iff in Hw as [_ Hw]. by apply andb_true_iff in Hw as [Hw _].
  - unfold send in Hr'. destruct (sends _ _); cbn in *; congruence.
Qed.

Lemma move_shut o s s' :
  inv s → move o s s' → isRunning_ s' = false → doomed s' ∨ ∃ t, about t s'.
Proof.
  intros Hi Hm Hr. destruct (isRunning_ s) eqn:Hr0.
  - destruct Hm as [t n c rest code' s1 s Hc He| | | | | | | |]; cbn in Hr; try congruence.
    destruct (inv_stmt _ _ _ _ Hi Hc) as [Ha Hw].
    destruct (execute_frame _ _ _ _ _ _ _ Ha He) as (Hl & Ht & _).
    right. exists t, code'. split; [eapply code_put; by rewrite (code_at_frame _ _ _ Hl Ht)|].
    assert (Hs : sends_unloop code' = true).
    { eapply execute_running; try done. by destruct t. }
    by destruct code' as [|[] ?].
  - destruct (iv_shut _ Hi Hr0) as [Hd|[t Ha]]; [left; by eapply move_doomed|].
    destruct (move_about _ _ _ _ Hi Hm Ha) as [?|?]; eauto.
Qed.

Lemma stmt_inv t n c rest s code' s' :
  inv s → code_at t s = Some (c :: rest) → execute methods t n c rest s = Some (code', s') →
  inv (put_code t code' s').
Proof using Hmethods.
  intros Hi Hc He. destruct (inv_stmt _ _ _ _ Hi Hc) as [Ha Hw].
  destruct (execute_frame _ _ _ _ _ _ _ Ha He) as (Hl & Ht & Hx & Hte & Hwa & Hen).
  destruct (execute_code _ _ _ _ _ _ _ Hw He) as (Hw' & Hothers & Hown).
  destruct (execute_events _ _ _ _ _ _ _ Ha He) as (p & q & Hp & Hq & Hok & _).
  assert (Hat : ∀ t', code_at t' s' = code_at t' s) by (intros; by apply code_at_frame).
  assert (Hput : code_at t (put_code t code' s') = Some code').
  { eapply code_put. by rewrite Hat. }
  assert (Hholds : ∀ t', holds t' (put_code t code' s') = holds t' s') by by destruct t.
  assert (Hloop : t = event_thread → loop s = in_callbacks (c :: rest)).
  { intros ->. cbn in Hc. by destruct (loop s); simplify_eq. }
  split.
  - intros t1 code1. rewrite Hholds. destruct (decide (t = t1)) as [<-|Hne].
    + rewrite Hput. by intros [= <-].
    + rewrite code_put_ne, Hat, Hothers by done. apply (iv_code _ Hi).
  - intros t1 Hm. destruct (decide (t = t1)) as [<-|Hne]; [by rewrite Hput|].
    rewrite code_put_ne, Hat by done. destruct (Hown t1) as [?|?]; [by destruct t|done|].
    by apply (iv_owner _ Hi).
  - pose proof (iv_events _ Hi) as He'.
    assert (Forall event_ok (pending s' ++ current s')).
    { rewrite Hp, Hq, !Forall_app in *. by destruct He', Hok. }
    by destruct t.
  - destruct (iv_alive _ Hi). destruct t; cbn; by rewrite Hte, Hwa.
  - pose proof (iv_exited _ Hi) as Hxi. destruct t; cbn; rewrite Hx; [|by rewrite Hl].
    rewrite Hxi, (Hloop eq_refl). by split.
  - destruct t; cbn; [done|]. rewrite Hl, Hen. cbn. intros Hf. apply (iv_run _ Hi).
    destruct c; try done; cbn in Hf; by rewrite andb_true_r in Hf.
  - destruct t; cbn; [by eauto|]. rewrite Hl.
    destruct (iv_current _ Hi) as [Hcur|?]; [|by auto]. left.
    destruct c; cbn in He; repeat case_match; simplify_eq/=; try done.
    unfold send. by destruct (sends _ _).
  - apply (move_shut (Some t) s); [done|]. by eapply m_stmt.
Qed.

Lemma move_inv o s s' : inv s → move o s s' → inv s'.
Proof using Hmethods.
  intros Hi Hm. pose proof (move_shut _ _ _ Hi Hm) as Hsh.
  destruct Hm as [t n c rest code' s1 s Hc He|s Hl He|s Hl He|s Hl Hp
    |s n e Hl He|s Hl He|i k s Hi'|e s He|s]; [by eapply stmt_inv|..|done].
  all: destruct Hi as [Hc Ho Hev Hal Hex Hru Hcu Hst];
    pose proof (Hc event_thread) as Hce; cbn in Hce; rewrite ?Hl in Hce;
    (split; [..|exact Hsh]); cbn; try done.
  all: try by (intros [|j] code; cbn; [by auto|apply (Hc (app_thread j))]).
  all: try by (intros [|j] Hj; cbn; [done|apply (Ho _ Hj)]).
  all: rewrite ?Hl in *; try done.
  all: try by (rewrite Hex; split).
  all: try by (destruct Hcu as [?|[? ?]]; [by left|done]).
  all: try solve [right; eauto|left; done|congruence].
  - by rewrite Forall_app in Hev; apply Hev.
  - apply Forall_app in Hev as [_ Hev]. rewrite Forall_lookup in Hev.
    intros [|j] code; cbn; [|apply (Hc (app_thread j))]. intros [= <-].
    specialize (Hce [] eq_refl). unfold holds in *. cbn in *. destruct (bool_decide _); [done|].
    apply well_formed_handler. by eapply Hev.
  - rewrite Forall_app in *. destruct Hev as [Hp Hq]. split; [done|].
    by apply Forall_delete.
  - intros [|j] code; cbn; [by apply (Hc event_thread)|]. destruct (decide (i = j)) as [->|Hne].
    + rewrite list_lookup_insert_eq by (by eapply lookup_lt_Some). intros [= <-].
      specialize (Hc (app_thread j) [] Hi'). unfold holds in *. cbn in *.
      destruct (bool_decide _); [done|]. by apply well_formed_call.
    + rewrite list_lookup_insert_ne by done. apply (Hc (app_thread j)).
  - intros [|j] Hj; cbn; [done|]. apply lookup_lt_is_Some. rewrite length_insert.
    apply lookup_lt_is_Some. by apply (Ho (app_thread j)).
  - rewrite !Forall_app in *. by repeat split; try apply Hev; constructor.
Qed.

(** The run stays within the invariant. *)
Lemma step_inv o s s' : inv s → step o s s' → inv s'.
Proof using Hmethods. intros Hi Hs%step_move. by eapply move_inv. Qed.

(** ** The mutex is free again and again *)

Lemma move_other o s s' t c rest :
  inv s → move o s s' → o ≠ Some t → code_at t s = Some (c :: rest) →
  code_at t s' = Some (c :: rest) ∧ (s_loopMutex_ s = Some t → s_loopMutex_ s' = Some t).
Proof using Hmethods.
  intros Hi Hm Ho Hc. destruct Hm as [t' n c' rest' code' s1 s Hc' He|s Hl He|s Hl He|s Hl Hp
    |s n e Hl He|s Hl He|i k s Hi'|e s He|s]; try done.
  - destruct (inv_stmt _ _ _ _ Hi Hc') as [Ha Hw].
    destruct (execute_frame _ _ _ _ _ _ _ Ha He) as (Hl & Ht & _).
    destruct (execute_code _ _ _ _ _ _ _ Hw He) as (_ & Hothers & _).
    assert (Hne : t ≠ t') by congruence.
    rewrite code_put_ne, (code_at_frame _ _ _ Hl Ht) by done. split; [done|].
    specialize (Hothers t Hne). unfold holds in Hothers. intros Hm.
    rewrite (bool_decide_true (s_loopMutex_ s = _) Hm) in Hothers.
    apply bool_decide_eq_true in Hothers. by destruct t'.
  - by destruct t.
  - by destruct t.
  - by destruct t.
  - by destruct t.
  - by destruct t.
  - destruct t as [|j]; [done|]. cbn in *. rewrite list_lookup_insert_ne; [done|].
    intros ->. congruence.
Qed.

Lemma execute_some t n c rest s :
  allowed t c = true → (c = lock_guard → s_loopMutex_ s = None) →
  (c = await_exit → loopExited_ s = true) → is_Some (execute methods t n c rest s).
Proof.
  intros Ha Hl Hw. destruct c; cbn; repeat case_match; try (by eexists); try (by destruct t).
  - by specialize (Hl eq_refl).
  - by specialize (Hw eq_refl).
Qed.

(** The thread that holds the mutex is inside its section and not blocked. *)
Lemma holder_code t s :
  inv s → s_loopMutex_ s = Some t →
  ∃ c rest, code_at t s = Some (c :: rest) ∧ well_formed t true (c :: rest) = true ∧
    enabled step t s.
Proof.
  intros Hi Hm. destruct (iv_owner _ Hi _ Hm) as [code Hc].
  pose proof (iv_code _ Hi _ _ Hc) as Hw. unfold holds in Hw. rewrite bool_decide_true in Hw by done.
  destruct code as [|c rest]; [done|]. exists c, rest. split_and!; [done..|].
  pose proof Hw as Hw'. cbn in Hw'. apply andb_true_iff in Hw' as [Ha Hw'].
  eapply can_move; [apply (iv_alive _ Hi)|exact Hc|].
  apply execute_some; [done| |]; by intros ->.
Qed.

(** How far the holder is from releasing it. *)
Definition weight c : nat :=
  match c with if_running => 3 | if_running_write => 4 | feed_timeout => 5 | _ => 1 end.
Fixpoint section_left code : nat :=
  match code with
  | [] => 0
  | unlock_guard :: _ => 0
  | c :: code' => weight c + section_left code'
  end.
Definition left_of (t : Tid) s : nat := section_left (default [] (code_at t s)).

Lemma section_app l1 l2 t :
  well_formed t true l1 = true → section_left (l1 ++ l2) = section_left l1.
Proof.
  induction l1 as [|c l1 IH]; [done|]. cbn. rewrite andb_true_iff. intros [_ Hw].
  destruct c; rewrite ?andb_true_iff in Hw; try done; cbn; rewrite IH; try done; apply Hw.
Qed.

Lemma execute_section t n c rest s code' s' :
  well_formed t true (c :: rest) = true → s_loopMutex_ s = Some t →
  execute methods t n c rest s = Some (code', s') →
  s_loopMutex_ s' = None ∨
  s_loopMutex_ s' = Some t ∧ section_left code' < section_left (c :: rest).
Proof.
  intros Hw Hm He. pose proof Hw as Ha. cbn in Ha. apply andb_true_iff in Ha as [Ha _].
  destruct c; cbn in He; try (by destruct t); repeat case_match; simplify_eq/=; try (by left);
    try (right; split; [done|lia]); try done.
  - right. unfold send. destruct (sends _ _); cbn; split; try done; lia.
  - right. split; [done|]. apply andb_true_iff in Hw as [_ Hw].
    rewrite (section_app _ _ _ Hw). lia.
Qed.

Lemma own_section t s s' :
  inv s → s_loopMutex_ s = Some t → move (Some t) s s' →
  s_loopMutex_ s' = None ∨ inv s' ∧ s_loopMutex_ s' = Some t ∧ left_of t s' < left_of t s.
Proof using Hmethods.
  intros Hi Hm Hs. pose proof (move_inv _ _ _ Hi Hs) as Hi'.
  destruct (holder_code _ _ Hi Hm) as (c & rest & Hc & Hw & _).
  inversion Hs as [t' n c' rest' code' s1 s0 Hc' He|s0 Hl|s0 Hl|s0 Hl|s0 n e Hl|s0 Hl| | |];
    simplify_eq; try (by cbn in Hc; rewrite Hl in Hc).
  destruct (inv_stmt _ _ _ _ Hi Hc) as [Ha _].
  destruct (execute_frame _ _ _ _ _ _ _ Ha He) as (Hl & Ht & _).
  assert (Hmut : s_loopMutex_ (put_code t code' s1) = s_loopMutex_ s1) by by destruct t.
  rewrite Hmut. destruct (execute_section _ _ _ _ _ _ _ Hw Hm He) as [?|[Hm' Hlt]]; [by left|].
  right. split_and!; [done|done|]. unfold left_of.
  by rewrite (code_put _ _ (c :: rest)), Hc by by rewrite (code_at_frame _ _ _ Hl Ht).
Qed.

(** ** The way of the event thread to its end *)

Definition potential code : nat :=
  sum_list_with (λ c, match c with feed_timeout | collect_timers => 1 | _ => 0 end) code.
Definition size code : nat := sum_list_with weight code.
Definition events_potential (es : list (Event (M := M))) : nat :=
  sum_list_with (λ e, potential (handler e)) es.
Definition events_size (es : list (Event (M := M))) : nat :=
  sum_list_with (λ e, S (size (handler e))) es.

Lemma potential_cons c code :
  potential (c :: code) =
  match c with feed_timeout | collect_timers => 1 | _ => 0 end + potential code.
Proof. done. Qed.
Lemma size_cons c code : size (c :: code) = weight c + size code.
Proof. done. Qed.
Lemma potential_app l1 l2 : potential (l1 ++ l2) = potential l1 + potential l2.
Proof. apply sum_list_with_app. Qed.

Lemma potential_calls (ks : list (Call (M := M))) : potential (flat_map code_of ks) = 0.
Proof.
  induction ks as [|k ks IH]; [done|]. cbn [flat_map]. rewrite potential_app, IH.
  by destruct k as [| | | | | | |[]].
Qed.

(** [3]: the event of [shutdown] is waiting; [2]: its callback runs in this
    iteration; [1]: the loop is disabled. *)
Definition phase s : nat := if s_enabled_ s then if taken s then 2 else 3 else 1.
Definition rank s : nat * nat * nat :=
  match loop s with
  | left => (0, 0, 0)
  | at_ev_run => (phase s, 0, 0)
  | at_while => (phase s, 0, 1)
  | in_callbacks code =>
      (phase s, potential code + events_potential (current s),
       2 + size code + events_size (current s))
  end.

(** The lexicographic order. *)
Definition lt3 (x y : nat * nat * nat) : Prop :=
  x.1.1 < y.1.1 ∨ x.1.1 = y.1.1 ∧ (x.1.2 < y.1.2 ∨ x.1.2 = y.1.2 ∧ x.2 < y.2).

Lemma lt3_wf : well_founded lt3.
Proof.
  intros [[a b] c]. revert b c. induction a as [a IHa] using lt_wf_ind.
  induction b as [b IHb] using lt_wf_ind. induction c as [c IHc] using lt_wf_ind.
  constructor. intros [[a' b'] c'] [?|[? [?|[? ?]]]]; cbn in *; subst; auto.
Qed.
#[local] Instance lt3_trans : Transitive lt3.
Proof. intros [[??]?] [[??]?] [[??]?]. unfold lt3. cbn. lia. Qed.

Lemma execute_measure n c rest s code' s' :
  allowed event_thread c = true → execute methods event_thread n c rest s = Some (code', s') →
  let p := potential (c :: rest) + events_potential (current s) in
  let p' := potential code' + events_potential (current s') in
  p' < p ∨ p' = p ∧ size code' + events_size (current s') <
                    size (c :: rest) + events_size (current s).
Proof.
  intros Ha He. cbn zeta.
  destruct c; cbn in He; try done; repeat case_match; simplify_eq;
    rewrite ?potential_app, ?potential_calls, ?potential_cons, ?size_cons; cbn;
    unfold send, events_potential, events_size in *; repeat case_match; cbn;
    rewrite ?sum_list_with_app; cbn; lia.
Qed.

Lemma stmt_phase n c rest s code' s' :
  allowed event_thread c = true → loop s = in_callbacks (c :: rest) →
  execute methods event_thread n c rest s = Some (code', s') →
  phase (put_code event_thread code' s') ≤ phase s.
Proof.
  intros Ha Hl He. destruct (execute_frame _ _ _ _ _ _ _ Ha He) as (_ & _ & _ & _ & _ & Hen).
  assert (Hc : code_at event_thread s = Some (c :: rest)) by by cbn; rewrite Hl.
  unfold phase. cbn [put_code set_loop s_enabled_]. rewrite Hen.
  destruct (s_enabled_ s); cbn; [|lia]. destruct (clears c) eqn:Hcl; cbn; [destruct (taken s); lia|].
  destruct (taken s) eqn:Ht; [|case_match; lia].
  pose proof (stmt_taken _ _ _ _ _ _ _ Ha Hc He Hcl Ht) as Ht'. cbn [put_code] in Ht'.
  by rewrite Ht'.
Qed.

Lemma events_delete (f : Event (M := M) → nat) es n e :
  es !! n = Some e → sum_list_with f es = f e + sum_list_with f (delete n es).
Proof.
  revert n. induction es as [|x es IH]; intros [|n] Hn; simplify_eq/=; [done|].
  rewrite (IH _ Hn). lia.
Qed.

(** Every step of the event thread brings it nearer to its end. *)
Lemma loop_rank s s' :
  inv s → doomed s → move (Some event_thread) s s' →
  loopExited_ s' = true ∨ lt3 (rank s') (rank s).
Proof.
  intros Hi Hd Hm. inversion Hm as [t' n c rest code' s1 s0 Hc He|s0 Hl Hen|s0 Hl|s0 Hl Hp
    |s0 n e Hl He|s0 Hl He| | |]; simplify_eq.
  - right. cbn in Hc. destruct (loop s) as [| |code|] eqn:Hl; simplify_eq.
    destruct (inv_stmt event_thread c rest s Hi) as [Ha _]; [by cbn; rewrite Hl|].
    pose proof (stmt_phase _ _ _ _ _ _ Ha Hl He) as Hph.
    pose proof (execute_measure _ _ _ _ _ _ Ha He) as Hme. cbn zeta in Hme.
    unfold rank. rewrite Hl. cbn [put_code set_loop loop current] in *.
    unfold lt3. cbn [fst snd]. lia.
  - right. unfold rank, lt3. rewrite Hl. cbn. unfold phase, taken, loop_code. rewrite Hl. cbn. lia.
  - by left.
  - right. unfold rank. rewrite Hl. cbn. left. cbn. unfold phase, taken, loop_code. rewrite Hl. cbn.
    destruct (s_enabled_ s) eqn:Hen; [|by destruct (iv_run _ Hi Hen)].
    destruct (iv_current _ Hi) as [Hcu|[? Hcu]]; [|congruence]. rewrite Hcu, !orb_false_r. cbn.
    unfold doomed, taken, loop_code in Hd. rewrite Hl, Hcu, Hen in Hd. cbn in Hd.
    destruct Hd as [Hd|[?|?]]; [|done..]. rewrite Hd. lia.
  - right. unfold rank. rewrite Hl. cbn.
    assert (Hph : phase (set_loop (loopExited_ s) (in_callbacks (handler e))
                    (set_events (pending s) (delete n (current s)) s)) ≤ phase s).
    { unfold phase, taken, loop_code. rewrite Hl. cbn. destruct (s_enabled_ s); [|lia].
      rewrite (existsb_delete _ _ _ _ He), orb_false_r.
      destruct (existsb _ (delete _ _)); cbn; [by rewrite orb_true_r; lia|].
      destruct e as [[]| |]; cbn; rewrite ?bool_decide_false by done; cbn; repeat case_match; lia. }
    unfold lt3, events_potential, events_size. cbn.
    rewrite (events_delete (λ e, potential (handler e)) _ _ _ He).
    rewrite (events_delete (λ e, S (size (handler e))) _ _ _ He). cbn. lia.
  - right. unfold rank. rewrite Hl. unfold lt3, phase, taken, loop_code. rewrite Hl, He. cbn.
    rewrite He. cbn. lia.
Qed.

(** The others do not hold it up. *)
Lemma other_rank o s s' :
  inv s → move o s s' → o ≠ Some event_thread → rank s' = rank s ∧ loop s' = loop s.
Proof.
  intros Hi Hm Ho. destruct Hm as [t n c rest code' s1 s Hc He| | | | | | | |]; try done.
  destruct t as [|i]; [done|]. destruct (inv_stmt _ _ _ _ Hi Hc) as [Ha _].
  destruct (execute_frame _ _ _ _ _ _ _ Ha He) as (Hl & Ht & _ & _ & _ & Hen).
  assert (Hcl : clears c = false) by by destruct c.
  assert (Hcu : current s1 = current s).
  { destruct c; cbn in He; try done; repeat case_match; simplify_eq/=; try done.
    unfold send. by destruct (sends _ _). }
  rewrite Hcl, andb_true_r in Hen. cbn. split; [|done].
  unfold rank, phase, taken, loop_code. cbn. by rewrite Hl, Hcu, Hen.
Qed.

(** A doomed loop can move as soon as the mutex is free. *)
Lemma loop_enabled s :
  inv s → doomed s → loopExited_ s = false → s_loopMutex_ s = None → enabled step event_thread s.
Proof.
  intros Hi Hd Hx Hm. destruct (iv_alive _ Hi) as [Ht _].
  assert (Hgo : ∀ n, is_Some (loop_step methods n s) → enabled step event_thread s).
  { intros n [s' Hs]. exists s', (l_loop n). split_and!; [done..|]. unfold sys_step. by rewrite Ht. }
  destruct (loop s) as [| |[|c code]|] eqn:Hl.
  - apply (Hgo 0). unfold loop_step. rewrite Hl. by eexists.
  - apply (Hgo 0). unfold loop_step. rewrite Hl. destruct (pending s) eqn:Hp; [|by eexists].
    exfalso. unfold doomed, taken, loop_code in Hd. rewrite Hp, Hl in Hd.
    destruct (iv_current _ Hi) as [Hcu|[? Hcu]]; [|congruence]. rewrite Hcu in Hd.
    destruct Hd as [?|[?|Hen]]; try done. by destruct (iv_run _ Hi Hen).
  - apply (Hgo 0). unfold loop_step. rewrite Hl. destruct (current s); by eexists.
  - assert (Hc : code_at event_thread s = Some (c :: code)) by by cbn; rewrite Hl.
    destruct (inv_stmt _ _ _ _ Hi Hc) as [Ha _].
    eapply can_move; [done|exact Hc|]. apply execute_some; [done|done|]. by intros ->.
  - pose proof (proj2 (iv_exited _ Hi) Hl). congruence.
Qed.

Definition code_length (t : Tid) s : nat := length (default [] (code_at t s)).

(** ** The destructor *)

Definition unloop : Stmt (M := M) := ev_async_send unloop_watcher.
(** The destructor of thread [i] is in progress, or has returned. *)
Definition destroying (i : nat) s : Prop :=
  ∃ code, threads s !! i = Some code ∧
    (code = [if_running; await_exit] ∨ code = [clear_running; unloop; await_exit] ∨
     code = [unloop; await_exit] ∨ code = [await_exit]).
Definition destroyed (i : nat) s : Prop := threads s !! i = Some [] ∧ loopExited_ s = true.

Lemma move_exited o s s' : inv s → move o s s' → loopExited_ s = true → loopExited_ s' = true.
Proof using Hmethods.
  intros Hi Hm Hx. pose proof (proj1 (iv_exited _ Hi) Hx) as Hl.
  apply (iv_exited _ (move_inv _ _ _ Hi Hm)).
  destruct Hm as [t n c rest code' s1 s Hc He| | | | | | | |]; try congruence; try done.
  destruct (inv_stmt _ _ _ _ Hi Hc) as [Ha _].
  destruct (execute_frame _ _ _ _ _ _ _ Ha He) as (Hl' & _).
  destruct t as [|i]; [by cbn in Hc; rewrite Hl in Hc|]. cbn. congruence.
Qed.

Definition destructor_left (i : nat) s : nat := size (default [] (threads s !! i)).

Lemma own_destroying i s s' :
  inv s → destroying i s → move (Some (app_thread i)) s s' →
  destroyed i s' ∨ destroying i s' ∧ destructor_left i s' < destructor_left i s.
Proof.
  intros Hi (code & Hc & Hin) Hm. inversion Hm as [t' n c rest code' s1 s0 Hc' He| | | | | | | |].
  subst. cbn in Hc'. rewrite Hc in Hc'. injection Hc' as ->.
  pose proof (inv_stmt (app_thread i) _ _ _ Hi Hc) as [Ha _].
  destruct (execute_frame _ _ _ _ _ _ _ Ha He) as (Hl & Ht & Hx & _).
  assert (Hput : threads (put_code (app_thread i) code' s1) !! i = Some code').
  { cbn. rewrite Ht. apply list_lookup_insert_eq. by eapply lookup_lt_Some. }
  unfold destroying, destroyed, destructor_left. rewrite Hput, Hc.
  destruct Hin as [Hin|[Hin|[Hin|Hin]]]; injection Hin as -> ->; cbn in He.
  - right. injection He as <- <-. destruct (isRunning_ s);
      (split; [eexists; split; [done|auto]|unfold size; cbn; lia]).
  - right. injection He as <- <-. split; [eexists; split; [done|auto]|unfold size; cbn; lia].
  - right. injection He as <- <-. split; [eexists; split; [done|auto]|unfold size; cbn; lia].
  - left. destruct (loopExited_ s) eqn:Hxs; [|done]. injection He as <- <-. split; [done|]. cbn.
    congruence.
Qed.
Lemma other_destroying o i s s' :
  inv s → destroying i s → move o s s' → o ≠ Some (app_thread i) →
  threads s' !! i = threads s !! i.
Proof using Hmethods.
  intros Hi (code & Hc & Hin) Hm Hne. destruct code as [|c rest]; [by destruct Hin as [?|[?|[?|?]]]|].
  destruct (move_other _ _ _ (app_thread i) c rest Hi Hm Hne Hc) as [Hc' _]. cbn in Hc'.
  congruence.
Qed.

Section fair_run.
Context (σ : nat → Sys (M := M)) (who : nat → option Tid).
Context (Hrun : is_run step σ who) (Hfair : ∀ t, fair step σ who t).

Lemma mutex_is_released t :
  leads_to σ (λ s, inv s ∧ s_loopMutex_ s = Some t) (λ s, s_loopMutex_ s = None).
Proof using Hmethods Hrun Hfair.
  eapply (leads_to_fair step σ who Hrun lt lt_wf _ (left_of t) _ _ t); [| | |by apply Hfair].
  - intros o s s' [Hi Hm] Hs%step_move. destruct (holder_code _ _ Hi Hm) as (c & rest & Hc & _).
    destruct (decide (o = Some t)) as [->|Hne].
    + destruct (own_section _ _ _ Hi Hm Hs) as [?|(Hi' & Hm' & Hlt)]; auto.
    + right. destruct (move_other _ _ _ _ _ _ Hi Hs Hne Hc) as [Hc' Hm'].
      split; [split; [by eapply move_inv|auto]|left]. unfold left_of. by rewrite Hc, Hc'.
  - intros s s' [Hi Hm] Hs%step_move.
    destruct (own_section _ _ _ Hi Hm Hs) as [?|(Hi' & Hm' & Hlt)]; auto.
  - apply leads_to_refl. intros s [Hi Hm]. right. by destruct (holder_code _ _ Hi Hm) as (? & ? & ? & ? & ?).
Qed.

Lemma mutex_free_again : leads_to σ inv (λ s, inv s ∧ s_loopMutex_ s = None).
Proof using Hmethods Hrun Hfair.
  intros n Hi. destruct (s_loopMutex_ (σ n)) as [t|] eqn:Hm; [|by exists n].
  destruct (mutex_is_released t n (conj Hi Hm)) as (m & Hnm & Hfree).
  exists m. split_and!; [done| |done].
  eapply (stable_holds step); [exact Hrun|apply step_inv|exact Hi|done].
Qed.

Lemma inv_later n m : inv (σ n) → n ≤ m → inv (σ m).
Proof using Hmethods Hrun. intros Hi Hle. by eapply stable_holds; [|apply step_inv| |]. Qed.

(** *** The event thread ends *)

Lemma step_doomed o s s' : inv s ∧ doomed s → step o s s' → inv s' ∧ doomed s'.
Proof using Hmethods.
  intros [Hi Hd] Hs%step_move. split; [by eapply move_inv|by eapply move_doomed].
Qed.

Lemma step_rank o s s' :
  inv s ∧ doomed s → step o s s' →
  loopExited_ s' = true ∨ (inv s' ∧ doomed s') ∧ (rank s' = rank s ∨ lt3 (rank s') (rank s)).
Proof using Hmethods.
  intros Hid Hs. pose proof (step_doomed _ _ _ Hid Hs) as Hid'. destruct Hid as [Hi Hd].
  apply step_move in Hs. destruct (decide (o = Some event_thread)) as [->|Hne].
  - destruct (loop_rank _ _ Hi Hd Hs) as [?|?]; auto.
  - destruct (other_rank _ _ _ Hi Hs Hne) as [-> _]. auto.
Qed.

Lemma doomed_loop_ends : leads_to σ (λ s, inv s ∧ doomed s) (λ s, loopExited_ s = true).
Proof using Hmethods Hrun Hfair.
  eapply (leads_to_fair step σ who Hrun lt3 lt3_wf _ rank _ _ event_thread);
    [apply step_rank| | |apply Hfair].
  - intros s s' [Hi Hd] Hs. pose proof (step_doomed _ _ _ (conj Hi Hd) Hs) as Hid'.
    destruct (loop_rank _ _ Hi Hd (step_move _ _ _ Hs)); auto.
  - intros n [Hi Hd]. destruct (mutex_free_again n Hi) as (m & Hnm & Hi' & Hfree).
    destruct (stable_holds step σ who Hrun _ n m step_doomed (conj Hi Hd) Hnm) as [_ Hd'].
    exists m. split; [done|]. destruct (loopExited_ (σ m)) eqn:Hx; [by left|right].
    by apply loop_enabled.
Qed.

(** *** The event of [shutdown] is sent *)

Lemma about_enabled t s : inv s → about t s → enabled step t s.
Proof.
  intros Hi (code & Hc & Ha). destruct code as [|c rest]; [done|].
  destruct (inv_stmt _ _ _ _ Hi Hc) as [Hall _].
  eapply can_move; [apply (iv_alive _ Hi)|exact Hc|]. apply execute_some; [done| |]; by intros ->.
Qed.

Lemma about_step t s s' :
  inv s → about t s → move (Some t) s s' →
  doomed s' ∨ (inv s' ∧ about t s') ∧ code_length t s' < code_length t s.
Proof using Hmethods.
  intros Hi Hab Hm. pose proof (move_inv _ _ _ Hi Hm) as Hi'.
  destruct (move_about _ _ _ _ Hi Hm Hab) as [Hab'|?]; [|by left].
  destruct Hab as (code & Hc & Ha).
  inversion Hm as [t' n c' rest' code' s1 s0 Hc' He|s0 Hl|s0 Hl|s0 Hl|s0 n e Hl|s0 Hl| | |];
    simplify_eq; try (by cbn in Hc; rewrite Hl in Hc; simplify_eq).
  destruct (inv_stmt _ _ _ _ Hi Hc) as [Hall _].
  destruct (execute_frame _ _ _ _ _ _ _ Hall He) as (Hl & Ht & _).
  right. split; [done|]. unfold code_length.
  rewrite (code_put _ _ (c' :: rest')), Hc by by rewrite (code_at_frame _ _ _ Hl Ht).
  destruct c'; try done; cbn in He; simplify_eq/=; lia.
Qed.

Lemma about_sends t : leads_to σ (λ s, inv s ∧ about t s) (λ s, doomed s).
Proof using Hmethods Hrun Hfair.
  eapply (leads_to_fair step σ who Hrun lt lt_wf _ (code_length t) _ _ t); [| | |apply Hfair].
  - intros o s s' [Hi Hab] Hs%step_move. destruct (decide (o = Some t)) as [->|Hne].
    + destruct (about_step _ _ _ Hi Hab Hs) as [?|[? ?]]; auto.
    + right. destruct Hab as ([|c rest] & Hc & Ha); [done|].
      destruct (move_other _ _ _ _ _ _ Hi Hs Hne Hc) as [Hc' _].
      split; [split; [by eapply move_inv|by exists (c :: rest)]|left].
      unfold code_length. by rewrite Hc, Hc'.
  - intros s s' [Hi Hab] Hs%step_move. by apply about_step.
  - apply leads_to_refl. intros s [Hi Hab]. right. by apply about_enabled.
Qed.

Lemma stopped_broker_ends_loop :
  leads_to σ (λ s, inv s ∧ (doomed s ∨ ∃ t, about t s)) (λ s, loopExited_ s = true).
Proof using Hmethods Hrun Hfair.
  intros n [Hi [Hd|[t Ha]]]; [by apply doomed_loop_ends|].
  destruct (about_sends t n (conj Hi Ha)) as (m & Hnm & Hd).
  destruct (doomed_loop_ends m) as (k & Hk & Hx); [by eauto using inv_later|].
  exists k. split; [lia|done].
Qed.


(** *** The destructor returns *)

Lemma step_destroying o i s s' :
  inv s ∧ destroying i s → step o s s' → (inv s' ∧ destroying i s') ∨ destroyed i s'.
Proof using Hmethods.
  intros [Hi Hd] Hs%step_move. pose proof (move_inv _ _ _ Hi Hs) as Hi'.
  destruct (decide (o = Some (app_thread i))) as [->|Hne].
  - destruct (own_destroying _ _ _ Hi Hd Hs) as [?|[? _]]; auto.
  - left. split; [done|]. pose proof (other_destroying _ _ _ _ Hi Hd Hs Hne) as Ht.
    destruct Hd as (code & Hc & Hin). exists code. by rewrite Ht.
Qed.

(** It stops the broker, or finds it stopped. *)
Lemma destructor_stops i :
  leads_to σ (λ s, inv s ∧ threads s !! i = Some [if_running; await_exit])
    (λ s, inv s ∧ (doomed s ∨ ∃ t, about t s)).
Proof using Hmethods Hrun Hfair.
  assert (Hown : ∀ s s', inv s ∧ threads s !! i = Some [if_running; await_exit] →
    move (Some (app_thread i)) s s' → inv s' ∧ (doomed s' ∨ ∃ t, about t s')).
  { intros s s' [Hi Hc] Hm. pose proof (move_inv _ _ _ Hi Hm) as Hi'. split; [done|].
    assert (Hd : destroying i s) by by eexists; eauto.
    inversion Hm as [t' n c rest code' s1 s0 Hc' He| | | | | | | |]. subst. cbn in Hc'.
    rewrite Hc in Hc'. injection Hc' as <- <-. cbn in He. injection He as <- <-.
    destruct (isRunning_ s) eqn:Hr; [right|by apply (iv_shut _ Hi')].
    eexists (app_thread i), _. split; [eapply code_put; exact Hc|done]. }
  eapply (leads_to_fair step σ who Hrun lt lt_wf _ (λ _, 0) _ _ (app_thread i));
    [| | |apply Hfair].
  - intros o s s' [Hi Hc] Hs%step_move. destruct (decide (o = Some (app_thread i))) as [->|Hne].
    + left. by eapply Hown.
    + right. split; [|by left]. split; [by eapply move_inv|].
      rewrite (other_destroying o i s s'); try done. eexists; eauto.
  - intros s s' HP Hs%step_move. left. by eapply Hown.
  - apply leads_to_refl. intros s [Hi Hc]. right.
    eapply can_move; [apply (iv_alive _ Hi)|exact Hc|]. by eexists.
Qed.

(** When the loop has ended, nothing keeps it from returning. *)
Lemma exited_destructor_returns i :
  leads_to σ (λ s, (inv s ∧ destroying i s) ∧ loopExited_ s = true) (destroyed i).
Proof using Hmethods Hrun Hfair.
  assert (Hown : ∀ s s', (inv s ∧ destroying i s) ∧ loopExited_ s = true →
    move (Some (app_thread i)) s s' →
    destroyed i s' ∨ ((inv s' ∧ destroying i s') ∧ loopExited_ s' = true) ∧
                     destructor_left i s' < destructor_left i s).
  { intros s s' [[Hi Hd] Hx] Hm. pose proof (move_inv _ _ _ Hi Hm) as Hi'.
    pose proof (move_exited _ _ _ Hi Hm Hx) as Hx'.
    destruct (own_destroying _ _ _ Hi Hd Hm) as [?|[? ?]]; auto. }
  eapply (leads_to_fair step σ who Hrun lt lt_wf _ (destructor_left i) _ _ (app_thread i));
    [| | |apply Hfair].
  - intros o s s' HP Hs. pose proof HP as [[Hi Hd] Hx].
    pose proof (step_move _ _ _ Hs) as Hm.
    destruct (decide (o = Some (app_thread i))) as [->|Hne].
    + destruct (Hown _ _ HP Hm) as [?|[? ?]]; auto.
    + destruct (step_destroying _ _ _ _ (conj Hi Hd) Hs) as [?|?]; [right|by left].
      split; [split; [done|by eapply move_exited]|left].
      unfold destructor_left. by rewrite (other_destroying o i s s').
  - intros s s' HP Hs%step_move. by apply Hown.
  - apply leads_to_refl. intros s [[Hi (code & Hc & Hin)] Hx]. right.
    destruct code as [|c rest]; [by destruct Hin as [?|[?|[?|?]]]|].
    destruct (inv_stmt (app_thread i) _ _ _ Hi Hc) as [Ha _].
    eapply can_move; [apply (iv_alive _ Hi)|exact Hc|]. apply execute_some; [done| |done].
    intros ->. by destruct Hin as [?|[?|[?|?]]].
Qed.

Lemma destructor_leads_to i :
  leads_to σ (λ s, inv s ∧ threads s !! i = Some [if_running; await_exit]) (destroyed i).
Proof using Hmethods Hrun Hfair.
  intros n [Hi Hc]. assert (Hd : destroying i (σ n)) by by eexists; eauto.
  destruct (destructor_stops i n (conj Hi Hc)) as (m & Hnm & Hst).
  destruct (stopped_broker_ends_loop m Hst) as (k & Hmk & Hx).
  destruct (keeps_until step σ who Hrun _ _ n k (λ o s s', step_destroying o i s s')
              (conj Hi Hd)) as [Hk|?]; [lia| |done].
  destruct (exited_destructor_returns i k (conj Hk Hx)) as (j & Hj & Hdone).
  exists j. split; [lia|done].
Qed.
End fair_run.
End methods.


(** ** After the end *)

(** The code of the application, and of the end of the program. *)
Definition of_program c : bool :=
  match c with feed_timeout | collect_timers | pop_commands => false | _ => true end.

Lemma of_program_call (k : Call (M := M)) : forallb of_program (code_of k) = true.
Proof. by destruct k as [| | | | | | |[]]. Qed.

Record quiet s : Prop := {
  qt_code : ∀ i code, threads s !! i = Some code → forallb of_program code = true;
  qt_loop : loopExited_ s = true ↔ loop s = left }.

(** No thread is past the last look of [~EvHelper]. *)
Definition looks_again (code : list (Stmt (M := M))) : bool :=
  forallb (λ c, match c with try_exit O => false | _ => true end) code.
Definition patient s : Prop := ∀ i code, threads s !! i = Some code → looks_again code = true.

Lemma looks_again_call (k : Call (M := M)) : looks_again (code_of k) = true.
Proof. by destruct k as [| | | | | | |[]]. Qed.

(** What changes after the loop has been left. *)
Definition later s s' : Prop :=
  loopExited_ s = true →
  loop s' = left ∧ commands_ s ≤ commands_ s' ∧ s_timers_ s `prefix_of` s_timers_ s' ∧
  (patient s → patient s' ∧ terminated s' = terminated s).

Lemma later_refl s : quiet s → later s s.
Proof. intros Hq Hx. split_and!; try done. by apply qt_loop. Qed.

Lemma execute_application methods i c rest s code' s' :
  forallb of_program (c :: rest) = true → execute methods (app_thread i) 0 c rest s = Some (code', s') →
  forallb of_program code' = true ∧ loop s' = loop s ∧ threads s' = threads s ∧
  loopExited_ s' = loopExited_ s ∧ commands_ s ≤ commands_ s' ∧ s_timers_ s `prefix_of` s_timers_ s' ∧
  (loopExited_ s = true → looks_again (c :: rest) = true →
     looks_again code' = true ∧ terminated s' = terminated s).
Proof.
  cbn. intros [Hc Hr]%andb_true_iff He.
  destruct c; try done; cbn in He; repeat case_match; simplify_eq; cbn;
    unfold send; repeat case_match; split_and!; cbn; try done; try lia; try congruence.
  all: try by (rewrite ?andb_true_iff; intuition congruence).
  by apply prefix_app_r.
Qed.

Lemma set_thread_lookup s i k (c0 : list (Stmt (M := M))) j code :
  threads s !! i = Some c0 → threads (set_thread i k s) !! j = Some code →
  code = k ∨ threads s !! j = Some code.
Proof.
  intros Hi. cbn. destruct (decide (i = j)) as [->|Hne].
  - rewrite list_lookup_insert_eq by (by eapply lookup_lt_Some). intros [= <-]. by left.
  - rewrite list_lookup_insert_ne by done. by right.
Qed.

Lemma execute_loop_frame methods n c rest s code' s' :
  execute methods event_thread n c rest s = Some (code', s') →
  threads s' = threads s ∧ loopExited_ s' = loopExited_ s.
Proof.
  intros He. destruct c; cbn in He; unfold send in He; repeat case_match; by simplify_eq/=.
Qed.

Lemma loop_step_quiet methods n s s' :
  quiet s → loop_step methods n s = Some s' → quiet s' ∧ later s s'.
Proof.
  intros [Hc Hl] Hs. unfold later. rewrite Hl. unfold loop_step in Hs.
  destruct (loop s) as [| |[|c code]|] eqn:Hlo; [..|done].
  - destruct (s_enabled_ s); simplify_eq; (split; [split; [done|]|done]); cbn; [|done].
    rewrite Hl. by split.
  - destruct (pending s); simplify_eq. split; [split; [done|]|done]. cbn. rewrite Hl. by split.
  - destruct (current s); [simplify_eq; split; [split; [done|]|done]; cbn; rewrite Hl; by split|].
    apply bind_Some in Hs as (? & ? & [= <-]). split; [split; [done|]|done]. cbn. rewrite Hl. by split.
  - apply bind_Some in Hs as ([code' s1] & He & [= <-]).
    destruct (execute_loop_frame _ _ _ _ _ _ _ He) as [Ht Hx]. split; [split; [|]|done]; cbn.
    + by rewrite Ht.
    + rewrite Hx, Hl. by split.
Qed.

Lemma sys_step_quiet methods l s s' :
  quiet s → sys_step methods l s = Some s' → quiet s' ∧ later s s'.
Proof.
  intros Hq Hs. pose proof (later_refl _ Hq) as Hrefl. unfold sys_step in Hs.
  destruct (terminated s) eqn:Ht; [by destruct l; simplify_eq|].
  assert (Hset : ∀ i k, forallb of_program k = true → looks_again k = true →
    threads s !! i = Some [] → quiet (set_thread i k s) ∧ later s (set_thread i k s)).
  { intros i k Hk Hk' Hi. split.
    - destruct Hq as [Hc Hl]. split; [|done]. intros j code.
      by intros [->|?]%(set_thread_lookup _ _ _ _ _ _ Hi); eauto.
    - intros Hx. destruct (Hrefl Hx) as (? & ? & ? & _). split_and!; try done.
      intros Hp. split; [|done]. intros j code.
      by intros [->|?]%(set_thread_lookup _ _ _ _ _ _ Hi); eauto. }
  destruct l as [n|i|i k| |e|]; [by eapply loop_step_quiet|..|by simplify_eq].
  - unfold thread_step in Hs. destruct (threads s !! i) as [[|c code]|] eqn:Hi; try done.
    apply bind_Some in Hs as ([code' s1] & He & [= <-]). destruct Hq as [Hc Hl].
    destruct (execute_application _ _ _ _ _ _ _ (Hc _ _ Hi) He)
      as (Hcode & Hlo & Hth & Hx & Hcm & Htm & Hte).
    rewrite <-Hth in Hi. split; [split|].
    + intros j code1. intros [->|Hj]%(set_thread_lookup _ _ _ _ _ _ Hi); [done|].
      rewrite Hth in Hj. eauto.
    + cbn. by rewrite Hx, Hlo.
    + intros Hex. cbn. split_and!; [by rewrite Hlo; apply Hl|done|done|]. intros Hp.
      rewrite Hth in Hi. destruct (Hte Hex (Hp _ _ Hi)) as [Hla Hte']. split; [|done].
      rewrite <-Hth in Hi. intros j code1 [->|Hj]%(set_thread_lookup _ _ _ _ _ _ Hi); [done|].
      rewrite Hth in Hj. eauto.
  - destruct (threads s !! i) as [[|]|] eqn:Hi; simplify_eq.
    apply Hset; [apply of_program_call|apply looks_again_call|done].
  - destruct (threads s !! 0) as [[|]|] eqn:Hi; simplify_eq. by apply Hset.
  - destruct e; repeat case_match; simplify_eq; (split; [|exact Hrefl]); by destruct Hq.
Qed.

Lemma sys_run_quiet methods ls s s' :
  quiet s → sys_run methods ls s = Some s' → quiet s' ∧ later s s'.
Proof.
  revert s. induction ls as [|l ls IH]; intros s Hq; cbn.
  - intros [= <-]. split; [done|by apply later_refl].
  - intros (s1 & H1 & H2)%bind_Some. destruct (sys_step_quiet _ _ _ _ Hq H1) as [Hq1 L1].
    destruct (IH _ Hq1 H2) as [Hq' L2]. split; [done|]. intros Hx.
    destruct (L1 Hx) as (Hl1 & Hc1 & Hm1 & Ht1). destruct L2 as (Hl2 & Hc2 & Hm2 & Ht2);
      [by apply (qt_loop _ Hq1)|].
    split_and!; [done|lia|by etransitivity|]. intros [Hp1 E1]%Ht1.
    destruct (Ht2 Hp1) as [Hp2 E2]. split; [done|congruence].
Qed.


(** The third sleep is not followed by a look: a loop that is left during it does
    not keep [~EvHelper] from terminating the process. *)
Lemma late_exit_terminates methods i rest s :
  threads s !! i = Some (try_exit 0 :: rest) → terminated s = false → loopExited_ s = true →
  terminated <$> sys_step methods (l_thread i) s = Some true.
Proof. intros Hi Ht _. unfold sys_step, thread_step. by rewrite Ht, Hi. Qed.

(** A callback that destroys the driver waits for its own thread: from then on no
    step of any kind moves the event thread. *)
Lemma destroy_in_callback_hangs methods l s s' code :
  loop s = in_callbacks (await_exit :: code) → loopExited_ s = false →
  sys_step methods l s = Some s' →
  loop s' = in_callbacks (await_exit :: code) ∧ loopExited_ s' = false.
Proof.
  intros Hl Hx Hs. unfold sys_step in Hs.
  destruct (terminated s); [by destruct l; simplify_eq|].
  destruct l as [n|i|i k| |e|]; [..|by simplify_eq].
  - unfold loop_step in Hs. rewrite Hl in Hs. cbn in Hs. by rewrite Hx in Hs.
  - unfold thread_step in Hs. destruct (threads s !! i) as [[|c rest]|] eqn:Hi; try done.
    apply bind_Some in Hs as ([code' s1] & He & [= <-]). cbn.
    destruct c; cbn in He; unfold send in He; repeat case_match; simplify_eq/=; done.
  - destruct (threads s !! i) as [[|]|]; by simplify_eq.
  - destruct (threads s !! 0) as [[|]|]; by simplify_eq.
  - destruct e; repeat case_match; by simplify_eq.
Qed.

(** ** Runs that follow a list of labels and then rest *)

Section script.
Context (methods : M → list (Call (M := M))) (ls : list (Label (M := M))) (s0 sN : Sys (M := M)).
Context (Hls : Forall well_behaved ls) (HN : sys_run methods ls s0 = Some sN).

Definition script (n : nat) : Sys := default s0 (sys_run methods (take n ls) s0).
Definition script_who (n : nat) : option Tid := ls !! n ≫= mover.

Lemma sys_run_app l1 l2 s : sys_run methods (l1 ++ l2) s = sys_run methods l1 s ≫= sys_run methods l2.
Proof.
  revert s. induction l1 as [|l l1 IH]; intros s; cbn; [done|].
  destruct (sys_step methods l s); cbn; auto.
Qed.

Lemma script_state n : sys_run methods (take n ls) s0 = Some (script n).
Proof using HN.
  unfold script. pose proof HN as H. rewrite <-(take_drop n ls), sys_run_app in H.
  by destruct (sys_run methods (take n ls) s0).
Qed.

Lemma script_end n : length ls ≤ n → script n = sN.
Proof using HN. intros Hn. unfold script. by rewrite take_ge, HN. Qed.

Lemma script_run : is_run (step methods) script script_who.
Proof using HN Hls.
  split. intros n. unfold script_who. destruct (ls !! n) as [l|] eqn:Hl.
  - exists l. split_and!; [done|by eapply Forall_lookup_1|].
    pose proof (script_state (S n)) as H. rewrite (take_S_r _ _ _ Hl), sys_run_app in H.
    rewrite script_state in H. cbn in H. by destruct (sys_step methods l (script n)).
  - apply lookup_ge_None in Hl. exists l_idle. split_and!; [done..|].
    rewrite !script_end by lia. unfold sys_step. by destruct (terminated sN).
Qed.

Lemma script_fair t :
  loop sN = left → Forall (eq []) (threads sN) → fair (step methods) script script_who t.
Proof using HN Hls.
  intros Hl Ht. apply (resting_run_fair _ _ _ (length ls)).
  - intros n Hn. by rewrite !script_end.
  - rewrite script_end by done. intros (s' & Hs%step_move).
    inversion Hs as [t' n c rest code' s1 s2 Hc| | | | | | | |]; simplify_eq; try congruence.
    destruct t as [|i]; cbn in Hc; [by rewrite Hl in Hc|].
    by pose proof (Forall_lookup_1 _ _ _ _ Ht Hc).
Qed.
End script.
End laws.

(** ** Examples *)
Module ShutdownExample.

(** A heartbeat: it sends a message and starts its timer again. *)
Definition heartbeat (m : unit) : list (Call (M := unit)) := [c_write_to; c_scheduleTimer m].

(** Thread 1 starts the heartbeat while the main thread destroys the process. *)
Definition session : list (Label (M := unit)) :=
  [l_calls 0 (c_destroy_process true); l_loop 0; l_calls 1 (c_scheduleTimer tt); l_thread 1;
   l_thread 0; l_thread 1; l_thread 0; l_thread 0; l_loop 0; l_loop 0; l_thread 1; l_thread 1;
   l_loop 0; l_loop 0; l_loop 0; l_loop 0; l_loop 0; l_loop 0; l_loop 0; l_thread 0].

Definition ended : Sys := default (started 2) (sys_run heartbeat session (started 2)).

Example session_ends :
  sys_run heartbeat session (started 2) = Some ended ∧ loop ended = left ∧
  threads ended = [[]; []] ∧ connected ended = false ∧ s_timers_ ended = [tt].
Proof. by vm_compute. Qed.


(** A second driver: it connects, sends a message, starts a timer; the command and
    the timer stay where they are. *)
Definition second_driver : list (Label (M := unit)) :=
  [l_calls 0 c_setUrl; l_thread 0; l_calls 0 c_sendMessage; l_thread 0; l_thread 0; l_thread 0;
   l_thread 0; l_calls 0 (c_scheduleTimer tt); l_thread 0; l_thread 0; l_thread 0; l_thread 0;
   l_occurs e_timeout].
Definition reconnected : Sys := default (started 2) (sys_run heartbeat second_driver ended).


(** The end of a program that destroyed its driver. *)
Example exit_after_destructor :
  (terminated <$> sys_run heartbeat
     (session ++ l_exit :: replicate 5 (l_thread 0)) (started 2)) = Some false.
Proof. by vm_compute. Qed.
End ShutdownExample.
