(* ===== verification/Url.v ===== *)
(** * Url: url.hpp

    The URL of the message broker, [urb://[ha://][credentials@]servers[/path]].
    [parse] scans for the last slash repeatedly; [print_url] is [operator<<]. *)

From S2P Require Import Prelude StoutStrings.

Record URL := mkURL {
  servers : string;
  credentials : string;
  path : string;
  ha : bool }.

(** The [do ... while (true)] loop: moves everything from the last slash of [s]
    to the front of [path] until no slash is left. *)
Fixpoint path_loop (fuel : nat) (s path : string) : string * string :=
  match fuel with
  | O => (s, path)
  | S fuel' =>
      match find_last_of s "/" with
      | None => (s, path)
      | Some index =>
          path_loop fuel' (substr s 0 index) (substr_from s index ++ path)
      end
  end.

Definition parse_url (url : string) : outcome URL :=
  let s := trim url ANY WHITESPACE in
  match find_str s "urb://" 0 with
  | Some O =>
      let s := substr_from s 6 in
      let ha := bool_decide (find_str s "ha://" 0 = Some O) in
      let s := if ha then substr_from s 5 else s in
      if negb ha && has (find_first_of s "," 0)
      then Err "Expecting a single server when HA is not specified"
      else
        let '(s, path) := path_loop (S (String.length s)) s "" in
        let path := if String.eqb path "" then "/" else path in
        match find_last_of s "@" with
        | Some index => Ok (mkURL (substr_from s (index + 1)) (substr s 0 index) path ha)
        | None => Ok (mkURL s "" path ha)
        end
  | _ => Err "Expecting 'urb://' at the beginning of the URL"
  end.

Definition print_url (url : URL) : string :=
  "urb://" ++
  (if negb (str_empty (credentials url)) then credentials url ++ "@" else "") ++
  servers url ++ path url.

(** ** The parts of a URL *)

Definition without (chars s : string) : Prop :=
  str_all (fun c => negb (mem_char c chars)) s = true.

(** Parts that [parse_url] can return: the separators are where it cuts. *)
Definition url_wf (u : URL) : Prop :=
  without "@/" (servers u) ∧ without "/" (credentials u) ∧
  (∃ p, path u = String "/" p) ∧ trimmed WHITESPACE (path u) ∧ servers u ≠ "ha:".

(** The authority part, as it is printed. *)
Definition authority (u : URL) : string :=
  (if negb (str_empty (credentials u)) then credentials u ++ "@" else "") ++ servers u.

Lemma rfind_absent (p : ascii → bool) (s : string) :
  str_all (fun x => negb (p x)) s = true → rfind_char p s = None.
Proof.
  induction s as [|c s IH]; cbn; [done|].
  intros [->%negb_true_iff Hs]%andb_true_iff. by rewrite IH.
Qed.

(** The loop cuts at the first slash, within one iteration per character. *)
Lemma path_loop_spec (fuel : nat) (auth p acc : string) :
  without "/" auth → (String.length p < fuel)%nat →
  p = "" ∨ (∃ p', p = String "/" p') →
  path_loop fuel (auth ++ p) acc = (auth, p ++ acc).
Proof.
  intros Ha. revert p acc. induction fuel as [|fuel IH]; intros p acc Hf Hp; [lia|].
  cbn [path_loop]. unfold find_last_of.
  destruct (rfind_char _ (auth ++ p)) as [i|] eqn:E.
  - destruct Hp as [->|(p' & ->)].
    { rewrite str_app_nil, rfind_absent in E by exact Ha. done. }
    destruct (rfind_char (fun c => mem_char c "/") (String "/" p')) as [j|] eqn:Ej.
    2:{ apply rfind_char_None in Ej. done. }
    rewrite (rfind_char_app _ _ _ _ Ej) in E. injection E as <-.
    apply rfind_char_Some in Ej as (a & c & b & Hab & <- & _ & _).
    rewrite Hab. unfold substr, substr_from. cbn [str_drop].
    rewrite <-str_length_app, <-str_app_assoc, str_take_app, str_drop_app, IH.
    + f_equal. by rewrite !str_app_assoc.
    + rewrite Hab, str_length_app in Hf. cbn in Hf. lia.
    + destruct a as [|d a]; [by left|]. right. cbn in Hab. injection Hab as <- _. eauto.
  - destruct Hp as [->|(p' & ->)]; [by rewrite str_app_nil|].
    apply rfind_char_None in E. rewrite str_all_app in E.
    apply andb_true_iff in E as [_ E]. done.
Qed.

(** The authority splits at its last [@]. *)
Lemma authority_split (u : URL) :
  without "@/" (servers u) →
  match find_last_of (authority u) "@" with
  | Some i => substr_from (authority u) (i + 1) = servers u ∧
              substr (authority u) 0 i = credentials u
  | None => authority u = servers u ∧ credentials u = ""
  end.
Proof.
  intros Hs. unfold authority, find_last_of.
  assert (Hs' : rfind_char (fun c => mem_char c "@") (servers u) = None).
  { apply rfind_absent. unfold without in Hs. revert Hs.
    induction (servers u) as [|c s IH]; [done|]. cbn [str_all mem_char].
    rewrite !andb_true_iff, !negb_true_iff, !orb_false_iff. tauto. }
  destruct (credentials u) as [|c s] eqn:E.
  { cbn [str_empty negb String.append]. by rewrite Hs'. }
  cbn [str_empty negb]. rewrite str_app_assoc, (rfind_char_app _ _ ("@" ++ servers u) 0).
  2:{ cbn [String.append rfind_char]. by rewrite Hs'. }
  rewrite Nat.add_0_r. unfold substr_from, substr. cbn [str_drop].
  by rewrite <-str_drop_drop, str_drop_app, str_take_app.
Qed.

(** The constructor calls at the end of [parse_url] rebuild the URL. *)
Lemma url_rebuild (u : URL) :
  without "@/" (servers u) →
  match find_last_of (authority u) "@" with
  | Some index => Ok (mkURL (substr_from (authority u) (index + 1))
                        (substr (authority u) 0 index) (path u) (ha u))
  | None => Ok (mkURL (authority u) "" (path u) (ha u))
  end = Ok u.
Proof.
  intros Hs. pose proof (authority_split u Hs) as Hsplit.
  destruct (find_last_of (authority u) "@") as [i|].
  - destruct Hsplit as [-> ->]. by destruct u.
  - destruct Hsplit as [-> Hcr]. destruct u; cbn in *; congruence.
Qed.

Lemma trim_trimmed (s chars : string) : trimmed chars s → trim s ANY chars = s.
Proof.
  intros Hs. destruct (trim_any_spec s chars) as (a & b & Heq & _ & Hab).
  rewrite str_all_app in Hab. apply andb_true_iff in Hab as [Ha Hb].
  destruct Hs as [->|(c & t & d & Hs & Hd & Hc & Hd')]; [done|].
  assert (a = "") as ->.
  { destruct a as [|x a]; [done|]. rewrite Heq in Hs. cbn in Hs. injection Hs as -> _.
    cbn [str_all] in Ha. rewrite Hc in Ha. done. }
  assert (b = "") as ->.
  { destruct b as [|x b]; [done|]. cbn [String.append] in Heq.
    rewrite Heq, str_back_app in Hd by done.
    apply (str_back_all _ _ _ Hb) in Hd. congruence. }
  cbn [String.append] in Heq. by rewrite str_app_nil in Heq.
Qed.

Lemma authority_no_slash (u : URL) :
  without "@/" (servers u) → without "/" (credentials u) → without "/" (authority u).
Proof.
  intros Hs Hc. unfold authority, without. rewrite str_all_app, andb_true_iff. split.
  - destruct (str_empty (credentials u)); [done|]. cbn [negb].
    rewrite str_all_app. by unfold without in Hc; rewrite Hc.
  - eapply str_all_impl; [|exact Hs]. intros c. cbn [mem_char].
    rewrite !negb_true_iff, !orb_false_iff. tauto.
Qed.

(** A text has one first slash. *)
Lemma first_slash_unique (a b x y : string) :
  without "/" a → without "/" b → a ++ String "/" x = b ++ String "/" y → a = b.
Proof.
  unfold without. revert b. induction a as [|c a IH]; intros [|d b] Ha Hb Heq; [done| | |].
  - cbn in Heq. injection Heq as <- _. done.
  - cbn in Heq. injection Heq as -> _. done.
  - cbn [str_all] in Ha, Hb. apply andb_true_iff in Ha as [_ Ha], Hb as [_ Hb].
    cbn in Heq. injection Heq as -> Heq. f_equal. by apply IH.
Qed.

(** An authority is taken for the HA marker only if the server is [ha:]. *)
Lemma not_ha_marker (u : URL) :
  url_wf u → find_str (authority u ++ path u) "ha://" 0 ≠ Some O.
Proof.
  intros (Hs & Hc & (p & Hp) & _ & Hha) (t & Ht)%find_str_start. rewrite Hp in Ht.
  apply (first_slash_unique _ "ha:") in Ht; [|by apply authority_no_slash|done].
  pose proof (authority_split u Hs) as Hsp. rewrite Ht in Hsp. cbn in Hsp.
  apply Hha. symmetry. apply Hsp.
Qed.

(** Parsing a text that is cut into its parts. *)
Lemma parse_url_parts (u : URL) :
  url_wf u →
  parse_url ("urb://" ++ (if ha u then "ha://" else "") ++ authority u ++ path u)
  = if negb (ha u) && negb (str_all (fun c => negb (mem_char c ",")) (authority u ++ path u))
    then Err "Expecting a single server when HA is not specified" else Ok u.
Proof.
  intros Hwf. pose proof (not_ha_marker u Hwf) as Hmark.
  destruct Hwf as (Hs & Hc & (p & Hp) & Htrim & Hha). unfold parse_url.
  rewrite trim_trimmed.
  2:{ right. destruct Htrim as [?|(c & t & d & _ & Hd & _ & Hd')]; [congruence|].
      eexists "u"%char, _, d. split; [done|]. split; [|done].
      rewrite !str_back_app; [done|by rewrite Hp| |]; rewrite Hp;
        destruct (authority u), (ha u); done. }
  rewrite (proj2 (find_str_start _ "urb://")) by eauto.
  unfold substr_from. rewrite (str_drop_app "urb://").
  assert (Hloop := path_loop_spec (S (String.length (authority u ++ path u)))
    (authority u) (path u) "" (authority_no_slash u Hs Hc)).
  rewrite str_length_app, str_app_nil in Hloop. specialize (Hloop ltac:(lia) ltac:(eauto)).
  assert (Hcomma : has (find_first_of (authority u ++ path u) "," 0)
    = negb (str_all (fun c => negb (mem_char c ",")) (authority u ++ path u))).
  { rewrite <-has_find_char. unfold find_first_of. cbn [str_drop].
    by destruct (find_char _ _). }
  assert (Hpath : String.eqb (path u) "" = false) by by rewrite Hp.
  destruct (ha u) eqn:Eha.
  - rewrite bool_decide_true by (apply find_str_start; eauto).
    cbn [negb andb]. rewrite (str_drop_app "ha://").
    rewrite str_length_app, Hloop, Hpath. pose proof (url_rebuild u Hs) as Hr.
    rewrite Eha in Hr. exact Hr.
  - cbn [String.append]. rewrite bool_decide_false by done. cbn [negb andb].
    rewrite Hcomma. destruct (str_all _ _); cbn [negb]; [|done].
    rewrite str_length_app, Hloop, Hpath. pose proof (url_rebuild u Hs) as Hr.
    rewrite Eha in Hr. exact Hr.
Qed.

(** ** Properties *)

(** Printing a URL without HA and parsing the text gives the URL back,
    for any parts that do not contain the separators they are cut at. *)
Theorem url_roundtrip (u : URL) :
  url_wf u → ha u = false → without "," (authority u ++ path u) →
  parse_url (print_url u) = Ok u.
Proof.
  intros Hwf Hha Hc. pose proof (parse_url_parts u Hwf) as H.
  rewrite Hha, Hc in H. cbn [negb andb] in H. rewrite <-H. unfold print_url, authority.
  cbn [String.append]. by rewrite str_app_assoc.
Qed.

Lemma url_roundtrip_witness :
  let u := mkURL "broker:6379" "user:secret" "/urb" false in
  parse_url (print_url u) = Ok u.
Proof.
  apply (url_roundtrip (mkURL "broker:6379" "user:secret" "/urb" false)); try reflexivity.
  split; [reflexivity|]. split; [reflexivity|]. split; [by exists "urb"|].
  split; [|discriminate]. right. by exists "/"%char, "urb", "b"%char.
Defined.

(** [operator<<] does not print the HA marker: an HA URL never parses
    back to itself, and with several servers the printed text is rejected. *)
Theorem url_print_drops_ha (u : URL) :
  url_wf u → ha u = true →
  parse_url (print_url u) ≠ Ok u ∧
  (¬ without "," (servers u) →
   parse_url (print_url u) = Err "Expecting a single server when HA is not specified").
Proof.
  intros Hwf Hha. set (v := mkURL (servers u) (credentials u) (path u) false).
  pose proof (parse_url_parts v Hwf) as H. cbn [ha v negb andb String.append] in H.
  replace (print_url u) with ("urb://" ++ authority v ++ path v)
    by (unfold print_url, authority; cbn; by rewrite str_app_assoc).
  cbn [String.append]. rewrite H. split.
  - case_if; [done|]. intros [= Hu]. by rewrite <-Hu in Hha.
  - intros Hcomma. case_if; [done|]. destruct Hcomma. apply negb_false_iff in Heqb.
    unfold authority in Heqb. rewrite !str_all_app, !andb_true_iff in Heqb. apply Heqb.
Qed.

Lemma url_print_drops_ha_witness :
  let u := mkURL "a:1,b:2" "" "/" true in
  parse_url (print_url u) = Err "Expecting a single server when HA is not specified".
Proof.
  apply (url_print_drops_ha (mkURL "a:1,b:2" "" "/" true)); [|reflexivity|discriminate].
  split; [reflexivity|]. split; [reflexivity|]. split; [by exists ""|].
  split; [|discriminate]. right. by exists "/"%char, "", "/"%char.
Defined.
