(* ===== verification/Fetcher.v ===== *)
(** * Fetcher: the fetcher program and the URIs it accepts

    mesos/fetcher.cpp is the program that brings the URIs of a task into its
    sandbox; slave/containerizer/fetcher.cpp has the functions on URIs it uses
    (the rest of that file, the actor that manages the cache, is commented out);
    hdfs.hpp runs the hadoop client; [path::join] and [Path] are stout's.

    The program works by calls to the operating system, to libcurl and to the
    shell.  A [Call] is one such call with its arguments; the environment [OS]
    answers it from the calls made before, so that every answer may depend on
    everything the program did.  A computation of type [M A] appends its calls to
    the trace and ends with a value, with the error of a [Try], or with [Fatal]
    where a [CHECK] ends the process. *)

From S2P Require Import Prelude StoutStrings Values.

(** ** stout: [strings::remove], path.hpp *)

(** [from.rfind(substring)] *)
Fixpoint rfind_sub (sub s : string) : option nat :=
  match s with
  | "" => if String.prefix sub "" then Some O else None
  | String _ s' =>
      match rfind_sub sub s' with
      | Some i => Some (S i)
      | None => if String.prefix sub s then Some O else None
      end
  end.

(** The modes the callers use.  In the source, when [from] is shorter than the
    suffix, the comparison wraps around and leaves [from] as it is. *)
Definition remove_prefix (from substring : string) : string :=
  match find_str from substring 0 with
  | Some O => substr_from from (String.length substring)
  | _ => from
  end.
Definition remove_suffix (from substring : string) : string :=
  match rfind_sub substring from with
  | Some i =>
      if (i =? String.length from - String.length substring)%nat
      then substr from 0 (String.length from - String.length substring) else from
  | None => from
  end.

Definition path_join (path1 path2 : string) : string :=
  remove_suffix path1 "/" ++ "/" ++ remove_prefix path2 "/".

(** [Path(path)] *)
Definition Path (path : string) : string := remove_prefix path "file://".

(** [Path::basename] *)
Definition path_basename (value : string) : string :=
  if str_empty value then "."
  else
    let last := (String.length value - 1)%nat in
    let end_ := if endsWith_char value "/" then find_last_not_of value "/"
                else Some last in
    match end_ with
    | None => "/"
    | Some end_ =>
        let start :=
          match find_last_of (substr value 0 (end_ + 1)) "/" with
          | None => O
          | Some i => S i
          end in
        substr value start (end_ + 1 - start)
    end.

(** ** URIs: slave/containerizer/fetcher.cpp *)

Definition FILE_URI_PREFIX : string := "file://".
Definition FILE_URI_LOCALHOST : string := "file://localhost".

(** The characters [basename] refuses: backslash, single quote and NUL. *)
Definition backslash : string := String "092" "".
Definition quote : string := String "039" "".
Definition nul : string := String "000" "".

Definition basename (uri : string) : outcome string :=
  if has (find_first_of uri backslash 0) || has (find_first_of uri quote 0) ||
     has (find_first_of uri nul 0)
  then Err "Illegal characters in URI"
  else
    match find_str uri "://" 0 with
    | Some index =>
        if (1 <? index)%nat
        then
          let path := substr_from uri (index + 3) in
          if negb (contains path "/") ||
             match find_str path "/" 0 with
             | Some i => (String.length path <=? i + 1)%nat
             | None => true
             end
          then Err ("Malformed URI (missing path): " ++ uri)
          else match find_last_of path "/" with
               | Some i => Ok (substr_from path (i + 1))
               | None => Ok path
               end
        else Ok (path_basename (Path uri))
    | None => Ok (path_basename (Path uri))
    end.

Definition validateUri (uri : string) : outcome unit :=
  match basename uri with
  | Ok _ => Ok tt
  | Err e => Err e
  | Fatal => Fatal
  end.

(** [CommandInfo::URI] *)
Record URI := mkURI {
  value : string;
  executable : option bool;
  extract_flag : option bool;
  cache : option bool;
  output_file : option string }.
(** [executable()] is false and [extract()] is true when unset. *)
Definition is_executable (uri : URI) : bool := get_or false (executable uri).
Definition is_extract (uri : URI) : bool := get_or true (extract_flag uri).

Definition validateUris (uris : list URI) : outcome unit :=
  mfold (fun _ uri => validateUri (value uri)) tt uris.

Definition relative_path_error : string :=
  "A relative path was passed for the resource but the " ++
  "Mesos framework home was not specified. " ++
  "Please either provide this config option " ++
  "or avoid using a relative path".

(** A [Result<string>]: [Ok None] is the source's [None()]. *)
Definition uriToLocalPath (uri : string) (frameworksHome : option string)
    : outcome (option string) :=
  if negb (startsWith uri "file://") && contains uri "://" then Ok None
  else
    let '(path, fileUri) :=
      if startsWith uri FILE_URI_LOCALHOST
      then (substr_from uri (String.length FILE_URI_LOCALHOST), true)
      else if startsWith uri FILE_URI_PREFIX
      then (substr_from uri (String.length FILE_URI_PREFIX), true)
      else (uri, false) in
    if fileUri && negb (startsWith path "/")
    then Err "File URI only supports absolute paths"
    else if bool_decide (find_first_of path "/" 0 = Some O) then Ok (Some path)
    else
      match frameworksHome with
      | None => Err relative_path_error
      | Some home =>
          if str_empty home then Err relative_path_error
          else Ok (Some (path_join home path))
      end.

Definition isNetUri (uri : string) : bool :=
  startsWith uri "http://" || startsWith uri "https://" ||
  startsWith uri "ftp://" || startsWith uri "ftps://".

(** ** Calls to the environment *)

Inductive Call :=
  | System (command : string)
  | Shell (command : string)
  | Download (url path : string)
  | ContentLength (url : string)
  | StatSize (path : string)
  | Exists (path : string)
  | Chmod (path : string) (mode : Z)
  | Mkdir (directory : string)
  | Chown (user path : string).

(** What the program asks of its environment; an answer may depend on all the
    calls made before it. *)
Class OS := {
  os_getenv : string → option string;
  os_system : list Call → string → Z;
  os_shell : list Call → string → outcome string;
  net_download : list Call → string → string → outcome Z;
  net_contentLength : list Call → string → outcome Z;
  os_stat_size : list Call → string → outcome Z;
  os_exists : list Call → string → bool;
  os_chmod : list Call → string → Z → outcome unit;
  os_mkdir : list Call → string → outcome unit;
  os_chown : list Call → string → string → outcome unit;
  (** [numify<size_t>] *)
  numify_size : string → outcome Z;
  (** [vasprintf] on a text with a conversion for which there is no argument *)
  vasprintf : string → outcome string }.

Definition M (A : Type) : Type := list Call → outcome A * list Call.

#[export] Instance M_ret : MRet M := fun A a tr => (Ok a, tr).
#[export] Instance M_bind : MBind M := fun A B f m tr =>
  match m tr with
  | (Ok a, tr') => f a tr'
  | (Err e, tr') => (Err e, tr')
  | (Fatal, tr') => (Fatal, tr')
  end.
Definition lift {A : Type} (o : outcome A) : M A := fun tr => (o, tr).
Definition call {A : Type} (c : Call) (answer : list Call → A) : M A :=
  fun tr => (Ok (answer tr), (tr ++ [c])%list).
(** A call that returns a [Try]. *)
Definition try_call {A : Type} (c : Call) (answer : list Call → outcome A) : M A :=
  fun tr => (answer tr, (tr ++ [c])%list).
(** [if (x.isError()) return Error(f(x.error()));] *)
Definition on_error {A : Type} (f : string → string) (m : M A) : M A := fun tr =>
  match m tr with
  | (Err e, tr') => (Err (f e), tr')
  | r => r
  end.

(** What [vasprintf] makes of a text without arguments: two percent signs are one,
    and any other conversion lacks its argument. *)
Fixpoint literal_format (fmt : string) : option string :=
  match fmt with
  | "" => Some ""
  | String c rest =>
      if Ascii.eqb c "%" then
        match rest with
        | "" => None
        | String d rest' =>
            if Ascii.eqb d "%" then String "%" <$> literal_format rest' else None
        end
      else String c <$> literal_format rest
  end.

Section Program.
Context `{OS}.

(** [strings::internal::format] without arguments. *)
Definition format (fmt : string) : outcome string :=
  match literal_format fmt with
  | Some text => Ok text
  | None => vasprintf fmt
  end.

Definition system (command : string) : M Z :=
  call (System command) (fun tr => os_system tr command).
(** [os::shell]: its argument is a format. *)
Definition shell (fmt : string) : M string :=
  command ← lift (format fmt);
  try_call (Shell command) (fun tr => os_shell tr command).
Definition chmod (path : string) (mode : Z) : M unit :=
  try_call (Chmod path mode) (fun tr => os_chmod tr path mode).
Definition mkdir (directory : string) : M unit :=
  try_call (Mkdir directory) (fun tr => os_mkdir tr directory).
Definition chown (user path : string) : M unit :=
  try_call (Chown user path) (fun tr => os_chown tr user path).
Definition net_fetch (url path : string) : M Z :=
  try_call (Download url path) (fun tr => net_download tr url path).
Definition stat_size (path : string) : M Z :=
  try_call (StatSize path) (fun tr => os_stat_size tr path).
Definition content_length (url : string) : M Z :=
  try_call (ContentLength url) (fun tr => net_contentLength tr url).

(** ** The hadoop client: hdfs.hpp

    An [HDFS] is the path of the client.  [strings::format] with [%s] only fails
    when memory runs out. *)
Definition HDFS := string.

Definition new_HDFS : HDFS :=
  match os_getenv "HADOOP_HOME" with
  | Some home => path_join home "bin/hadoop"
  | None => "hadoop"
  end.

Definition new_HDFS_at (_hadoop : string) : M HDFS :=
  found ← call (Exists _hadoop) (fun tr => os_exists tr _hadoop);
  mret (if found : bool then _hadoop else new_HDFS).

Definition hdfs_available (hadoop : HDFS) : M bool :=
  _ ← shell (hadoop ++ " version" ++ " 2>&1"); mret true.

Definition hdfs_exists (hadoop : HDFS) (path : string) : M bool :=
  _ ← shell (hadoop ++ " fs -test -e '" ++ path_join "" path ++ "'" ++ " 2>&1"); mret true.

Definition hdfs_du (hadoop : HDFS) (path : string) : M Z :=
  out ← on_error (fun e => "HDFS du failed: " ++ e)
          (shell (hadoop ++ " fs -du -h '" ++ path_join "" path ++ "'" ++ " 2>&1"));
  match split out " " None with
  | [size; _] =>
      on_error (fun e => "HDFS du returned unexpected format: " ++ e)
        (lift (numify_size size))
  | _ => lift (Err ("HDFS du returned an unexpected number of results: '" ++ out ++ "'"))
  end.

Definition hdfs_rm (hadoop : HDFS) (path : string) : M unit :=
  _ ← shell (hadoop ++ " fs -rm '" ++ path_join "" path ++ "'"); mret tt.

Definition hdfs_copyFromLocal (hadoop : HDFS) (from to : string) : M unit :=
  found ← call (Exists from) (fun tr => os_exists tr from);
  if found : bool then
    _ ← shell (hadoop ++ " fs -copyFromLocal '" ++ from ++ "' '" ++ path_join "" to ++ "'");
    mret tt
  else lift (Err ("Failed to find " ++ from)).

Definition hdfs_copyToLocal (hadoop : HDFS) (from to : string) : M unit :=
  _ ← shell (hadoop ++ " fs -copyToLocal '" ++ from ++ "' '" ++ to ++ "'"); mret tt.

(** How large a download would be.  [available.error()] is read where
    [hdfs_available] failed; a client that answers is always available. *)
Definition fetchSize (uri : string) (frameworksHome : option string) : M Z :=
  path ← lift (uriToLocalPath uri frameworksHome);
  match path with
  | Some path =>
      on_error (fun e => "Could not determine file size for: '" ++ path ++
                         "', error: " ++ e) (stat_size path)
  | None =>
      if isNetUri uri then
        size ← content_length uri;
        if size =? 0 then lift (Err ("URI reported content-length 0: " ++ uri))
        else mret size
      else
        let hdfs := new_HDFS in
        _ ← on_error (fun e => "Hadoop client not available: " ++ e) (hdfs_available hdfs);
        on_error (fun e => "Hadoop client could not determine size: " ++ e) (hdfs_du hdfs uri)
  end.

(** ** The program: mesos/fetcher.cpp *)

Definition extract_command (sourcePath destinationDirectory : string) : option string :=
  if endsWith sourcePath ".tar" || endsWith sourcePath ".tgz" ||
     endsWith sourcePath ".tar.gz" || endsWith sourcePath ".tbz2" ||
     endsWith sourcePath ".tar.bz2" || endsWith sourcePath ".txz" ||
     endsWith sourcePath ".tar.xz"
  then Some ("tar -C '" ++ destinationDirectory ++ "' -xf")
  else if endsWith sourcePath ".gz" then
    let pathWithoutExtension := substr sourcePath 0 (String.length sourcePath - 3) in
    let filename := path_basename (Path pathWithoutExtension) in
    Some ("gzip -dc > '" ++ destinationDirectory ++ "/" ++ filename ++ "' <")
  else if endsWith sourcePath ".zip" then
    Some ("unzip -o -d '" ++ destinationDirectory ++ "'")
  else None.

Definition extract (sourcePath destinationDirectory : string) : M bool :=
  match extract_command sourcePath destinationDirectory with
  | None => mret false
  | Some command =>
      let command := command ++ " '" ++ sourcePath ++ "'" in
      status ← system command;
      if negb (status =? 0)
      then lift (Err ("Failed to extract: command " ++ command ++
                      " exited with status: " ++ print_int status))
      else mret true
  end.

Definition downloadWithHadoopClient (sourceUri destinationPath : string) : M string :=
  let hdfs := new_HDFS in
  available ← on_error (fun e => "Skipping fetch with Hadoop client: " ++ e)
                (hdfs_available hdfs);
  if available : bool then
    _ ← on_error (fun e => "HDFS copyToLocal failed: " ++ e)
          (hdfs_copyToLocal hdfs sourceUri destinationPath);
    mret destinationPath
  else lift (Err "Skipping fetch with Hadoop client:  client not found").

Definition downloadWithNet (sourceUri destinationPath : string) : M string :=
  _ ← lift (CHECK (startsWith sourceUri "http://" || startsWith sourceUri "https://" ||
                   startsWith sourceUri "ftp://" || startsWith sourceUri "ftps://"));
  code ← on_error (fun e => "Error downloading resource: " ++ e)
           (net_fetch sourceUri destinationPath);
  if startsWith sourceUri "ftp://" || startsWith sourceUri "ftps://" then
    if negb (code =? 226)
    then lift (Err ("Error downloading resource, received FTP return code " ++ print_int code))
    else mret destinationPath
  else if negb (code =? 200)
  then lift (Err ("Error downloading resource, received HTTP return code " ++ print_int code))
  else mret destinationPath.

Definition copyFile (sourcePath destinationPath : string) : M string :=
  let command := "cp '" ++ sourcePath ++ "' '" ++ destinationPath ++ "'" in
  status ← system command;
  if negb (status =? 0)
  then lift (Err ("Failed to copy with command '" ++ command ++
                  "', exit status: " ++ print_int status))
  else mret destinationPath.

Definition download (_sourceUri destinationPath : string) (frameworksHome : option string)
    : M string :=
  let sourceUri := trim _sourceUri PREFIX WHITESPACE in
  _ ← lift (validateUri sourceUri);
  sourcePath ← lift (uriToLocalPath sourceUri frameworksHome);
  match sourcePath with
  | Some sourcePath => copyFile sourcePath destinationPath
  | None =>
      if isNetUri sourceUri then downloadWithNet sourceUri destinationPath
      else downloadWithHadoopClient sourceUri destinationPath
  end.

(** [S_IRWXU | S_IRGRP | S_IXGRP | S_IROTH | S_IXOTH], octal 755 *)
Definition EXECUTABLE_MODE : Z :=
  Z.lor (Z.lor (Z.lor (Z.lor 448 32) 8) 4) 1.

Definition chmodExecutable (filePath : string) : M string :=
  _ ← on_error (fun e => "Failed to chmod executable '" ++ filePath ++ "': " ++ e)
        (chmod filePath EXECUTABLE_MODE);
  mret filePath.

Definition fetchBypassingCache (uri : URI) (sandboxDirectory : string)
    (frameworksHome : option string) : M string :=
  name ← on_error (fun e => "Failed to determine the basename of the URI '" ++
                            value uri ++ "' with error: " ++ e)
           (lift (basename (value uri)));
  let path := path_join sandboxDirectory name in
  downloaded ← download (value uri) path frameworksHome;
  if is_executable uri then chmodExecutable downloaded
  else if is_extract uri then _ ← extract path sandboxDirectory; mret downloaded
  else mret downloaded.

(** [FetcherInfo::Item] *)
Inductive Action := BYPASS_CACHE | DOWNLOAD_AND_CACHE | RETRIEVE_FROM_CACHE.
#[global] Instance Action_eq_dec : EqDecision Action.
Proof. solve_decision. Defined.

Record Item := mkItem {
  uri : URI;
  action : Action;
  cache_filename : option string }.

Definition fetchFromCache (item : Item) (cacheDirectory sandboxDirectory : string)
    : M string :=
  name ← lift (basename (value (uri item)));
  let destinationPath := path_join sandboxDirectory name in
  _ ← lift (CHECK (negb (str_empty (get_or "" (cache_filename item)))));
  let sourcePath := path_join cacheDirectory (get_or "" (cache_filename item)) in
  if is_executable (uri item) then
    copied ← copyFile sourcePath destinationPath;
    chmodExecutable copied
  else if is_extract (uri item) then
    extracted ← extract sourcePath sandboxDirectory;
    if extracted : bool then mret sandboxDirectory
    else copyFile sourcePath destinationPath
  else copyFile sourcePath destinationPath.

Definition fetchThroughCache (item : Item) (cacheDirectory : option string)
    (sandboxDirectory : string) (frameworksHome : option string) : M string :=
  match cacheDirectory with
  | None => lift (Err "Cache directory not specified")
  | Some directory =>
      if str_empty directory then lift (Err "Cache directory not specified")
      else if negb (has (cache_filename item)) || str_empty (get_or "" (cache_filename item))
      then lift (Err ("No cache file name for: " ++ value (uri item)))
      else
        _ ← (if bool_decide (action item = RETRIEVE_FROM_CACHE) then mret tt
             else
               _ ← lift (CHECK (bool_decide (DOWNLOAD_AND_CACHE = action item)));
               _ ← on_error (fun e => "Failed to create fetcher cache directory '" ++
                                      directory ++ "': " ++ e) (mkdir directory);
               _ ← download (value (uri item))
                     (path_join directory (get_or "" (cache_filename item))) frameworksHome;
               mret tt);
        fetchFromCache item directory sandboxDirectory
  end.

Definition fetch (item : Item) (cacheDirectory : option string)
    (sandboxDirectory : string) (frameworksHome : option string) : M string :=
  if bool_decide (action item = BYPASS_CACHE)
  then fetchBypassingCache (uri item) sandboxDirectory frameworksHome
  else fetchThroughCache item cacheDirectory sandboxDirectory frameworksHome.

Record FetcherInfo := mkFetcherInfo {
  sandbox_directory : string;
  cache_directory : option string;
  items : list Item;
  user : option string;
  frameworks_home : option string }.

(** [EXIT(status)] ends the process; so does the end of [main]. *)
Inductive Exit := Exited (status : Z) | Aborted.

(** [main] after the flags and the logger: [parse] is [JSON::parse] followed by
    [protobuf::parse] on the text of MESOS_FETCHER_INFO. *)
Definition fetch_items (info : FetcherInfo) : M unit :=
  (fix loop (l : list Item) : M unit :=
     match l with
     | [] => mret tt
     | item :: l' =>
         _ ← fetch item (cache_directory info) (sandbox_directory info) (frameworks_home info);
         loop l'
     end) (items info).

Definition fetch_all (info : FetcherInfo) : M unit :=
  _ ← lift (CHECK (negb (str_empty (sandbox_directory info))));
  _ ← fetch_items info;
  match user info with
  | Some user => chown user (sandbox_directory info)
  | None => mret tt
  end.

Definition main (parse : string → option FetcherInfo) : Exit * list Call :=
  match os_getenv "MESOS_FETCHER_INFO" with
  | None => (Aborted, [])
  | Some text =>
      match parse text with
      | None => (Aborted, [])
      | Some info =>
          match fetch_all info [] with
          | (Ok _, tr) => (Exited 0, tr)
          | (Err _, tr) => (Exited 1, tr)
          | (Fatal, tr) => (Aborted, tr)
          end
      end
  end.
End Program.
