(* ===== verification/FetcherLaws.v ===== *)
(** * FetcherLaws: what the fetcher program may do to its host

    The program builds shell commands from the URIs of a task.  The theorems are
    about its whole effect, the trace of its calls: outside single quotes a
    command has only fixed text; every file it writes is a direct child of the
    sandbox or the cache file; no [CHECK] after the parsing of its input can
    fail; its exit status tells whether every item arrived.  They are proved with
    triples over the monad [M], one rule per construct. *)

From S2P Require Import Prelude StoutStrings Values Url Fetcher.

(** ** Triples

    [triple P m Q]: started after any calls, [m] only adds calls that satisfy
    [P], does not end in [Fatal], and a value it returns satisfies [Q]. *)
Definition triple {A : Type} (P : Call → Prop) (m : M A) (Q : A → Prop) : Prop :=
  ∀ tr, ∃ new, (m tr).2 = (tr ++ new)%list ∧ Forall P new ∧
    match (m tr).1 with Ok a => Q a | Err _ => True | Fatal => False end.

Section Rules.
Context {A B : Type} (P : Call → Prop).
Implicit Types (Q : A → Prop) (R : B → Prop).

Lemma triple_ret (a : A) Q : Q a → triple P (mret a) Q.
Proof. intros HQ tr. exists []. by rewrite app_nil_r. Qed.

Lemma triple_lift (o : outcome A) Q :
  o ≠ Fatal → (∀ a, o = Ok a → Q a) → triple P (lift o) Q.
Proof.
  intros Hf HQ tr. exists []. rewrite app_nil_r. split; [done|]. split; [done|].
  cbn. destruct o; auto.
Qed.

Lemma triple_call (c : Call) (answer : list Call → A) Q :
  P c → (∀ tr, Q (answer tr)) → triple P (call c answer) Q.
Proof. intros Hc HQ tr. exists [c]. cbn. auto. Qed.

(** An environment may fail a call, it never ends the program. *)
Lemma triple_try_call (c : Call) (answer : list Call → outcome A) Q :
  P c → (∀ tr, answer tr ≠ Fatal) → (∀ a, Q a) → triple P (try_call c answer) Q.
Proof.
  intros Hc Hf HQ tr. exists [c]. split; [done|]. split; [auto|]. cbn.
  specialize (Hf tr). destruct (answer tr); auto.
Qed.

Lemma triple_on_error (f : string → string) (m : M A) Q :
  triple P m Q → triple P (on_error f m) Q.
Proof.
  intros Hm tr. destruct (Hm tr) as (new & Htr & Hnew & Hr). exists new.
  unfold on_error. destruct (m tr) as [[a|e|] tr']; auto.
Qed.

Lemma triple_bind (m : M A) (f : A → M B) Q R :
  triple P m Q → (∀ a, Q a → triple P (f a) R) → triple P (m ≫= f) R.
Proof.
  intros Hm Hf tr. destruct (Hm tr) as (new & Htr & Hnew & Hr).
  unfold mbind, M_bind. destruct (m tr) as [[a|e|] tr']; cbn in Htr, Hr; subst tr'.
  - destruct (Hf a Hr (tr ++ new)%list) as (new' & -> & Hnew' & Hr').
    exists (new ++ new')%list. rewrite <-app_assoc. auto using Forall_app_2.
  - eauto.
  - done.
Qed.
End Rules.

Lemma triple_weaken {A : Type} (P P' : Call → Prop) (m : M A) (Q Q' : A → Prop) :
  (∀ c, P c → P' c) → (∀ a, Q a → Q' a) → triple P m Q → triple P' m Q'.
Proof.
  intros HP HQ Hm tr. destruct (Hm tr) as (new & Htr & Hnew & Hr). exists new.
  split; [done|]. split; [by eapply Forall_impl|]. destruct (m tr).1; auto.
Qed.

Create HintDb triple.
#[export] Hint Resolve triple_ret triple_on_error : triple.

(** ** Parts of texts *)

Lemma str_all_drop (p : ascii → bool) (n : nat) (s : string) :
  str_all p s = true → str_all p (str_drop n s) = true.
Proof.
  revert s. induction n as [|n IH]; intros s; [done|].
  destruct s as [|c s]; cbn; [done|]. intros [_ ?]%andb_true_iff. auto.
Qed.

Lemma str_all_take (p : ascii → bool) (n : nat) (s : string) :
  str_all p s = true → str_all p (str_take n s) = true.
Proof.
  revert s. induction n as [|n IH]; intros s; [done|].
  destruct s as [|c s]; cbn; [done|]. intros [-> ?]%andb_true_iff. by apply IH.
Qed.

Lemma str_take_drop_comm (m n : nat) (s : string) :
  str_take m (str_drop n s) = str_drop n (str_take (n + m) s).
Proof.
  revert s. induction n as [|n IH]; intros s; [done|].
  destruct s as [|c s]; cbn; [by destruct m|]. apply IH.
Qed.

(** The text after the last hit of a search. *)
Lemma after_last (p : ascii → bool) (s : string) :
  str_all (fun x => negb (p x))
    (str_drop (match rfind_char p s with Some i => S i | None => O end) s) = true.
Proof.
  destruct (rfind_char p s) as [i|] eqn:E; [|by apply rfind_char_None].
  apply rfind_char_Some in E as (a & c & b & -> & <- & _ & Hb).
  replace (S (String.length a)) with (String.length a + 1)%nat by lia.
  by rewrite <-str_drop_drop, str_drop_app.
Qed.

Definition clean (s : string) : Prop := without quote s.
Definition slash_free (s : string) : Prop := without "/" s.

Section Substrings.
Context (chars : string).

Lemma without_app (a b : string) :
  without chars a → without chars b → without chars (a ++ b).
Proof. unfold without. rewrite str_all_app. by intros -> ->. Qed.

Lemma without_drop (n : nat) (s : string) : without chars s → without chars (str_drop n s).
Proof. apply str_all_drop. Qed.

Lemma without_take (n : nat) (s : string) : without chars s → without chars (str_take n s).
Proof. apply str_all_take. Qed.

Lemma without_remove_prefix (s sub : string) :
  without chars s → without chars (remove_prefix s sub).
Proof.
  intros Hs. unfold remove_prefix, substr_from.
  destruct (find_str s sub 0) as [[|?]|]; auto using without_drop.
Qed.

Lemma without_remove_suffix (s sub : string) :
  without chars s → without chars (remove_suffix s sub).
Proof.
  intros Hs. unfold remove_suffix, substr. destruct (rfind_sub sub s); [|done].
  case_if; auto using without_take, without_drop.
Qed.

Lemma without_path_basename (s : string) :
  without chars "./" → without chars s → without chars (path_basename s).
Proof.
  intros Hd Hs. unfold path_basename, substr.
  pose proof (without_take 1 _ Hd) as H1. pose proof (without_drop 1 _ Hd) as H2.
  destruct (str_empty s); [done|]. destruct (if endsWith_char s "/" then _ else _); [|done].
  auto using without_take, without_drop.
Qed.

Lemma without_basename (uri name : string) :
  without chars "./" → without chars uri → basename uri = Ok name → without chars name.
Proof.
  intros Hd Hu. unfold basename, substr_from, Path.
  case_if; [done|]. destruct (find_str uri "://" 0) as [i|].
  - case_if; [case_if; [done|]; destruct (find_last_of _ _)|]; intros [= <-];
      auto using without_drop, without_path_basename, without_remove_prefix.
  - intros [= <-]. auto using without_path_basename, without_remove_prefix.
Qed.

Lemma without_trim_prefix (s ws : string) :
  without chars s → without chars (trim s PREFIX ws).
Proof.
  intros Hs. unfold trim, substr_from. destruct (find_first_not_of _ _ _); [|done].
  auto using without_drop.
Qed.

Lemma without_path_join (a b : string) :
  without chars "/" → without chars a → without chars b → without chars (path_join a b).
Proof.
  intros. unfold path_join.
  auto using without_app, without_remove_prefix, without_remove_suffix.
Qed.
End Substrings.

#[export] Hint Resolve without_app without_drop without_take without_remove_prefix
  without_remove_suffix without_path_basename without_trim_prefix without_path_join : triple.

(** ** URIs *)

(** What [validateUri] checks is what the quoting relies on. *)
Lemma basename_clean (uri name : string) : basename uri = Ok name → clean uri.
Proof.
  unfold basename. destruct (has (find_first_of uri quote 0)) eqn:E.
  { rewrite orb_true_r, orb_true_l. done. }
  intros _. unfold find_first_of in E. cbn [str_drop] in E.
  assert (E' : has (find_char (fun c => mem_char c quote) uri) = false)
    by (by destruct (find_char _ uri)).
  rewrite has_find_char in E'. by apply negb_false_iff in E'.
Qed.

Lemma basename_not_fatal (uri : string) : basename uri ≠ Fatal.
Proof.
  unfold basename. case_if; [done|]. destruct (find_str uri "://" 0); [|done].
  case_if; [|done]. case_if; [done|]. by destruct (find_last_of _ _).
Qed.

Lemma validateUri_Ok (uri : string) (u : unit) : validateUri uri = Ok u → clean uri.
Proof.
  unfold validateUri. destruct (basename uri) eqn:E; [|done..]. intros _.
  by eapply basename_clean.
Qed.

Lemma validateUri_not_fatal (uri : string) : validateUri uri ≠ Fatal.
Proof.
  unfold validateUri. pose proof (basename_not_fatal uri). by destruct (basename uri).
Qed.

(** A component of a path: no slash, or the root itself. *)
Lemma path_basename_component (s : string) :
  slash_free (path_basename s) ∨ path_basename s = "/".
Proof.
  unfold path_basename, substr. destruct (str_empty s); [by left|].
  destruct (if endsWith_char s "/" then _ else _) as [e|]; [|by right]. left.
  set (start := match _ with None => O | Some i => S i end).
  assert (Hle : (start ≤ e + 1)%nat).
  { subst start. unfold find_last_of. cbn [str_drop].
    destruct (rfind_char _ _) as [i|] eqn:E; [|lia].
    apply rfind_char_Some in E as (a & c & b & Hs & <- & _).
    assert (Hl : (String.length (str_take (e + 1) s) ≤ e + 1)%nat).
    { clear. generalize (e + 1)%nat. intros n. revert s.
      induction n; intros [|? ?]; cbn; try lia. specialize (IHn s). lia. }
    rewrite Hs, str_length_app in Hl. cbn in Hl. lia. }
  rewrite str_take_drop_comm. replace (start + (e + 1 - start))%nat with (e + 1)%nat by lia.
  apply after_last.
Qed.

Lemma basename_component (uri name : string) :
  basename uri = Ok name → slash_free name ∨ name = "/".
Proof.
  unfold basename. case_if; [done|]. destruct (find_str uri "://" 0) as [i|].
  2:{ intros [= <-]. apply path_basename_component. }
  case_if; [|intros [= <-]; apply path_basename_component].
  case_if; [done|]. intros Hn. left. revert Hn. unfold find_last_of, substr_from.
  generalize (str_drop (i + 3) uri). intros path.
  pose proof (after_last (fun c => mem_char c "/") path) as Ha.
  destruct (rfind_char _ path) as [j|]; intros [= <-]; [|done].
  by rewrite Nat.add_1_r.
Qed.

(** A name that a file in a directory can have: not the directory itself and not
    its parent. *)
Definition proper (name : string) : Prop := name ∉ [""; "."; ".."; "/"].

(** A direct child of a directory. *)
Definition child_of (directory path : string) : Prop :=
  ∃ name, path = remove_suffix directory "/" ++ "/" ++ name ∧ slash_free name ∧ proper name.

Lemma remove_prefix_slash (name : string) : slash_free name → remove_prefix name "/" = name.
Proof.
  intros Hn. unfold remove_prefix. destruct (find_str name "/" 0) as [[|?]|] eqn:E; try done.
  apply find_str_start in E as (t & ->). done.
Qed.

Lemma join_child (directory uri name : string) :
  basename uri = Ok name → proper name → child_of directory (path_join directory name).
Proof.
  intros Hn Hp. apply basename_component in Hn as [Hn| ->].
  - exists name. unfold path_join. by rewrite remove_prefix_slash.
  - destruct Hp. do 3 right. left.
Qed.

Lemma uriToLocalPath_cases (uri : string) (home : option string) :
  match uriToLocalPath uri home with
  | Ok None => negb (startsWith uri "file://") && contains uri "://" = true
  | Ok (Some path) =>
      negb (startsWith uri "file://") && contains uri "://" = false ∧
      ∃ n, (path = str_drop n uri ∧ startsWith path "/" = true) ∨
           ∃ h, home = Some h ∧ h ≠ "" ∧ path = path_join h (str_drop n uri)
  | Err _ => True
  | Fatal => False
  end.
Proof.
  unfold uriToLocalPath, substr_from. destruct (negb _ && _); [done|].
  set (pf := if startsWith uri FILE_URI_LOCALHOST then _ else _).
  assert (Hp : ∃ n, pf.1 = str_drop n uri).
  { subst pf. repeat case_if; cbn [fst]; eauto. by exists O. }
  destruct pf as [path fileUri], Hp as (n & Hn). cbn in Hn. subst path.
  case_if; [done|]. case_bool_decide as Ha.
  - split; [done|]. exists n. left. split; [done|].
    revert Ha. unfold find_first_of, startsWith. cbn [str_drop].
    destruct (str_drop n uri) as [|c s]; [done|]. cbn [find_char mem_char].
    rewrite orb_false_r. destruct (Ascii.eqb_spec c "/") as [->|Hc]; [by destruct s|].
    by destruct (find_char _ s).
  - destruct home as [h|]; [|done]. destruct (str_empty h) eqn:Eh; [done|].
    split; [done|]. exists n. right. exists h. split; [done|]. split; [|done].
    intros ->. done.
Qed.

Lemma uriToLocalPath_clean (uri : string) (home : option string) (path : string) :
  clean uri → (∀ h, home = Some h → clean h) →
  uriToLocalPath uri home = Ok (Some path) → clean path.
Proof.
  intros Hu Hh E. pose proof (uriToLocalPath_cases uri home) as Hc. rewrite E in Hc.
  destruct Hc as (_ & n & [[-> _]|(h & Hhome & _ & ->)]).
  - by apply without_drop.
  - apply without_path_join; [done|by apply Hh|by apply without_drop].
Qed.

Lemma uriToLocalPath_not_fatal (uri : string) (home : option string) :
  uriToLocalPath uri home ≠ Fatal.
Proof. intros E. pose proof (uriToLocalPath_cases uri home) as Hc. by rewrite E in Hc. Qed.

(** ** Shell commands

    The shell reads the text between two single quotes as it stands, so a
    command is safe when what remains outside the quotes is fixed.  [outside]
    keeps the pieces outside: every second field between quotes, from the first.
    A command whose last quote is closed has a last piece outside. *)
Fixpoint evens {A : Type} (l : list A) : list A :=
  match l with
  | [] => []
  | [x] => [x]
  | x :: _ :: l' => x :: evens l'
  end.
Definition outside (command : string) : list string :=
  evens (fields (fun c => mem_char c quote) command).

(** The texts outside the quotes of the commands that the program runs. *)
Definition fixed_texts (hadoop : string) : list (list string) :=
  [ ["cp "; " "; ""]; ["tar -C "; " -xf "; ""]; ["gzip -dc > "; " < "; ""];
    ["unzip -o -d "; " "; ""]; [hadoop ++ " version 2>&1"];
    [hadoop ++ " fs -copyToLocal "; " "; ""] ].

Lemma fields_quote (a b : string) :
  clean a →
  fields (fun c => mem_char c quote) (a ++ String "'" b) =
  a :: fields (fun c => mem_char c quote) b.
Proof. intros Ha. by apply fields_token. Qed.

(** A command of two quoted arguments. *)
Lemma outside_two (a src mid dst : string) :
  clean a → clean src → clean mid → clean dst →
  outside (a ++ "'" ++ src ++ "'" ++ mid ++ "'" ++ dst ++ "'") = [a; mid; ""].
Proof.
  intros. unfold outside. cbn [String.append].
  by rewrite fields_quote, fields_quote, fields_quote, fields_quote.
Qed.

(** A text without percent signs is its own format. *)
Definition literal (s : string) : Prop := without "%" s.

Lemma literal_format_id (s : string) : literal s → literal_format s = Some s.
Proof.
  unfold literal, without. induction s as [|c s IH]; [done|]. cbn.
  rewrite orb_false_r. intros [Hc Hs]%andb_true_iff. apply negb_true_iff in Hc.
  by rewrite Hc, IH.
Qed.

Section Laws.
Context `{OS}.

Lemma format_literal (fmt : string) : literal fmt → format fmt = Ok fmt.
Proof. intros Hl. unfold format. by rewrite literal_format_id. Qed.

(** What stout documents of its wrappers: a [Try] is a value or an error. *)
Class OSLaws := {
  shell_try : ∀ tr command, os_shell tr command ≠ Fatal;
  download_try : ∀ tr url path, net_download tr url path ≠ Fatal;
  chmod_try : ∀ tr path mode, os_chmod tr path mode ≠ Fatal;
  mkdir_try : ∀ tr directory, os_mkdir tr directory ≠ Fatal;
  chown_try : ∀ tr user path, os_chown tr user path ≠ Fatal }.
Context `{OSLaws}.

(** The directories of one fetch. *)
Context (sandbox : string) (cacheDirectory cacheFile home : option string).
(** Under the condition [ok] their names have no quotes. *)
Context (ok : Prop).
Context (Hsandbox : ok → clean sandbox).
Context (Hcache : ∀ d, cacheDirectory = Some d → ok → clean d).
Context (Hfile : ∀ f, cacheFile = Some f → ok → clean f).
Context (Hhome : ∀ h, home = Some h → ok → clean h).
(** Under the condition [named] the URI has a basename that names a file. *)
Context (named : Prop).
(** What goes through [os::shell] has no percent sign: the path of the client, the
    directories and, below, the URIs that the client fetches. *)
Context (Lhadoop : literal new_HDFS).
Context (Lsandbox : literal sandbox).
Context (Lcache : ∀ d, cacheDirectory = Some d → literal d).
Context (Lfile : ∀ f, cacheFile = Some f → literal f).

(** The URI is left to the hadoop client. *)
Definition by_hadoop (uri : string) : Prop :=
  let u := trim uri PREFIX WHITESPACE in
  uriToLocalPath u home = Ok None ∧ isNetUri u = false.

Definition cache_file (path : string) : Prop :=
  ∃ d, cacheDirectory = Some d ∧ path = path_join d (get_or "" cacheFile).
(** Where a fetch may put a file. *)
Definition target (path : string) : Prop := (named → child_of sandbox path) ∨ cache_file path.

Inductive allowed : Call → Prop :=
  | allow_copy src dst :
      (ok → clean src) → (ok → clean dst) → target dst →
      allowed (System ("cp '" ++ src ++ "' '" ++ dst ++ "'"))
  | allow_extract src command :
      (ok → clean src) → extract_command src sandbox = Some command →
      allowed (System (command ++ " '" ++ src ++ "'"))
  | allow_net url dst : isNetUri url = true → target dst → allowed (Download url dst)
  | allow_version : allowed (Shell (new_HDFS ++ " version" ++ " 2>&1"))
  | allow_hadoop src dst :
      (ok → clean src) → (ok → clean dst) → target dst →
      allowed (Shell (new_HDFS ++ " fs -copyToLocal '" ++ src ++ "' '" ++ dst ++ "'"))
  | allow_mkdir directory : cacheDirectory = Some directory → allowed (Mkdir directory)
  | allow_chmod path : (named → child_of sandbox path) → allowed (Chmod path EXECUTABLE_MODE).
#[local] Hint Constructors allowed : triple.

Lemma copyFile_triple (src dst : string) :
  (ok → clean src) → (ok → clean dst) → target dst →
  triple allowed (copyFile src dst) (fun path => path = dst).
Proof using.
  intros. unfold copyFile.
  apply (triple_bind _ _ _ (fun _ => True)); [apply triple_call; auto with triple|].
  intros status _. case_if; [by apply triple_lift|by apply triple_ret].
Qed.

Lemma extract_triple (src : string) :
  (ok → clean src) → triple allowed (extract src sandbox) (fun _ => True).
Proof using.
  intros Hs. unfold extract. destruct (extract_command src sandbox) eqn:E; [|by apply triple_ret].
  apply (triple_bind _ _ _ (fun _ => True)); [apply triple_call; auto with triple|].
  intros status _. case_if; [by apply triple_lift|by apply triple_ret].
Qed.

Lemma downloadWithNet_triple (url dst : string) :
  isNetUri url = true → target dst →
  triple allowed (downloadWithNet url dst) (fun path => path = dst).
Proof using H0.
  intros Hu Hd. unfold downloadWithNet. fold (isNetUri url). rewrite Hu.
  apply (triple_bind _ _ _ (fun _ => True)); [by apply triple_lift|]. intros _ _.
  apply (triple_bind _ _ _ (fun _ => True)).
  { apply triple_on_error, triple_try_call; auto using download_try with triple. }
  intros code _. repeat case_if; (by apply triple_lift) || by apply triple_ret.
Qed.

Lemma shell_triple (command : string) :
  literal command → allowed (Shell command) → triple allowed (shell command) (fun _ => True).
Proof using H0.
  intros Hl Ha. unfold shell. rewrite format_literal by done.
  apply (triple_bind _ _ _ (fun c => c = command)); [by apply triple_lift; [|intros ? [= ->]]|].
  intros ? ->. by apply triple_try_call; [|intros; apply shell_try|].
Qed.

Lemma literal_app (a b : string) : literal a → literal b → literal (a ++ b).
Proof using. apply without_app. Qed.

Lemma downloadWithHadoopClient_triple (url dst : string) :
  clean url → (ok → clean dst) → target dst → literal url → literal dst →
  triple allowed (downloadWithHadoopClient url dst) (fun path => path = dst).
Proof using H0 Lhadoop.
  intros Hu Hc Hd Lu Ld. unfold downloadWithHadoopClient.
  apply (triple_bind _ _ _ (fun b => b = true)).
  { apply triple_on_error, (triple_bind _ _ _ (fun _ => True)).
    - apply shell_triple; [by apply literal_app|constructor].
    - intros _ _. by apply triple_ret. }
  intros ? ->. apply (triple_bind _ _ _ (fun _ => True)); [|intros; by apply triple_ret].
  apply triple_on_error, (triple_bind _ _ _ (fun _ => True)); [|intros; by apply triple_ret].
  apply shell_triple; [|by constructor; auto].
  by repeat (apply literal_app; [done|]).
Qed.

Lemma download_triple (uri dst : string) :
  (ok → clean dst) → target dst → (by_hadoop uri → literal uri ∧ literal dst) →
  triple allowed (download uri dst home) (fun path => path = dst).
Proof using H0 Hhome Lhadoop.
  intros Hc Hd Hl. unfold download. unfold by_hadoop in Hl.
  pose proof (without_trim_prefix "%" uri WHITESPACE) as Ht. set (u := trim uri PREFIX WHITESPACE) in *.
  apply (triple_bind _ _ _ (fun _ => clean u)).
  { apply triple_lift; [apply validateUri_not_fatal|intros ?; apply validateUri_Ok]. }
  intros _ Hu.
  apply (triple_bind _ _ _ (fun p => uriToLocalPath u home = Ok p)).
  { by apply triple_lift; [apply uriToLocalPath_not_fatal|]. }
  intros [path|] Hp.
  { apply copyFile_triple; [|done|done]. intros Hok.
    eapply uriToLocalPath_clean; [exact Hu| |exact Hp]. auto. }
  destruct (isNetUri u) eqn:En; [by apply downloadWithNet_triple|].
  destruct Hl as [Lu Ld]; [done|]. by apply downloadWithHadoopClient_triple; [..|apply Ht|].
Qed.

Lemma chmodExecutable_triple (path : string) :
  (named → child_of sandbox path) → triple allowed (chmodExecutable path) (fun p => p = path).
Proof using H0.
  intros Hp. apply (triple_bind _ _ _ (fun _ => True)); [|intros; by apply triple_ret].
  apply triple_on_error, triple_try_call; auto using chmod_try with triple.
Qed.

(** Where a fetched resource ends up: the program reports it. *)
Definition arrived (path : string) : Prop :=
  (named → child_of sandbox path) ∨ path = sandbox.

Lemma lift_basename_triple (uri : string) :
  triple allowed (lift (basename uri)) (fun name => basename uri = Ok name).
Proof using. apply triple_lift; [apply basename_not_fatal|done]. Qed.

Lemma join_clean (uri name : string) :
  basename uri = Ok name → ok → clean (path_join sandbox name).
Proof using Hsandbox.
  intros Hn Hok. apply without_path_join; [done|by apply Hsandbox|].
  eapply without_basename; [done| |exact Hn]. by eapply basename_clean.
Qed.

Lemma join_literal (uri name : string) :
  literal uri → basename uri = Ok name → literal (path_join sandbox name).
Proof using Lsandbox.
  intros Hu Hn. apply without_path_join; [done|done|]. by eapply without_basename.
Qed.

(** What is asked of the URI of an item. *)
Definition uri_ok (u : URI) : Prop :=
  (by_hadoop (value u) → literal (value u)) ∧
  (named → ∀ name, basename (value u) = Ok name → proper name).

Lemma fetchBypassingCache_triple (u : URI) :
  uri_ok u → triple allowed (fetchBypassingCache u sandbox home) arrived.
Proof using H0 Hhome Hsandbox Lhadoop Lsandbox.
  intros [Hl Hp].
  apply (triple_bind _ _ _ (fun name => basename (value u) = Ok name)).
  { apply triple_on_error, lift_basename_triple. }
  intros name Hn. cbn beta in Hn.
  assert (Hc : named → child_of sandbox (path_join sandbox name))
    by (intros Hnm; eapply join_child; [exact Hn|by apply Hp]).
  pose proof (join_clean _ _ Hn) as Hq.
  eapply triple_bind.
  { apply download_triple; [done|by left|]. intros Hb%Hl. split; [done|by eapply join_literal]. }
  intros ? ->.
  case_if.
  { eapply triple_weaken; [done| |by apply chmodExecutable_triple]. intros ? ->. by left. }
  case_if; [|by apply triple_ret; left].
  eapply triple_bind; [by apply extract_triple|]. intros _ _. by apply triple_ret; left.
Qed.

Lemma fetchFromCache_triple (item : Item) (directory : string) :
  cacheDirectory = Some directory → cache_filename item = cacheFile →
  str_empty (get_or "" (cache_filename item)) = false → uri_ok (uri item) →
  triple allowed (fetchFromCache item directory sandbox) arrived.
Proof using H0 Hcache Hfile Hsandbox Lfile.
  intros Hd Hf Hne [_ Hp]. eapply triple_bind; [apply lift_basename_triple|].
  intros name Hn. cbn beta in Hn.
  assert (Hc : named → child_of sandbox (path_join sandbox name))
    by (intros Hnm; eapply join_child; [exact Hn|by apply Hp]).
  pose proof (join_clean _ _ Hn) as Hq.
  assert (Hsrc : ok → clean (path_join directory (get_or "" (cache_filename item)))).
  { intros Hok. apply without_path_join; [done|by apply Hcache|]. rewrite Hf.
    destruct cacheFile; cbn; [by apply Hfile|done]. }
  rewrite Hne. apply (triple_bind _ _ _ (fun _ => True)); [by apply triple_lift|]. intros _ _.
  assert (Hcopy : triple allowed
    (copyFile (path_join directory (get_or "" (cache_filename item)))
       (path_join sandbox name)) (fun p => p = path_join sandbox name))
    by (apply copyFile_triple; [done|done|by left]).
  case_if.
  { eapply triple_bind; [exact Hcopy|]. intros ? ->.
    eapply triple_weaken; [done| |by apply chmodExecutable_triple]. intros ? ->. by left. }
  assert (Hcopied : triple allowed
    (copyFile (path_join directory (get_or "" (cache_filename item)))
       (path_join sandbox name)) arrived)
    by (eapply triple_weaken; [done| |exact Hcopy]; intros ? ->; by left).
  case_if; [|done]. eapply triple_bind; [by apply extract_triple|].
  intros [] _; [by apply triple_ret; right|done].
Qed.

Lemma fetchThroughCache_triple (item : Item) (cd : option string) :
  cacheDirectory = cd → action item ≠ BYPASS_CACHE → cache_filename item = cacheFile →
  uri_ok (uri item) → triple allowed (fetchThroughCache item cd sandbox home) arrived.
Proof using H0 Hcache Hfile Hhome Hsandbox Lhadoop Lcache Lfile.
  intros Hd Ha Hf Hu. unfold fetchThroughCache.
  destruct cd as [directory|]; [|by apply triple_lift].
  destruct (str_empty directory); [by apply triple_lift|].
  destruct (negb _ || _) eqn:Hn; [by apply triple_lift|].
  apply orb_false_iff in Hn as [_ Hn].
  apply (triple_bind _ _ _ (fun _ => True)).
  2:{ intros _ _. by apply fetchFromCache_triple. }
  case_bool_decide as Hr; [by apply triple_ret|].
  apply (triple_bind _ _ _ (fun _ => True)).
  { apply triple_lift; [|done]. rewrite bool_decide_eq_true_2; [done|].
    by destruct (action item). }
  intros _ _. apply (triple_bind _ _ _ (fun _ => True)).
  { apply triple_on_error, triple_try_call; auto using mkdir_try.
    by apply allow_mkdir. }
  intros _ _. eapply triple_bind; [|intros ? _; by apply triple_ret].
  apply download_triple.
  - intros Hok. apply without_path_join; [done|by apply Hcache|]. rewrite Hf.
    destruct cacheFile; cbn; [by apply Hfile|done].
  - right. exists directory. by rewrite Hf.
  - intros Hb. split; [by apply Hu|]. apply without_path_join; [done|by apply Lcache|].
    rewrite Hf. destruct cacheFile; cbn; [by apply Lfile|done].
Qed.

Lemma fetch_triple (item : Item) :
  cache_filename item = cacheFile → uri_ok (uri item) →
  triple allowed (fetch item cacheDirectory sandbox home) arrived.
Proof using H0 Hcache Hfile Hhome Hsandbox Lhadoop Lsandbox Lcache Lfile.
  intros Hf Hu. unfold fetch. case_bool_decide; [by apply fetchBypassingCache_triple|].
  by apply fetchThroughCache_triple.
Qed.

(** Write the texts of a goal as one right-nested concatenation. *)
Ltac flatten_text E :=
  do 3 (cbn [String.append] in E |- *; rewrite ?str_app_assoc in E; rewrite ?str_app_assoc);
  cbn [String.append] in E |- *.

(** Find a command in the list of fixed texts. *)
Ltac in_list := repeat first [left; reflexivity | right].

(** Allowed commands are quoted. *)
Lemma extract_command_fixed (src command : string) :
  ok → clean src → extract_command src sandbox = Some command →
  outside (command ++ " '" ++ src ++ "'") ∈ fixed_texts new_HDFS.
Proof using Hsandbox.
  intros Hok%Hsandbox Hs. unfold extract_command, fixed_texts.
  destruct (_ || endsWith src ".tar.xz"); [|destruct (endsWith src ".gz");
    [|destruct (endsWith src ".zip"); [|done]]]; intros [= <-].
  - pose proof (outside_two "tar -C " sandbox " -xf " src) as E.
    flatten_text E. rewrite E by done. in_list.
  - pose proof (outside_two "gzip -dc > " (sandbox ++ "/" ++ path_basename
      (Path (substr src 0 (String.length src - 3)))) " < " src) as E.
    flatten_text E. rewrite E; [in_list|done| |done|done].
    apply without_app; [done|]. apply (without_app _ "/"); [done|].
    apply without_path_basename; [done|]. unfold Path, substr. eauto with triple.
  - pose proof (outside_two "unzip -o -d " sandbox " " src) as E.
    flatten_text E. rewrite E by done. in_list.
Qed.

Lemma allowed_quoted (c : Call) (command : string) :
  ok → clean new_HDFS → allowed c → c = System command ∨ c = Shell command →
  outside command ∈ fixed_texts new_HDFS.
Proof using Hcache Hsandbox.
  clear Lcache. intros Hok Hh Ha Hc. unfold fixed_texts. destruct Ha; destruct Hc; simplify_eq.
  - pose proof (outside_two "cp " src " " dst) as E. flatten_text E.
    rewrite E by (done || auto). in_list.
  - apply extract_command_fixed; auto.
  - unfold outside. cbn [String.append]. rewrite fields_last; [in_list|].
    by apply without_app.
  - pose proof (outside_two (new_HDFS ++ " fs -copyToLocal ") src " " dst) as E.
    flatten_text E.
    rewrite E; [in_list|by apply without_app|done || auto..].
Qed.
End Laws.

(** ** The whole program *)

Section Main.
Context `{OSLaws}.
Context (info : FetcherInfo).

(** No quote in the directories and file names that the agent chooses; the URIs
    of the task are arbitrary. *)
Definition info_clean : Prop :=
  clean (sandbox_directory info) ∧
  (∀ d, cache_directory info = Some d → clean d) ∧
  (∀ h, frameworks_home info = Some h → clean h) ∧
  (∀ item f, item ∈ items info → cache_filename item = Some f → clean f).

(** No percent sign in what the hadoop client is given: its own path, the
    directories and file names of the agent, and those URIs that are neither local
    nor of the network. *)
Definition info_literal : Prop :=
  literal new_HDFS ∧ literal (sandbox_directory info) ∧
  (∀ d, cache_directory info = Some d → literal d) ∧
  (∀ item f, item ∈ items info → cache_filename item = Some f → literal f) ∧
  (∀ item, item ∈ items info → by_hadoop (frameworks_home info) (value (uri item)) →
     literal (value (uri item))).

(** The basename of every URI names a file: it is not empty, a slash, or one of the
    two entries of every directory. *)
Definition info_named : Prop :=
  ∀ item name, item ∈ items info → basename (value (uri item)) = Ok name → proper name.

(** The calls for one of the items, or the final change of owner. *)
Definition program_call (c : Call) : Prop :=
  (∃ item, item ∈ items info ∧
     allowed (sandbox_directory info) (cache_directory info) (cache_filename item)
       info_clean info_named c) ∨
  (∃ u, user info = Some u ∧ c = Chown u (sandbox_directory info)).

(** Every item of a list is fetched, in order. *)
Inductive fetched : list Item → list Call → list Call → Prop :=
  | fetched_nil tr : fetched [] tr tr
  | fetched_cons item l path tr tr' tr'' :
      fetch item (cache_directory info) (sandbox_directory info) (frameworks_home info) tr
        = (Ok path, tr') →
      fetched l tr' tr'' → fetched (item :: l) tr tr''.

Definition items_loop : list Item → M unit :=
  fix loop (l : list Item) : M unit :=
    match l with
    | [] => mret tt
    | item :: l' =>
        _ ← fetch item (cache_directory info) (sandbox_directory info) (frameworks_home info);
        loop l'
    end.

Lemma items_loop_triple (l : list Item) :
  info_literal → (∀ item, item ∈ l → item ∈ items info) →
  triple program_call (items_loop l) (fun _ => True).
Proof using H0.
  intros (L1 & L2 & L3 & L4 & L5). induction l as [|item l IH]; intros Hl; cbn [items_loop].
  { by apply triple_ret. }
  apply (triple_bind _ _ _ (fun _ => True)).
  2:{ intros _ _. apply IH. intros ? ?. apply Hl. by right. }
  assert (Hin : item ∈ items info) by (apply Hl; by left).
  eapply triple_weaken;
    [| |apply (fetch_triple _ _ (cache_filename item) (frameworks_home info) info_clean)].
  - intros c Hc. left. eauto.
  - done.
  - by intros (? & _).
  - intros d Hd (_ & Hc & _). by apply Hc.
  - intros f Hf (_ & _ & _ & Hc). by eapply Hc.
  - intros h Hh (_ & _ & Hc & _). by apply Hc.
  - done.
  - done.
  - done.
  - intros f Hf. by eapply L4.
  - done.
  - split; [by apply L5|]. intros Hn name. by apply Hn.
Qed.

Lemma fetch_all_triple :
  info_literal → sandbox_directory info ≠ "" →
  triple program_call (fetch_all info) (fun _ => True).
Proof using H0.
  intros Hl Hs. unfold fetch_all.
  apply (triple_bind _ _ _ (fun _ => True)).
  { apply triple_lift; [|done]. by destruct (sandbox_directory info). }
  intros _ _. apply (triple_bind _ _ _ (fun _ => True)).
  { by apply items_loop_triple. }
  intros _ _. destruct (user info) as [u|] eqn:Hu; [|by apply triple_ret].
  apply triple_try_call; [right; eauto|intros; apply chown_try|done].
Qed.

(** The loop stops at the first item that fails. *)
Lemma items_loop_spec (l : list Item) (tr : list Call) :
  match items_loop l tr with
  | (Ok _, tr') => fetched l tr tr'
  | (Err e, tr') =>
      ∃ l1 item l2 tr1, l = (l1 ++ item :: l2)%list ∧ fetched l1 tr tr1 ∧
        fetch item (cache_directory info) (sandbox_directory info)
          (frameworks_home info) tr1 = (Err e, tr')
  | (Fatal, _) => True
  end.
Proof using.
  revert tr. induction l as [|item l IH]; intros tr; cbn [items_loop]; [constructor|].
  unfold mbind, M_bind. destruct (fetch _ _ _ _ tr) as [[path|e|] tr'] eqn:E; [| |done].
  - specialize (IH tr'). destruct (items_loop l tr') as [[[]|e|] tr'']; [| |done].
    + by econstructor.
    + destruct IH as (l1 & it & l2 & tr1 & -> & Hl & Hi).
      exists (item :: l1), it, l2, tr1. split; [done|]. split; [by econstructor|done].
  - exists [], item, l, tr. split; [done|]. split; [constructor|done].
Qed.

Lemma main_calls (parse : string → option FetcherInfo) (text : string) :
  os_getenv "MESOS_FETCHER_INFO" = Some text → parse text = Some info → info_literal →
  ∀ c, c ∈ (main parse).2 → program_call c.
Proof using H0.
  intros Ht Hp Hl. apply Forall_forall. unfold main. rewrite Ht, Hp.
  destruct (decide (sandbox_directory info = "")) as [E|E].
  { unfold fetch_all. rewrite E. constructor. }
  destruct (fetch_all_triple Hl E []) as (new & Htr & Hnew & _).
  destruct (fetch_all info []) as [[|?|] tr]; cbn in Htr |- *; by subst.
Qed.

(** C13: Whatever URIs a task names, every command that the fetcher program
    hands to a shell consists, outside single quotes, of one of six fixed texts:
    no character of a URI is read by the shell as anything but part of a quoted
    argument.  The directories, the cache file names and the path of the hadoop
    client, which the agent sets, must have no quote ([info_clean]); and since
    [os::shell] takes its command as a format, what the hadoop client is given,
    the URIs that it fetches included, must have no percent sign
    ([info_literal]). *)
Theorem fetcher_commands_quoted (parse : string → option FetcherInfo) (text command : string) :
  os_getenv "MESOS_FETCHER_INFO" = Some text → parse text = Some info →
  info_clean → info_literal → clean new_HDFS →
  System command ∈ (main parse).2 ∨ Shell command ∈ (main parse).2 →
  outside command ∈ fixed_texts new_HDFS.
Proof using H0.
  intros Ht Hp Hc Hl Hh Hin. pose proof (main_calls parse text Ht Hp Hl) as Hall.
  assert (∃ c, c ∈ (main parse).2 ∧ (c = System command ∨ c = Shell command))
    as (c & Hc' & Hcc) by (destruct Hin; eauto).
  destruct (Hall c Hc') as [(item & Hi & Ha)|(u & _ & ->)]; [|by destruct Hcc].
  eapply allowed_quoted; [| |exact Hc|exact Hh|exact Ha|exact Hcc].
  - by intros (? & _).
  - intros d Hd (_ & Hcd & _). by apply Hcd.
Qed.

(** C32: Everything the fetcher program does to its host, when the basename of every
    URI names a file ([info_named]: it is not empty, a slash, a dot or two dots)
    and nothing given to the hadoop client has a percent sign ([info_literal]): it
    downloads network URIs, copies files and runs the hadoop client, each time into
    a direct child of the sandbox or into the item's cache file; it extracts
    archives into the sandbox; it makes only files of the sandbox executable, with
    mode 0755; it creates only the cache directory; it gives only the sandbox to
    the user. *)
Theorem fetcher_writes_confined (parse : string → option FetcherInfo) (text : string)
    (c : Call) :
  os_getenv "MESOS_FETCHER_INFO" = Some text → parse text = Some info →
  info_literal → info_named →
  c ∈ (main parse).2 →
  let sandbox := sandbox_directory info in
  let target dst := child_of sandbox dst ∨
    ∃ d item, cache_directory info = Some d ∧ item ∈ items info ∧
              dst = path_join d (get_or "" (cache_filename item)) in
  match c with
  | System command =>
      (∃ src dst, command = "cp '" ++ src ++ "' '" ++ dst ++ "'" ∧ target dst) ∨
      (∃ src cmd, extract_command src sandbox = Some cmd ∧
                  command = cmd ++ " '" ++ src ++ "'")
  | Shell command =>
      command = new_HDFS ++ " version 2>&1" ∨
      ∃ src dst, target dst ∧
        command = new_HDFS ++ " fs -copyToLocal '" ++ src ++ "' '" ++ dst ++ "'"
  | Download url dst => isNetUri url = true ∧ target dst
  | Chmod path mode => child_of sandbox path ∧ mode = 493
  | Mkdir directory => cache_directory info = Some directory
  | Chown u path => user info = Some u ∧ path = sandbox
  | ContentLength _ | StatSize _ | Exists _ => False
  end.
Proof using H0.
  intros Ht Hp Hl Hn Hin sandbox tgt.
  destruct (main_calls parse text Ht Hp Hl c Hin) as [(item & Hi & Ha)|(u & Hu & ->)]; [|done].
  assert (Htgt : ∀ dst, target sandbox (cache_directory info) (cache_filename item) info_named dst →
                        tgt dst).
  { intros dst [Hd|(d & Hd & ->)]; [by left; apply Hd|]. right. by exists d, item. }
  destruct Ha; eauto 8.
Qed.

(** How the work on an input with a sandbox ends. *)
Definition chowned (tr : list Call) (r : outcome unit) (tr' : list Call) : Prop :=
  match user info with
  | Some u => chown u (sandbox_directory info) tr = (r, tr')
  | None => r = Ok tt ∧ tr' = tr
  end.

Definition ends (result : Exit * list Call) : Prop :=
  match result with
  | (Exited 0, tr) => ∃ tr1, fetched (items info) [] tr1 ∧ chowned tr1 (Ok tt) tr
  | (Exited 1, tr) =>
      (∃ l1 item l2 tr1 e, items info = (l1 ++ item :: l2)%list ∧ fetched l1 [] tr1 ∧
         fetch item (cache_directory info) (sandbox_directory info)
           (frameworks_home info) tr1 = (Err e, tr)) ∨
      (∃ tr1 e, fetched (items info) [] tr1 ∧ chowned tr1 (Err e) tr)
  | _ => False
  end.

Lemma main_ends (parse : string → option FetcherInfo) (text : string) :
  os_getenv "MESOS_FETCHER_INFO" = Some text → parse text = Some info →
  sandbox_directory info ≠ "" → info_literal → ends (main parse).
Proof using H0.
  intros Ht Hp E Hlit. unfold main. rewrite Ht, Hp.
  destruct (fetch_all_triple Hlit E []) as (new & _ & _ & Hr). revert Hr.
  unfold fetch_all.
  assert (str_empty (sandbox_directory info) = false) as ->
    by (by destruct (sandbox_directory info)).
  unfold mbind, M_bind. cbn [lift CHECK negb].
  pose proof (items_loop_spec (items info) []) as Hl.
  change (fetch_items info) with (items_loop (items info)).
  destruct (items_loop (items info) []) as [[[]|e|] tr1]; [| |done].
  - unfold ends, chowned. destruct (user info) as [u|]; [|by intros _; exists tr1].
    destruct (chown u _ tr1) as [[[]|e|] tr] eqn:Eu; [eauto| |done]. intros _. right. eauto.
  - intros _. left. destruct Hl as (l1 & item & l2 & tr1' & Hl). eauto 10.
Qed.
End Main.


(** ** A session

    An environment in which every call succeeds, and the program on a task with
    a local file, an archive to unpack and a cached executable. *)
Module FetcherSession.

Definition getenv (name : string) : option string :=
  if String.eqb name "MESOS_FETCHER_INFO" then Some "{...}" else None.

#[local] Instance env : OS := {|
  os_getenv := getenv;
  os_system _ _ := 0;
  os_shell _ _ := Ok "";
  net_download _ url _ := Ok (if startsWith url "ftp" then 226 else 200);
  net_contentLength _ _ := Ok 10;
  os_stat_size _ _ := Ok 10;
  os_exists _ _ := true;
  os_chmod _ _ _ := Ok tt;
  os_mkdir _ _ := Ok tt;
  os_chown _ _ _ := Ok tt;
  numify_size _ := Ok 10;
  vasprintf _ := Err "no argument" |}.
#[local] Instance env_laws : OSLaws.
Proof. by split. Defined.

Definition uri_of (v : string) : URI := mkURI v None None None None.

Definition session_info : FetcherInfo := {|
  sandbox_directory := "/sandbox";
  cache_directory := Some "/cache/";
  items :=
    [ mkItem (uri_of " data/a b.txt") BYPASS_CACHE None;
      mkItem (uri_of "http://host/dir/x.tar.gz") BYPASS_CACHE None;
      mkItem (mkURI "hdfs://nn/bin/run" (Some true) None None None)
        DOWNLOAD_AND_CACHE (Some "c1-run") ];
  user := Some "bob";
  frameworks_home := Some "/home" |}.

Definition parse_session (text : string) : option FetcherInfo := Some session_info.

(** The whole trace of the session. *)
Example session_trace :
  main parse_session =
  (Exited 0,
   [ System "cp '/home/data/a b.txt' '/sandbox/a b.txt'";
     Download "http://host/dir/x.tar.gz" "/sandbox/x.tar.gz";
     System "tar -C '/sandbox' -xf '/sandbox/x.tar.gz'";
     Mkdir "/cache/";
     Shell "hadoop version 2>&1";
     Shell "hadoop fs -copyToLocal 'hdfs://nn/bin/run' '/cache/c1-run'";
     System "cp '/cache/c1-run' '/sandbox/run'";
     Chmod "/sandbox/run" 493;
     Chown "bob" "/sandbox" ]).
Proof. reflexivity. Qed.

Lemma session_clean : info_clean session_info.
Proof.
  split; [done|]. split; [by intros ? [= <-]|]. split; [by intros ? [= <-]|].
  intros item f Hi. cbn in Hi.
  repeat (apply elem_of_cons in Hi as [->|Hi]; [by intros [= <-]|]).
  by apply not_elem_of_nil in Hi.
Qed.

(** A statement about every item of a short list. *)
Ltac each_item Hi := cbn in Hi;
  repeat (apply elem_of_cons in Hi as [->|Hi]; [|]); try (by apply not_elem_of_nil in Hi).

Lemma session_literal : info_literal session_info.
Proof.
  split_and!; [done|done|by intros ? [= <-]| |].
  - intros item f Hi. each_item Hi; cbn; intros E; simplify_eq; done.
  - intros item Hi _. each_item Hi; done.
Qed.

Lemma session_named : info_named session_info.
Proof.
  intros item name Hi. each_item Hi; intros E; vm_compute in E; injection E as <-;
    unfold proper; by apply (bool_decide_unpack _).
Qed.

Lemma fetcher_commands_quoted_witness :
  outside "tar -C '/sandbox' -xf '/sandbox/x.tar.gz'" ∈ fixed_texts new_HDFS.
Proof.
  apply (fetcher_commands_quoted session_info parse_session "{...}"
           "tar -C '/sandbox' -xf '/sandbox/x.tar.gz'");
    [reflexivity|reflexivity|exact session_clean|exact session_literal|reflexivity|].
  left. vm_compute. do 2 right. left.
Defined.


Lemma fetcher_writes_confined_witness :
  child_of "/sandbox" "/sandbox/run" ∧ 493 = 493.
Proof.
  apply (fetcher_writes_confined session_info parse_session "{...}"
           (Chmod "/sandbox/run" 493));
    [reflexivity|reflexivity|exact session_literal|exact session_named|].
  vm_compute. do 7 right. left.
Defined.

(** The table of basename(3), and URIs that have none. *)
Example basename_table :
  map path_basename ["/usr/lib"; "/usr/"; "usr"; "/"; "."; ".."; ""; "//"] =
    ["lib"; "usr"; "usr"; "/"; "."; ".."; "."; "/"] ∧
  basename "http://host/a/b.tgz" = Ok "b.tgz" ∧
  basename "http://host" = Err "Malformed URI (missing path): http://host" ∧
  basename "http://host/" = Err "Malformed URI (missing path): http://host/" ∧
  basename "http://host/dir/" = Ok "" ∧
  basename "a'b" = Err "Illegal characters in URI".
Proof. by repeat split. Qed.

(** A URI that ends in two dots has them as its basename: the file that was cached
    for it is copied to the parent of the sandbox. *)
Definition escaping_info : FetcherInfo := {|
  sandbox_directory := "/s/box";
  cache_directory := Some "/cache";
  items := [ mkItem (mkURI "http://host/dir/.." None (Some false) None None)
               RETRIEVE_FROM_CACHE (Some "c1") ];
  user := None;
  frameworks_home := None |}.

Example dotdot_escapes_sandbox :
  main (fun _ => Some escaping_info) = (Exited 0, [System "cp '/cache/c1' '/s/box/..'"]).
Proof. reflexivity. Qed.

(** A percent sign in a URI for the hadoop client is a conversion: escaped twice it
    is fetched as another URI, and otherwise it lacks its argument. *)
Definition percent_info (uri : string) : FetcherInfo := {|
  sandbox_directory := "/sandbox"; cache_directory := None;
  items := [ mkItem (uri_of uri) BYPASS_CACHE None ];
  user := None; frameworks_home := None |}.

Example percent_is_a_conversion :
  (main (fun _ => Some (percent_info "hdfs://nn/a%%b"))).2 =
    [Shell "hadoop version 2>&1"; Shell "hadoop fs -copyToLocal 'hdfs://nn/a%b' '/sandbox/a%b'"] ∧
  main (fun _ => Some (percent_info "hdfs://nn/a%20b")) =
    (Exited 1, [Shell "hadoop version 2>&1"]).
Proof. split; reflexivity. Qed.

(** The size of a URI of a distributed file system is asked for a local path: the
    client is given the URI with a slash in front. *)
Example hdfs_size_of_uri :
  (fetchSize "hdfs://nn/f" None []).2 =
  [Shell "hadoop version 2>&1"; Shell "hadoop fs -du -h '/hdfs://nn/f' 2>&1"].
Proof. reflexivity. Qed.
End FetcherSession.
