(* ===== verification/Logging.v ===== *)
(** * Logging: logging.cpp, flags.cpp

    [logging::initialize] sets the flags of glog from the flags of the program, once,
    and installs the handler of SIGTERM; [getLogFile] names the files.  The state of
    glog is a record of its flags; making the log directory, the environment and
    [sigaction] are the parameter [LogOs].

    The theorem reads the flags the way glog documents them ([to_stderr], [to_file])
    and shows that the options of the program mean what their help text says. *)

From stdpp Require Import pretty.
From S2P Require Import Prelude StoutStrings Values Fetcher.
#[local] Open Scope string_scope.
#[local] Open Scope Z_scope.

(** ** Flags *)

Record Flags := mkFlags {
  quiet : bool;
  logging_level : string;
  log_dir : option string;
  logbufsecs : Z;
  initialize_driver_logging : bool;
  external_log_file : option string }.

(** The constructor: the defaults. *)
Definition Flags_default : Flags := mkFlags false "INFO" None 0 true None.

(** The severities of glog. *)
Definition INFO : Z := 0.
Definition WARNING : Z := 1.
Definition ERROR : Z := 2.
Definition NUM_SEVERITIES : Z := 4.
Definition GetLogSeverityName (severity : Z) : string :=
  if severity =? 0 then "INFO" else if severity =? 1 then "WARNING"
  else if severity =? 2 then "ERROR" else "FATAL".

Definition getLogSeverity (level : string) : Z :=
  if String.eqb level "INFO" then INFO
  else if String.eqb level "WARNING" then WARNING
  else if String.eqb level "ERROR" then ERROR
  else INFO.

(** ** Initialisation *)

(** [os::mkdir] with its error, the variable [GLOG_drop_log_memory], and whether
    [sigaction] succeeds. *)
Class LogOs := {
  log_mkdir : string → option string;
  GLOG_drop_log_memory : option string;
  sigaction_ok : bool }.

(** The flags of glog, the name it was initialised with, the handlers, and the state
    of logging.cpp. *)
Record Glog := mkGlog {
  FLAGS_minloglevel : Z;
  FLAGS_log_dir : string;
  FLAGS_logtostderr : bool;
  FLAGS_stderrthreshold : Z;
  FLAGS_logbufsecs : Z;
  FLAGS_drop_log_memory : bool;
  handles_failures : bool;
  handles_SIGTERM : bool;
  argv0 : string;
  initialized : bool }.

Section logging.
Context `{LogOs}.

Definition valid_level (level : string) : bool :=
  String.eqb level "INFO" || String.eqb level "WARNING" || String.eqb level "ERROR".

(** The directory: [EXIT] when it cannot be made. *)
Definition set_log_dir (flags : Flags) (g : Glog) : outcome Glog :=
  match log_dir flags with
  | Some dir =>
      match log_mkdir dir with
      | Some error =>
          Err ("Could not initialize logging: Failed to create directory " ++ dir ++ ": " ++ error)
      | None =>
          Ok (mkGlog (FLAGS_minloglevel g) dir false (FLAGS_stderrthreshold g)
                (FLAGS_logbufsecs g) (FLAGS_drop_log_memory g) (handles_failures g)
                (handles_SIGTERM g) (argv0 g) (initialized g))
      end
  | None =>
      Ok (mkGlog (FLAGS_minloglevel g) (FLAGS_log_dir g) true (FLAGS_stderrthreshold g)
            (FLAGS_logbufsecs g) (FLAGS_drop_log_memory g) (handles_failures g)
            (handles_SIGTERM g) (argv0 g) (initialized g))
  end.

(** What goes to the standard error. *)
Definition set_thresholds (flags : Flags) (g : Glog) : Glog :=
  let '(minlevel, threshold) :=
    if quiet flags
    then (if FLAGS_logtostderr g then 3 else FLAGS_minloglevel g, 3)
    else (FLAGS_minloglevel g, FLAGS_minloglevel g) in
  mkGlog minlevel (FLAGS_log_dir g) (FLAGS_logtostderr g) threshold (logbufsecs flags)
    (match GLOG_drop_log_memory with None => false | Some _ => FLAGS_drop_log_memory g end)
    (handles_failures g) (handles_SIGTERM g) (argv0 g) (initialized g).

(** [EXIT(EXIT_FAILURE)] is [Err] with its message, [PLOG(FATAL)] is [Fatal].  The
    messages that [initialize] itself logs are left out. *)
Definition initialize (_argv0 : string) (flags : Flags) (installFailureSignalHandler : bool)
    (g : Glog) : outcome Glog :=
  if initialized g then Ok g
  else if negb (valid_level (logging_level flags)) then
    Err ("'" ++ logging_level flags ++ "' is not a valid logging level. Possible values for" ++
         " 'logging_level' flag are: 'INFO', 'WARNING', 'ERROR'.")
  else
    g ← set_log_dir flags
          (mkGlog (getLogSeverity (logging_level flags)) (FLAGS_log_dir g) (FLAGS_logtostderr g)
             (FLAGS_stderrthreshold g) (FLAGS_logbufsecs g) (FLAGS_drop_log_memory g)
             (handles_failures g) (handles_SIGTERM g) _argv0 (initialized g));
    let g := set_thresholds flags g in
    _ ← CHECK (negb installFailureSignalHandler || sigaction_ok);
    Ok (mkGlog (FLAGS_minloglevel g) (FLAGS_log_dir g) (FLAGS_logtostderr g)
          (FLAGS_stderrthreshold g) (FLAGS_logbufsecs g) (FLAGS_drop_log_memory g)
          (installFailureSignalHandler || handles_failures g)
          (installFailureSignalHandler || handles_SIGTERM g) (argv0 g) true).
End logging.

Definition getLogFile (severity : Z) (g : Glog) : outcome string :=
  if str_empty (FLAGS_log_dir g) then Err "The 'log_dir' option was not specified"
  else if (severity <? 0) || (NUM_SEVERITIES <=? severity) then
    Err ("Unknown log severity: " ++ pretty severity)
  else Ok (path_join (FLAGS_log_dir g) (path_basename (Path (argv0 g))) ++ "." ++
           GetLogSeverityName severity).

(** The handler of SIGTERM: the message, after which the default handler ends the
    process; any other signal is a fatal error. *)
Definition SIGTERM : Z := 15.
Definition SI_USER : Z := 0.
Definition SI_QUEUE : Z := -1.
Definition handler (signal si_code si_pid si_uid : Z) : outcome string :=
  if signal =? SIGTERM then
    Ok (if (si_code =? SI_USER) || (si_code =? SI_QUEUE) || (si_code <=? 0)
        then "Received signal SIGTERM from process " ++ pretty si_pid ++ " of user " ++
             pretty si_uid ++ "; exiting"
        else "Received signal SIGTERM; exiting")
  else Fatal.

(** ** What the flags mean *)

(** As glog documents them: messages below the minimum level are dropped; the others
    go to the standard error instead of files, or to files and, at or above the
    threshold, to the standard error too. *)
Definition to_stderr (g : Glog) (severity : Z) : bool :=
  (FLAGS_minloglevel g <=? severity) &&
  (FLAGS_logtostderr g || (FLAGS_stderrthreshold g <=? severity)).
Definition to_file (g : Glog) (severity : Z) : bool :=
  (FLAGS_minloglevel g <=? severity) && negb (FLAGS_logtostderr g).

Section facts.
Context `{LogOs}.

(** The options do what they say: with [quiet] nothing but a fatal message reaches
    the standard error, without it exactly the messages at or above the level do;
    files get exactly the messages at or above the level, if there is a directory,
    whether or not [quiet] is set; and a second initialisation changes nothing. *)
Theorem options_mean_what_they_say name flags install g g' severity :
  initialized g = false → initialize name flags install g = Ok g' → severity < 3 →
  to_stderr g' severity =
    (negb (quiet flags) && (getLogSeverity (logging_level flags) <=? severity)) ∧
  to_file g' severity =
    (has (log_dir flags) && (getLogSeverity (logging_level flags) <=? severity)) ∧
  FLAGS_logbufsecs g' = logbufsecs flags ∧
  ∀ name' flags' install', initialize name' flags' install' g' = Ok g'.
Proof.
  intros Hi He Hs. unfold initialize in He. rewrite Hi in He.
  destruct (valid_level (logging_level flags)); [|done]. cbn in He.
  unfold set_log_dir in He. cbn in He.
  assert (H3 : (3 <=? severity) = false) by lia.
  destruct (log_dir flags) as [dir|]; [destruct (log_mkdir dir); [done|]|]; cbn in He;
    (destruct (negb install || sigaction_ok); [|done]); cbn in He; simplify_eq;
    unfold to_stderr, to_file, set_thresholds; destruct (quiet flags); cbn;
    rewrite ?H3, ?andb_false_r, ?andb_true_r, ?orb_true_r, ?andb_diag; by split_and!.
Qed.

(** A file name exists exactly for the severities of glog, once a directory is set,
    and lies in that directory under the name of the program. *)
Lemma log_file_name severity g :
  FLAGS_log_dir g ≠ "" →
  (∃ file, getLogFile severity g = Ok file) ↔ 0 <= severity < NUM_SEVERITIES.
Proof.
  intros Hd. unfold getLogFile. destruct (FLAGS_log_dir g) as [|c d]; [done|]. cbn [str_empty].
  destruct ((severity <? 0) || (NUM_SEVERITIES <=? severity)) eqn:Hb; split.
  - by intros [? ?].
  - lia.
  - lia.
  - by eexists.
Qed.
End facts.

Module LoggingExample.
#[local] Instance os_ok : LogOs := {|
  log_mkdir := fun _ => None; GLOG_drop_log_memory := None; sigaction_ok := true |}.
Definition fresh : Glog := mkGlog 0 "" false 2 30 true false false "" false.
Definition flags : Flags := mkFlags true "WARNING" (Some "/var/log/urb") 0 true None.
Definition started : Glog :=
  mkGlog 1 "/var/log/urb" false 3 0 false true true "/usr/bin/fetcher" true.

Lemma options_mean_what_they_say_witness :
  to_stderr started WARNING = false ∧ to_file started WARNING = true ∧
  getLogFile ERROR started = Ok "/var/log/urb/fetcher.ERROR".
Proof.
  destruct (options_mean_what_they_say "/usr/bin/fetcher" flags true fresh started WARNING)
    as (Hs & Hf & _); [reflexivity|reflexivity|reflexivity|].
  split; [exact Hs|]. split; [exact Hf|]. vm_compute. reflexivity.
Defined.
End LoggingExample.
