(* ===== verification/Resource.v ===== *)
(** * Resource: the [Resource] message and its operators (resources.cpp)

    The protobuf messages as records whose optional fields are options, the
    equality operators, [internal::addable], [subtractable] and [contains], and
    the arithmetic on two resources.

    The equality operators are field-by-field tests, some of them only one way
    (labels, disk sources).  On well-formed messages they decide equality of a
    [key], and [addable] and [subtractable] are characterised by it. *)

From S2P Require Import Prelude Scalars Ranges IntervalSets StoutStrings Values.
#[local] Open Scope string_scope.
#[local] Open Scope Z_scope.

(** ** Messages *)

Record Label := mkLabel { label_key : string; label_value : option string }.
Abbreviation Labels := (list Label).

Inductive ReservationType := RESERVATION_UNKNOWN | STATIC | DYNAMIC.
#[export] Instance ReservationType_eq_dec : EqDecision ReservationType.
Proof. solve_decision. Defined.

(** [Resource::ReservationInfo] *)
Record ReservationInfo := mkReservation {
  rsv_type : option ReservationType;
  rsv_role : option string;
  rsv_principal : option string;
  rsv_labels : option Labels }.

(** [Resource::AllocationInfo] *)
Record AllocationInfo := mkAllocation { alloc_role : option string }.

Inductive SourceType := SOURCE_UNKNOWN | PATH | MOUNT.
#[export] Instance SourceType_eq_dec : EqDecision SourceType.
Proof. solve_decision. Defined.

(** [Resource::DiskInfo::Source]; [Path] and [Mount] hold an optional root. *)
Record Source := mkSource {
  src_type : SourceType;
  src_path : option (option string);
  src_mount : option (option string) }.

Record Persistence := mkPersistence {
  persistence_id : string;
  persistence_principal : option string }.

Inductive VolumeMode := RW | RO.

(** The fields of [Volume] that this library reads. *)
Record Volume := mkVolume {
  volume_mode : VolumeMode;
  container_path : string;
  host_path : option string }.

Record DiskInfo := mkDisk {
  disk_persistence : option Persistence;
  disk_volume : option Volume;
  disk_source : option Source }.

(** [Resource]; the empty messages [RevocableInfo] and [SharedInfo] are their
    presence. *)
Record Resource := mkResource {
  r_provider_id : option string;
  r_name : string;
  r_type : ValueType;
  r_scalar : option Scalar;
  r_ranges : option Ranges;
  r_set : option VSet;
  r_role : option string;
  r_allocation_info : option AllocationInfo;
  r_reservation : option ReservationInfo;
  r_reservations : list ReservationInfo;
  r_disk : option DiskInfo;
  r_revocable : bool;
  r_shared : bool }.

(** Accessors with the protobuf defaults. *)
Definition scalar_of (r : Resource) : Scalar := get_or scalar_default (r_scalar r).
Definition ranges_of (r : Resource) : Ranges := get_or [] (r_ranges r).
Definition set_of (r : Resource) : VSet := get_or [] (r_set r).
Definition role_of (r : Resource) : string := get_or "*" (r_role r).
Definition reservation_type (i : ReservationInfo) : ReservationType :=
  get_or RESERVATION_UNKNOWN (rsv_type i).
Definition reservation_role (i : ReservationInfo) : string := get_or "" (rsv_role i).
Definition disk_of (r : Resource) : DiskInfo := get_or (mkDisk None None None) (r_disk r).

(** Mutators. *)
Definition with_value (r : Resource) (s : option Scalar) (rs : option Ranges)
    (vs : option VSet) : Resource :=
  mkResource (r_provider_id r) (r_name r) (r_type r) s rs vs (r_role r)
    (r_allocation_info r) (r_reservation r) (r_reservations r) (r_disk r)
    (r_revocable r) (r_shared r).
Definition with_allocation (r : Resource) (a : option AllocationInfo) : Resource :=
  mkResource (r_provider_id r) (r_name r) (r_type r) (r_scalar r) (r_ranges r)
    (r_set r) (r_role r) a (r_reservation r) (r_reservations r) (r_disk r)
    (r_revocable r) (r_shared r).
(** [role], [reservation] and [reservations] at once. *)
Definition with_format (r : Resource) (role : option string)
    (reservation : option ReservationInfo) (rsvs : list ReservationInfo) : Resource :=
  mkResource (r_provider_id r) (r_name r) (r_type r) (r_scalar r) (r_ranges r)
    (r_set r) role (r_allocation_info r) reservation rsvs (r_disk r)
    (r_revocable r) (r_shared r).
Definition with_reservations (r : Resource) (rsvs : list ReservationInfo) : Resource :=
  with_format r (r_role r) (r_reservation r) rsvs.
Definition with_disk (r : Resource) (d : option DiskInfo) (shared : bool) : Resource :=
  mkResource (r_provider_id r) (r_name r) (r_type r) (r_scalar r) (r_ranges r)
    (r_set r) (r_role r) (r_allocation_info r) (r_reservation r)
    (r_reservations r) d (r_revocable r) shared.

(** ** Equality *)

(** [left.has_x() != right.has_x()] is false and the values, if any, agree. *)
Definition opt_eqb {A : Type} (eq : A → A → bool) (left right : option A) : bool :=
  if negb (Bool.eqb (has left) (has right)) then false
  else match left, right with
       | Some l, Some r => eq l r
       | _, _ => true
       end.

Definition label_eqb (left right : Label) : bool :=
  String.eqb (label_key left) (label_key right) &&
  String.eqb (get_or "" (label_value left)) (get_or "" (label_value right)).

Definition labels_eqb (left right : Labels) : bool :=
  if negb (length left =? length right)%nat then false
  else all (fun l => any (label_eqb l) right) left.

Definition allocation_eqb (left right : AllocationInfo) : bool :=
  opt_eqb String.eqb (alloc_role left) (alloc_role right).

Definition reservation_eqb (left right : ReservationInfo) : bool :=
  if negb (bool_decide (reservation_type left = reservation_type right)) then false
  else if negb (String.eqb (reservation_role left) (reservation_role right)) then false
  else if negb (opt_eqb String.eqb (rsv_principal left) (rsv_principal right)) then false
  else opt_eqb labels_eqb (rsv_labels left) (rsv_labels right).

(** [Path]: presence and value of [root]. *)
Definition path_eqb (left right : option string) : bool := opt_eqb String.eqb left right.
(** [Mount]: the same, then [left.root() == right.root()]. *)
Definition mount_eqb (left right : option string) : bool :=
  opt_eqb String.eqb left right && String.eqb (get_or "" left) (get_or "" right).

(** [Source]: tests the fields the left operand has. *)
Definition source_eqb (left right : Source) : bool :=
  if negb (bool_decide (src_type left = src_type right)) then false
  else if has (src_path left) &&
          negb (path_eqb (get_or None (src_path left)) (get_or None (src_path right)))
  then false
  else if has (src_mount left) &&
          negb (mount_eqb (get_or None (src_mount left)) (get_or None (src_mount right)))
  then false
  else true.

Definition disk_eqb (left right : DiskInfo) : bool :=
  if negb (opt_eqb source_eqb (disk_source left) (disk_source right)) then false
  else opt_eqb (fun l r => String.eqb (persistence_id l) (persistence_id r))
         (disk_persistence left) (disk_persistence right).

(** The loop over the two stacks of reservations. *)
Definition reservations_eqb (left right : list ReservationInfo) : bool :=
  (length left =? length right)%nat &&
  all (fun p => reservation_eqb p.1 p.2) (zip left right).

(** The value comparison at the end of [operator==]. *)
Definition value_eqb (left right : Resource) : bool :=
  match r_type left with
  | SCALAR => scalar_eq (scalar_of left) (scalar_of right)
  | RANGES => ranges_eq (ranges_of left) (ranges_of right)
  | SET => set_eq (set_of left) (set_of right)
  | TEXT => false
  end.

(** The metadata tests shared, in this order, by [operator==], [addable] and
    [subtractable]: name and type, allocation, reservations. *)
Definition same_header (left right : Resource) : bool :=
  String.eqb (r_name left) (r_name right) && type_eqb (r_type left) (r_type right) &&
  opt_eqb allocation_eqb (r_allocation_info left) (r_allocation_info right) &&
  reservations_eqb (r_reservations left) (r_reservations right).

Definition same_provider (left right : Resource) : bool :=
  opt_eqb String.eqb (r_provider_id left) (r_provider_id right).

(** [operator==] *)
Definition resource_eqb (left right : Resource) : bool :=
  if negb (same_header left right) then false
  else if negb (opt_eqb disk_eqb (r_disk left) (r_disk right)) then false
  else if negb (Bool.eqb (r_revocable left) (r_revocable right)) then false
  else if negb (same_provider left right) then false
  else if negb (Bool.eqb (r_shared left) (r_shared right)) then false
  else value_eqb left right.

(** ** [internal::addable], [subtractable], [contains] *)

Definition is_mount (d : DiskInfo) : bool :=
  match disk_source d with
  | Some s => bool_decide (src_type s = MOUNT)
  | None => false
  end.

Definition addable (left right : Resource) : bool :=
  if negb (Bool.eqb (r_shared left) (r_shared right)) then false
  else if r_shared left then resource_eqb left right
  else if negb (same_header left right) then false
  else if negb (Bool.eqb (has (r_disk left)) (has (r_disk right))) then false
  else if has (r_disk left) &&
          (negb (disk_eqb (disk_of left) (disk_of right)) ||
           is_mount (disk_of left) || has (disk_persistence (disk_of left)))
  then false
  else if negb (Bool.eqb (r_revocable left) (r_revocable right)) then false
  else same_provider left right.

Definition subtractable (left right : Resource) : bool :=
  if negb (Bool.eqb (r_shared left) (r_shared right)) then false
  else if r_shared left then resource_eqb left right
  else if negb (same_header left right) then false
  else if negb (Bool.eqb (has (r_disk left)) (has (r_disk right))) then false
  else if has (r_disk left) &&
          (negb (disk_eqb (disk_of left) (disk_of right)) ||
           (is_mount (disk_of left) && negb (resource_eqb left right)) ||
           (has (disk_persistence (disk_of left)) && negb (resource_eqb left right)))
  then false
  else if negb (Bool.eqb (r_revocable left) (r_revocable right)) then false
  else same_provider left right.

Definition value_contains (left right : Resource) : bool :=
  match r_type left with
  | SCALAR => scalar_le (scalar_of right) (scalar_of left)
  | RANGES => ranges_le (ranges_of right) (ranges_of left)
  | SET => set_le (set_of right) (set_of left)
  | TEXT => false
  end.

Definition resource_contains (left right : Resource) : bool :=
  if negb (subtractable left right) then false else value_contains left right.

(** ** Arithmetic *)

(** [operator+=], [operator+]: only the value of the left operand's type
    changes. *)
Definition resource_add (left right : Resource) : Resource :=
  match r_type left with
  | SCALAR => with_value left (Some (scalar_add (scalar_of left) (scalar_of right)))
                (r_ranges left) (r_set left)
  | RANGES => with_value left (r_scalar left)
                (Some (ranges_add_assign (ranges_of left) (ranges_of right))) (r_set left)
  | SET => with_value left (r_scalar left) (r_ranges left)
             (Some (set_add_assign (set_of left) (set_of right)))
  | TEXT => left
  end.

(** [operator-=], [operator-] *)
Definition resource_sub `{Icl} (left right : Resource) : Resource :=
  match r_type left with
  | SCALAR => with_value left (Some (scalar_sub (scalar_of left) (scalar_of right)))
                (r_ranges left) (r_set left)
  | RANGES => with_value left (r_scalar left)
                (Some (ranges_sub_assign (T:=icl_T) (ranges_of left) (ranges_of right)))
                (r_set left)
  | SET => with_value left (r_scalar left) (r_ranges left)
             (Some (set_sub_assign (set_of left) (set_of right)))
  | TEXT => left
  end.

(** ** Keys

    What the tests compare, as a value. *)

Definition label_pair (l : Label) : string * string :=
  (label_key l, get_or "" (label_value l)).
Definition labels_key (l : Labels) : gset (string * string) :=
  list_to_set (map label_pair l).

Definition reservation_key (i : ReservationInfo)
    : ReservationType * string * option string * option (gset (string * string)) :=
  (reservation_type i, reservation_role i, rsv_principal i, labels_key <$> rsv_labels i).

Definition disk_key (d : DiskInfo) : option Source * option string :=
  (disk_source d, persistence_id <$> disk_persistence d).

Record Key := mkKey {
  key_name : string;
  key_type : ValueType;
  key_allocation : option (option string);
  key_reservations : list (ReservationType * string * option string *
                           option (gset (string * string)));
  key_disk : option (option Source * option string);
  key_revocable : bool;
  key_provider : option string }.

Definition key (r : Resource) : Key :=
  mkKey (r_name r) (r_type r) (alloc_role <$> r_allocation_info r)
    (map reservation_key (r_reservations r)) (disk_key <$> r_disk r)
    (r_revocable r) (r_provider_id r).

(** Labels without duplicate pairs, as mesos.proto asks, and disk sources that
    carry the message of their type: where the tests are equivalences. *)
Definition labels_wf (l : Labels) : Prop := NoDup (map label_pair l).
Definition reservation_wf (i : ReservationInfo) : Prop :=
  ∀ l, rsv_labels i = Some l → labels_wf l.
Definition source_wf (s : Source) : Prop :=
  has (src_path s) = bool_decide (src_type s = PATH) ∧
  has (src_mount s) = bool_decide (src_type s = MOUNT).
Definition disk_wf (d : DiskInfo) : Prop := ∀ s, disk_source d = Some s → source_wf s.
Definition meta_wf (r : Resource) : Prop :=
  Forall reservation_wf (r_reservations r) ∧ ∀ d, r_disk r = Some d → disk_wf d.

(** Disks that cannot be cut up: mounts and persistent volumes. *)
Definition exclusive (r : Resource) : bool :=
  match r_disk r with
  | Some d => is_mount d || has (disk_persistence d)
  | None => false
  end.

(** ** The tests decide the keys *)

Lemma opt_eqb_iff {A B : Type} (eq : A → A → bool) (f : A → B) (P : A → Prop)
    (left right : option A) :
  (∀ l r, P l → P r → eq l r = true ↔ f l = f r) →
  (∀ l, left = Some l → P l) → (∀ r, right = Some r → P r) →
  opt_eqb eq left right = true ↔ f <$> left = f <$> right.
Proof.
  intros Heq Hl Hr. unfold opt_eqb.
  destruct left as [l|], right as [r|]; cbn; try done.
  rewrite Heq by auto. split; congruence.
Qed.

Lemma opt_string_iff (left right : option string) :
  opt_eqb String.eqb left right = true ↔ left = right.
Proof.
  rewrite (opt_eqb_iff _ id (fun _ => True)); [|intros; apply String.eqb_eq|done|done].
  by rewrite !option_fmap_id.
Qed.

Lemma label_eqb_iff (l r : Label) : label_eqb l r = true ↔ label_pair l = label_pair r.
Proof.
  unfold label_eqb, label_pair. rewrite andb_true_iff, !String.eqb_eq.
  split; [intros [-> ->]; done|by intros [= -> ->]].
Qed.

Lemma any_label (l : Label) (r : Labels) :
  any (label_eqb l) r = true ↔ label_pair l ∈ map label_pair r.
Proof.
  rewrite any_true. setoid_rewrite label_eqb_iff. rewrite list_elem_of_fmap.
  split; intros (x & ? & ?); eauto.
Qed.

Lemma labels_eqb_iff (left right : Labels) :
  labels_wf left → labels_wf right →
  labels_eqb left right = true ↔ labels_key left = labels_key right.
Proof.
  unfold labels_wf, labels_eqb, labels_key. intros Hl Hr. split.
  - destruct (Nat.eqb_spec (length left) (length right)) as [Hlen|]; [|done].
    cbn [negb]. rewrite all_true. intros Hall.
    apply list_to_set_perm_L, submseteq_length_Permutation; [|by rewrite !length_map, Hlen].
    apply NoDup_submseteq; [done|]. intros p (l & -> & Hin)%list_elem_of_fmap.
    by apply any_label, Hall.
  - intros Heq. assert (Hp : map label_pair left ≡ₚ map label_pair right).
    { apply NoDup_Permutation; [done|done|]. intros p.
      by rewrite <-!(elem_of_list_to_set (C:=gset (string * string))), Heq. }
    apply Permutation_length in Hp as Hlen. rewrite !length_map in Hlen.
    rewrite Hlen, Nat.eqb_refl. cbn [negb]. apply all_true. intros l Hin.
    apply any_label. rewrite <-Hp. apply list_elem_of_fmap. eauto.
Qed.

Lemma reservation_eqb_iff (left right : ReservationInfo) :
  reservation_wf left → reservation_wf right →
  reservation_eqb left right = true ↔ reservation_key left = reservation_key right.
Proof.
  intros Hl Hr. unfold reservation_eqb, reservation_key.
  pose proof (opt_string_iff (rsv_principal left) (rsv_principal right)) as Hp.
  pose proof (opt_eqb_iff labels_eqb labels_key labels_wf (rsv_labels left)
                (rsv_labels right) labels_eqb_iff Hl Hr) as Hlab.
  case_bool_decide as Ht; cbn [negb].
  2:{ split; [done|]. by intros [= ? _ _ _]. }
  destruct (String.eqb_spec (reservation_role left) (reservation_role right)) as [Hro|Hro];
    cbn [negb].
  2:{ split; [done|]. by intros [= _ ? _ _]. }
  destruct (opt_eqb String.eqb _ _); cbn [negb].
  - rewrite Hlab, Ht, Hro, (proj1 Hp eq_refl). split; [by intros ->|by intros [= ?]].
  - split; [done|]. intros [= _ _ Hpr _]. by apply Hp in Hpr.
Qed.

Lemma reservations_eqb_iff (left right : list ReservationInfo) :
  Forall reservation_wf left → Forall reservation_wf right →
  reservations_eqb left right = true ↔
  map reservation_key left = map reservation_key right.
Proof.
  intros Hl. revert right.
  induction Hl as [|l left Hl Hls IH]; intros [|r right] Hr; try done.
  inversion Hr as [|? ? Hr1 Hrs]; subst. specialize (IH right Hrs).
  pose proof (reservation_eqb_iff l r Hl Hr1) as Hlr. cbn [map].
  unfold reservations_eqb in *. cbn [length zip zip_with all forallb Nat.eqb fst snd].
  rewrite !andb_true_iff in *. fold (all (fun p => reservation_eqb p.1 p.2)) in *.
  rewrite Hlr, cons_eq_iff, <-IH. tauto.
Qed.

Lemma mount_eqb_iff (left right : option string) :
  mount_eqb left right = true ↔ left = right.
Proof.
  unfold mount_eqb. rewrite andb_true_iff, opt_string_iff, String.eqb_eq.
  split; [tauto|by intros ->].
Qed.

(** A one-way test of an optional field is an equality when both sides agree on
    its presence. *)
Lemma one_way_test (eq : option string → option string → bool)
    (left right : option (option string)) :
  (∀ l r, eq l r = true ↔ l = r) → has left = has right →
  has left && negb (eq (get_or None left) (get_or None right)) = false ↔ left = right.
Proof.
  intros Heq Hhas. destruct left as [l|], right as [r|]; try done. cbn.
  rewrite negb_false_iff, Heq. split; congruence.
Qed.

Lemma source_eqb_iff (left right : Source) :
  source_wf left → source_wf right → source_eqb left right = true ↔ left = right.
Proof.
  intros [Hlp Hlm] [Hrp Hrm]. unfold source_eqb.
  destruct (bool_decide (src_type left = src_type right)) eqn:Et; cbn [negb].
  2:{ apply bool_decide_eq_false in Et. split; [done|]. by intros ->. }
  apply bool_decide_eq_true in Et. rewrite <-Et in Hrp, Hrm.
  pose proof (one_way_test path_eqb (src_path left) (src_path right)
                opt_string_iff ltac:(congruence)) as Hp.
  pose proof (one_way_test mount_eqb (src_mount left) (src_mount right)
                mount_eqb_iff ltac:(congruence)) as Hm.
  destruct (has (src_path left) && _).
  { split; [done|]. intros ->. by destruct (proj2 Hp eq_refl). }
  destruct (has (src_mount left) && _).
  { split; [done|]. intros ->. by destruct (proj2 Hm eq_refl). }
  destruct left, right; cbn in *. split; [|done]. intros _. f_equal; tauto.
Qed.

Lemma disk_eqb_iff (left right : DiskInfo) :
  disk_wf left → disk_wf right →
  disk_eqb left right = true ↔ disk_key left = disk_key right.
Proof.
  intros Hl Hr. unfold disk_eqb, disk_key.
  pose proof (opt_eqb_iff source_eqb id source_wf (disk_source left)
                (disk_source right) source_eqb_iff Hl Hr) as Hs.
  pose proof (opt_eqb_iff (fun l r => String.eqb (persistence_id l) (persistence_id r))
                persistence_id (fun _ => True) (disk_persistence left)
                (disk_persistence right) ltac:(intros; apply String.eqb_eq)
                ltac:(done) ltac:(done)) as Hp.
  rewrite !option_fmap_id in Hs. destruct (opt_eqb source_eqb _ _); cbn [negb].
  - rewrite Hp, (proj1 Hs eq_refl). split; [by intros ->|by intros [= ?]].
  - split; [done|]. intros [= Hd _]. by apply Hs in Hd.
Qed.

(** Names, types, allocations, reservations, disks, revocability and provider
    together. *)
Lemma same_key_iff (left right : Resource) :
  meta_wf left → meta_wf right →
  same_header left right && opt_eqb disk_eqb (r_disk left) (r_disk right) &&
  Bool.eqb (r_revocable left) (r_revocable right) && same_provider left right = true
  ↔ key left = key right.
Proof.
  intros [Hl Hld] [Hr Hrd]. unfold same_header, same_provider, type_eqb.
  rewrite !andb_true_iff, String.eqb_eq, bool_decide_eq_true, opt_string_iff,
    reservations_eqb_iff, Bool.eqb_true_iff by done.
  rewrite (opt_eqb_iff allocation_eqb alloc_role (fun _ => True));
    [|intros; apply opt_string_iff|done|done].
  rewrite (opt_eqb_iff disk_eqb disk_key disk_wf) by auto using disk_eqb_iff.
  unfold key. split.
  - intros [[[[[[-> ->] ->] ->] ->] ->] ->]. done.
  - intros H. by injection H.
Qed.

Lemma resource_eqb_iff (left right : Resource) :
  meta_wf left → meta_wf right →
  resource_eqb left right = true ↔
  key left = key right ∧ r_shared left = r_shared right ∧ value_eqb left right = true.
Proof.
  intros Hl Hr. rewrite <-same_key_iff by done. unfold resource_eqb.
  destruct (same_header left right), (opt_eqb disk_eqb _ _),
    (Bool.eqb (r_revocable left) _), (same_provider left right); cbn [negb andb];
    try (split; [done|intros [? _]; done]).
  destruct (Bool.eqb_spec (r_shared left) (r_shared right)); cbn [negb]; intuition congruence.
Qed.

Lemma opt_disk_eqb (left right : Resource) :
  opt_eqb disk_eqb (r_disk left) (r_disk right) =
  Bool.eqb (has (r_disk left)) (has (r_disk right)) &&
  (negb (has (r_disk left)) || disk_eqb (disk_of left) (disk_of right)).
Proof.
  unfold opt_eqb, disk_of. destruct (r_disk left), (r_disk right); cbn; try done.
Qed.

Lemma addable_iff (left right : Resource) :
  meta_wf left → meta_wf right → r_shared left = false →
  addable left right = true ↔
  r_shared right = false ∧ key left = key right ∧ exclusive left = false.
Proof.
  intros Hl Hr Hs. rewrite <-same_key_iff, opt_disk_eqb by done.
  unfold addable, exclusive, disk_of. rewrite Hs.
  destruct (r_shared right); cbn [Bool.eqb negb]; [split; [done|by intros [? _]]|].
  destruct (same_header left right); cbn [negb andb]; [|split; [done|intuition congruence]].
  destruct (r_disk left) as [d|], (r_disk right) as [d'|]; cbn; try (split; [done|intuition congruence]).
  - destruct (disk_eqb d d'); cbn; [|split; [done|intros (_ & ? & _); done]].
    destruct (is_mount d || has (disk_persistence d)); cbn; [split; [done|intuition congruence]|].
    destruct (Bool.eqb _ _); cbn; [|split; [done|intuition congruence]]. intuition congruence.
  - destruct (Bool.eqb _ _); cbn; [|split; [done|intuition congruence]]. intuition congruence.
Qed.

Lemma subtractable_iff (left right : Resource) :
  meta_wf left → meta_wf right → r_shared left = false →
  subtractable left right = true ↔
  r_shared right = false ∧ key left = key right ∧
  (exclusive left = true → resource_eqb left right = true).
Proof.
  intros Hl Hr Hs. rewrite <-same_key_iff, opt_disk_eqb by done.
  unfold subtractable, exclusive, disk_of. rewrite Hs.
  destruct (r_shared right); cbn [Bool.eqb negb]; [split; [done|by intros [? _]]|].
  destruct (same_header left right); cbn [negb andb]; [|split; [done|intuition congruence]].
  destruct (r_disk left) as [d|], (r_disk right) as [d'|]; cbn; try (split; [done|intuition congruence]).
  - destruct (disk_eqb d d'); cbn; [|split; [done|intros (_ & ? & _); done]].
    destruct (is_mount d), (has (disk_persistence d)), (resource_eqb left right); cbn;
      (destruct (Bool.eqb _ _); cbn; [|split; [done|intuition congruence]]); intuition congruence.
  - destruct (Bool.eqb _ _); cbn; [|split; [done|intuition congruence]]. intuition congruence.
Qed.

(** ** Values *)

(** The value field of the resource's type is set, and holds a finite
    non-negative amount, ranges that are not inverted, or distinct items. *)
Definition value_wf (r : Resource) : Prop :=
  match r_type r with
  | SCALAR => r_ranges r = None ∧ r_set r = None ∧
              ∃ s, r_scalar r = Some s ∧ 0 ≤ fixed s ∧ in_range (fixed s)
  | RANGES => r_scalar r = None ∧ r_set r = None ∧
              ∃ rs, r_ranges r = Some rs ∧ Forall range_wf rs
  | SET => r_scalar r = None ∧ r_ranges r = None ∧
           ∃ items, r_set r = Some items ∧ NoDup items
  | TEXT => False
  end.

Lemma value_wf_scalar (r : Resource) :
  value_wf r → r_type r = SCALAR → 0 ≤ fixed (scalar_of r) ∧ in_range (fixed (scalar_of r)).
Proof.
  unfold value_wf, scalar_of. intros Hv Ht. rewrite Ht in Hv.
  destruct Hv as (_ & _ & s & -> & H). exact H.
Qed.

Lemma value_wf_ranges (r : Resource) :
  value_wf r → r_type r = RANGES → Forall range_wf (ranges_of r).
Proof.
  unfold value_wf, ranges_of. intros Hv Ht. rewrite Ht in Hv.
  destruct Hv as (_ & _ & rs & -> & H). exact H.
Qed.

Lemma value_wf_set (r : Resource) :
  value_wf r → r_type r = SET → NoDup (set_of r).
Proof.
  unfold value_wf, set_of. intros Hv Ht. rewrite Ht in Hv.
  destruct Hv as (_ & _ & rs & -> & H). exact H.
Qed.

#[export] Hint Resolve value_wf_ranges value_wf_set : urb.

(** What a resource holds, as a set of facts: its amount in thousandths, the
    numbers of its ranges, its items. *)
Definition value_le (left right : Resource) : Prop :=
  match r_type left with
  | SCALAR => fixed (scalar_of left) ≤ fixed (scalar_of right)
  | RANGES => ∀ x, rmem x (ranges_of left) → rmem x (ranges_of right)
  | SET => set_of left ⊆ set_of right
  | TEXT => False
  end.

Lemma value_contains_iff (left right : Resource) :
  value_wf left → value_wf right → r_type left = r_type right →
  value_contains left right = true ↔ value_le right left.
Proof.
  intros Hl Hr Ht. unfold value_contains, value_le. rewrite <-Ht.
  destruct (r_type left) eqn:E; symmetry in Ht.
  - apply scalar_le_fixed.
  - apply ranges_le_iff; auto with urb.
  - apply set_le_subset. auto with urb.
  - done.
Qed.

Lemma value_eqb_le (left right : Resource) :
  value_wf left → value_wf right → r_type left = r_type right →
  value_eqb left right = true → value_le left right ∧ value_le right left.
Proof.
  intros Hl Hr Ht. unfold value_eqb, value_le. rewrite <-Ht.
  destruct (r_type left) eqn:E; symmetry in Ht.
  - rewrite scalar_eq_fixed. lia.
  - rewrite ranges_eq_iff by auto with urb. intros H. split; intros x; apply H.
  - by intros ->%set_eq_iff.
  - done.
Qed.

Lemma value_le_eqb (left right : Resource) :
  value_wf left → value_wf right → r_type left = r_type right → r_type left ≠ SET →
  value_le left right → value_le right left → value_eqb left right = true.
Proof.
  intros Hl Hr Ht Hns. unfold value_eqb, value_le. rewrite <-Ht.
  destruct (r_type left) eqn:E; symmetry in Ht; [| |done|done].
  - rewrite scalar_eq_fixed. lia.
  - rewrite ranges_eq_iff by auto with urb. intros H1 H2 x. split; auto.
Qed.

Lemma value_eqb_refl (r : Resource) : value_wf r → value_eqb r r = true.
Proof.
  intros Hv. unfold value_eqb. destruct (r_type r) eqn:E.
  - by apply scalar_eq_fixed.
  - apply ranges_eq_iff; auto with urb.
  - by apply set_eq_iff.
  - unfold value_wf in Hv. by rewrite E in Hv.
Qed.

(** The parts an operator does not touch. *)
Lemma resource_add_meta (left right : Resource) :
  key (resource_add left right) = key left ∧
  r_shared (resource_add left right) = r_shared left ∧
  (meta_wf left → meta_wf (resource_add left right)) ∧
  r_role (resource_add left right) = r_role left ∧
  r_reservation (resource_add left right) = r_reservation left ∧
  r_reservations (resource_add left right) = r_reservations left ∧
  r_disk (resource_add left right) = r_disk left ∧
  r_type (resource_add left right) = r_type left ∧
  r_name (resource_add left right) = r_name left.
Proof. unfold resource_add. destruct (r_type left) eqn:E; done. Qed.

Lemma resource_sub_meta `{Icl} (left right : Resource) :
  key (resource_sub left right) = key left ∧
  r_shared (resource_sub left right) = r_shared left ∧
  (meta_wf left → meta_wf (resource_sub left right)) ∧
  r_role (resource_sub left right) = r_role left ∧
  r_reservation (resource_sub left right) = r_reservation left ∧
  r_reservations (resource_sub left right) = r_reservations left ∧
  r_disk (resource_sub left right) = r_disk left ∧
  r_type (resource_sub left right) = r_type left ∧
  r_name (resource_sub left right) = r_name left.
Proof. unfold resource_sub. destruct (r_type left) eqn:E; done. Qed.

Lemma resource_add_scalar (left right : Resource) :
  r_type left = SCALAR →
  scalar_of (resource_add left right) = scalar_add (scalar_of left) (scalar_of right).
Proof. intros Ht. unfold resource_add. by rewrite Ht. Qed.

Lemma resource_sub_scalar `{Icl} (left right : Resource) :
  r_type left = SCALAR →
  scalar_of (resource_sub left right) = scalar_sub (scalar_of left) (scalar_of right).
Proof. intros Ht. unfold resource_sub. by rewrite Ht. Qed.

Lemma resource_add_ranges (left right : Resource) :
  r_type left = RANGES →
  ranges_of (resource_add left right) = ranges_add_assign (ranges_of left) (ranges_of right).
Proof. intros Ht. unfold resource_add. by rewrite Ht. Qed.

Lemma resource_sub_ranges `{Icl} (left right : Resource) :
  r_type left = RANGES →
  ranges_of (resource_sub left right)
  = ranges_sub_assign (T:=icl_T) (ranges_of left) (ranges_of right).
Proof. intros Ht. unfold resource_sub. by rewrite Ht. Qed.

Lemma resource_add_set (left right : Resource) :
  r_type left = SET →
  set_of (resource_add left right) = set_add_assign (set_of left) (set_of right).
Proof. intros Ht. unfold resource_add. by rewrite Ht. Qed.

Lemma resource_sub_set `{Icl} (left right : Resource) :
  r_type left = SET →
  set_of (resource_sub left right) = set_sub_assign (set_of left) (set_of right).
Proof. intros Ht. unfold resource_sub. by rewrite Ht. Qed.

(** The scalar sum stays in range. *)
Definition sum_in_range (left right : Resource) : Prop :=
  r_type left = SCALAR → in_range (fixed (scalar_of left) + fixed (scalar_of right)).

Lemma resource_add_value_wf (left right : Resource) :
  value_wf left → value_wf right → r_type left = r_type right →
  sum_in_range left right → value_wf (resource_add left right).
Proof.
  intros Hl Hr Ht Hsum. unfold sum_in_range in Hsum.
  assert (Hty : r_type (resource_add left right) = r_type left) by apply resource_add_meta.
  pose proof (value_wf_scalar _ Hl) as Hsl. pose proof (value_wf_scalar _ Hr) as Hsr.
  pose proof (value_wf_ranges _ Hl) as Hrl. pose proof (value_wf_ranges _ Hr) as Hrr.
  pose proof (value_wf_set _ Hl) as Hvl.
  unfold value_wf in *. rewrite Hty. unfold resource_add.
  rewrite <-Ht in *. destruct (r_type left); cbn.
  - destruct Hl as (-> & -> & _). repeat split. eexists. split; [done|].
    rewrite fixed_add by auto. destruct (Hsl eq_refl), (Hsr eq_refl).
    split; [lia|auto].
  - destruct Hl as (-> & -> & _). repeat split. eexists. split; [done|].
    apply canonical_wf, ranges_add_assign_spec; auto.
  - destruct Hl as (-> & -> & _). repeat split. eexists. split; [done|].
    apply set_add_assign_spec. auto.
  - done.
Qed.

Lemma resource_sub_value_wf `{IclLaws} (left right : Resource) :
  value_wf left → value_wf right → r_type left = r_type right →
  value_le right left → value_wf (resource_sub left right).
Proof.
  intros Hl Hr Ht Hle.
  assert (Hty : r_type (resource_sub left right) = r_type left) by apply resource_sub_meta.
  pose proof (value_wf_scalar _ Hl) as Hsl. pose proof (value_wf_scalar _ Hr) as Hsr.
  pose proof (value_wf_ranges _ Hl) as Hrl. pose proof (value_wf_ranges _ Hr) as Hrr.
  pose proof (value_wf_set _ Hl) as Hvl.
  unfold value_wf, value_le in *. rewrite Hty. unfold resource_sub.
  rewrite <-Ht in *. destruct (r_type left); cbn.
  - destruct Hl as (-> & -> & _). repeat split. eexists. split; [done|].
    destruct (Hsl eq_refl), (Hsr eq_refl). rewrite fixed_sub; unfold in_range in *; lia.
  - destruct Hl as (-> & -> & _). repeat split. eexists. split; [done|].
    apply canonical_wf, ranges_sub_assign_spec; auto.
  - destruct Hl as (-> & -> & _). repeat split. eexists. split; [done|].
    rewrite set_sub_assign_filter by auto. apply NoDup_filter. auto.
  - done.
Qed.

(** ** Order and cancellation *)

Lemma key_type_eq (left right : Resource) : key left = key right → r_type left = r_type right.
Proof. intros Hk. exact (f_equal key_type Hk). Qed.
Lemma key_name_eq (left right : Resource) : key left = key right → r_name left = r_name right.
Proof. intros Hk. exact (f_equal key_name Hk). Qed.

Lemma key_exclusive (left right : Resource) :
  key left = key right → exclusive left = exclusive right.
Proof.
  intros Hk. apply (f_equal key_disk) in Hk. cbn in Hk. unfold exclusive, is_mount.
  destruct (r_disk left) as [d|], (r_disk right) as [d'|]; cbn in Hk; try done.
  injection Hk as Hsrc Hper. rewrite Hsrc. f_equal.
  by destruct (disk_persistence d), (disk_persistence d').
Qed.

Lemma resource_contains_iff (left right : Resource) :
  meta_wf left → meta_wf right → value_wf left → value_wf right → r_shared left = false →
  resource_contains left right = true ↔
  r_shared right = false ∧ key left = key right ∧
  (exclusive left = true → value_eqb left right = true) ∧ value_le right left.
Proof.
  intros Hml Hmr Hvl Hvr Hs. unfold resource_contains.
  pose proof (subtractable_iff left right Hml Hmr Hs) as Hsub.
  pose proof (resource_eqb_iff left right Hml Hmr) as Heq.
  destruct (subtractable left right); cbn [negb].
  - destruct (proj1 Hsub eq_refl) as (Hsr & Hk & Hex).
    rewrite value_contains_iff by auto using key_type_eq. rewrite Heq in Hex. tauto.
  - split; [done|]. intros (Hsr & Hk & Hex & _). apply Hsub.
    rewrite Heq, Hs, Hsr. repeat split; auto.
Qed.

(** A well-formed resource that is not shared. *)
Definition plain_wf (r : Resource) : Prop :=
  meta_wf r ∧ value_wf r ∧ r_shared r = false.

Lemma value_le_refl (r : Resource) : value_wf r → value_le r r.
Proof. unfold value_wf, value_le. destruct (r_type r); [lia|auto|done|done]. Qed.

Lemma value_le_trans (a b c : Resource) :
  r_type a = r_type b → value_le a b → value_le b c → value_le a c.
Proof.
  unfold value_le. intros <-. destruct (r_type a); [lia|auto|set_solver|done].
Qed.

Lemma value_eqb_equiv (a b c : Resource) :
  value_wf a → value_wf b → value_wf c → r_type a = r_type b → r_type b = r_type c →
  (value_eqb a b = true → value_eqb b a = true) ∧
  (value_eqb a b = true → value_eqb b c = true → value_eqb a c = true).
Proof.
  intros Ha Hb Hc Hab Hbc. unfold value_eqb. rewrite <-Hab in *.
  destruct (r_type a) eqn:E; [| | |done]; symmetry in Hab, Hbc.
  - rewrite !scalar_eq_fixed. split; congruence.
  - rewrite !ranges_eq_iff by auto with urb. split; [by intros H x|].
    intros H1 H2 x. by rewrite H1.
  - rewrite !set_eq_iff. split; congruence.
Qed.

(** ** Properties *)

(** On well-formed resources [operator==] is an equivalence: it holds
    exactly when the metadata keys, the sharedness and the values agree, and
    is reflexive, symmetric and transitive. *)
Theorem resource_eq_equivalence (a b c : Resource) :
  meta_wf a → meta_wf b → meta_wf c → value_wf a → value_wf b → value_wf c →
  (resource_eqb a b = true ↔
     key a = key b ∧ r_shared a = r_shared b ∧ value_eqb a b = true) ∧
  resource_eqb a a = true ∧
  (resource_eqb a b = true → resource_eqb b a = true) ∧
  (resource_eqb a b = true → resource_eqb b c = true → resource_eqb a c = true).
Proof.
  intros Ma Mb Mc Va Vb Vc. rewrite !resource_eqb_iff by done.
  split; [done|]. split; [auto using value_eqb_refl|]. split.
  - intros (Hk & Hs & Hv). do 2 (split; [done|]).
    apply (value_eqb_equiv a b b); auto using key_type_eq.
  - intros (Hk & Hs & Hv) (Hk' & Hs' & Hv'). do 2 (split; [congruence|]).
    apply (value_eqb_equiv a b c); auto using key_type_eq.
Qed.

(** [contains] is a partial order on well-formed non-shared resources:
    reflexive, transitive, and antisymmetric with respect to [operator==]
    for scalars and ranges. *)
Theorem contains_partial_order (a b c : Resource) :
  plain_wf a → plain_wf b → plain_wf c →
  resource_contains a a = true ∧
  (resource_contains a b = true → resource_contains b c = true →
   resource_contains a c = true) ∧
  (r_type a ≠ SET → resource_contains a b = true → resource_contains b a = true →
   resource_eqb a b = true).
Proof.
  intros (Ma & Va & Sa) (Mb & Vb & Sb) (Mc & Vc & Sc).
  rewrite !resource_contains_iff, resource_eqb_iff by done. split; [|split].
  - auto using value_eqb_refl, value_le_refl.
  - intros (_ & Hk & Hex & Hle) (_ & Hk' & Hex' & Hle').
    split; [done|]. split; [congruence|]. split.
    + rewrite (key_exclusive _ _ Hk) in *. intros He.
      apply (value_eqb_equiv a b c); auto using key_type_eq.
    + eapply value_le_trans; [|done|done]. symmetry. by apply key_type_eq.
  - intros Hns (_ & Hk & _ & Hle) (_ & _ & _ & Hle'). split; [done|].
    split; [congruence|]. apply value_le_eqb; auto using key_type_eq.
Qed.

(** Values without common parts; scalars always are. *)
Definition value_disjoint (left right : Resource) : Prop :=
  match r_type left with
  | RANGES => ∀ x, rmem x (ranges_of left) → ¬ rmem x (ranges_of right)
  | SET => ∀ x, x ∈ set_of left → x ∉ set_of right
  | _ => True
  end.

Lemma set_add_sub (left right : VSet) :
  NoDup left → (∀ x, x ∈ left → x ∉ right) →
  set_sub_assign (set_add_assign left right) right = left.
Proof.
  intros Hnd Hdis. rewrite set_sub_assign_filter by by apply set_add_assign_spec.
  rewrite <-(list_filter_all (fun l => l ∉ right) left) at 2 by by apply Forall_forall.
  unfold set_add_assign. clear Hnd Hdis.
  enough (Hgen : ∀ rs, rs ⊆ right →
    filter (fun l => l ∉ right) (foldl add_item left rs) = filter (fun l => l ∉ right) left)
    by by apply Hgen.
  intros rs. revert left. induction rs as [|r rs IH]; intros left Hsub; [done|].
  cbn [foldl]. rewrite IH by (intros x Hx; apply Hsub; by right).
  unfold add_item. destruct (has_item r left); [done|].
  rewrite filter_app, filter_cons_False, filter_nil, app_nil_r; [done|].
  intros Hr. apply Hr, Hsub. by left.
Qed.

(** The value of a sum: above each summand, and cancelling. *)
Lemma add_value_le (left right : Resource) :
  value_wf left → value_wf right → r_type left = r_type right →
  sum_in_range left right →
  value_le right (resource_add left right) ∧ value_le left (resource_add left right).
Proof.
  intros Hl Hr Ht Hsum. unfold value_le, sum_in_range in *. rewrite <-Ht.
  pose proof (value_wf_scalar _ Hl) as Hsl. pose proof (value_wf_scalar _ Hr) as Hsr.
  destruct (r_type left) eqn:E; symmetry in Ht.
  - rewrite resource_add_scalar, fixed_add by auto.
    destruct (Hsl eq_refl), (Hsr Ht). lia.
  - rewrite resource_add_ranges by done.
    destruct (ranges_add_assign_spec (ranges_of left) (ranges_of right)) as [_ Hm];
      [auto with urb..|]. split; intros x; rewrite Hm; auto.
  - rewrite resource_add_set by done.
    destruct (set_add_assign_spec (set_of left) (set_of right)) as [Hm _].
    split; intros x; rewrite Hm; auto.
  - unfold value_wf in Hl. by rewrite E in Hl.
Qed.

Lemma add_sub_value `{IclLaws} (left right : Resource) :
  value_wf left → value_wf right → r_type left = r_type right →
  sum_in_range left right → value_disjoint left right →
  value_eqb (resource_sub (resource_add left right) right) left = true.
Proof.
  intros Hl Hr Ht Hsum Hdis.
  pose proof (resource_add_value_wf left right Hl Hr Ht Hsum) as Hadd.
  destruct (resource_add_meta left right) as (_ & _ & _ & _ & _ & _ & _ & Hty & _).
  destruct (resource_sub_meta (resource_add left right) right)
    as (_ & _ & _ & _ & _ & _ & _ & Hty' & _).
  unfold value_eqb, value_disjoint, sum_in_range in *. rewrite Hty', Hty.
  pose proof (value_wf_scalar _ Hl) as Hsl.
  destruct (r_type left) eqn:E; symmetry in Ht.
  - rewrite resource_sub_scalar, resource_add_scalar, scalar_eq_fixed by done.
    rewrite fixed_sub; rewrite fixed_add by auto; rewrite Z.add_simpl_r; [done|].
    by apply Hsl.
  - rewrite resource_sub_ranges by done.
    pose proof (value_wf_ranges _ Hadd Hty) as Hwf.
    destruct (ranges_sub_assign_spec (T:=icl_T) (ranges_of (resource_add left right))
                (ranges_of right)) as [Hc Hm]; [done|auto with urb|].
    apply ranges_eq_iff; [by apply canonical_wf|auto with urb|]. intros x. rewrite Hm.
    rewrite resource_add_ranges by done.
    destruct (ranges_add_assign_spec (ranges_of left) (ranges_of right)) as [_ Hm'];
      [auto with urb..|]. rewrite Hm'. specialize (Hdis x). tauto.
  - rewrite resource_sub_set, resource_add_set by done.
    apply set_eq_iff, set_add_sub; auto with urb.
  - unfold value_wf in Hl. by rewrite E in Hl.
Qed.

(** Adding two addable resources and subtracting one of them gives a
    resource equal to the other, and the sum contains both: nothing is lost
    or invented by [operator+] and [operator-]. *)
Theorem resource_add_sub_cancel `{IclLaws} (left right : Resource) :
  plain_wf left → plain_wf right → addable left right = true →
  sum_in_range left right → value_disjoint left right →
  resource_eqb (resource_sub (resource_add left right) right) left = true ∧
  resource_contains (resource_add left right) right = true ∧
  resource_contains (resource_add left right) left = true.
Proof.
  intros (Ml & Vl & Sl) (Mr & Vr & Sr) Hadd Hsum Hdis.
  apply addable_iff in Hadd as (_ & Hk & Hex); [|done..].
  pose proof (key_type_eq _ _ Hk) as Ht.
  destruct (resource_add_meta left right) as (Hka & Hsa & Hma & _).
  destruct (resource_sub_meta (resource_add left right) right) as (Hks & Hss & Hms & _).
  pose proof (resource_add_value_wf left right Vl Vr Ht Hsum) as Va.
  destruct (add_value_le left right Vl Vr Ht Hsum) as [Hle1 Hle2].
  rewrite (key_exclusive _ _ (eq_sym Hka)) in Hex.
  rewrite resource_eqb_iff, !resource_contains_iff by (auto || congruence).
  split; [split; [congruence|split; [congruence|by apply add_sub_value]]|].
  split; (split; [congruence|split; [congruence|split; [congruence|done]]]).
Qed.

(** The equality tests of labels with duplicate pairs and of disk sources
    are not symmetric: the left operand's labels and messages are looked up in
    the right one, but not the other way round. *)
Theorem equality_not_symmetric :
  (let a := mkLabel "k" (Some "a") in let b := mkLabel "k" (Some "b") in
   labels_eqb [a; a] [a; b] = true ∧ labels_eqb [a; b] [a; a] = false) ∧
  (let s := mkSource PATH None None in let t := mkSource PATH (Some (Some "/mnt")) None in
   source_eqb s t = true ∧ source_eqb t s = false).
Proof. repeat split; reflexivity. Qed.

(** ** Witnesses *)

Definition scalar_resource (name : string) (thousandths : Z) : Resource :=
  mkResource None name SCALAR (Some (mkScalar (convertToFloating thousandths))) None None
    None None None [] None false false.
Definition ranges_resource (name : string) (rs : Ranges) : Resource :=
  mkResource None name RANGES None (Some rs) None None None None [] None false false.

Lemma scalar_resource_wf (name : string) (n : Z) :
  0 ≤ n → in_range n → plain_wf (scalar_resource name n).
Proof.
  intros Hn Hr. split; [split; [constructor|done]|]. split; [|done].
  repeat split. eexists. split; [done|]. unfold fixed. cbn [scalar_value].
  by rewrite fixed_floating.
Qed.

Lemma ranges_resource_wf (name : string) (rs : Ranges) :
  Forall range_wf rs → plain_wf (ranges_resource name rs).
Proof.
  intros Hrs. split; [split; [constructor|done]|]. split; [|done].
  repeat split. eauto.
Qed.

Lemma resource_eq_equivalence_witness :
  let a := ranges_resource "ports" [mkRange 1 3; mkRange 4 6] in
  let b := ranges_resource "ports" [mkRange 1 6] in
  resource_eqb a b = true ∧ resource_eqb b a = true.
Proof.
  intros a b.
  assert (Ha : plain_wf a) by
    (apply ranges_resource_wf; repeat constructor; unfold range_wf, u64_max; cbn; lia).
  assert (Hb : plain_wf b) by
    (apply ranges_resource_wf; repeat constructor; unfold range_wf, u64_max; cbn; lia).
  destruct Ha as (Ma & Va & _), Hb as (Mb & Vb & _).
  destruct (resource_eq_equivalence a b a Ma Mb Ma Va Vb Va) as (_ & _ & Hsym & _).
  assert (Hab : resource_eqb a b = true) by (vm_compute; reflexivity).
  split; [exact Hab|]. exact (Hsym Hab).
Defined.

Lemma contains_partial_order_witness :
  let a := scalar_resource "cpus" 4000 in
  let b := scalar_resource "cpus" 2500 in
  let c := scalar_resource "cpus" 100 in
  resource_contains a b = true ∧ resource_contains a c = true.
Proof.
  intros a b c.
  assert (Hwf : plain_wf a ∧ plain_wf b ∧ plain_wf c).
  { split; [|split]; apply scalar_resource_wf; unfold in_range, fixed_bound; lia. }
  destruct Hwf as (Ha & Hb & Hc).
  destruct (contains_partial_order a b c Ha Hb Hc) as (_ & Htrans & _).
  assert (Hab : resource_contains a b = true) by (vm_compute; reflexivity).
  split; [exact Hab|]. apply Htrans; [exact Hab|]. vm_compute. reflexivity.
Defined.

Lemma resource_add_sub_cancel_witness :
  let left := ranges_resource "ports" [mkRange 1000 2000] in
  let right := ranges_resource "ports" [mkRange 2001 2005] in
  resource_eqb (resource_sub (H:=gset_icl) (resource_add left right) right) left = true ∧
  resource_contains (resource_add left right) right = true ∧
  resource_contains (resource_add left right) left = true.
Proof.
  intros left right. apply (@resource_add_sub_cancel gset_icl gset_icl_laws left right).
  - apply ranges_resource_wf. repeat constructor; unfold range_wf, u64_max; cbn; lia.
  - apply ranges_resource_wf. repeat constructor; unfold range_wf, u64_max; cbn; lia.
  - vm_compute. reflexivity.
  - intros Ht. discriminate Ht.
  - unfold value_disjoint, left, right. cbn. intros x. rewrite !rmem_cons. cbn.
    pose proof (rmem_nil x). intuition lia.
Defined.
