(* ===== verification/ResourceValidate.v ===== *)
(** * ResourceValidate: [Resources::validate] and the static predicates

    [validate] returns the first error of a resource; the predicates
    ([isReserved] and the like) [CHECK] that the resource is in the
    post-reservation-refinement format and are therefore outcomes. *)

From S2P Require Import Prelude Binary64 Scalars Ranges IntervalSets StoutStrings Values Roles Resource.
#[local] Open Scope string_scope.
#[local] Open Scope Z_scope.

(** ** Printing of the parts that messages quote *)

(** [operator<<(DiskInfo::Source)] *)
Definition print_source (s : Source) : string :=
  match src_type s with
  | MOUNT => "MOUNT" ++ match get_or None (src_mount s) with
                        | Some root => ":" ++ root | None => "" end
  | PATH => "PATH" ++ match get_or None (src_path s) with
                      | Some root => ":" ++ root | None => "" end
  | SOURCE_UNKNOWN => "UNKNOWN"
  end.

Definition print_label (l : Label) : string :=
  label_key l ++ match label_value l with Some v => ": " ++ v | None => "" end.

(** [operator<<(Labels)] *)
Definition print_labels (l : Labels) : string :=
  "{" ++ str_join ", " (map print_label l) ++ "}".

(** ** [Resources::validate] *)

(** A text between double quotes. *)
Definition quoted (s : string) : string := String "034" (s ++ String "034" "").

Fixpoint validate_ranges (rs : Ranges) : option string :=
  match rs with
  | [] => None
  | range :: rest =>
      if range_end range <? range_begin range
      then Some "Invalid ranges resource: begin > end"
      else if any (fun q => (range_begin range <=? range_begin q) &&
                            (range_begin q <=? range_end range)) rest
      then Some "Invalid ranges resource: overlapping ranges"
      else validate_ranges rest
  end.

Fixpoint validate_set (items : VSet) : option string :=
  match items with
  | [] => None
  | item :: rest =>
      if has_item item rest
      then Some "Invalid set resource: duplicated elements"
      else validate_set rest
  end.

(** The value must be the one of the declared type. *)
Definition validate_value (r : Resource) : option string :=
  match r_type r with
  | SCALAR =>
      if negb (has (r_scalar r)) || has (r_ranges r) || has (r_set r)
      then Some "Invalid scalar resource"
      else if dltb (scalar_value (scalar_of r)) dzero
      then Some "Invalid scalar resource: value < 0"
      else None
  | RANGES =>
      if has (r_scalar r) || negb (has (r_ranges r)) || has (r_set r)
      then Some "Invalid ranges resource"
      else validate_ranges (ranges_of r)
  | SET =>
      if has (r_scalar r) || has (r_ranges r) || negb (has (r_set r))
      then Some "Invalid set resource"
      else validate_set (set_of r)
  | TEXT => Some "Unsupported resource type"
  end.

Definition validate_disk (r : Resource) : option string :=
  match r_disk r with
  | None => None
  | Some disk =>
      if negb (String.eqb (r_name r) "disk")
      then Some ("DiskInfo should not be set for " ++ r_name r ++ " resource")
      else match disk_source disk with
           | None => None
           | Some source =>
               match src_type source with
               | PATH | MOUNT => None
               | SOURCE_UNKNOWN =>
                   Some ("Unsupported 'DiskInfo.Source.Type' in '"
                         ++ print_source source ++ "'")
               end
           end
  end.

(** No [reservations]: the pre-reservation-refinement format. *)
Definition validate_pre (r : Resource) : outcome (option string) :=
  error ← Roles.validate (role_of r);
  match error with
  | Some e => Ok (Some e)
  | None =>
      Ok (match r_reservation r with
          | None => None
          | Some reservation =>
              if has (rsv_type reservation)
              then Some ("'Resource.ReservationInfo.type' must not be set for"
                         ++ " the 'Resource.reservation' field")
              else if has (rsv_role reservation)
              then Some ("'Resource.ReservationInfo.role' must not be set for"
                         ++ " the 'Resource.reservation' field")
              else if String.eqb (role_of r) "*"
              then Some ("Invalid reservation: role " ++ quoted "*" ++ " cannot be dynamically reserved")
              else None
          end)
  end.

(** One entry of the stack. *)
Definition validate_reservation (i : ReservationInfo) : outcome (option string) :=
  if negb (has (rsv_type i))
  then Ok (Some ("Invalid reservation: 'Resource.ReservationInfo.type'"
                 ++ " field must be set."))
  else if negb (has (rsv_role i))
  then Ok (Some ("Invalid reservation: 'Resource.ReservationInfo.role'"
                 ++ " field must be set."))
  else error ← Roles.validate (reservation_role i);
       match error with
       | Some e => Ok (Some e)
       | None =>
           Ok (if String.eqb (reservation_role i) "*"
               then Some ("Invalid reservation: role " ++ quoted "*" ++ " cannot be reserved")
               else None)
       end.

(** Each reservation must refine the one below it. *)
Fixpoint validate_refinement (ancestor : string) (l : list ReservationInfo)
    : option string :=
  match l with
  | [] => None
  | reservation :: l' =>
      let descendant := reservation_role reservation in
      if bool_decide (reservation_type reservation = STATIC)
      then Some ("Invalid refined reservation: A refined reservation"
                 ++ " cannot be STATIC")
      else if negb (isStrictSubroleOf descendant ancestor)
      then Some ("Invalid refined reservation: role '" ++ descendant ++ "'"
                 ++ " is not a refinement of '" ++ ancestor ++ "'")
      else validate_refinement descendant l'
  end.

(** A single reservation may repeat itself in the old fields. *)
Definition validate_single (r : Resource) (i : ReservationInfo) : option string :=
  if has (r_role r) && negb (String.eqb (role_of r) (reservation_role i))
  then Some ("Invalid resource format: 'Resource.role' field with '" ++ role_of r
             ++ "' does not match the role '" ++ reservation_role i
             ++ "' in 'Resource.reservations'")
  else match reservation_type i with
       | STATIC =>
           if has (r_reservation r)
           then Some ("Invalid resource format: 'Resource.reservation' must not be"
                      ++ " set if the single reservation in 'Resource.reservations' is"
                      ++ " STATIC")
           else None
       | DYNAMIC =>
           if negb (Bool.eqb (has (r_role r)) (has (r_reservation r)))
           then Some ("Invalid resource format: 'Resource.role' and"
                      ++ " 'Resource.reservation' must either be both set or both not"
                      ++ " set if the single reservation in 'Resource.reservations' is"
                      ++ " DYNAMIC")
           else match r_reservation r with
                | None => None
                | Some old =>
                    let p := get_or "" (rsv_principal old) in
                    let q := get_or "" (rsv_principal i) in
                    let l := get_or [] (rsv_labels old) in
                    let k := get_or [] (rsv_labels i) in
                    if negb (String.eqb p q)
                    then Some ("Invalid resource format: 'Resource.reservation.principal'"
                               ++ " field with '" ++ p ++ "' does not match the principal '"
                               ++ q ++ "' in 'Resource.reservations'")
                    else if negb (labels_eqb l k)
                    then Some ("Invalid resource format: 'Resource.reservation.labels' field"
                               ++ " with '" ++ print_labels l ++ "' does not match the labels '"
                               ++ print_labels k ++ "' in 'Resource.reservations'")
                    else None
                end
       | RESERVATION_UNKNOWN => Some "Unsupported 'Resource.ReservationInfo.Type'"
       end.

(** Some [reservations]: the post-reservation-refinement format. *)
Definition validate_post (r : Resource) : outcome (option string) :=
  let stack := r_reservations r in
  _ ← CHECK (0 <? length stack)%nat;
  error ← first_error validate_reservation stack;
  match error with
  | Some e => Ok (Some e)
  | None =>
      match stack with
      | [] => Fatal
      | first :: rest =>
          match validate_refinement (reservation_role first) rest with
          | Some e => Ok (Some e)
          | None =>
              match rest with
              | [] => Ok (validate_single r first)
              | _ =>
                  _ ← CHECK (1 <? length stack)%nat;
                  Ok (if has (r_role r)
                      then Some ("Invalid resource format: 'Resource.role' must not be set if"
                        ++ " there is more than one reservation in 'Resource.reservations'")
                      else if has (r_reservation r)
                      then Some ("Invalid resource format: 'Resource.reservation' must not be set if"
                        ++ " there is more than one reservation in 'Resource.reservations'")
                      else None)
              end
          end
      end
  end.

Definition validate_shared (r : Resource) : option string :=
  if r_shared r
  then if negb (String.eqb (r_name r) "disk")
       then Some ("Resource " ++ r_name r ++ " cannot be shared")
       else if negb (has (r_disk r)) || negb (has (disk_persistence (disk_of r)))
       then Some "Only persistent volumes can be shared"
       else None
  else None.

Definition validate (r : Resource) : outcome (option string) :=
  if str_empty (r_name r) then Ok (Some "Empty resource name")
  else first_error id
    [ Ok (validate_value r);
      Ok (validate_disk r);
      (if (length (r_reservations r) =? 0)%nat then validate_pre r else validate_post r);
      Ok (validate_shared r) ].

(** ** Static predicates *)

(** The two [CHECK]s every predicate starts with. *)
Definition check_format (r : Resource) : outcome unit :=
  _ ← CHECK (negb (has (r_role r))); CHECK (negb (has (r_reservation r))).

Definition isEmpty (r : Resource) : outcome bool :=
  _ ← check_format r;
  Ok (match r_type r with
      | SCALAR => scalar_eq (scalar_of r) (mkScalar dzero)
      | RANGES => (length (ranges_of r) =? 0)%nat
      | SET => (length (set_of r) =? 0)%nat
      | TEXT => false
      end).

Definition isPersistentVolume (r : Resource) : outcome bool :=
  _ ← check_format r; Ok (has (r_disk r) && has (disk_persistence (disk_of r))).

Definition isUnreserved (r : Resource) : outcome bool :=
  _ ← check_format r; Ok (length (r_reservations r) =? 0)%nat.

Definition reservationRole (r : Resource) : outcome string :=
  _ ← CHECK (0 <? length (r_reservations r))%nat;
  match last (r_reservations r) with
  | Some i => Ok (reservation_role i)
  | None => Fatal
  end.

Definition isReserved (r : Resource) (role : option string) : outcome bool :=
  _ ← check_format r;
  unreserved ← isUnreserved r;
  if (unreserved : bool) then Ok false
  else match role with
       | None => Ok true
       | Some role => own ← reservationRole r; Ok (String.eqb role own)
       end.

Definition isAllocatableTo (r : Resource) (role : string) : outcome bool :=
  _ ← check_format r;
  unreserved ← isUnreserved r;
  if (unreserved : bool) then Ok true
  else own ← reservationRole r;
       Ok (String.eqb role own || isStrictSubroleOf role own).

Definition isDynamicallyReserved (r : Resource) : outcome bool :=
  _ ← check_format r;
  reserved ← isReserved r None;
  if negb reserved then Ok false
  else match last (r_reservations r) with
       | Some i => Ok (bool_decide (reservation_type i = DYNAMIC))
       | None => Fatal
       end.

Definition isRevocable (r : Resource) : outcome bool :=
  _ ← check_format r; Ok (r_revocable r).
Definition isShared (r : Resource) : outcome bool :=
  _ ← check_format r; Ok (r_shared r).
Definition hasRefinedReservations (r : Resource) : outcome bool :=
  _ ← check_format r; Ok (1 <? length (r_reservations r))%nat.

(** ** Resources in the post-reservation-refinement format *)

Definition post_format (r : Resource) : Prop := r_role r = None ∧ r_reservation r = None.

Definition empty_value (r : Resource) : bool :=
  match r_type r with
  | SCALAR => scalar_eq (scalar_of r) (mkScalar dzero)
  | RANGES => (length (ranges_of r) =? 0)%nat
  | SET => (length (set_of r) =? 0)%nat
  | TEXT => false
  end.

Lemma check_format_post (r : Resource) : post_format r → check_format r = Ok tt.
Proof. unfold check_format. by intros [-> ->]. Qed.

Lemma isEmpty_post (r : Resource) : post_format r → isEmpty r = Ok (empty_value r).
Proof. intros Hr. unfold isEmpty. by rewrite check_format_post. Qed.

Lemma isUnreserved_post (r : Resource) :
  post_format r → isUnreserved r = Ok (length (r_reservations r) =? 0)%nat.
Proof. intros Hr. unfold isUnreserved. by rewrite check_format_post. Qed.

Lemma isPersistentVolume_post (r : Resource) :
  post_format r →
  isPersistentVolume r = Ok (has (r_disk r) && has (disk_persistence (disk_of r))).
Proof. intros Hr. unfold isPersistentVolume. by rewrite check_format_post. Qed.

Lemma reservationRole_ok (r : Resource) (i : ReservationInfo) :
  last (r_reservations r) = Some i → reservationRole r = Ok (reservation_role i).
Proof.
  unfold reservationRole. intros Hl. rewrite Hl.
  destruct (r_reservations r); [done|]. done.
Qed.

Lemma isReserved_post (r : Resource) (role : option string) :
  post_format r →
  isReserved r role =
  Ok (match last (r_reservations r), role with
      | None, _ => false
      | Some _, None => true
      | Some i, Some role => String.eqb role (reservation_role i)
      end).
Proof.
  intros Hr. unfold isReserved. rewrite check_format_post, isUnreserved_post by done.
  cbn. destruct (last (r_reservations r)) as [i|] eqn:El.
  - destruct (r_reservations r) eqn:E; [done|]. cbn. destruct role; [|done].
    by rewrite (reservationRole_ok r i) by congruence.
  - apply last_None in El. by rewrite El.
Qed.

Lemma isDynamicallyReserved_post (r : Resource) :
  post_format r →
  isDynamicallyReserved r =
  Ok (match last (r_reservations r) with
      | Some i => bool_decide (reservation_type i = DYNAMIC)
      | None => false
      end).
Proof.
  intros Hr. unfold isDynamicallyReserved.
  rewrite check_format_post, isReserved_post by done. cbn.
  by destruct (last (r_reservations r)).
Qed.

#[export] Hint Rewrite isEmpty_post isUnreserved_post isPersistentVolume_post
  isReserved_post isDynamicallyReserved_post using done : urb_simpl.

(** ** Validation is total *)

Lemma validate_reservation_total (i : ReservationInfo) :
  ∃ e, validate_reservation i = Ok e.
Proof.
  unfold validate_reservation. do 2 (case_if; [eauto|]).
  destruct (validate_total (reservation_role i)) as [[e|] ->]; cbn; eauto.
Qed.

Lemma validate_pre_total (r : Resource) : ∃ e, validate_pre r = Ok e.
Proof.
  unfold validate_pre. destruct (validate_total (role_of r)) as [[e|] ->]; cbn; eauto.
Qed.

Lemma validate_post_total (r : Resource) :
  r_reservations r ≠ [] → ∃ e, validate_post r = Ok e.
Proof.
  intros Hne. unfold validate_post.
  destruct (first_error_total validate_reservation (r_reservations r)) as [e ->].
  { apply Forall_forall. intros i _. apply validate_reservation_total. }
  destruct (r_reservations r) as [|first rest]; [done|]. cbn.
  destruct e; [eauto|]. destruct (validate_refinement _ rest); [eauto|].
  destruct rest; cbn; eauto.
Qed.

Lemma resource_validate_total (r : Resource) : ∃ e, validate r = Ok e.
Proof.
  unfold validate. case_if; [eauto|]. apply first_error_total.
  repeat constructor; try (cbn; eauto).
  destruct (r_reservations r) eqn:E; cbn; [apply validate_pre_total|].
  apply validate_post_total. by rewrite E.
Qed.

(** Everything of a valid resource but its value. *)
Definition meta_valid (r : Resource) : Prop :=
  r_name r ≠ "" ∧ validate_disk r = None ∧
  (if (length (r_reservations r) =? 0)%nat then validate_pre r else validate_post r) = Ok None ∧
  validate_shared r = None.

Lemma validate_iff (r : Resource) :
  validate r = Ok None ↔ meta_valid r ∧ validate_value r = None.
Proof.
  unfold validate, meta_valid. destruct (r_name r) as [|c s] eqn:E; cbn [str_empty].
  { split; [done|tauto]. }
  rewrite first_error_none, !Forall_cons, Forall_nil. unfold id. split.
  - intros ([= ->] & [= ->] & ? & [= ->] & _). done.
  - intros ((_ & -> & ? & ->) & ->). done.
Qed.

(** ** Validity is kept by arithmetic *)

Lemma canonical_validate (rs : Ranges) : canonical rs → validate_ranges rs = None.
Proof.
  induction rs as [|r rs IH]; [done|]. intros (Hc & [Hr _] & Hl)%canonical_cons. cbn.
  rewrite (proj2 (Z.ltb_ge _ _)) by lia.
  replace (any _ rs) with false; [by apply IH|]. symmetry. apply any_false.
  intros q Hq. specialize (Hl q Hq). breflect. lia.
Qed.

Lemma validate_set_NoDup (items : VSet) : validate_set items = None ↔ NoDup items.
Proof.
  induction items as [|i items IH]; cbn; [split; [constructor|done]|].
  rewrite NoDup_cons, <-IH. destruct (has_item i items) eqn:E; breflect.
  - split; [done|]. by intros [? _].
  - tauto.
Qed.

Lemma add_validate_value (left right : Resource) :
  value_wf left → value_wf right → r_type left = r_type right →
  sum_in_range left right → validate_value (resource_add left right) = None.
Proof.
  intros Hl Hr Ht Hsum.
  pose proof (value_wf_scalar _ Hl) as Hsl. pose proof (value_wf_scalar _ Hr) as Hsr.
  pose proof (value_wf_ranges _ Hl) as Hrl. pose proof (value_wf_ranges _ Hr) as Hrr.
  pose proof (value_wf_set _ Hl) as Hvl. unfold value_wf in Hl. unfold sum_in_range in Hsum.
  unfold validate_value, resource_add. destruct (r_type left) eqn:E; [| | |done];
    symmetry in Ht; destruct Hl as (Hn1 & Hn2 & _);
    cbn -[scalar_add scalar_sub]; rewrite E, Hn1, Hn2; cbn -[scalar_add scalar_sub].
  - rewrite scalar_add_value, convertToFloating_neg by auto.
    destruct (Hsl eq_refl), (Hsr Ht). by rewrite (proj2 (Z.ltb_ge _ _)) by lia.
  - apply canonical_validate, ranges_add_assign_spec; auto.
  - apply validate_set_NoDup, set_add_assign_spec; auto.
Qed.

Lemma sub_validate_value `{IclLaws} (left right : Resource) :
  value_wf left → value_wf right → r_type left = r_type right →
  value_le right left → validate_value (resource_sub left right) = None.
Proof.
  intros Hl Hr Ht Hle.
  pose proof (value_wf_scalar _ Hl) as Hsl. pose proof (value_wf_scalar _ Hr) as Hsr.
  pose proof (value_wf_ranges _ Hl) as Hrl. pose proof (value_wf_ranges _ Hr) as Hrr.
  pose proof (value_wf_set _ Hl) as Hvl. unfold value_wf in Hl. unfold value_le in Hle.
  rewrite <-Ht in Hle.
  unfold validate_value, resource_sub. destruct (r_type left) eqn:E; [| | |done];
    symmetry in Ht; destruct Hl as (Hn1 & Hn2 & _);
    cbn -[scalar_add scalar_sub]; rewrite E, Hn1, Hn2; cbn -[scalar_add scalar_sub].
  - destruct (Hsl eq_refl), (Hsr Ht). unfold in_range in *.
    rewrite scalar_sub_value, convertToFloating_neg by (unfold in_range; lia).
    by rewrite (proj2 (Z.ltb_ge _ _)) by lia.
  - apply canonical_validate, ranges_sub_assign_spec; auto.
  - apply validate_set_NoDup. rewrite set_sub_assign_filter by auto.
    apply NoDup_filter. auto.
Qed.

(** [meta_valid] reads only fields that arithmetic keeps. *)
Lemma meta_valid_ext (r r' : Resource) :
  r_name r = r_name r' → r_disk r = r_disk r' → r_role r = r_role r' →
  r_reservation r = r_reservation r' → r_reservations r = r_reservations r' →
  r_shared r = r_shared r' → meta_valid r → meta_valid r'.
Proof.
  unfold meta_valid, validate_disk, validate_pre, validate_post, validate_single,
    validate_shared, role_of, disk_of.
  by intros -> -> -> -> -> ->.
Qed.

Lemma validate_add (left right : Resource) :
  validate left = Ok None → value_wf left → value_wf right →
  r_type left = r_type right → sum_in_range left right →
  validate (resource_add left right) = Ok None.
Proof.
  rewrite !validate_iff. intros [Hm _] Vl Vr Ht Hsum.
  split; [|by apply add_validate_value].
  destruct (resource_add_meta left right) as (_ & ? & _ & ? & ? & ? & ? & _ & ?).
  by apply (meta_valid_ext left).
Qed.

Lemma validate_sub `{IclLaws} (left right : Resource) :
  validate left = Ok None → value_wf left → value_wf right →
  r_type left = r_type right → value_le right left →
  validate (resource_sub left right) = Ok None.
Proof.
  rewrite !validate_iff. intros [Hm _] Vl Vr Ht Hle.
  split; [|by apply sub_validate_value].
  destruct (resource_sub_meta left right) as (_ & ? & _ & ? & ? & ? & ? & _ & ?).
  by apply (meta_valid_ext left).
Qed.

(** ** The stack of reservations *)

Definition refines (lower upper : ReservationInfo) : Prop :=
  isStrictSubroleOf (reservation_role upper) (reservation_role lower) = true ∧
  reservation_type upper ≠ STATIC.

Lemma subrole_trans (a b c : string) :
  isStrictSubroleOf a b = true → isStrictSubroleOf b c = true →
  isStrictSubroleOf a c = true.
Proof.
  rewrite !isStrictSubroleOf_iff. intros (r & ->) (r' & ->).
  exists (r' ++ "/" ++ r). by rewrite !str_app_assoc.
Qed.

Lemma validate_refinement_sorted (i : ReservationInfo) (l : list ReservationInfo) :
  validate_refinement (reservation_role i) l = None → StronglySorted refines (i :: l).
Proof.
  revert i. induction l as [|j l IH]; intros i; cbn; [by repeat constructor|].
  case_bool_decide as Hst; [done|].
  destruct (isStrictSubroleOf _ _) eqn:Hsub; cbn; [|done]. intros H.
  specialize (IH j H). constructor; [done|]. constructor; [done|].
  inversion IH as [|? ? _ Hall]; subst. eapply Forall_impl; [exact Hall|].
  intros k [Hk Hkt]. split; [|done]. by eapply subrole_trans.
Qed.

Lemma validate_reservation_none (i : ReservationInfo) :
  validate_reservation i = Ok None →
  has (rsv_type i) = true ∧ reservation_role i ≠ "*" ∧ role_path (reservation_role i).
Proof.
  unfold validate_reservation. destruct (has (rsv_type i)); [|done].
  destruct (has (rsv_role i)); [|done]. cbn [negb].
  destruct (Roles.validate (reservation_role i)) as [[e|]| |] eqn:E; cbn; try done.
  destruct (String.eqb_spec (reservation_role i) "*") as [|Hne]; [done|]. intros _.
  apply validate_none in E as [?|?]; done.
Qed.

(** ** Properties *)

(** [Resources::validate] returns for every resource (no [CHECK] fires),
    and a resource it accepts has a proper stack of reservations: each has a
    type and a well-formed role other than "*", and each role is a strict
    subrole of every role below it, none but the first being static. *)
Theorem validate_reservation_stack (r : Resource) :
  (∃ e, validate r = Ok e) ∧
  (validate r = Ok None → r_reservations r ≠ [] →
   Forall (fun i => has (rsv_type i) = true ∧ reservation_role i ≠ "*" ∧
                    role_path (reservation_role i)) (r_reservations r) ∧
   StronglySorted refines (r_reservations r)).
Proof.
  split; [apply resource_validate_total|].
  intros [(_ & _ & Hpost & _) _]%validate_iff Hne.
  destruct (r_reservations r) as [|i l] eqn:E; [done|]. cbn in Hpost.
  unfold validate_post in Hpost. rewrite E in Hpost. cbn [length Nat.ltb Nat.leb CHECK] in Hpost.
  apply bind_Ok in Hpost as (_ & _ & Hpost). apply bind_Ok in Hpost as ([e|] & Hfirst & Hpost);
    [done|].
  apply first_error_none in Hfirst. split.
  - eapply Forall_impl; [exact Hfirst|]. apply validate_reservation_none.
  - destruct (validate_refinement (reservation_role i) l) eqn:Href; [done|].
    by apply validate_refinement_sorted.
Qed.

Definition example_refined : Resource :=
  with_reservations (scalar_resource "cpus" 2000)
    [mkReservation (Some STATIC) (Some "eng") None None;
     mkReservation (Some DYNAMIC) (Some "eng/ci") (Some "alice") None].

Lemma validate_reservation_stack_witness :
  validate example_refined = Ok None ∧
  StronglySorted refines (r_reservations example_refined).
Proof.
  assert (Hv : validate example_refined = Ok None) by (vm_compute; reflexivity).
  split; [exact Hv|].
  apply (validate_reservation_stack example_refined); [exact Hv|discriminate].
Defined.

(** C31: A valid resource stays valid under arithmetic with another one, both of them
    well-formed and not shared: when the two are addable and the sum of the scalars is
    in range, [validate] accepts their sum, and when the first contains the second, it
    accepts the difference. *)
Theorem arithmetic_preserves_validity `{IclLaws} (left right : Resource) :
  plain_wf left → plain_wf right → validate left = Ok None →
  (addable left right = true → sum_in_range left right →
   validate (resource_add left right) = Ok None) ∧
  (resource_contains left right = true → validate (resource_sub left right) = Ok None).
Proof.
  intros (Ml & Vl & Sl) (Mr & Vr & Sr) Hval. split.
  - intros (_ & Hk & _)%addable_iff Hsum; [|done..].
    apply validate_add; auto using key_type_eq.
  - intros (_ & Hk & _ & Hle)%resource_contains_iff; [|done..].
    apply validate_sub; auto using key_type_eq.
Qed.

Lemma arithmetic_preserves_validity_witness :
  let left := scalar_resource "mem" 1024000 in
  let right := scalar_resource "mem" 500 in
  validate (resource_add left right) = Ok None ∧
  validate (resource_sub (H:=gset_icl) left right) = Ok None.
Proof.
  intros left right.
  destruct (@arithmetic_preserves_validity gset_icl gset_icl_laws left right)
    as [Hadd Hsub].
  - apply scalar_resource_wf; unfold in_range, fixed_bound; lia.
  - apply scalar_resource_wf; unfold in_range, fixed_bound; lia.
  - vm_compute. reflexivity.
  - split.
    + apply Hadd; [vm_compute; reflexivity|]. intros _.
      unfold in_range, fixed_bound. vm_compute. discriminate.
    + apply Hsub. vm_compute. reflexivity.
Defined.

(** The overlap test of [validate] only looks for a later range that
    begins inside an earlier one: the overlapping ranges [5-10, 1-7] are
    accepted, the same ranges in order are not. *)
Theorem validate_misses_overlap :
  validate (ranges_resource "ports" [mkRange 5 10; mkRange 1 7]) = Ok None ∧
  rmem 6 [mkRange 5 10] ∧ rmem 6 [mkRange 1 7] ∧
  validate (ranges_resource "ports" [mkRange 1 7; mkRange 5 10])
  = Ok (Some "Invalid ranges resource: overlapping ranges").
Proof.
  split; [vm_compute; reflexivity|]. rewrite !rmem_cons. cbn.
  split; [left; lia|]. split; [left; lia|]. vm_compute. reflexivity.
Qed.
