(* ===== verification/Resources.v ===== *)
(** * Resources: the [Resources] class of resources.cpp

    A [Resources] object is a vector of [Resource_]: a resource and, when it is
    shared, the number of copies.  Resources that are addable are merged on
    insertion; removal swaps with the last entry.  The operations that reach a
    [CHECK] are outcomes. *)

From S2P Require Import Prelude Binary64 Scalars Ranges IntervalSets StoutStrings Values.
From S2P Require Import Roles Resource ResourceValidate.
#[local] Open Scope string_scope.
#[local] Open Scope Z_scope.

(** ** [Resource_] *)

Record Resource_ := mkR {
  resource : Resource;
  sharedCount : option Z }.

(** The converting constructor. *)
Definition Resource__of (r : Resource) : Resource_ :=
  mkR r (if r_shared r then Some 1 else None).

Definition isShared_ (e : Resource_) : bool := has (sharedCount e).
Definition count_of (e : Resource_) : Z := get_or 0 (sharedCount e).

Definition validate_ (e : Resource_) : outcome (option string) :=
  if isShared_ e && (count_of e <? 0)
  then Ok (Some "Invalid shared resource: count < 0")
  else ResourceValidate.validate (resource e).

Definition isEmpty_ (e : Resource_) : outcome bool :=
  if isShared_ e && (count_of e =? 0) then Ok true
  else isEmpty (resource e).

Definition contains_ (e that : Resource_) : bool :=
  if negb (Bool.eqb (isShared_ e) (isShared_ that)) then false
  else if isShared_ e
  then (count_of that <=? count_of e) && resource_eqb (resource e) (resource that)
  else resource_contains (resource e) (resource that).

Definition add_ (e that : Resource_) : outcome Resource_ :=
  if negb (isShared_ e)
  then Ok (mkR (resource_add (resource e) (resource that)) (sharedCount e))
  else _ ← CHECK (has (sharedCount e));
       _ ← CHECK (has (sharedCount that));
       Ok (mkR (resource e) (Some (count_of e + count_of that))).

Definition sub_ `{Icl} (e that : Resource_) : outcome Resource_ :=
  if negb (isShared_ e)
  then Ok (mkR (resource_sub (resource e) (resource that)) (sharedCount e))
  else _ ← CHECK (has (sharedCount e));
       _ ← CHECK (has (sharedCount that));
       Ok (mkR (resource e) (Some (count_of e - count_of that))).

Definition eq_ (e that : Resource_) : bool :=
  if negb (Bool.eqb (isShared_ e) (isShared_ that)) then false
  else if isShared_ e && negb (count_of e =? count_of that) then false
  else resource_eqb (resource e) (resource that).

(** ** The vector *)

Abbreviation Resources := (list Resource_).

(** The search loop of [add]. *)
Fixpoint add_loop (rs : Resources) (that : Resource_) : outcome Resources :=
  match rs with
  | [] => Ok [that]
  | e :: rs' =>
      if addable (resource e) (resource that)
      then e' ← add_ e that; Ok (e' :: rs')
      else rest ← add_loop rs' that; Ok (e :: rest)
  end.

Definition add (rs : Resources) (that : Resource_) : outcome Resources :=
  empty ← isEmpty_ that;
  if (empty : bool) then Ok rs else add_loop rs that.

(** [resources[i] = resources.back(); resources.pop_back();] *)
Definition remove_swap (rs : Resources) (i : nat) : Resources :=
  match last rs with
  | Some back => take (length rs - 1) (<[i := back]> rs)
  | None => rs
  end.

Fixpoint find_index {A : Type} (p : A → bool) (l : list A) : option nat :=
  match l with
  | [] => None
  | x :: l' => if p x then Some O else S <$> find_index p l'
  end.

(** A negative count or a negative scalar. *)
Definition negative (e : Resource_) : bool :=
  (isShared_ e && (count_of e <? 0)) ||
  (type_eqb (r_type (resource e)) SCALAR &&
   dltb (scalar_value (scalar_of (resource e))) dzero).

Definition subtract `{Icl} (rs : Resources) (that : Resource_) : outcome Resources :=
  empty ← isEmpty_ that;
  if (empty : bool) then Ok rs
  else match find_index (fun e => subtractable (resource e) (resource that)) rs with
       | None => Ok rs
       | Some i =>
           match rs !! i with
           | None => Fatal
           | Some e =>
               e' ← sub_ e that;
               if negative e' then Ok (remove_swap rs i)
               else gone ← isEmpty_ e';
                    if (gone : bool) then Ok (remove_swap rs i)
                    else Ok (<[i := e']> rs)
           end
       end.

(** [operator+=], [operator-=]; an invalid operand is ignored. *)
Definition plus_ (rs : Resources) (that : Resource_) : outcome Resources :=
  error ← validate_ that;
  match error with None => add rs that | Some _ => Ok rs end.
Definition plus_Resource (rs : Resources) (that : Resource) : outcome Resources :=
  plus_ rs (Resource__of that).
Definition plus (rs that : Resources) : outcome Resources := mfold add rs that.

Definition minus_ `{Icl} (rs : Resources) (that : Resource_) : outcome Resources :=
  error ← validate_ that;
  match error with None => subtract rs that | Some _ => Ok rs end.
Definition minus_Resource `{Icl} (rs : Resources) (that : Resource) : outcome Resources :=
  minus_ rs (Resource__of that).
Definition minus `{Icl} (rs that : Resources) : outcome Resources := mfold subtract rs that.

(** The constructors. *)
Definition Resources_of (r : Resource) : outcome Resources := plus_Resource [] r.
Definition Resources_of_list (l : list Resource) : outcome Resources :=
  mfold plus_Resource [] l.

(** ** Queries *)

Definition _contains (rs : Resources) (that : Resource_) : bool :=
  any (fun e => contains_ e that) rs.

Fixpoint contains_loop `{Icl} (remaining that : Resources) : outcome bool :=
  match that with
  | [] => Ok true
  | e :: that' =>
      if negb (_contains remaining e) then Ok false
      else persistent ← isPersistentVolume (resource e);
           if (persistent : bool)
           then remaining' ← subtract remaining e; contains_loop remaining' that'
           else contains_loop remaining that'
  end.

Definition contains `{Icl} (rs that : Resources) : outcome bool := contains_loop rs that.

Definition contains_Resource (rs : Resources) (that : Resource) : outcome bool :=
  error ← ResourceValidate.validate that;
  match error with
  | None => Ok (_contains rs (Resource__of that))
  | Some _ => Ok false
  end.

Definition resources_eq `{Icl} (rs that : Resources) : outcome bool :=
  forth ← contains rs that;
  if negb forth then Ok false else contains that rs.

Fixpoint count (rs : Resources) (that : Resource) : Z :=
  match rs with
  | [] => 0
  | e :: rs' =>
      if resource_eqb (resource e) that
      then (if isShared_ e then count_of e else 1)
      else count rs' that
  end.

Definition map_resource (f : Resource → Resource) (e : Resource_) : Resource_ :=
  mkR (f (resource e)) (sharedCount e).

Definition allocate (rs : Resources) (role : string) : Resources :=
  map (map_resource (fun r => with_allocation r (Some (mkAllocation (Some role))))) rs.
Definition unallocate (rs : Resources) : Resources :=
  map (map_resource (fun r => if has (r_allocation_info r)
                              then with_allocation r None else r)) rs.

Definition filter_step (predicate : Resource → outcome bool) (result : Resources)
    (e : Resource_) : outcome Resources :=
  keep ← predicate (resource e);
  if (keep : bool) then add result e else Ok result.
Definition filter (rs : Resources) (predicate : Resource → outcome bool)
    : outcome Resources :=
  mfold (filter_step predicate) [] rs.

Definition reserved (rs : Resources) (role : option string) : outcome Resources :=
  filter rs (fun r => isReserved r role).
Definition allocatableTo (rs : Resources) (role : string) : outcome Resources :=
  filter rs (fun r => isAllocatableTo r role).
Definition unreserved (rs : Resources) : outcome Resources := filter rs isUnreserved.
Definition persistentVolumes (rs : Resources) : outcome Resources :=
  filter rs isPersistentVolume.
Definition revocable (rs : Resources) : outcome Resources := filter rs isRevocable.
Definition nonRevocable (rs : Resources) : outcome Resources :=
  filter rs (fun r => negb <$> isRevocable r).
Definition shared (rs : Resources) : outcome Resources := filter rs isShared.
Definition nonShared (rs : Resources) : outcome Resources :=
  filter rs (fun r => negb <$> isShared r).
Definition get (rs : Resources) (name : string) : outcome Resources :=
  filter rs (fun r => Ok (String.eqb (r_name r) name)).
Definition scalars (rs : Resources) : outcome Resources :=
  filter rs (fun r => Ok (type_eqb (r_type r) SCALAR)).

(** [result[role].add(resource_)] on a hashmap of [Resources]. *)
Definition add_to_role (result : gmap string Resources) (role : string) (e : Resource_)
    : outcome (gmap string Resources) :=
  rs ← add (default [] (result !! role)) e; Ok (<[role := rs]> result).

Definition reservations_step (result : gmap string Resources) (e : Resource_)
    : outcome (gmap string Resources) :=
  reserved ← isReserved (resource e) None;
  if (reserved : bool)
  then role ← reservationRole (resource e); add_to_role result role e
  else Ok result.
Definition reservations (rs : Resources) : outcome (gmap string Resources) :=
  mfold reservations_step ∅ rs.

Definition allocations_step (result : gmap string Resources) (e : Resource_)
    : outcome (gmap string Resources) :=
  _ ← CHECK (has (r_allocation_info (resource e)));
  let role := alloc_role (get_or (mkAllocation None) (r_allocation_info (resource e))) in
  _ ← CHECK (has role);
  add_to_role result (get_or "" role) e.
Definition allocations (rs : Resources) : outcome (gmap string Resources) :=
  mfold allocations_step ∅ rs.

(** ** Reservations *)

Definition push_step (reservation : ReservationInfo) (result : Resources) (e : Resource_)
    : outcome Resources :=
  let e := map_resource (fun r => with_reservations r (r_reservations r ++ [reservation])) e in
  error ← ResourceValidate.validate (resource e);
  _ ← CHECK (negb (has error));
  add result e.
Definition pushReservation (rs : Resources) (reservation : ReservationInfo)
    : outcome Resources := mfold (push_step reservation) [] rs.

Definition pop_step (result : Resources) (e : Resource_) : outcome Resources :=
  _ ← CHECK (0 <? length (r_reservations (resource e)))%nat;
  add result (map_resource (fun r => with_reservations r
    (take (length (r_reservations r) - 1) (r_reservations r))) e).
Definition popReservation (rs : Resources) : outcome Resources := mfold pop_step [] rs.

Definition toUnreserved (rs : Resources) : outcome Resources :=
  mfold (fun result e => add result (map_resource (fun r => with_reservations r []) e)) [] rs.

(** One scalar of [createStrippedScalarQuantity]. *)
Definition strip_scalar (r : Resource) : outcome Resource :=
  let scalar := mkResource None (r_name r) (r_type r) (r_scalar r) (r_ranges r) (r_set r)
    (r_role r) None (r_reservation r) (r_reservations r) (r_disk r) (r_revocable r)
    (r_shared r) in
  reserved ← isReserved scalar None;
  scalar ← (if (reserved : bool)
            then role ← reservationRole scalar;
                 Ok (with_reservations scalar
                       [mkReservation (Some STATIC) (Some role) None None])
            else Ok scalar);
  Ok (with_disk scalar None false).

Definition strip_step (stripped : Resources) (e : Resource_) : outcome Resources :=
  if type_eqb (r_type (resource e)) SCALAR
  then scalar ← strip_scalar (resource e); add stripped (Resource__of scalar)
  else Ok stripped.
Definition createStrippedScalarQuantity (rs : Resources) : outcome Resources :=
  mfold strip_step [] rs.

(** ** Totals *)

(** The loop of the [get<T>] templates: the total and whether it was found. *)
Definition total_step {T : Type} (ty : ValueType) (value : Resource → T)
    (plus : T → T → T) (name : string) (acc : T * bool) (e : Resource_) : T * bool :=
  if String.eqb (r_name (resource e)) name && type_eqb (r_type (resource e)) ty
  then (plus acc.1 (value (resource e)), true) else acc.
Definition get_total {T : Type} (ty : ValueType) (value : Resource → T)
    (plus : T → T → T) (zero : T) (rs : Resources) (name : string) : option T :=
  let '(total, found) := foldl (total_step ty value plus name) (zero, false) rs in
  if (found : bool) then Some total else None.

Definition get_scalar : Resources → string → option Scalar :=
  get_total SCALAR scalar_of scalar_add scalar_default.
Definition get_set : Resources → string → option VSet :=
  get_total SET set_of set_add_assign [].
Definition get_ranges : Resources → string → option Ranges :=
  get_total RANGES ranges_of ranges_add_assign [].

Definition names (rs : Resources) : gset string :=
  foldl (fun result e => {[ r_name (resource e) ]} ∪ result) ∅ rs.
Definition types (rs : Resources) : gmap string ValueType :=
  foldl (fun result e => <[r_name (resource e) := r_type (resource e)]> result) ∅ rs.

Definition cpus (rs : Resources) : option double := scalar_value <$> get_scalar rs "cpus".
Definition gpus (rs : Resources) : option double := scalar_value <$> get_scalar rs "gpus".
(** [Megabytes(static_cast<uint64_t>(value))], in bytes. *)
Definition megabytes (d : double) : Z := u64_wrap (d_to_u64 d * 1048576).
Definition mem (rs : Resources) : option Z :=
  megabytes ∘ scalar_value <$> get_scalar rs "mem".
Definition disk (rs : Resources) : option Z :=
  megabytes ∘ scalar_value <$> get_scalar rs "disk".
Definition ports (rs : Resources) : option Ranges := get_ranges rs "ports".
Definition ephemeral_ports (rs : Resources) : option Ranges :=
  get_ranges rs "ephemeral_ports".

(** The conversion to a repeated field, and [validate] of one. *)
Definition to_list (rs : Resources) : list Resource := map resource rs.
