(* ===== verification/ResourcesLaws.v ===== *)
(** * ResourcesLaws: the invariant and the quantities of [Resources]

    Every entry of a [Resources] object is well formed and not empty, and no
    two entries could be merged.  On such objects [add] and [subtract] are
    total, keep the invariant, and change the amounts of every resource by
    exactly what is added or, when it is contained, subtracted. *)

From S2P Require Import Prelude Binary64 Scalars Ranges IntervalSets StoutStrings Values.
From S2P Require Import Roles Resource ResourceValidate Resources.
#[local] Open Scope string_scope.
#[local] Open Scope list_scope.
#[local] Open Scope Z_scope.

(** ** Pairwise relations on vectors *)

Fixpoint pairwise {A : Type} (R : A → A → Prop) (l : list A) : Prop :=
  match l with
  | [] => True
  | x :: l' => Forall (R x) l' ∧ pairwise R l'
  end.

Lemma pairwise_perm {A : Type} (R : A → A → Prop) (l k : list A) :
  Symmetric R → l ≡ₚ k → pairwise R l → pairwise R k.
Proof.
  intros HR. induction 1 as [|x l k Hp IH|x y l|l k m _ IH1 _ IH2]; cbn; auto.
  - intros [Hx Hl]. rewrite <-Hp at 1. auto.
  - rewrite !Forall_cons. intros ([Hyx Hy] & Hx & Hl). auto.
Qed.

Lemma pairwise_app {A : Type} (R : A → A → Prop) (l k : list A) :
  Symmetric R →
  pairwise R (l ++ k) ↔ pairwise R l ∧ pairwise R k ∧ Forall (fun x => Forall (R x) k) l.
Proof.
  intros HR. induction l as [|x l IH]; cbn.
  - split; [|tauto]. auto using Forall_nil_2.
  - rewrite IH, Forall_app, Forall_cons. tauto.
Qed.

(** ** The invariant *)

Definition entry_wf (e : Resource_) : Prop :=
  meta_wf (resource e) ∧ value_wf (resource e) ∧ post_format (resource e) ∧
  isShared_ e = r_shared (resource e) ∧ (isShared_ e = true → 0 < count_of e) ∧
  empty_value (resource e) = false.

(** Two entries that cannot be merged. *)
Definition apart (a b : Resource_) : Prop :=
  addable (resource a) (resource b) = false ∧ addable (resource b) (resource a) = false.

#[export] Instance apart_sym : Symmetric apart.
Proof. intros a b [? ?]. by split. Qed.

Definition resources_wf (rs : Resources) : Prop := Forall entry_wf rs ∧ pairwise apart rs.

#[export] Instance resources_wf_perm : Proper ((≡ₚ) ==> iff) resources_wf.
Proof.
  intros l k Hp. split; intros [Hf Hpw]; split.
  - by rewrite <-Hp.
  - by eapply pairwise_perm; [apply _|exact Hp|].
  - by rewrite Hp.
  - by eapply pairwise_perm; [apply _|symmetry; exact Hp|].
Qed.

(** ** [addable] on well-formed entries *)

Lemma resource_eqb_sym (a b : Resource) :
  meta_wf a → meta_wf b → value_wf a → value_wf b →
  resource_eqb a b = true → resource_eqb b a = true.
Proof.
  intros Ma Mb Va Vb. rewrite !resource_eqb_iff by done. intros (Hk & Hs & Hv).
  do 2 (split; [done|]). apply (value_eqb_equiv a b b); auto using key_type_eq.
Qed.

Lemma resource_eqb_trans (a b c : Resource) :
  meta_wf a → meta_wf b → meta_wf c → value_wf a → value_wf b → value_wf c →
  resource_eqb a b = true → resource_eqb b c = true → resource_eqb a c = true.
Proof.
  intros Ma Mb Mc Va Vb Vc. rewrite !resource_eqb_iff by done.
  intros (Hk & Hs & Hv) (Hk' & Hs' & Hv'). do 2 (split; [congruence|]).
  apply (value_eqb_equiv a b c); auto using key_type_eq.
Qed.

Lemma addable_shared (a b : Resource) :
  r_shared a = true → addable a b = resource_eqb a b.
Proof.
  intros Hs. unfold addable. rewrite Hs. destruct (r_shared b) eqn:Hb; cbn [Bool.eqb negb].
  - done.
  - unfold resource_eqb. rewrite Hs, Hb. cbn.
    by repeat destruct (negb _).
Qed.

Lemma subtractable_shared (a b : Resource) :
  r_shared a = true → subtractable a b = resource_eqb a b.
Proof.
  intros Hs. unfold subtractable. rewrite Hs.
  destruct (r_shared b) eqn:Hb; cbn [Bool.eqb negb]; [done|].
  unfold resource_eqb. rewrite Hs, Hb. cbn. by repeat destruct (negb _).
Qed.

Lemma addable_same_shared (a b : Resource) : addable a b = true → r_shared a = r_shared b.
Proof.
  unfold addable. destruct (Bool.eqb_spec (r_shared a) (r_shared b)); [done|]. done.
Qed.

Lemma addable_sym (a b : Resource) :
  meta_wf a → meta_wf b → value_wf a → value_wf b →
  addable a b = true → addable b a = true.
Proof.
  intros Ma Mb Va Vb Hab. pose proof (addable_same_shared a b Hab) as Hsh.
  destruct (r_shared a) eqn:Hs; symmetry in Hsh.
  - rewrite addable_shared in Hab |- * by done. by apply resource_eqb_sym.
  - apply addable_iff in Hab as (Hs' & Hk & He); [|done..].
    apply addable_iff; [done..|]. by rewrite <-(key_exclusive _ _ Hk).
Qed.

Lemma apart_intro (a b : Resource_) :
  entry_wf a → entry_wf b → addable (resource a) (resource b) = false → apart a b.
Proof.
  intros (Ma & Va & _) (Mb & Vb & _) Hab. split; [done|].
  destruct (addable (resource b) (resource a)) eqn:E; [|done].
  apply addable_sym in E; [congruence|done..].
Qed.

(** An entry may be replaced by one with the same key, or by one with the same
    shared resource. *)
Definition same_class (a b : Resource) : Prop :=
  (r_shared a = false ∧ r_shared b = false ∧ key a = key b) ∨ a = b.

Lemma same_class_addable (a b c : Resource) :
  meta_wf a → meta_wf b → meta_wf c → same_class a b →
  addable a c = false → addable b c = false.
Proof.
  intros Ma Mb Mc [(Ha & Hb & Hk)|<-] Hac; [|done].
  destruct (addable b c) eqn:E; [|done].
  apply addable_iff in E as (Hc & Hk' & He); [|done..]. rewrite <-Hac. symmetry.
  apply addable_iff; [done..|]. rewrite (key_exclusive _ _ Hk). split; [done|].
  split; [congruence|done].
Qed.

Lemma apart_class (a b c : Resource_) :
  entry_wf a → entry_wf b → entry_wf c → same_class (resource a) (resource b) →
  apart a c → apart b c.
Proof.
  intros Ha Hb Hc Hcl [Hac _]. apply apart_intro; [done..|].
  destruct Ha as (Ma & _), Hb as (Mb & _), Hc as (Mc & _).
  by eapply (same_class_addable (resource a)).
Qed.

(** Replacing and removing entries keeps the invariant. *)
Lemma resources_wf_replace (l1 l2 : Resources) (e e' : Resource_) :
  resources_wf (l1 ++ e :: l2) → entry_wf e' → same_class (resource e) (resource e') →
  resources_wf (l1 ++ e' :: l2).
Proof.
  rewrite <-!Permutation_middle. intros [Hf [Hap Hpw]] He' Hcl.
  apply Forall_cons in Hf as [He Hf]. split; [by constructor|]. split; [|done].
  rewrite Forall_forall in Hap, Hf. apply Forall_forall. intros x Hx.
  eapply (apart_class e); auto.
Qed.

Lemma resources_wf_remove (l1 l2 : Resources) (e : Resource_) :
  resources_wf (l1 ++ e :: l2) → resources_wf (l1 ++ l2).
Proof.
  rewrite <-Permutation_middle. intros [Hf [_ Hpw]]. split; [|done].
  by apply Forall_cons in Hf as [_ Hf].
Qed.

(** ** Quantities *)

(** The thousandths of [name] an entry holds, and in total. *)
Definition amount_of (name : string) (r : Resource) : Z :=
  if String.eqb (r_name r) name && type_eqb (r_type r) SCALAR
  then fixed (scalar_of r) else 0.
Definition amount (name : string) (rs : Resources) : Z :=
  foldr (fun e acc => amount_of name (resource e) + acc) 0 rs.

(** The numbers of the ranges called [name]. *)
Definition in_ranges_of (name : string) (x : Z) (r : Resource) : Prop :=
  r_name r = name ∧ r_type r = RANGES ∧ rmem x (ranges_of r).
Definition in_ranges (name : string) (x : Z) (rs : Resources) : Prop :=
  ∃ e, e ∈ rs ∧ in_ranges_of name x (resource e).

(** The items of the sets called [name]. *)
Definition in_set_of (name x : string) (r : Resource) : Prop :=
  r_name r = name ∧ r_type r = SET ∧ x ∈ set_of r.
Definition in_set (name x : string) (rs : Resources) : Prop :=
  ∃ e, e ∈ rs ∧ in_set_of name x (resource e).

Definition has_entry (name : string) (ty : ValueType) (rs : Resources) : Prop :=
  ∃ e, e ∈ rs ∧ r_name (resource e) = name ∧ r_type (resource e) = ty.

Lemma amount_cons (name : string) (e : Resource_) (l : Resources) :
  amount name (e :: l) = amount_of name (resource e) + amount name l.
Proof. done. Qed.

Lemma amount_app (name : string) (l k : Resources) :
  amount name (l ++ k) = amount name l + amount name k.
Proof. induction l as [|e l IH]; [done|]. cbn [app]. rewrite !amount_cons. lia. Qed.

#[export] Instance amount_perm : Proper ((=) ==> (≡ₚ) ==> (=)) amount.
Proof.
  intros name ? <-. induction 1; rewrite ?amount_cons; lia.
Qed.

#[export] Instance in_ranges_perm : Proper ((=) ==> (=) ==> (≡ₚ) ==> iff) in_ranges.
Proof. intros n ? <- x ? <- l k Hp. unfold in_ranges. by setoid_rewrite Hp. Qed.

#[export] Instance in_set_perm : Proper ((=) ==> (=) ==> (≡ₚ) ==> iff) in_set.
Proof. intros n ? <- x ? <- l k Hp. unfold in_set. by setoid_rewrite Hp. Qed.

#[export] Instance has_entry_perm : Proper ((=) ==> (=) ==> (≡ₚ) ==> iff) has_entry.
Proof. intros n ? <- t ? <- l k Hp. unfold has_entry. by setoid_rewrite Hp. Qed.

Lemma in_ranges_cons (name : string) (x : Z) (e : Resource_) (l : Resources) :
  in_ranges name x (e :: l) ↔ in_ranges_of name x (resource e) ∨ in_ranges name x l.
Proof. exact (exists_cons (fun e => in_ranges_of name x (resource e)) e l). Qed.

Lemma in_set_cons (name x : string) (e : Resource_) (l : Resources) :
  in_set name x (e :: l) ↔ in_set_of name x (resource e) ∨ in_set name x l.
Proof. exact (exists_cons (fun e => in_set_of name x (resource e)) e l). Qed.

Lemma has_entry_cons (name : string) (ty : ValueType) (e : Resource_) (l : Resources) :
  has_entry name ty (e :: l) ↔
  (r_name (resource e) = name ∧ r_type (resource e) = ty) ∨ has_entry name ty l.
Proof.
  exact (exists_cons (fun e => r_name (resource e) = name ∧ r_type (resource e) = ty) e l).
Qed.

Lemma has_entry_dec (name : string) (ty : ValueType) (rs : Resources) :
  has_entry name ty rs ∨ ¬ has_entry name ty rs.
Proof.
  induction rs as [|e rs IH].
  - right. intros (e & He & _). by apply elem_of_nil in He.
  - rewrite has_entry_cons.
    destruct (decide (r_name (resource e) = name ∧ r_type (resource e) = ty)); tauto.
Qed.

Lemma amount_of_nonneg (name : string) (r : Resource) : value_wf r → 0 ≤ amount_of name r.
Proof.
  intros Hv. unfold amount_of, type_eqb. destruct (String.eqb _ _); [|done]. cbn.
  case_bool_decide as Ht; [|done]. by apply value_wf_scalar.
Qed.

Lemma amount_nonneg (name : string) (rs : Resources) :
  Forall entry_wf rs → 0 ≤ amount name rs.
Proof.
  induction 1 as [|e rs (_ & Hv & _) _ IH]; [done|]. rewrite amount_cons.
  pose proof (amount_of_nonneg name _ Hv). lia.
Qed.

(** ** Sums and differences of resources with one key *)

Definition totals_in_range (rs : Resources) (r : Resource) : Prop :=
  ∀ name, in_range (amount name rs + amount_of name r).

Lemma amount_add (name : string) (a b : Resource) :
  key a = key b → sum_in_range a b →
  amount_of name (resource_add a b) = amount_of name a + amount_of name b.
Proof.
  intros Hk Hsum. unfold amount_of, sum_in_range in *.
  destruct (resource_add_meta a b) as (_ & _ & _ & _ & _ & _ & _ & -> & ->).
  rewrite (key_name_eq _ _ Hk), <-(key_type_eq _ _ Hk).
  destruct (String.eqb _ name); [|done]. cbn. unfold type_eqb.
  case_bool_decide as Ht; [|done]. by rewrite resource_add_scalar, fixed_add by auto.
Qed.

Lemma amount_sub `{Icl} (name : string) (a b : Resource) :
  key a = key b → value_wf a → value_wf b → value_le b a →
  amount_of name (resource_sub a b) = amount_of name a - amount_of name b.
Proof.
  intros Hk Va Vb Hle. unfold amount_of.
  destruct (resource_sub_meta a b) as (_ & _ & _ & _ & _ & _ & _ & -> & ->).
  pose proof (key_type_eq _ _ Hk) as Hty.
  rewrite (key_name_eq _ _ Hk), <-Hty.
  destruct (String.eqb _ name); [|done]. cbn. unfold type_eqb.
  case_bool_decide as Ht; [|done]. rewrite resource_sub_scalar by done.
  apply value_wf_scalar in Va as [? ?], Vb as [? ?]; [|congruence..].
  unfold value_le in Hle. rewrite <-Hty, Ht in Hle.
  rewrite fixed_sub; unfold in_range in *; lia.
Qed.

Lemma in_ranges_add (name : string) (x : Z) (a b : Resource) :
  key a = key b → value_wf a → value_wf b →
  in_ranges_of name x (resource_add a b) ↔ in_ranges_of name x a ∨ in_ranges_of name x b.
Proof.
  intros Hk Va Vb. unfold in_ranges_of.
  destruct (resource_add_meta a b) as (_ & _ & _ & _ & _ & _ & _ & -> & ->).
  rewrite (key_name_eq _ _ Hk), (key_type_eq _ _ Hk).
  split.
  - intros (Hn & Ht & Hx). rewrite resource_add_ranges in Hx by (by rewrite (key_type_eq _ _ Hk)).
    apply ranges_add_assign_spec in Hx; [tauto|..]; auto using value_wf_ranges.
    apply value_wf_ranges; [done|]. by rewrite (key_type_eq _ _ Hk).
  - intros H. assert (Ht : r_type a = RANGES) by (rewrite (key_type_eq _ _ Hk); tauto).
    split; [tauto|]. split; [tauto|]. rewrite resource_add_ranges by done.
    apply ranges_add_assign_spec; [auto using value_wf_ranges| |tauto].
    apply value_wf_ranges; [done|]. by rewrite <-(key_type_eq _ _ Hk).
Qed.

Lemma in_ranges_sub `{IclLaws} (name : string) (x : Z) (a b : Resource) :
  key a = key b → value_wf a → value_wf b → value_le b a →
  in_ranges_of name x a ↔ in_ranges_of name x (resource_sub a b) ∨ in_ranges_of name x b.
Proof.
  intros Hk Va Vb Hle. unfold in_ranges_of.
  destruct (resource_sub_meta a b) as (_ & _ & _ & _ & _ & _ & _ & -> & ->).
  rewrite (key_name_eq _ _ Hk), (key_type_eq _ _ Hk). unfold value_le in Hle.
  destruct (decide (r_type b = RANGES)) as [Ht|Ht]; [|tauto].
  assert (Hta : r_type a = RANGES) by (by rewrite (key_type_eq _ _ Hk)).
  rewrite Ht in Hle. rewrite resource_sub_ranges by done.
  pose proof (proj2 (ranges_sub_assign_spec (T:=icl_T) _ _
    (value_wf_ranges _ Va Hta) (value_wf_ranges _ Vb Ht)) x) as Hm.
  specialize (Hle x). destruct (rmem_dec x (ranges_of b)); tauto.
Qed.

Lemma in_set_add (name x : string) (a b : Resource) :
  key a = key b →
  in_set_of name x (resource_add a b) ↔ in_set_of name x a ∨ in_set_of name x b.
Proof.
  intros Hk. unfold in_set_of.
  destruct (resource_add_meta a b) as (_ & _ & _ & _ & _ & _ & _ & -> & ->).
  pose proof (key_type_eq _ _ Hk) as Ht. rewrite (key_name_eq _ _ Hk), <-Ht.
  destruct (decide (r_type a = SET)) as [Hs|Hs]; [|tauto].
  rewrite resource_add_set by done.
  rewrite (proj1 (set_add_assign_spec (set_of a) (set_of b)) x). tauto.
Qed.

Lemma in_set_sub `{Icl} (name x : string) (a b : Resource) :
  key a = key b → value_wf a → value_le b a →
  in_set_of name x a ↔ in_set_of name x (resource_sub a b) ∨ in_set_of name x b.
Proof.
  intros Hk Va Hle. unfold in_set_of.
  destruct (resource_sub_meta a b) as (_ & _ & _ & _ & _ & _ & _ & -> & ->).
  pose proof (key_type_eq _ _ Hk) as Ht. rewrite (key_name_eq _ _ Hk), <-Ht.
  destruct (decide (r_type a = SET)) as [Hs|Hs]; [|tauto].
  unfold value_le in Hle. rewrite <-Ht, Hs in Hle.
  rewrite resource_sub_set, set_sub_assign_filter, list_elem_of_filter by auto with urb.
  destruct (decide (x ∈ set_of b)); set_solver.
Qed.

(** ** Empty values *)

Definition inhabited_value (r : Resource) : Prop :=
  match r_type r with
  | SCALAR => 0 < fixed (scalar_of r)
  | RANGES => ∃ x, rmem x (ranges_of r)
  | SET => ∃ x, x ∈ set_of r
  | TEXT => False
  end.

Lemma empty_value_iff (r : Resource) :
  value_wf r → empty_value r = false ↔ inhabited_value r.
Proof.
  intros Hv. unfold empty_value, inhabited_value. destruct (r_type r) eqn:Ht.
  - destruct (value_wf_scalar r Hv Ht) as [Hpos _].
    rewrite <-not_true_iff_false, scalar_eq_fixed.
    replace (fixed (mkScalar dzero)) with 0 by (vm_compute; reflexivity). lia.
  - pose proof (value_wf_ranges r Hv Ht) as Hwf.
    destruct (ranges_of r) as [|q rs]; cbn.
    + split; [done|]. intros (x & Hx). by apply rmem_nil in Hx.
    + split; [|done]. intros _. exists (range_begin q). apply rmem_cons. left.
      apply Forall_cons in Hwf as [[? _] _]. lia.
  - destruct (set_of r) as [|i items]; cbn.
    + split; [done|]. intros (x & Hx). by apply elem_of_nil in Hx.
    + split; [|done]. intros _. exists i. left.
  - unfold value_wf in Hv. by rewrite Ht in Hv.
Qed.

Lemma inhabited_mono (a b : Resource) :
  r_type a = r_type b → value_le a b → inhabited_value a → inhabited_value b.
Proof.
  unfold inhabited_value, value_le. intros <-. destruct (r_type a); [lia| | |done].
  - intros Hle (x & Hx). eauto.
  - intros Hle (x & Hx). eauto.
Qed.

Lemma isEmpty_entry (e : Resource_) : entry_wf e → isEmpty_ e = Ok false.
Proof.
  intros (_ & _ & Hp & _ & Hc & He). unfold isEmpty_. rewrite isEmpty_post, He by done.
  destruct (isShared_ e); [|done]. cbn. specialize (Hc eq_refl).
  by rewrite (proj2 (Z.eqb_neq _ _)) by lia.
Qed.

(** ** [add] *)

(** [rs'] holds what [rs] holds and [r]. *)
Definition grown (rs : Resources) (r : Resource) (rs' : Resources) : Prop :=
  (∀ name, amount name rs' = amount name rs + amount_of name r) ∧
  (∀ name x, in_ranges name x rs' ↔ in_ranges name x rs ∨ in_ranges_of name x r) ∧
  (∀ name x, in_set name x rs' ↔ in_set name x rs ∨ in_set_of name x r) ∧
  (∀ name ty, has_entry name ty rs' ↔
              has_entry name ty rs ∨ (r_name r = name ∧ r_type r = ty)).

#[export] Instance grown_perm : Proper ((≡ₚ) ==> (=) ==> (≡ₚ) ==> iff) grown.
Proof.
  intros l k Hp r ? <- l' k' Hp'. unfold grown.
  split; (intros (Ha & Hr & Hs & Hh); split_and!); intros; first
    [rewrite <-Hp, <-Hp'; auto | rewrite Hp, Hp'; auto].
Qed.

Lemma add_loop_cases (rs : Resources) (that : Resource_) :
  (∃ l1 e l2, rs = l1 ++ e :: l2 ∧ addable (resource e) (resource that) = true ∧
     add_loop rs that = (e' ← add_ e that; Ok (l1 ++ e' :: l2))) ∨
  (Forall (fun e => addable (resource e) (resource that) = false) rs ∧
   add_loop rs that = Ok (rs ++ [that])).
Proof.
  induction rs as [|e rs IH]; cbn; [by right|].
  destruct (addable (resource e) (resource that)) eqn:Ea.
  - left. by exists [], e, rs.
  - destruct IH as [(l1 & d & l2 & -> & Hd & ->)|[Hf ->]].
    + left. exists (e :: l1), d, l2. split; [done|]. split; [done|].
      by destruct (add_ d that).
    + right. auto.
Qed.

(** The merged entry. *)
Lemma merged_entry_wf (e that : Resource_) :
  entry_wf e → entry_wf that → isShared_ that = false →
  addable (resource e) (resource that) = true →
  sum_in_range (resource e) (resource that) →
  ∃ e', add_ e that = Ok e' ∧ entry_wf e' ∧ key (resource e) = key (resource that) ∧
        same_class (resource e) (resource e') ∧
        resource e' = resource_add (resource e) (resource that).
Proof.
  intros (Me & Ve & Pe & Se & Ce & Ee) (Mt & Vt & Pt & St & _ & _) Hns Hadd Hsum.
  pose proof (addable_same_shared _ _ Hadd) as Hsh. rewrite <-St, Hns in Hsh.
  apply addable_iff in Hadd as (_ & Hk & _); [|done..].
  pose proof (key_type_eq _ _ Hk) as Ht.
  destruct (resource_add_meta (resource e) (resource that))
    as (Hka & Hsa & Hma & Hra & Hra' & _ & _ & Hta & _).
  pose proof (resource_add_value_wf _ _ Ve Vt Ht Hsum) as Va.
  unfold add_. rewrite Se, Hsh. cbn. eexists. split; [done|]. split; [|split; [done|]].
  - split; [auto|]. split; [done|]. cbn. split; [split; [rewrite Hra|rewrite Hra']; apply Pe|].
    unfold isShared_ in *; cbn. split; [congruence|]. split; [rewrite Se, Hsh; done|].
    apply empty_value_iff; [done|]. eapply (inhabited_mono (resource e)); [done| |].
    + by apply add_value_le.
    + by apply empty_value_iff.
  - split; [|done]. left. cbn. split; [done|]. split; [congruence|done].
Qed.

Lemma grown_replace (l1 l2 : Resources) (e e' : Resource_) (r : Resource) :
  key (resource e) = key r → value_wf (resource e) → value_wf r →
  resource e' = resource_add (resource e) r → sum_in_range (resource e) r →
  grown (l1 ++ e :: l2) r (l1 ++ e' :: l2).
Proof.
  intros Hk Ve Vr He' Hsum. split_and!.
  - intros name. rewrite <-!Permutation_middle, !amount_cons, He', amount_add by done. lia.
  - intros name x. rewrite <-!Permutation_middle, !in_ranges_cons, He', in_ranges_add by done.
    tauto.
  - intros name x. rewrite <-!Permutation_middle, !in_set_cons, He', in_set_add by done. tauto.
  - intros name ty. rewrite <-!Permutation_middle, !has_entry_cons, He'.
    destruct (resource_add_meta (resource e) r) as (_ & _ & _ & _ & _ & _ & _ & -> & ->).
    rewrite (key_name_eq _ _ Hk), (key_type_eq _ _ Hk). tauto.
Qed.

Lemma grown_push (rs : Resources) (e : Resource_) : grown rs (resource e) (rs ++ [e]).
Proof.
  assert (Hp : rs ++ [e] ≡ₚ e :: rs) by (by rewrite Permutation_app_comm).
  split_and!; intros; rewrite Hp, ?amount_cons, ?in_ranges_cons, ?in_set_cons, ?has_entry_cons;
    [lia|tauto..].
Qed.

(** Amounts of one entry are below the total. *)
Lemma sum_in_range_of_total (rs : Resources) (e : Resource_) (r : Resource) :
  Forall entry_wf rs → value_wf r → e ∈ rs → key (resource e) = key r →
  totals_in_range rs r → sum_in_range (resource e) r.
Proof.
  intros Hf Vr He Hk Htot Ht. specialize (Htot (r_name r)).
  apply list_elem_of_split in He as (l1 & l2 & ->).
  rewrite <-Permutation_middle in Htot. rewrite <-Permutation_middle in Hf.
  apply Forall_cons in Hf as [(_ & Ve & _) Hf]. rewrite amount_cons in Htot.
  pose proof (amount_nonneg (r_name r) _ Hf) as Hnn.
  unfold amount_of in Htot. rewrite (key_name_eq _ _ Hk), String.eqb_refl in Htot.
  rewrite <-(key_type_eq _ _ Hk), Ht in Htot. change (type_eqb SCALAR SCALAR) with true in Htot.
  cbn [andb] in Htot. destruct (value_wf_scalar _ Ve Ht).
  assert (Htr : r_type r = SCALAR) by (by rewrite <-(key_type_eq _ _ Hk)).
  destruct (value_wf_scalar _ Vr Htr).
  unfold in_range in *. lia.
Qed.

Lemma add_spec (rs : Resources) (that : Resource_) :
  resources_wf rs → entry_wf that → isShared_ that = false →
  totals_in_range rs (resource that) →
  ∃ rs', add rs that = Ok rs' ∧ resources_wf rs' ∧ grown rs (resource that) rs'.
Proof.
  intros Hwf Hthat Hns Htot. unfold add. rewrite isEmpty_entry by done. cbn.
  destruct (add_loop_cases rs that) as [(l1 & e & l2 & -> & Hadd & ->)|[Hf ->]].
  - pose proof Hwf as [Hfa _]. pose proof Hthat as (Mt & Vt & _ & St & _).
    assert (He : entry_wf e).
    { rewrite Forall_forall in Hfa. apply Hfa. set_solver. }
    assert (Hk : key (resource e) = key (resource that)).
    { destruct He as (Me & Ve & _ & Se & _). pose proof (addable_same_shared _ _ Hadd) as Hsh.
      apply addable_iff in Hadd as (_ & Hk & _); [done..|congruence]. }
    assert (Hsum : sum_in_range (resource e) (resource that)).
    { eapply sum_in_range_of_total; [exact Hfa|done| |done|done]. set_solver. }
    destruct (merged_entry_wf e that) as (e' & -> & He' & _ & Hcl & Hre); [done..|].
    cbn. eexists. split; [done|]. split; [by eapply resources_wf_replace|].
    apply grown_replace; [done|apply He|done|done|done].
  - eexists. split; [done|]. split; [|apply grown_push].
    rewrite Permutation_app_comm. destruct Hwf as [Hfa Hpw].
    split; [by constructor|]. split; [|done].
    rewrite Forall_forall in Hfa, Hf. apply Forall_forall. intros x Hx.
    symmetry. apply apart_intro; auto.
Qed.

(** ** [subtract] *)

Lemma find_index_Some {A : Type} (p : A → bool) (l : list A) (i : nat) :
  find_index p l = Some i →
  ∃ l1 x l2, l = l1 ++ x :: l2 ∧ length l1 = i ∧ p x = true.
Proof.
  revert i. induction l as [|x l IH]; intros i; cbn; [done|].
  destruct (p x) eqn:Hx.
  - intros [= <-]. by exists [], x, l.
  - destruct (find_index p l) as [j|]; [|done]. intros [= <-].
    destruct (IH j eq_refl) as (l1 & y & l2 & -> & <- & Hy). by exists (x :: l1), y, l2.
Qed.

Lemma find_index_None {A : Type} (p : A → bool) (l : list A) (x : A) :
  find_index p l = None → x ∈ l → p x = false.
Proof.
  induction l as [|y l IH]; cbn; [by intros _ ?%elem_of_nil|].
  destruct (p y) eqn:Hy; [done|]. destruct (find_index p l); [done|].
  intros _ [->|Hx]%elem_of_cons; auto.
Qed.

Lemma remove_swap_perm (l1 l2 : Resources) (e : Resource_) :
  remove_swap (l1 ++ e :: l2) (length l1) ≡ₚ l1 ++ l2.
Proof.
  unfold remove_swap. destruct l2 as [|b l2 _] using rev_ind.
  - rewrite last_snoc. rewrite list_insert_id by (by rewrite list_lookup_middle).
    rewrite length_app. cbn. rewrite Nat.add_sub, take_app_length. by rewrite app_nil_r.
  - change (l1 ++ e :: l2 ++ [b]) with (l1 ++ (e :: l2) ++ [b]).
    rewrite app_assoc, last_snoc, <-app_assoc. cbn [app].
    rewrite insert_app_r_alt, Nat.sub_diag by lia. cbn [insert list_insert].
    replace (length _ - 1)%nat with (length (l1 ++ b :: l2))
      by (rewrite !length_app; cbn; rewrite !length_app; cbn; lia).
    change (l1 ++ b :: l2 ++ [b]) with (l1 ++ (b :: l2) ++ [b]).
    rewrite app_assoc, take_app_length. by rewrite <-Permutation_cons_append.
Qed.

(** Containment finds the entry that subtraction works on. *)
Lemma contains_subtractable (e that : Resource_) :
  entry_wf e → entry_wf that → contains_ e that = true →
  subtractable (resource e) (resource that) = true.
Proof.
  intros (Me & Ve & _ & Se & _) (Mt & Vt & _ & St & _). unfold contains_.
  destruct (Bool.eqb_spec (isShared_ e) (isShared_ that)) as [Hsh|]; [|done]. cbn [negb].
  rewrite Se. destruct (r_shared (resource e)) eqn:Hs.
  - rewrite andb_true_iff. intros [_ Heq]. by rewrite subtractable_shared.
  - unfold resource_contains. by destruct (subtractable _ _).
Qed.

(** Entries that [that] can be subtracted from and that are not exclusive are
    mergeable, hence one and the same. *)
Lemma subtractable_addable (a b that : Resource_) :
  entry_wf a → entry_wf b → entry_wf that →
  subtractable (resource a) (resource that) = true →
  subtractable (resource b) (resource that) = true →
  r_shared (resource that) = true ∨ exclusive (resource that) = false →
  addable (resource a) (resource b) = true.
Proof.
  intros (Ma & Va & _) (Mb & Vb & _) (Mt & Vt & _) Ha Hb Hcase.
  assert (Hsh : ∀ r, subtractable r (resource that) = true → r_shared r = r_shared (resource that)).
  { intros r. unfold subtractable.
    destruct (Bool.eqb_spec (r_shared r) (r_shared (resource that))); done. }
  pose proof (Hsh _ Ha) as Hsa. pose proof (Hsh _ Hb) as Hsb.
  destruct (r_shared (resource that)) eqn:Hs.
  - rewrite addable_shared by done. rewrite subtractable_shared in Ha, Hb by done.
    eapply resource_eqb_trans; [| | | | | |exact Ha|]; [done..|].
    by apply resource_eqb_sym.
  - destruct Hcase as [?|Hex]; [done|].
    apply subtractable_iff in Ha as (_ & Hka & _), Hb as (_ & Hkb & _); [|done..].
    apply addable_iff; [done..|]. split; [done|]. split; [congruence|].
    by rewrite (key_exclusive _ _ Hka).
Qed.

Lemma pairwise_elem {A : Type} (R : A → A → Prop) (l : list A) (x y : A) :
  Symmetric R → pairwise R l → x ∈ l → y ∈ l → x = y ∨ R x y.
Proof.
  intros HR. induction l as [|z l IH]; cbn; [by intros _ ?%elem_of_nil|].
  rewrite Forall_forall. intros [Hz Hl] [->|Hx]%elem_of_cons [->|Hy]%elem_of_cons; auto.
Qed.

Lemma subtract_target (rs : Resources) (that : Resource_) :
  resources_wf rs → entry_wf that → _contains rs that = true →
  ∃ l1 e l2, rs = l1 ++ e :: l2 ∧ entry_wf e ∧ contains_ e that = true ∧
    find_index (fun e => subtractable (resource e) (resource that)) rs = Some (length l1).
Proof.
  intros [Hf Hpw] Ht Hc. unfold _contains in Hc. apply any_true in Hc as (c & Hin & Hc).
  rewrite Forall_forall in Hf. pose proof (Hf c Hin) as Hcw.
  pose proof (contains_subtractable c that Hcw Ht Hc) as Hsub.
  destruct (find_index _ rs) as [i|] eqn:E.
  2:{ by rewrite (find_index_None _ _ c E Hin) in Hsub. }
  apply find_index_Some in E as (l1 & e & l2 & Hrs & <- & He).
  assert (Hine : e ∈ rs) by (rewrite Hrs; set_solver).
  pose proof (Hf e Hine) as Hew. exists l1, e, l2. split; [done|]. split; [done|].
  split; [|done]. destruct (pairwise_elem apart rs e c) as [->|[Hap _]]; [apply _|done..|].
  destruct (r_shared (resource that)) eqn:Hs; [|destruct (exclusive (resource that)) eqn:Hex].
  - by rewrite (subtractable_addable e c that) in Hap by auto.
  - destruct Hew as (Me & Ve & _ & Se & _), Ht as (Mt & Vt & _ & St & _).
    assert (Hse : r_shared (resource e) = false).
    { unfold subtractable in He. rewrite Hs in He. by destruct (r_shared (resource e)). }
    apply subtractable_iff in He as (_ & Hk & Heq); [|done..].
    rewrite (key_exclusive _ _ Hk) in Heq. specialize (Heq Hex).
    apply resource_eqb_iff in Heq as (_ & _ & Hv); [|done..].
    unfold contains_. rewrite Se, St, Hse, Hs. cbn.
    apply resource_contains_iff; [done..|]. do 3 (split; [done|]).
    by apply value_eqb_le; auto using key_type_eq.
  - by rewrite (subtractable_addable e c that) in Hap by auto.
Qed.

Section Subtract.
Context `{IclLaws}.

(** What is left of the entry: not negative, and an entry unless empty. *)
Lemma remainder_entry (e that : Resource_) :
  entry_wf e → entry_wf that → isShared_ that = false → contains_ e that = true →
  let d := resource_sub (resource e) (resource that) in
  sub_ e that = Ok (mkR d None) ∧ negative (mkR d None) = false ∧
  isEmpty_ (mkR d None) = Ok (empty_value d) ∧ value_wf d ∧
  key (resource e) = key (resource that) ∧ value_le (resource that) (resource e) ∧
  same_class (resource e) d ∧ (empty_value d = false → entry_wf (mkR d None)).
Proof.
  intros (Me & Ve & Pe & Se & Ce & Ee) (Mt & Vt & Pt & St & _) Hns Hc d.
  unfold contains_ in Hc. rewrite Hns, Se in Hc.
  destruct (r_shared (resource e)) eqn:Hs; [done|]. cbn in Hc.
  apply resource_contains_iff in Hc as (_ & Hk & _ & Hle); [|done..].
  pose proof (key_type_eq _ _ Hk) as Hty.
  destruct (resource_sub_meta (resource e) (resource that))
    as (Hka & Hsa & Hma & Hra & Hra' & _ & _ & Hta & _).
  fold d in Hka, Hsa, Hma, Hra, Hra', Hta.
  assert (Vd : value_wf d) by by apply resource_sub_value_wf.
  assert (Pd : post_format d) by (split; [rewrite Hra|rewrite Hra']; apply Pe).
  unfold isShared_ in Se.
  split; [|split; [|split; [|do 3 (split; [done|]); split]]].
  - unfold sub_, isShared_. rewrite Se. by destruct (sharedCount e).
  - unfold negative, isShared_; cbn. unfold type_eqb. case_bool_decide as Hsc; [|done].
    pose proof (sub_validate_value _ _ Ve Vt Hty Hle) as Hval. fold d in Hval.
    unfold validate_value in Hval. rewrite Hsc in Hval. cbn.
    destruct (negb _ || _ || _); [done|]. by destruct (dltb _ _).
  - unfold isEmpty_; cbn. by apply isEmpty_post.
  - left. split; [done|]. split; [congruence|done].
  - intros Hne. split; [auto|]. split; [done|]. split; [done|]. unfold isShared_; cbn.
    split; [congruence|]. by split.
Qed.

Lemma grown_remove (l1 l2 : Resources) (e : Resource_) (r : Resource) :
  key (resource e) = key r → value_wf (resource e) → value_wf r → value_le r (resource e) →
  value_wf (resource_sub (resource e) r) → empty_value (resource_sub (resource e) r) = true →
  grown (l1 ++ l2) r (l1 ++ e :: l2).
Proof.
  intros Hk Ve Vr Hle Vd Hem.
  assert (Hno : ¬ inhabited_value (resource_sub (resource e) r)).
  { rewrite <-empty_value_iff by done. congruence. }
  split_and!.
  - intros name. rewrite <-Permutation_middle, amount_cons.
    pose proof (amount_sub name _ _ Hk Ve Vr Hle) as Hs.
    assert (amount_of name (resource_sub (resource e) r) = 0); [|lia].
    unfold amount_of, inhabited_value in *. destruct (String.eqb _ _); [|done]. cbn.
    unfold type_eqb. case_bool_decide as Ht; [|done]. rewrite Ht in Hno.
    destruct (value_wf_scalar _ Vd Ht). lia.
  - intros name x. rewrite <-Permutation_middle, in_ranges_cons.
    rewrite (in_ranges_sub name x (resource e) r) by done.
    assert (¬ in_ranges_of name x (resource_sub (resource e) r)); [|tauto].
    intros (_ & Ht & Hx). apply Hno. unfold inhabited_value. rewrite Ht. eauto.
  - intros name x. rewrite <-Permutation_middle, in_set_cons.
    rewrite (in_set_sub name x (resource e) r) by done.
    assert (¬ in_set_of name x (resource_sub (resource e) r)); [|tauto].
    intros (_ & Ht & Hx). apply Hno. unfold inhabited_value. rewrite Ht. eauto.
  - intros name ty. rewrite <-Permutation_middle, has_entry_cons.
    rewrite (key_name_eq _ _ Hk), (key_type_eq _ _ Hk). tauto.
Qed.

Lemma grown_reduce (l1 l2 : Resources) (e e' : Resource_) (r : Resource) :
  key (resource e) = key r → value_wf (resource e) → value_wf r → value_le r (resource e) →
  resource e' = resource_sub (resource e) r →
  grown (l1 ++ e' :: l2) r (l1 ++ e :: l2).
Proof.
  intros Hk Ve Vr Hle He'. split_and!.
  - intros name. rewrite <-!Permutation_middle, !amount_cons, He', amount_sub by done. lia.
  - intros name x. rewrite <-!Permutation_middle, !in_ranges_cons, He'.
    rewrite (in_ranges_sub name x (resource e) r) by done. tauto.
  - intros name x. rewrite <-!Permutation_middle, !in_set_cons, He'.
    rewrite (in_set_sub name x (resource e) r) by done. tauto.
  - intros name ty. rewrite <-!Permutation_middle, !has_entry_cons, He'.
    destruct (resource_sub_meta (resource e) r) as (_ & _ & _ & _ & _ & _ & _ & -> & ->).
    rewrite (key_name_eq _ _ Hk), (key_type_eq _ _ Hk). tauto.
Qed.

Lemma subtract_spec (rs : Resources) (that : Resource_) :
  resources_wf rs → entry_wf that → isShared_ that = false → _contains rs that = true →
  ∃ rs', subtract rs that = Ok rs' ∧ resources_wf rs' ∧ grown rs' (resource that) rs.
Proof.
  intros Hwf Ht Hns Hc.
  destruct (subtract_target rs that Hwf Ht Hc) as (l1 & e & l2 & -> & He & Hce & Hfind).
  unfold subtract. rewrite isEmpty_entry by done. cbn [mbind outcome_bind]. rewrite Hfind.
  rewrite list_lookup_middle by done.
  destruct (remainder_entry e that He Ht Hns Hce)
    as (-> & Hneg & Hemp & Vd & Hk & Hle & Hcl & Hwf').
  cbn [mbind outcome_bind]. rewrite Hneg, Hemp. cbn [mbind outcome_bind].
  pose proof He as (_ & Ve & _). pose proof Ht as (_ & Vt & _).
  destruct (empty_value _) eqn:E.
  - eexists. split; [done|]. rewrite remove_swap_perm. split; [by eapply resources_wf_remove|].
    by apply grown_remove.
  - rewrite insert_app_r_alt, Nat.sub_diag by lia. cbn [insert list_insert].
    eexists. split; [done|]. split.
    + eapply resources_wf_replace; [done|auto|done].
    + by apply grown_reduce.
Qed.
End Subtract.

(** ** The totals that [get<T>] computes *)

Definition is_entry (name : string) (ty : ValueType) (e : Resource_) : bool :=
  String.eqb (r_name (resource e)) name && type_eqb (r_type (resource e)) ty.

Lemma is_entry_iff (name : string) (ty : ValueType) (e : Resource_) :
  is_entry name ty e = true ↔ r_name (resource e) = name ∧ r_type (resource e) = ty.
Proof. unfold is_entry, type_eqb. by rewrite andb_true_iff, String.eqb_eq, bool_decide_eq_true. Qed.

Lemma in_ranges_of_iff (name : string) (x : Z) (e : Resource_) :
  in_ranges_of name x (resource e) ↔
  is_entry name RANGES e = true ∧ rmem x (ranges_of (resource e)).
Proof. unfold in_ranges_of. rewrite is_entry_iff. tauto. Qed.

Lemma scalar_total_fold (name : string) (rs : Resources) (t : Scalar) (f : bool) :
  Forall entry_wf rs → 0 ≤ fixed t → in_range (fixed t + amount name rs) →
  (f = true → t = mkScalar (convertToFloating (fixed t))) →
  let '(t', f') := foldl (total_step SCALAR scalar_of scalar_add name) (t, f) rs in
  fixed t' = fixed t + amount name rs ∧ (f' = true ↔ f = true ∨ has_entry name SCALAR rs) ∧
  (f' = true → t' = mkScalar (convertToFloating (fixed t'))).
Proof.
  intros Hf. revert t f. induction Hf as [|e rs (_ & Ve & _) Hf IH]; intros t f Ht Hr Hval.
  { cbn. split; [lia|]. split; [|done]. split; [auto|]. intros [?|(e & He & _)]; [done|].
    by apply elem_of_nil in He. }
  rewrite amount_cons in *. cbn [foldl]. unfold total_step at 2. cbn [fst].
  pose proof (amount_nonneg name rs Hf) as Hnn.
  pose proof (has_entry_cons name SCALAR e rs) as Hh. rewrite <-is_entry_iff in Hh.
  unfold amount_of in *. fold (is_entry name SCALAR e) in *.
  destruct (is_entry name SCALAR e) eqn:E.
  - apply is_entry_iff in E as [_ Hty]. destruct (value_wf_scalar _ Ve Hty) as [Hp _].
    assert (Hin : in_range (fixed t + fixed (scalar_of (resource e))))
      by (unfold in_range in *; lia).
    specialize (IH (scalar_add t (scalar_of (resource e))) true).
    rewrite fixed_add in IH by done. destruct (foldl _ _ rs) as [t' f'].
    destruct IH as (H1 & H2 & H3); [lia|by rewrite <-Z.add_assoc| |].
    { intros _. pose proof (scalar_add_value t (scalar_of (resource e)) Hin) as Hv.
      destruct (scalar_add t _); cbn in *. by rewrite Hv. }
    split; [lia|]. split; [|done]. rewrite H2, Hh. tauto.
  - specialize (IH t f Ht). destruct (foldl _ _ rs) as [t' f'].
    destruct IH as (H1 & H2 & H3); [by rewrite Z.add_0_l in Hr|done|].
    split; [lia|]. split; [|done]. rewrite H2, Hh. intuition congruence.
Qed.

(** The total of a scalar is its exact amount. *)
Lemma get_scalar_spec (rs : Resources) (name : string) :
  Forall entry_wf rs → in_range (amount name rs) →
  (has_entry name SCALAR rs →
   get_scalar rs name = Some (mkScalar (convertToFloating (amount name rs)))) ∧
  (¬ has_entry name SCALAR rs → get_scalar rs name = None).
Proof.
  intros Hf Hr. unfold get_scalar, get_total.
  pose proof (scalar_total_fold name rs scalar_default false Hf) as Hfold.
  rewrite fixed_default, Z.add_0_l in Hfold.
  destruct (foldl _ _ rs) as [t f]. destruct Hfold as (Ht & Hfound & Hval); [done|done|done|].
  destruct f.
  - split; [intros _; by rewrite Hval, Ht|]. intros Hno. by destruct (proj1 Hfound eq_refl).
  - split; [|done]. intros Hyes. discriminate (proj2 Hfound (or_intror Hyes)).
Qed.

Lemma ranges_total_fold (name : string) (rs : Resources) (t : Ranges) (f : bool) :
  Forall entry_wf rs → Forall range_wf t →
  let '(t', f') := foldl (total_step RANGES ranges_of ranges_add_assign name) (t, f) rs in
  Forall range_wf t' ∧ (∀ x, rmem x t' ↔ rmem x t ∨ in_ranges name x rs) ∧
  (f' = true ↔ f = true ∨ has_entry name RANGES rs).
Proof.
  intros Hf. revert t f. induction Hf as [|e rs (_ & Ve & _) Hf IH]; intros t f Ht.
  { cbn. split; [done|]. unfold in_ranges, has_entry. setoid_rewrite elem_of_nil.
    split; [intros x|]; naive_solver. }
  cbn [foldl]. unfold total_step at 2. cbn [fst]. fold (is_entry name RANGES e).
  pose proof (has_entry_cons name RANGES e rs) as Hh. rewrite <-is_entry_iff in Hh.
  pose proof (fun x => in_ranges_cons name x e rs) as Hi.
  setoid_rewrite in_ranges_of_iff in Hi.
  destruct (is_entry name RANGES e) eqn:E.
  - apply is_entry_iff in E as [_ Hty].
    destruct (ranges_add_assign_spec t (ranges_of (resource e)) Ht) as [Hc Hm];
      [auto with urb|].
    specialize (IH (ranges_add_assign t (ranges_of (resource e))) true
                  (canonical_wf _ Hc)).
    destruct (foldl _ _ rs) as [t' f']. destruct IH as (H1 & H2 & H3).
    split; [done|]. split; [|rewrite H3, Hh; tauto]. intros x. rewrite H2, Hm, Hi. tauto.
  - specialize (IH t f Ht). destruct (foldl _ _ rs) as [t' f'].
    destruct IH as (H1 & H2 & H3). split; [done|].
    split; [intros x; rewrite H2, Hi|rewrite H3, Hh]; intuition congruence.
Qed.

Lemma get_ranges_spec (rs : Resources) (name : string) :
  Forall entry_wf rs →
  (has_entry name RANGES rs →
   ∃ t, get_ranges rs name = Some t ∧ Forall range_wf t ∧
        ∀ x, rmem x t ↔ in_ranges name x rs) ∧
  (¬ has_entry name RANGES rs → get_ranges rs name = None).
Proof.
  intros Hf. unfold get_ranges, get_total.
  pose proof (ranges_total_fold name rs [] false Hf ltac:(constructor)) as Hfold.
  destruct (foldl _ _ rs) as [t f]. destruct Hfold as (Hwf & Hm & Hfound).
  destruct f.
  - split; [|intros Hno; by destruct (proj1 Hfound eq_refl)]. intros _. exists t.
    split; [done|]. split; [done|]. intros x. rewrite Hm. split; [|auto].
    intros [Hx|]; [by apply rmem_nil in Hx|done].
  - split; [|done]. intros Hyes. discriminate (proj2 Hfound (or_intror Hyes)).
Qed.

(** ** Exchanging one resource for another *)

(** The same totals of every resource. *)
Definition same_totals (rs rs' : Resources) : Prop :=
  (∀ name, amount name rs' = amount name rs) ∧
  (∀ name x, in_ranges name x rs' ↔ in_ranges name x rs) ∧
  (∀ name x, in_set name x rs' ↔ in_set name x rs) ∧
  (∀ name ty, has_entry name ty rs' ↔ has_entry name ty rs).

#[export] Instance same_totals_equiv : Equivalence same_totals.
Proof.
  split.
  - by intros rs.
  - intros rs rs' (H1 & H2 & H3 & H4). split_and!; intros;
      [by rewrite H1|by rewrite H2|by rewrite H3|by rewrite H4].
  - intros a b c (H1 & H2 & H3 & H4) (K1 & K2 & K3 & K4). split_and!; intros;
      [by rewrite K1, H1|by rewrite K2, H2|by rewrite K3, H3|by rewrite K4, H4].
Qed.

(** The same amount under other metadata. *)
Definition same_value (a b : Resource) : Prop :=
  r_name a = r_name b ∧ r_type a = r_type b ∧ r_scalar a = r_scalar b ∧
  r_ranges a = r_ranges b ∧ r_set a = r_set b.

Lemma grown_exchange (rest rs rs' : Resources) (a b : Resource) :
  same_value a b → grown rest a rs → grown rest b rs' → same_totals rs rs'.
Proof.
  intros (Hn & Ht & Hs & Hr & He) (A1 & A2 & A3 & A4) (B1 & B2 & B3 & B4). split_and!.
  - intros name. rewrite A1, B1. unfold amount_of, scalar_of. by rewrite Hn, Ht, Hs.
  - intros name x. rewrite A2, B2. unfold in_ranges_of, ranges_of. by rewrite Hn, Ht, Hr.
  - intros name x. rewrite A3, B3. unfold in_set_of, set_of. by rewrite Hn, Ht, He.
  - intros name ty. rewrite A4, B4. by rewrite Hn, Ht.
Qed.

(** An operand of an operation: well formed and not shared, possibly empty. *)
Definition operand_wf (r : Resource) : Prop :=
  meta_wf r ∧ value_wf r ∧ post_format r ∧ r_shared r = false.

Lemma plain_operand (r : Resource) : plain_wf r → post_format r → operand_wf r.
Proof. intros (Hm & Hv & Hs) Hp. by do 3 (split; [done|]). Qed.

Lemma operand_entry (r : Resource) :
  operand_wf r → empty_value r = false → entry_wf (Resource__of r).
Proof.
  intros (Hm & Hv & Hp & Hs) He. unfold Resource__of. rewrite Hs.
  do 3 (split; [done|]). unfold isShared_; cbn. by rewrite Hs.
Qed.

Lemma operand_shared (r : Resource) : operand_wf r → isShared_ (Resource__of r) = false.
Proof. intros (_ & _ & _ & Hs). unfold Resource__of. by rewrite Hs. Qed.

Lemma operand_empty (r : Resource) :
  operand_wf r → isEmpty_ (Resource__of r) = Ok (empty_value r).
Proof.
  intros Hr. unfold isEmpty_. rewrite operand_shared by done. cbn.
  apply isEmpty_post, Hr.
Qed.

Lemma same_value_empty (a b : Resource) : same_value a b → empty_value a = empty_value b.
Proof.
  intros (_ & Ht & Hs & Hr & He). unfold empty_value, scalar_of, ranges_of, set_of.
  by rewrite Ht, Hs, Hr, He.
Qed.

Definition amounts_in_range (rs : Resources) : Prop := ∀ name, in_range (amount name rs).

Lemma exchange `{IclLaws} (rs : Resources) (a b : Resource) :
  resources_wf rs → amounts_in_range rs → operand_wf a → operand_wf b → same_value a b →
  _contains rs (Resource__of a) = true →
  ∃ rest rs', subtract rs (Resource__of a) = Ok rest ∧ add rest (Resource__of b) = Ok rs' ∧
              resources_wf rest ∧ resources_wf rs' ∧ same_totals rs rs'.
Proof.
  intros Hwf Hr Ha Hb Hv Hc. destruct (empty_value a) eqn:Ea.
  - exists rs, rs. unfold subtract, add. rewrite !operand_empty by done.
    rewrite <-(same_value_empty a b Hv), Ea. cbn. by do 4 (split; [done|]).
  - assert (Eb : empty_value b = false) by by rewrite <-(same_value_empty a b Hv).
    destruct (subtract_spec rs (Resource__of a)) as (rest & Hsub & Hwf1 & Hg);
      [done|by apply operand_entry|by apply operand_shared|done|].
    destruct (add_spec rest (Resource__of b)) as (rs' & Hadd & Hwf2 & Hg');
      [done|by apply operand_entry|by apply operand_shared| |].
    { intros name. destruct Hg as (Hg & _). specialize (Hr name). rewrite Hg in Hr.
      destruct Hv as (Hn & Ht & Hs & _). unfold amount_of, scalar_of in *. cbn in *.
      by rewrite <-Hn, <-Ht, <-Hs. }
    exists rest, rs'. do 4 (split; [done|]). by eapply grown_exchange.
Qed.

Lemma same_totals_in_range (rs rs' : Resources) :
  same_totals rs rs' → amounts_in_range rs → amounts_in_range rs'.
Proof. intros (H1 & _) Hr name. rewrite H1. apply Hr. Qed.

(** ** What was added is contained *)

Lemma contains_self (e : Resource_) :
  entry_wf e → isShared_ e = false → contains_ e e = true.
Proof.
  intros (Me & Ve & _ & Se & _) Hns. unfold contains_. rewrite Hns. cbn.
  rewrite Hns in Se. apply resource_contains_iff; auto using value_eqb_refl, value_le_refl.
Qed.

Lemma contains_merged (e e' that : Resource_) :
  entry_wf e → entry_wf that → isShared_ that = false →
  addable (resource e) (resource that) = true →
  sum_in_range (resource e) (resource that) → add_ e that = Ok e' →
  contains_ e' that = true.
Proof.
  intros He Ht Hns Hadd Hsum Heq.
  destruct (merged_entry_wf e that) as (e'' & Heq' & He' & Hk & Hcl & Hre); [done..|].
  rewrite Heq in Heq'. injection Heq' as <-.
  pose proof (addable_same_shared _ _ Hadd) as Hsh.
  destruct He as (Me & Ve & _), Ht as (Mt & Vt & _ & St & _), He' as (Me' & Ve' & _ & Se' & _).
  rewrite Hns in St. assert (Hse : r_shared (resource e') = false).
  { rewrite Hre. destruct (resource_add_meta (resource e) (resource that)) as (_ & -> & _).
    congruence. }
  apply addable_iff in Hadd as (_ & _ & Hex); [|done|done|congruence].
  unfold contains_. rewrite Hns, Se', Hse. cbn.
  destruct (resource_add_meta (resource e) (resource that)) as (Hka & _).
  rewrite <-Hre in Hka. apply resource_contains_iff; [done..|].
  split; [done|]. split; [congruence|].
  rewrite (key_exclusive _ _ Hka), Hex. split; [done|]. rewrite Hre.
  apply add_value_le; auto using key_type_eq.
Qed.

Lemma add_contains (rs rs' : Resources) (that : Resource_) :
  resources_wf rs → entry_wf that → isShared_ that = false →
  totals_in_range rs (resource that) → add rs that = Ok rs' →
  _contains rs' that = true.
Proof.
  intros [Hf _] Ht Hns Htot Hadd. unfold add in Hadd. rewrite isEmpty_entry in Hadd by done.
  cbn in Hadd. unfold _contains. apply any_true.
  destruct (add_loop_cases rs that) as [(l1 & e & l2 & -> & Hae & Heq)|[_ Heq]];
    rewrite Heq in Hadd.
  - outcome_inv. exists a. split; [set_solver|].
    assert (He : entry_wf e) by (rewrite Forall_forall in Hf; apply Hf; set_solver).
    eapply contains_merged; [exact He|done|done|done| |done].
    pose proof He as (Me & Ve & _ & Se & _). pose proof Ht as (Mt & Vt & _ & St & _).
    eapply sum_in_range_of_total; [exact Hf|done|set_solver| |done].
    pose proof (addable_same_shared _ _ Hae). apply addable_iff in Hae as (_ & Hk & _);
      [done..|congruence].
  - injection Hadd as <-. exists that. split; [set_solver|]. by apply contains_self.
Qed.

(** After an exchange the collection contains what was put in. *)
Lemma exchange_contains `{IclLaws} (rs rest rs' : Resources) (a b : Resource) :
  resources_wf rs → amounts_in_range rs → operand_wf a → operand_wf b → same_value a b →
  empty_value a = false → _contains rs (Resource__of a) = true →
  subtract rs (Resource__of a) = Ok rest → add rest (Resource__of b) = Ok rs' →
  _contains rs' (Resource__of b) = true.
Proof.
  intros Hwf Hr Ha Hb Hv Ea Hc Hsub Hadd.
  destruct (subtract_spec rs (Resource__of a)) as (rest' & Hsub' & Hwf1 & Hg & _);
    [done|by apply operand_entry|by apply operand_shared|done|].
  rewrite Hsub in Hsub'. injection Hsub' as <-.
  apply (add_contains rest); [done| |by apply operand_shared| |done].
  - apply operand_entry; [done|]. by rewrite <-(same_value_empty a b Hv).
  - intros name. specialize (Hr name). rewrite Hg in Hr.
    destruct Hv as (Hn & Ht & Hs & _). unfold amount_of, scalar_of in *. cbn in *.
    by rewrite <-Hn, <-Ht, <-Hs.
Qed.

(** ** The total of a scalar, in thousandths *)

Definition thousandths (name : string) (rs : Resources) : Z :=
  default 0 (fixed <$> get_scalar rs name).

Lemma no_entry_amount (name : string) (rs : Resources) :
  ¬ has_entry name SCALAR rs → amount name rs = 0.
Proof.
  induction rs as [|e rs IH]; [done|]. rewrite has_entry_cons, amount_cons. intros Hno.
  rewrite IH by tauto. unfold amount_of, type_eqb.
  destruct (String.eqb_spec (r_name (resource e)) name); [|done]. cbn.
  case_bool_decide; [tauto|done].
Qed.

Lemma thousandths_amount (name : string) (rs : Resources) :
  Forall entry_wf rs → in_range (amount name rs) → thousandths name rs = amount name rs.
Proof.
  intros Hf Hr. destruct (get_scalar_spec rs name Hf Hr) as [Hy Hn]. unfold thousandths.
  destruct (has_entry_dec name SCALAR rs) as [He|He].
  - rewrite (Hy He). cbn. by apply fixed_floating.
  - by rewrite (Hn He), no_entry_amount.
Qed.

(** ** Properties *)

(** C29: The totals reported by [cpus()], [mem()] and the like are exact.  Of a
    well-formed collection the total of a name is the [double] of the sum of the
    thousandths of its entries, and there is none without an entry.  Adding a well-formed
    resource that is not shared, when the sums stay in range, raises the total of its name
    by exactly its thousandths and leaves the others; subtracting one that is contained
    lowers it by exactly that. *)
Theorem scalar_totals_exact `{IclLaws} (rs : Resources) (that : Resource_) :
  resources_wf rs → amounts_in_range rs → entry_wf that → isShared_ that = false →
  (∀ name, (has_entry name SCALAR rs →
            get_scalar rs name = Some (mkScalar (convertToFloating (amount name rs)))) ∧
           (¬ has_entry name SCALAR rs → get_scalar rs name = None)) ∧
  (totals_in_range rs (resource that) →
   ∃ rs', add rs that = Ok rs' ∧
     ∀ name, thousandths name rs' = thousandths name rs + amount_of name (resource that)) ∧
  (_contains rs that = true →
   ∃ rs', subtract rs that = Ok rs' ∧
     ∀ name, thousandths name rs' = thousandths name rs - amount_of name (resource that)).
Proof.
  intros Hwf Hr Ht Hns. pose proof Hwf as [Hf _]. pose proof Ht as (_ & Vt & _).
  split_and!.
  - intros name. by apply get_scalar_spec.
  - intros Htot. destruct (add_spec rs that Hwf Ht Hns Htot) as (rs' & Hadd & [Hf' _] & Hg & _).
    exists rs'. split; [done|]. intros name. specialize (Hg name).
    rewrite !thousandths_amount; rewrite ?Hg; try done; apply Htot.
  - intros Hc. destruct (subtract_spec rs that Hwf Ht Hns Hc) as (rs' & Hsub & [Hf' _] & Hg & _).
    exists rs'. split; [done|]. intros name. specialize (Hg name). specialize (Hr name).
    pose proof (amount_of_nonneg name _ Vt). pose proof (amount_nonneg name _ Hf').
    rewrite !thousandths_amount; [lia|done|done|done|]. unfold in_range in *. lia.
Qed.

Lemma scalar_totals_exact_witness :
  let reserved := with_reservations (scalar_resource "cpus" 200)
    [mkReservation (Some STATIC) (Some "eng") None None] in
  let rs := [Resource__of (scalar_resource "cpus" 100); Resource__of reserved] in
  get_scalar rs "cpus" = Some (mkScalar (convertToFloating 300)) ∧
  ∃ rs', subtract (H:=gset_icl) rs (Resource__of reserved) = Ok rs' ∧ thousandths "cpus" rs' = 100.
Proof.
  intros reserved rs.
  assert (Ha : plain_wf (scalar_resource "cpus" 100)) by
    (apply scalar_resource_wf; unfold in_range, fixed_bound; lia).
  assert (Hb : plain_wf (scalar_resource "cpus" 200)) by
    (apply scalar_resource_wf; unfold in_range, fixed_bound; lia).
  assert (Hres : entry_wf (Resource__of reserved)).
  { apply operand_entry; [|vm_compute; reflexivity]. destruct Hb as (_ & Hv & _).
    split; [split; [by repeat constructor|done]|]. by split. }
  destruct (@scalar_totals_exact gset_icl gset_icl_laws rs (Resource__of reserved)) as (Hget & _ & Hsub).
  - split; [|by repeat constructor]. constructor; [|by constructor].
    apply operand_entry; [by apply plain_operand|vm_compute; reflexivity].
  - intros name. unfold rs, reserved, amount, foldr, amount_of.
    destruct (String.eqb _ name); unfold in_range, fixed_bound; vm_compute; discriminate.
  - exact Hres.
  - reflexivity.
  - split.
    + apply (Hget "cpus"). exists (Resource__of reserved). split; [right; left|done].
    + destruct Hsub as (rs' & Hsub & Hth); [vm_compute; reflexivity|].
      exists rs'. split; [exact Hsub|]. rewrite Hth. vm_compute. reflexivity.
Defined.
