(* ===== verification/ResourcesEqual.v ===== *)
(** * ResourcesEqual: when two [Resources] hold the same

    Two collections hold the same when their entries do, up to their order and up to the
    writing of the values: the amount in thousandths, the numbers of the ranges, the items
    of the set.  Collections that hold the same are equal for [operator==]
    ([same_holdings_eq]).  What is added can be taken away again, and what is taken away
    can be put back, and the collection holds the same as before. *)

From S2P Require Import Prelude Binary64 Scalars Ranges IntervalSets StoutStrings Values.
From S2P Require Import Roles Resource ResourceValidate Resources ResourcesLaws.
#[local] Open Scope string_scope.
#[local] Open Scope list_scope.
#[local] Open Scope Z_scope.

(** ** What an entry holds *)

(** The order of the items matters for the entries that can only be taken as a whole. *)
Definition whole (r : Resource) : bool := exclusive r || r_shared r.

Definition holding (r : Resource) : Z * Ranges * gset string * list string :=
  match r_type r with
  | SCALAR => (fixed (scalar_of r), [], ∅, [])
  | RANGES => (0, coalesce_ref (ranges_of r), ∅, [])
  | SET => (0, [], list_to_set (set_of r), if whole r then set_of r else [])
  | TEXT => (0, [], ∅, [])
  end.

Definition view (e : Resource_) : Key * bool * Z * (Z * Ranges * gset string * list string) :=
  (key (resource e), r_shared (resource e), count_of e, holding (resource e)).

Definition same_holdings (rs rs' : Resources) : Prop := (view <$> rs) ≡ₚ (view <$> rs').

#[export] Instance same_holdings_equiv : Equivalence same_holdings.
Proof.
  unfold same_holdings.
  split; [by intros rs|by intros rs rs'|intros a b c Hab Hbc; by rewrite Hab].
Qed.

#[export] Instance same_holdings_perm : Proper ((≡ₚ) ==> (≡ₚ) ==> iff) same_holdings.
Proof. intros l k Hp l' k' Hp'. unfold same_holdings. by rewrite Hp, Hp'. Qed.

Lemma same_holdings_cons e e' l l' :
  view e = view e' → same_holdings (e :: l) (e' :: l') ↔ same_holdings l l'.
Proof.
  intros Hv. unfold same_holdings. cbn [fmap list_fmap]. rewrite Hv. split.
  - apply Permutation_cons_inv.
  - intros Hp. by apply Permutation_skip.
Qed.

Lemma coalesce_ref_eq (a b : Ranges) :
  Forall range_wf a → Forall range_wf b →
  coalesce_ref a = coalesce_ref b ↔ ∀ x, rmem x a ↔ rmem x b.
Proof.
  intros Ha Hb. destruct (coalesce_ref_spec a Ha) as [Ca Ma], (coalesce_ref_spec b Hb) as [Cb Mb].
  split.
  - intros He x. by rewrite <-Ma, <-Mb, He.
  - intros Hx. apply canonical_unique; [done|done|]. intros x. by rewrite Ma, Mb.
Qed.

Lemma whole_key a b : key a = key b → r_shared a = r_shared b → whole a = whole b.
Proof. intros Hk Hs. unfold whole. by rewrite (key_exclusive _ _ Hk), Hs. Qed.

Lemma holding_iff (a b : Resource) :
  key a = key b → r_shared a = r_shared b → value_wf a → value_wf b →
  holding a = holding b ↔
  value_le a b ∧ value_le b a ∧ (whole a = true → value_eqb a b = true).
Proof.
  intros Hk Hs Va Vb. pose proof (key_type_eq _ _ Hk) as Ht. pose proof (whole_key _ _ Hk Hs) as Hw.
  pose proof (value_wf_ranges _ Va) as Ra. pose proof (value_wf_ranges _ Vb) as Rb.
  unfold holding, value_le, value_eqb. rewrite <-Ht, <-Hw in *.
  destruct (r_type a) eqn:E.
  - rewrite scalar_eq_fixed. split; [intros [= ->]; lia|]. intros (? & ? & _). f_equal. f_equal. f_equal. lia.
  - specialize (Ra eq_refl). specialize (Rb eq_refl). rewrite ranges_eq_iff by done. split.
    + intros [= He]. rewrite coalesce_ref_eq in He by done. split_and!; [intros x; apply He..|done].
    + intros (H1 & H2 & _). do 2 f_equal. f_equal. apply coalesce_ref_eq; [done..|]. split; auto.
  - rewrite set_eq_iff. split.
    + intros [= He Hl]. split_and!.
      * intros x Hx. apply (elem_of_list_to_set (C:=gset string)). rewrite <-He.
        by apply elem_of_list_to_set.
      * intros x Hx. apply (elem_of_list_to_set (C:=gset string)). rewrite He.
        by apply elem_of_list_to_set.
      * by destruct (whole a).
    + intros (H1 & H2 & Hl). f_equal; [f_equal; set_solver|].
      destruct (whole a); [by apply Hl|done].
  - unfold value_wf in Va. by rewrite E in Va.
Qed.

Lemma view_iff (a b : Resource_) :
  entry_wf a → entry_wf b →
  view a = view b ↔
  key (resource a) = key (resource b) ∧ r_shared (resource a) = r_shared (resource b) ∧
  count_of a = count_of b ∧ value_le (resource a) (resource b) ∧
  value_le (resource b) (resource a) ∧
  (whole (resource a) = true → value_eqb (resource a) (resource b) = true).
Proof.
  intros (_ & Va & _) (_ & Vb & _). unfold view. rewrite !pair_equal_spec. split.
  - intros [[[Hk Hs] Hc] Hh]. apply holding_iff in Hh; [|done..]. done.
  - intros (Hk & Hs & Hc & Hh). split_and!; [done..|]. by apply holding_iff.
Qed.

(** Entries with the same view contain each other. *)
Lemma view_contains (a b : Resource_) :
  entry_wf a → entry_wf b → view a = view b → contains_ a b = true.
Proof.
  intros Ha Hb Hv. apply view_iff in Hv as (Hk & Hs & Hc & H1 & H2 & He); [|done..].
  destruct Ha as (Ma & Va & _ & Sa & _), Hb as (Mb & Vb & _ & Sb & _).
  unfold contains_. rewrite Sa, Sb, Hs, eqb_reflx. cbn [negb].
  destruct (r_shared (resource b)) eqn:E.
  - rewrite Hc, Z.leb_refl. cbn [andb]. apply resource_eqb_iff; [done..|]. split_and!; [done|congruence|].
    apply He. unfold whole. rewrite Hs, orb_true_r. done.
  - apply resource_contains_iff; [done..|]. split_and!; [done|done| |done].
    intros Hx. apply He. unfold whole. by rewrite Hx.
Qed.

(** ** Entries that are taken as a whole *)

Lemma subtractable_whole (a that : Resource_) :
  entry_wf a → entry_wf that → whole (resource that) = true →
  subtractable (resource a) (resource that) = true →
  key (resource a) = key (resource that) ∧ r_shared (resource a) = r_shared (resource that) ∧
  value_eqb (resource a) (resource that) = true.
Proof.
  intros (Ma & Va & _) (Mt & Vt & _) Hw Hs.
  assert (Hsh : r_shared (resource a) = r_shared (resource that)).
  { unfold subtractable in Hs. by destruct (Bool.eqb_spec (r_shared (resource a)) (r_shared (resource that))). }
  destruct (r_shared (resource a)) eqn:Ea.
  - rewrite subtractable_shared in Hs by done. apply resource_eqb_iff in Hs as (? & ? & ?); [|done..].
    split_and!; congruence.
  - apply subtractable_iff in Hs as (_ & Hk & He); [|done..].
    unfold whole in Hw. rewrite <-Hsh, orb_false_r, <-(key_exclusive _ _ Hk) in Hw.
    specialize (He Hw). apply resource_eqb_iff in He as (? & ? & ?); done.
Qed.

Lemma value_eqb_holding (a b : Resource) :
  key a = key b → r_shared a = r_shared b → value_wf a → value_wf b →
  value_eqb a b = true → holding a = holding b.
Proof.
  intros Hk Hs Va Vb Hv. rewrite holding_iff by done.
  destruct (value_eqb_le a b Va Vb (key_type_eq _ _ Hk) Hv). done.
Qed.

(** ** Values and arithmetic *)

Section values.
Context `{IclLaws}.

Lemma value_le_sub_self_empty (a b : Resource) :
  value_wf a → value_wf b → r_type a = r_type b → value_le a b → value_le b a →
  empty_value (resource_sub a b) = true.
Proof.
  intros Va Vb Ht H1 H2. pose proof (resource_sub_value_wf a b Va Vb Ht H2) as Vd.
  destruct (empty_value (resource_sub a b)) eqn:E; [done|]. exfalso.
  apply empty_value_iff in E; [|done]. unfold inhabited_value in E.
  destruct (resource_sub_meta a b) as (_ & _ & _ & _ & _ & _ & _ & Hty & _). rewrite Hty in E.
  pose proof (value_wf_scalar _ Va) as Sa. pose proof (value_wf_scalar _ Vb) as Sb.
  pose proof (value_wf_ranges _ Va) as Ra. pose proof (value_wf_ranges _ Vb) as Rb.
  pose proof (value_wf_set _ Va) as Na.
  unfold value_le in *. rewrite <-Ht in *. destruct (r_type a) eqn:Ea.
  - rewrite resource_sub_scalar in E by done. destruct (Sa eq_refl), (Sb eq_refl).
    rewrite fixed_sub in E by (unfold in_range in *; lia). lia.
  - destruct E as (x & Hx). rewrite resource_sub_ranges in Hx by done.
    apply (ranges_sub_assign_spec (T:=icl_T)) in Hx as [Hx1 Hx2]; auto.
  - destruct E as (x & Hx). rewrite resource_sub_set, set_sub_assign_filter in Hx by auto.
    apply list_elem_of_filter in Hx as [Hx1 Hx2]. auto.
  - done.
Qed.

Lemma empty_sub_le (a b : Resource) :
  value_wf a → value_wf b → r_type a = r_type b → value_le b a →
  empty_value (resource_sub a b) = true → value_le a b.
Proof.
  intros Va Vb Ht Hle He. pose proof (resource_sub_value_wf a b Va Vb Ht Hle) as Vd.
  assert (Hno : ¬ inhabited_value (resource_sub a b)).
  { rewrite <-empty_value_iff by done. congruence. }
  unfold inhabited_value in Hno.
  destruct (resource_sub_meta a b) as (_ & _ & _ & _ & _ & _ & _ & Hty & _). rewrite Hty in Hno.
  pose proof (value_wf_scalar _ Va) as Sa. pose proof (value_wf_scalar _ Vb) as Sb.
  pose proof (value_wf_ranges _ Va) as Ra. pose proof (value_wf_ranges _ Vb) as Rb.
  pose proof (value_wf_set _ Va) as Na.
  unfold value_le in *. rewrite <-Ht in *. destruct (r_type a) eqn:Ea.
  - rewrite resource_sub_scalar in Hno by done. destruct (Sa eq_refl), (Sb eq_refl).
    rewrite fixed_sub in Hno by (unfold in_range in *; lia). lia.
  - rewrite resource_sub_ranges in Hno by done. intros x Hx.
    destruct (rmem_dec x (ranges_of b)) as [|Hn]; [done|]. destruct Hno. exists x.
    apply (ranges_sub_assign_spec (T:=icl_T)); auto.
  - rewrite resource_sub_set, set_sub_assign_filter in Hno by auto. intros x Hx.
    destruct (decide (x ∈ set_of b)) as [|Hn]; [done|]. destruct Hno. exists x.
    by apply list_elem_of_filter.
  - done.
Qed.

(** A part that is taken away and put back. *)
Lemma sub_add_le (a b : Resource) :
  value_wf a → value_wf b → r_type a = r_type b → value_le b a →
  value_le (resource_add (resource_sub a b) b) a ∧
  value_le a (resource_add (resource_sub a b) b).
Proof.
  intros Va Vb Ht Hle. pose proof (resource_sub_value_wf a b Va Vb Ht Hle) as Vd.
  destruct (resource_sub_meta a b) as (_ & _ & _ & _ & _ & _ & _ & Hty & _).
  destruct (resource_add_meta (resource_sub a b) b) as (_ & _ & _ & _ & _ & _ & _ & Hty' & _).
  pose proof (value_wf_scalar _ Va) as Sa. pose proof (value_wf_scalar _ Vb) as Sb.
  pose proof (value_wf_ranges _ Va) as Ra. pose proof (value_wf_ranges _ Vb) as Rb.
  pose proof (value_wf_ranges _ Vd) as Rd. pose proof (value_wf_set _ Va) as Na.
  unfold value_le in *. rewrite Hty', Hty in *. rewrite <-Ht in *. destruct (r_type a) eqn:Ea.
  - destruct (Sa eq_refl), (Sb eq_refl).
    assert (Hd : fixed (scalar_of (resource_sub a b)) = fixed (scalar_of a) - fixed (scalar_of b)).
    { rewrite resource_sub_scalar by done. apply fixed_sub. unfold in_range in *; lia. }
    rewrite resource_add_scalar by congruence. rewrite fixed_add; rewrite Hd; [lia|].
    by rewrite Z.sub_add.
  - rewrite resource_add_ranges by congruence.
    destruct (ranges_add_assign_spec (ranges_of (resource_sub a b)) (ranges_of b)) as [_ Hm]; [by auto..|].
    destruct (ranges_sub_assign_spec (T:=icl_T) (ranges_of a) (ranges_of b)) as [_ Hs]; [by auto..|].
    split; intros x; rewrite Hm, resource_sub_ranges, Hs by done; [naive_solver|].
    intros Hx. destruct (rmem_dec x (ranges_of b)); auto.
  - rewrite resource_add_set by congruence.
    destruct (set_add_assign_spec (set_of (resource_sub a b)) (set_of b)) as [Hm _].
    assert (Hs : ∀ x, x ∈ set_of (resource_sub a b) ↔ (x ∉ set_of b) ∧ x ∈ set_of a).
    { intros x. by rewrite resource_sub_set, set_sub_assign_filter, list_elem_of_filter by auto. }
    split; intros x; rewrite Hm, Hs; [naive_solver|]. intros Hx. destruct (decide (x ∈ set_of b)); auto.
  - done.
Qed.

(** Sums of parts with the same holding. *)
Lemma resource_add_mono (a b c : Resource) :
  value_wf a → value_wf b → value_wf c → r_type a = r_type c → r_type b = r_type c →
  sum_in_range a c → sum_in_range b c →
  value_le a b → value_le (resource_add a c) (resource_add b c).
Proof.
  intros Va Vb Vc Ha Hb Sa Sb Hle.
  destruct (resource_add_meta a c) as (_ & _ & _ & _ & _ & _ & _ & Hty & _).
  pose proof (value_wf_ranges _ Va) as Ra. pose proof (value_wf_ranges _ Vb) as Rb.
  pose proof (value_wf_ranges _ Vc) as Rc.
  unfold value_le, sum_in_range in *. rewrite Hty. rewrite Hb in *. rewrite Ha in *.
  destruct (r_type c) eqn:E.
  - rewrite !resource_add_scalar, !fixed_add by (done || auto). lia.
  - rewrite !resource_add_ranges by done.
    destruct (ranges_add_assign_spec (ranges_of a) (ranges_of c)) as [_ H1]; [by auto..|].
    destruct (ranges_add_assign_spec (ranges_of b) (ranges_of c)) as [_ H2]; [by auto..|].
    intros x. rewrite H1, H2. naive_solver.
  - rewrite !resource_add_set by done. intros x.
    rewrite (proj1 (set_add_assign_spec (set_of a) (set_of c))),
      (proj1 (set_add_assign_spec (set_of b) (set_of c))). naive_solver.
  - done.
Qed.
End values.

(** ** Collections that hold the same are equal *)

Section collections.
Context `{IclLaws}.

(** Taking away an entry that is contained as a whole. *)
Lemma subtract_whole (rs : Resources) (e : Resource_) :
  resources_wf rs → entry_wf e → whole (resource e) = true →
  view e ∈ (view <$> rs) →
  ∃ y rest rs', rs ≡ₚ y :: rest ∧ view y = view e ∧ subtract rs e = Ok rs' ∧ rs' ≡ₚ rest.
Proof.
  intros Hwf He Hw Hin. pose proof Hwf as [Hf Hpw]. rewrite Forall_forall in Hf.
  apply list_elem_of_fmap in Hin as (x & Hv & Hx). symmetry in Hv.
  assert (Hc : _contains rs e = true).
  { apply any_true. exists x. split; [done|]. apply view_contains; auto. }
  destruct (subtract_target rs e Hwf He Hc) as (l1 & y & l2 & -> & Hy & Hcy & Hfind).
  assert (Hvy : view y = view e).
  { destruct (subtractable_whole y e Hy He Hw) as (Hk & Hs & Hval); [by apply contains_subtractable|].
    destruct (r_shared (resource e)) eqn:Es.
    - destruct (pairwise_elem apart (l1 ++ y :: l2) y x) as [->|[Hap _]]; [apply _|done|set_solver|done|done|].
      exfalso. rewrite (subtractable_addable y x e) in Hap; [done|done|by apply Hf|done| | |by left];
        apply contains_subtractable; auto. apply view_contains; auto.
    - apply view_iff; [done..|]. rewrite Es in *. destruct (value_eqb_le _ _ (proj1 (proj2 Hy)) (proj1 (proj2 He)) (key_type_eq _ _ Hk) Hval).
      split_and!; try done. destruct Hy as (_ & _ & _ & Sy & _), He as (_ & _ & _ & Se & _).
      unfold count_of, isShared_ in *. rewrite Hs in Sy. rewrite Es in Se.
      destruct (sharedCount y), (sharedCount e); done. }
  exists y, (l1 ++ l2), (remove_swap (l1 ++ y :: l2) (length l1)). split_and!; [by rewrite Permutation_middle|done| |apply remove_swap_perm].
  unfold subtract. rewrite isEmpty_entry by done. cbn [mbind outcome_bind]. rewrite Hfind.
  rewrite list_lookup_middle by done.
  apply view_iff in Hvy as (Hk & Hs & Hcnt & Hle1 & Hle2 & _); [|done..].
  destruct (r_shared (resource e)) eqn:Es.
  - destruct Hy as (_ & _ & _ & Sy & _), He as (_ & _ & _ & Se & _). rewrite Hs in Sy. rewrite Es in Se.
    unfold sub_, isShared_ in *. rewrite Sy, Se. cbn [negb CHECK mbind outcome_bind].
    rewrite Hcnt, Z.sub_diag. unfold negative. cbn [isShared_ has sharedCount count_of get_or].
    unfold isEmpty_. cbn [isShared_ has sharedCount count_of get_or andb Z.eqb mbind outcome_bind].
    by destruct (_ || _).
  - destruct (remainder_entry y e Hy He) as (-> & Hneg & Hemp & _); [|done|].
    { destruct He as (_ & _ & _ & Se & _). congruence. }
    cbn [mbind outcome_bind]. rewrite Hneg, Hemp. cbn [mbind outcome_bind].
    rewrite value_le_sub_self_empty; [done|apply Hy|apply He|by apply key_type_eq|done|done].
Qed.

Lemma contains_loop_holds (that rem extra : Resources) :
  resources_wf rem → Forall entry_wf that → same_holdings rem (that ++ extra) →
  contains_loop rem that = Ok true.
Proof.
  intros Hwf Ht. revert rem extra Hwf. induction Ht as [|e that He Ht IH]; intros rem extra Hwf Hs; [done|].
  cbn [contains_loop app] in *.
  assert (Hin : view e ∈ (view <$> rem)) by (unfold same_holdings in Hs; rewrite Hs; by left).
  assert (Hc : _contains rem e = true).
  { apply list_elem_of_fmap in Hin as (x & Hv & Hx). apply any_true. exists x. split; [done|].
    destruct Hwf as [Hf _]. rewrite Forall_forall in Hf. apply view_contains; auto. }
  rewrite Hc. cbn [negb]. rewrite isPersistentVolume_post by apply He. cbn [mbind outcome_bind].
  destruct (has (r_disk (resource e)) && _) eqn:Ep.
  - assert (Hw : whole (resource e) = true).
    { unfold whole, exclusive, disk_of in *. destruct (r_disk (resource e)) as [d|]; [|done].
      cbn in Ep. by rewrite Ep, orb_true_r. }
    destruct (subtract_whole rem e Hwf He Hw Hin) as (y & rest & rem' & Hp & Hv & -> & Hp').
    cbn [mbind outcome_bind]. apply (IH rem' extra).
    + rewrite Hp'. rewrite Hp in Hwf. destruct Hwf as [Hf [_ Hpw]]. split; [|done].
      by apply Forall_cons in Hf as [_ Hf].
    + rewrite Hp'. rewrite Hp, same_holdings_cons in Hs by done. done.
  - apply (IH rem (e :: extra)); [done|]. rewrite Hs. by rewrite Permutation_middle.
Qed.

(** [operator==] *)
Lemma same_holdings_eq (rs rs' : Resources) :
  resources_wf rs → resources_wf rs' → same_holdings rs rs' → resources_eq rs rs' = Ok true.
Proof.
  intros Hwf Hwf' Hs. unfold resources_eq, contains.
  rewrite (contains_loop_holds rs' rs []); [|done|apply Hwf'|by rewrite app_nil_r].
  cbn [mbind outcome_bind negb].
  apply (contains_loop_holds rs rs' []); [done|apply Hwf|]. rewrite app_nil_r. by symmetry.
Qed.

(** ** What [add] and [subtract] do to the holdings *)

(** The values of [that] are not yet in the entry that it would be merged with; always so
    for scalars. *)
Definition fresh (rs : Resources) (r : Resource) : Prop :=
  ∀ e, e ∈ rs → addable (resource e) r = true → value_disjoint (resource e) r.

Lemma add_cases (rs : Resources) (that : Resource_) :
  resources_wf rs → entry_wf that → isShared_ that = false → totals_in_range rs (resource that) →
  ∃ rs', add rs that = Ok rs' ∧
    ((∃ e e' rest, rs ≡ₚ e :: rest ∧ rs' ≡ₚ e' :: rest ∧ entry_wf e ∧ entry_wf e' ∧
        addable (resource e) (resource that) = true ∧
        sum_in_range (resource e) (resource that) ∧
        count_of e' = count_of e ∧ resource e' = resource_add (resource e) (resource that)) ∨
     (Forall (fun e => addable (resource e) (resource that) = false) rs ∧ rs' ≡ₚ that :: rs)).
Proof.
  intros Hwf Hthat Hns Htot. unfold add. rewrite isEmpty_entry by done. cbn [mbind outcome_bind].
  destruct (add_loop_cases rs that) as [(l1 & e & l2 & -> & Hadd & ->)|[Hf ->]].
  - pose proof Hwf as [Hfa _]. pose proof Hthat as (Mt & Vt & _ & St & _).
    assert (He : entry_wf e) by (rewrite Forall_forall in Hfa; apply Hfa; set_solver).
    assert (Hk : key (resource e) = key (resource that)).
    { destruct He as (Me & Ve & _ & Se & _). pose proof (addable_same_shared _ _ Hadd) as Hsh.
      apply addable_iff in Hadd as (_ & Hk & _); [done..|congruence]. }
    assert (Hsum : sum_in_range (resource e) (resource that)).
    { eapply sum_in_range_of_total; [exact Hfa|done| |done|done]. set_solver. }
    destruct (merged_entry_wf e that) as (e' & Ha & He' & _ & _ & Hre); [done..|].
    rewrite Ha. cbn [mbind outcome_bind]. eexists. split; [done|]. left. exists e, e', (l1 ++ l2).
    rewrite <-!Permutation_middle. split_and!; try done.
    unfold add_ in Ha. destruct (negb (isShared_ e)) eqn:En; [by injection Ha as <-|].
    unfold isShared_ in Hns. cbn in Ha. destruct (has (sharedCount e)); cbn in Ha; [|done].
    by rewrite Hns in Ha.
  - eexists. split; [done|]. right. split; [done|]. by rewrite Permutation_app_comm.
Qed.

Lemma subtract_cases (rs : Resources) (that : Resource_) :
  resources_wf rs → entry_wf that → isShared_ that = false → _contains rs that = true →
  ∃ rs' y rest, subtract rs that = Ok rs' ∧ rs ≡ₚ y :: rest ∧ entry_wf y ∧ contains_ y that = true ∧
    let d := resource_sub (resource y) (resource that) in
    (empty_value d = true ∧ rs' ≡ₚ rest) ∨
    (empty_value d = false ∧ rs' ≡ₚ mkR d None :: rest ∧ entry_wf (mkR d None)).
Proof.
  intros Hwf Ht Hns Hc.
  destruct (subtract_target rs that Hwf Ht Hc) as (l1 & y & l2 & -> & Hy & Hcy & Hfind).
  unfold subtract. rewrite isEmpty_entry by done. cbn [mbind outcome_bind]. rewrite Hfind.
  rewrite list_lookup_middle by done.
  destruct (remainder_entry y that Hy Ht Hns Hcy) as (-> & Hneg & Hemp & Vd & _ & _ & _ & Hwf').
  cbn [mbind outcome_bind]. rewrite Hneg, Hemp. cbn [mbind outcome_bind].
  destruct (empty_value _) eqn:E.
  - eexists _, y, (l1 ++ l2). split; [done|]. split_and!; [by rewrite Permutation_middle|done|done|].
    left. split; [done|]. apply remove_swap_perm.
  - rewrite insert_app_r_alt, Nat.sub_diag by lia. cbn [insert list_insert].
    eexists _, y, (l1 ++ l2). split; [done|]. split_and!; [by rewrite Permutation_middle|done|done|].
    right. split_and!; [done|by rewrite Permutation_middle|auto].
Qed.

(** What [contains_] says of entries that are not shared. *)
Lemma contains_key (y that : Resource_) :
  entry_wf y → entry_wf that → isShared_ that = false → contains_ y that = true →
  key (resource y) = key (resource that) ∧ r_shared (resource y) = false ∧
  r_shared (resource that) = false ∧ count_of y = 0 ∧ count_of that = 0 ∧
  value_le (resource that) (resource y) ∧
  (exclusive (resource that) = true → value_eqb (resource y) (resource that) = true).
Proof.
  intros (My & Vy & _ & Sy & _) (Mt & Vt & _ & St & _) Hns Hc.
  unfold contains_ in Hc. rewrite Hns in Hc. destruct (isShared_ y) eqn:Ey; [done|]. cbn in Hc.
  apply resource_contains_iff in Hc as (_ & Hk & He & Hle); [|done..].
  rewrite (key_exclusive _ _ Hk) in He. unfold count_of, isShared_ in *.
  destruct (sharedCount y), (sharedCount that); done.
Qed.

(** In a well-formed collection at most one entry can be merged with [that]. *)
Lemma addable_unique (rs : Resources) (a b that : Resource_) :
  resources_wf rs → a ∈ rs → b ∈ rs → entry_wf that → isShared_ that = false →
  addable (resource a) (resource that) = true → addable (resource b) (resource that) = true → a = b.
Proof.
  intros [Hf Hpw] Ha Hb (Mt & Vt & _ & St & _) Hns Haa Hab. rewrite Forall_forall in Hf.
  destruct (pairwise_elem apart rs a b) as [->|[Hap _]]; [apply _|done..|]. exfalso.
  destruct (Hf a Ha) as (Ma & Va & _), (Hf b Hb) as (Mb & Vb & _).
  assert (Sa : r_shared (resource a) = false) by (rewrite (addable_same_shared _ _ Haa); congruence).
  assert (Sb : r_shared (resource b) = false) by (rewrite (addable_same_shared _ _ Hab); congruence).
  apply addable_iff in Haa as (_ & Hka & Hea), Hab as (_ & Hkb & _); [|done..].
  rewrite (proj2 (addable_iff _ _ Ma Mb Sa)) in Hap; [done|]. split_and!; [done|congruence|done].
Qed.

Lemma perm_cons_same {A : Type} (x : A) (l k r : list A) : l ≡ₚ x :: k → l ≡ₚ x :: r → k ≡ₚ r.
Proof. intros -> Hp. by apply Permutation_cons_inv in Hp. Qed.

(** An entry of the given holding, without a count. *)
Lemma entry_view (y : Resource_) (r : Resource) :
  entry_wf y → count_of y = 0 → key (resource y) = key r → r_shared (resource y) = r_shared r →
  value_wf r → value_le (resource y) r → value_le r (resource y) → whole (resource y) = false →
  view y = (key r, r_shared r, 0, holding r).
Proof.
  intros (_ & Vy & _) Hc Hk Hs Vr H1 H2 Hw. unfold view. rewrite Hc, Hk, Hs. f_equal.
  apply holding_iff; [done..|]. split_and!; [done|done|]. by rewrite Hw.
Qed.

(** An entry that [that] was merged with is not taken as a whole. *)
Lemma addable_whole (e that : Resource_) :
  entry_wf e → entry_wf that → isShared_ that = false →
  addable (resource e) (resource that) = true →
  key (resource e) = key (resource that) ∧ whole (resource e) = false ∧
  r_shared (resource e) = false ∧ r_shared (resource that) = false ∧ count_of e = 0.
Proof.
  intros (Me & _ & _ & Se & _) (Mt & _ & _ & St & _) Hns Ha.
  pose proof (addable_same_shared _ _ Ha) as Hsh. rewrite <-St, Hns in Hsh.
  apply addable_iff in Ha as (? & ? & He); [|done..]. unfold whole, count_of, isShared_ in *.
  rewrite He, Hsh. rewrite Hsh in Se. destruct (sharedCount e); done.
Qed.

Lemma add_then_subtract_holds (rs rs1 : Resources) (that : Resource_) :
  resources_wf rs → resources_wf rs1 → entry_wf that → isShared_ that = false →
  totals_in_range rs (resource that) → fresh rs (resource that) →
  add rs that = Ok rs1 → _contains rs1 that = true →
  ∃ rs2, subtract rs1 that = Ok rs2 ∧ same_holdings rs2 rs.
Proof.
  intros Hwf Hwf1 Ht Hns Htot Hfr Hadd Hc.
  destruct (add_cases rs that Hwf Ht Hns Htot) as (rs1' & Hadd' & Hcase).
  rewrite Hadd in Hadd'. injection Hadd' as <-.
  destruct (subtract_cases rs1 that Hwf1 Ht Hns Hc) as (rs2 & y & rest & Hsub & Hp & Hy & Hcy & Hres).
  exists rs2. split; [done|].
  destruct (contains_key y that Hy Ht Hns Hcy) as (Hk & Sy & St & Cy & Ct & Hle & Hex).
  destruct Hcase as [(e & e' & rest' & Hpe & Hpe' & He & He' & Ha & Hsum & Hcnt & Hre)|[Hno Hpt]].
  - destruct (addable_whole e that He Ht Hns Ha) as (Hke & Hwe & Se & _ & Ce).
    destruct (resource_add_meta (resource e) (resource that)) as (Kadd & Sadd & _ & _ & _ & _ & _ & Tadd & _).
    assert (Hea : addable (resource e') (resource that) = true).
    { destruct He' as (Me' & _), Ht as (Mt & _). apply addable_iff; [done|done|congruence|].
      rewrite Hre, (key_exclusive _ _ Kadd). split_and!; [done|congruence|].
      unfold whole in Hwe. by destruct (exclusive (resource e)). }
    assert (Hya : addable (resource y) (resource that) = true).
    { destruct Hy as (My & _), Ht as (Mt & _). apply addable_iff; [done..|]. split_and!; [done|done|].
      rewrite (key_exclusive _ _ Hk), <-(key_exclusive _ _ Hke). unfold whole in Hwe.
      by destruct (exclusive (resource e)). }
    assert (y = e') as ->.
    { apply (addable_unique rs1 y e' that); [done|rewrite Hp; by left|rewrite Hpe'; by left|done..]. }
    pose proof (perm_cons_same _ _ _ _ Hp Hpe') as Hrest.
    pose proof He as (_ & Ve & _ & _ & _ & Ne). pose proof Ht as (_ & Vt & _).
    assert (Hd : value_eqb (resource_sub (resource e') (resource that)) (resource e) = true).
    { rewrite Hre. apply add_sub_value; [done|done|by apply key_type_eq|done|].
      apply Hfr; [rewrite Hpe; by left|done]. }
    set (d := resource_sub (resource e') (resource that)) in *.
    destruct (resource_sub_meta (resource e') (resource that)) as (Ksub & Ssub & _).
    assert (Vd : value_wf d).
    { apply resource_sub_value_wf; [apply He'|done|by apply key_type_eq|done]. }
    destruct (value_eqb_le d (resource e) Vd Ve) as [H1 H2]; [|done|].
    { apply key_type_eq. unfold d. rewrite Ksub, Hre. apply Kadd. }
    destruct Hres as [[Hemp _]|(_ & Hp2 & Hw)].
    { exfalso. apply empty_value_iff in Ne; [|done].
      apply (inhabited_mono _ d) in Ne; [|symmetry; apply key_type_eq; unfold d; congruence|done].
      apply empty_value_iff in Ne; [congruence|done]. }
    rewrite Hp2, Hpe, Hrest. apply same_holdings_cons; [|done].
    symmetry. apply view_iff; [done..|]. cbn [resource]. fold d in Ksub, Ssub.
    split_and!; [congruence|congruence|done|done|done|]. by rewrite Hwe.
  - assert (Hv : view y = view that).
    { destruct (exclusive (resource that)) eqn:Hx.
      - apply view_iff; [done..|]. destruct Hy as (_ & Vy & _), Ht as (_ & Vt & _).
        destruct (value_eqb_le _ _ Vy Vt (key_type_eq _ _ Hk) (Hex eq_refl)).
        split_and!; [done|congruence|congruence|done|done|]. intros _. by apply Hex.
      - assert (y = that) as ->; [|done].
        apply (addable_unique rs1 y that that); [done|rewrite Hp; by left|rewrite Hpt; by left|done|done|..].
        + destruct Hy as (My & _), Ht as (Mt & _). apply addable_iff; [done..|].
          by rewrite (key_exclusive _ _ Hk).
        + destruct Ht as (Mt & _). by apply addable_iff. }
    pose proof (proj1 (view_iff _ _ Hy Ht) Hv) as (_ & _ & _ & Hle1 & Hle2 & _).
    destruct Hres as [[_ Hp2]|(Hemp & _)].
    2: { rewrite value_le_sub_self_empty in Hemp; [done|apply Hy|apply Ht|by apply key_type_eq|done|done]. }
    rewrite Hp2. apply (same_holdings_cons y that); [done|]. by rewrite <-Hp, Hpt.
Qed.

Lemma subtract_then_add_holds (rs rest : Resources) (that : Resource_) :
  resources_wf rs → resources_wf rest → entry_wf that → isShared_ that = false →
  totals_in_range rest (resource that) → _contains rs that = true →
  subtract rs that = Ok rest →
  ∃ rs', add rest that = Ok rs' ∧ same_holdings rs' rs.
Proof.
  intros Hwf Hwfr Ht Hns Htot Hc Hsub.
  destruct (subtract_cases rs that Hwf Ht Hns Hc) as (rest' & y & l & Hsub' & Hp & Hy & Hcy & Hres).
  rewrite Hsub in Hsub'. injection Hsub' as <-.
  destruct (contains_key y that Hy Ht Hns Hcy) as (Hk & Sy & St & Cy & Ct & Hle & Hex).
  destruct (add_cases rest that Hwfr Ht Hns Htot) as (rs' & Hadd & Hcase).
  exists rs'. split; [done|]. pose proof Hy as (My & Vy & _). pose proof Ht as (Mt & Vt & _).
  pose proof (key_type_eq _ _ Hk) as Hty.
  destruct Hres as [[Hemp Hpr]|(Hemp & Hpr & Hd)].
  - pose proof (empty_sub_le _ _ Vy Vt Hty Hle Hemp) as Hle'.
    destruct Hcase as [(e & e' & l' & Hpe & _ & He & _ & Ha & _)|[_ Hpt]].
    + exfalso. destruct (addable_whole e that He Ht Hns Ha) as (Hke & Hwe & _).
      assert (Hin : e ∈ l) by (rewrite <-Hpr, Hpe; by left).
      assert (Hya : addable (resource y) (resource that) = true).
      { apply addable_iff; [done..|]. split_and!; [done|done|].
        rewrite (key_exclusive _ _ Hk), <-(key_exclusive _ _ Hke). unfold whole in Hwe.
        by destruct (exclusive (resource e)). }
      assert (y = e) as <-.
      { apply (addable_unique rs y e that); [done|rewrite Hp; by left|rewrite Hp; by right|done..]. }
      rewrite Hp in Hwf. destruct Hwf as [_ [Hap _]]. rewrite Forall_forall in Hap.
      destruct (Hap y Hin) as [Hap' _]. rewrite (proj2 (addable_iff _ _ My My Sy)) in Hap'; [done|].
      split_and!; [done|done|]. unfold whole in Hwe. by destruct (exclusive (resource y)).
    + rewrite Hpt, Hp, Hpr. apply same_holdings_cons; [|done].
      destruct (exclusive (resource that)) eqn:Hx.
      * apply view_iff; [done..|]. specialize (Hex eq_refl).
        split_and!; [done|congruence|congruence|done|done|]. intros _.
        by apply (value_eqb_equiv (resource y) (resource that) (resource y)).
      * apply view_iff; [done..|]. split_and!; [done|congruence|congruence|done|done|].
        unfold whole. by rewrite Hx, St.
  - set (d := resource_sub (resource y) (resource that)) in *.
    destruct (resource_sub_meta (resource y) (resource that)) as (Ksub & Ssub & _). fold d in Ksub, Ssub.
    assert (Hnx : exclusive (resource that) = false).
    { destruct (exclusive (resource that)) eqn:Hx; [|done].
      destruct (value_eqb_le _ _ Vy Vt Hty (Hex eq_refl)).
      unfold d in Hemp. by rewrite value_le_sub_self_empty in Hemp. }
    assert (Hda : addable d (resource that) = true).
    { destruct Hd as (Md & _). apply addable_iff; [done|done|cbn; congruence|].
      rewrite (key_exclusive d (resource y) Ksub), (key_exclusive _ _ Hk). split_and!; [done|congruence|done]. }
    destruct Hcase as [(e & e' & l' & Hpe & Hpe' & He & He' & Ha & Hsum & Hcnt & Hre)|[Hno _]].
    2: { rewrite Forall_forall in Hno. specialize (Hno (mkR d None)). cbn [resource] in Hno.
         rewrite Hda in Hno. discriminate Hno. rewrite Hpr. by left. }
    assert (e = mkR d None) as ->.
    { apply (addable_unique rest e (mkR d None) that); [done|rewrite Hpe; by left|rewrite Hpr; by left|done..]. }
    pose proof (perm_cons_same _ _ _ _ Hpe Hpr) as Hl. cbn [resource] in *.
    destruct (resource_add_meta d (resource that)) as (Kadd & Sadd & _).
    destruct (sub_add_le (resource y) (resource that) Vy Vt Hty Hle) as [H1 H2]. fold d in H1, H2.
    rewrite Hpe', Hp, Hl. apply same_holdings_cons; [|done].
    apply view_iff; [done..|]. rewrite Hre. split_and!; [congruence|congruence| |done|done|].
    + change (count_of (mkR d None)) with 0 in Hcnt. congruence.
    + unfold whole. rewrite Sadd, Ssub, Sy, (key_exclusive _ _ Kadd), (key_exclusive d (resource y) Ksub),
        (key_exclusive _ _ Hk), Hnx. done.
Qed.

(** Adding to collections that hold the same. *)
Lemma add_same_holdings (rs rs' : Resources) (that : Resource_) :
  resources_wf rs → resources_wf rs' → same_holdings rs rs' → entry_wf that →
  isShared_ that = false → totals_in_range rs (resource that) → totals_in_range rs' (resource that) →
  ∃ rs1 rs1', add rs that = Ok rs1 ∧ add rs' that = Ok rs1' ∧ same_holdings rs1 rs1'.
Proof.
  intros Hwf Hwf' Hs Ht Hns Htot Htot'.
  destruct (add_cases rs that Hwf Ht Hns Htot) as (rs1 & Hadd & Hcase).
  destruct (add_cases rs' that Hwf' Ht Hns Htot') as (rs1' & Hadd' & Hcase').
  exists rs1, rs1'. split_and!; [done|done|]. pose proof Ht as (Mt & Vt & _ & St & _).
  assert (Hsame : ∀ a b, entry_wf a → entry_wf b → view a = view b →
    addable (resource a) (resource that) = true → addable (resource b) (resource that) = true).
  { intros a b Ha Hb Hv Haa. destruct (addable_whole a that Ha Ht Hns Haa) as (Hk & Hw & Sa & _).
    apply view_iff in Hv as (Hkab & Hsab & _); [|done..]. destruct Hb as (Mb & _).
    apply addable_iff; [done|done|congruence|]. split_and!; [congruence|congruence|].
    rewrite <-(key_exclusive _ _ Hkab). unfold whole in Hw. by destruct (exclusive (resource a)). }
  assert (Hother : ∀ l l' a, resources_wf l → resources_wf l' → same_holdings l l' → a ∈ l →
    ∃ b, b ∈ l' ∧ entry_wf a ∧ entry_wf b ∧ view a = view b).
  { intros l l' a [Hf _] [Hf' _] Hl Hin. rewrite Forall_forall in Hf, Hf'.
    assert (Hv : view a ∈ (view <$> l')).
    { unfold same_holdings in Hl. rewrite <-Hl. by apply list_elem_of_fmap_2. }
    apply list_elem_of_fmap in Hv as (b & Hv & Hb). exists b. auto. }
  destruct Hcase as [(e & d & l & Hpe & Hpd & He & Hd & Ha & Hsum & Hcnt & Hre)|[Hno Hpt]],
    Hcase' as [(e' & d' & l' & Hpe' & Hpd' & He' & Hd' & Ha' & Hsum' & Hcnt' & Hre')|[Hno' Hpt']].
  - destruct (Hother rs rs' e) as (b & Hb & _ & Hbw & Hv); [done|done|done|rewrite Hpe; by left|].
    assert (b = e') as ->.
    { apply (addable_unique rs' b e' that); [done|done|rewrite Hpe'; by left|done|done| |done]. by apply (Hsame e). }
    rewrite Hpd, Hpd'. rewrite Hpe, Hpe', same_holdings_cons in Hs by done.
    apply same_holdings_cons; [|done].
    destruct (addable_whole e that He Ht Hns Ha) as (Hk & Hw & _).
    apply view_iff in Hv as (Hkab & Hsab & Hcab & H1 & H2 & _); [|done..].
    destruct (resource_add_meta (resource e) (resource that)) as (Kadd & Sadd & _).
    destruct (resource_add_meta (resource e') (resource that)) as (Kadd' & Sadd' & _).
    pose proof (key_type_eq _ _ Hk) as Hty. pose proof (key_type_eq _ _ Hkab) as Hty'.
    apply view_iff; [done..|]. rewrite Hre, Hre'. split_and!; [congruence|congruence|congruence| | |].
    + apply resource_add_mono; [apply He|apply He'|done|done|congruence|done|done|done].
    + apply resource_add_mono; [apply He'|apply He|done|congruence|done|done|done|done].
    + unfold whole in *. by rewrite (key_exclusive _ _ Kadd), Sadd, Hw.
  - exfalso. destruct (Hother rs rs' e) as (b & Hb & _ & Hbw & Hv); [done|done|done|rewrite Hpe; by left|].
    rewrite Forall_forall in Hno'. specialize (Hno' b Hb). by rewrite (Hsame e b) in Hno' by done.
  - exfalso. destruct (Hother rs' rs e') as (b & Hb & _ & Hbw & Hv); [done|done|by symmetry|rewrite Hpe'; by left|].
    rewrite Forall_forall in Hno. specialize (Hno b Hb). by rewrite (Hsame e' b) in Hno by done.
  - rewrite Hpt, Hpt'. by apply same_holdings_cons.
Qed.

(** ** Exchanging a resource and changing it back *)

Lemma contained_total (rs rest : Resources) (a b : Resource) :
  amounts_in_range rs → grown rest a rs → same_value a b → totals_in_range rest b.
Proof.
  intros Hr (Hg & _) (Hn & Ht & Hs & _) name. specialize (Hr name). rewrite Hg in Hr.
  unfold amount_of, scalar_of in *. by rewrite <-Hn, <-Ht, <-Hs.
Qed.

Lemma exchange_back (rs rest rs1 rest' rs2 : Resources) (a b : Resource) :
  resources_wf rs → amounts_in_range rs → operand_wf a → operand_wf b → same_value a b →
  empty_value a = false → key a ≠ key b → fresh rs b →
  _contains rs (Resource__of a) = true →
  subtract rs (Resource__of a) = Ok rest → add rest (Resource__of b) = Ok rs1 →
  subtract rs1 (Resource__of b) = Ok rest' → add rest' (Resource__of a) = Ok rs2 →
  same_holdings rs2 rs.
Proof.
  intros Hwf Hr Ha Hb Hv Ea Hkey Hfr Hc Hsub Hadd Hsub' Hadd'.
  assert (Eb : empty_value b = false) by by rewrite <-(same_value_empty a b Hv).
  pose proof (operand_entry a Ha Ea) as Hae. pose proof (operand_entry b Hb Eb) as Hbe.
  pose proof (operand_shared a Ha) as Has. pose proof (operand_shared b Hb) as Hbs.
  destruct (subtract_spec rs _ Hwf Hae Has Hc) as (x & Hx & Hwfr & Hg).
  rewrite Hsub in Hx. injection Hx as <-.
  pose proof (contained_total _ _ _ _ Hr Hg Hv) as Htb.
  pose proof (contained_total _ _ _ a Hr Hg ltac:(done)) as Hta.
  destruct (add_spec rest _ Hwfr Hbe Hbs Htb) as (x & Hx & Hwf1 & Hg1).
  rewrite Hadd in Hx. injection Hx as <-.
  pose proof (add_contains _ _ _ Hwfr Hbe Hbs Htb Hadd) as Hc1.
  destruct (subtract_spec rs1 _ Hwf1 Hbe Hbs Hc1) as (x & Hx & Hwfr' & Hg').
  rewrite Hsub' in Hx. injection Hx as <-.
  assert (Hfrest : fresh rest b).
  { destruct (subtract_cases rs _ Hwf Hae Has Hc) as (x & y & l & Hx & Hp & Hy & Hcy & Hres).
    rewrite Hsub in Hx. injection Hx as <-.
    assert (Hl : ∀ e, e ∈ l → e ∈ rs) by (intros e He; rewrite Hp; by right).
    destruct Hres as [[_ Hpr]|(_ & Hpr & Hd)]; intros e He Hab; rewrite Hpr in He; [by auto|].
    apply elem_of_cons in He as [->|He]; [|by auto]. exfalso. apply Hkey.
    destruct (contains_key y _ Hy Hae Has Hcy) as (Hk & _).
    destruct (addable_whole (mkR (resource_sub (resource y) a) None) _ Hd Hbe Hbs Hab) as (Hkd & _).
    cbn in Hkd, Hk. rewrite <-Hk, <-Hkd. symmetry. apply resource_sub_meta. }
  destruct (add_then_subtract_holds rest rs1 (Resource__of b)) as (x & Hx & Hs1); [done..|].
  rewrite Hsub' in Hx. injection Hx as <-.
  assert (Hta' : totals_in_range rest' a).
  { intros name. destruct Hg1 as (Hg1 & _), Hg' as (Hg' & _). specialize (Hta name).
    cbn in *. specialize (Hg1 name). specialize (Hg' name). replace (amount name rest') with (amount name rest) by lia.
    done. }
  destruct (add_same_holdings rest' rest (Resource__of a)) as (x & y & Hx & Hy & Hs2); [done..|].
  rewrite Hadd' in Hx. injection Hx as <-.
  destruct (subtract_then_add_holds rs rest (Resource__of a)) as (z & Hz & Hs3); [done..|].
  rewrite Hy in Hz. injection Hz as <-. by rewrite Hs2.
Qed.
End collections.

(** ** Properties *)

(** C8: Adding a well-formed resource that is not shared to a well-formed collection,
    when the sums stay in range, succeeds, keeps the class invariant (well-formed,
    non-empty, unmergeable entries) and adds exactly what it holds; the result contains
    it, and subtracting it succeeds, keeps the invariant and restores every amount.  When
    the numbers and items of the resource were not yet in the entry it is merged with,
    which is always so for scalars, the collection is equal ([operator==]) to what it
    was. *)
Theorem add_then_subtract `{IclLaws} (rs : Resources) (that : Resource_) :
  resources_wf rs → entry_wf that → isShared_ that = false →
  totals_in_range rs (resource that) →
  ∃ rs1 rs2, add rs that = Ok rs1 ∧ resources_wf rs1 ∧ grown rs (resource that) rs1 ∧
    _contains rs1 that = true ∧ subtract rs1 that = Ok rs2 ∧ resources_wf rs2 ∧
    (∀ name, amount name rs2 = amount name rs) ∧
    (fresh rs (resource that) → resources_eq rs2 rs = Ok true).
Proof.
  intros Hwf Ht Hns Htot.
  destruct (add_spec rs that Hwf Ht Hns Htot) as (rs1 & Hadd & Hwf1 & Hg).
  pose proof (add_contains rs rs1 that Hwf Ht Hns Htot Hadd) as Hc.
  destruct (subtract_spec rs1 that Hwf1 Ht Hns Hc) as (rs2 & Hsub & Hwf2 & Hg2).
  exists rs1, rs2. split_and!; try done.
  - intros name. destruct Hg as (Hg & _), Hg2 as (Hg2 & _).
    specialize (Hg name). specialize (Hg2 name). lia.
  - intros Hfr. destruct (add_then_subtract_holds rs rs1 that) as (rs2' & Hsub' & Hs); [done..|].
    rewrite Hsub in Hsub'. injection Hsub' as <-. by apply same_holdings_eq.
Qed.

Lemma add_then_subtract_witness :
  let rs := [Resource__of (scalar_resource "cpus" 4000)] in
  let that := Resource__of (scalar_resource "cpus" 300) in
  ∃ rs1 rs2, add rs that = Ok rs1 ∧ resources_wf rs1 ∧ grown rs (resource that) rs1 ∧
    _contains rs1 that = true ∧ subtract (H:=gset_icl) rs1 that = Ok rs2 ∧ resources_wf rs2 ∧
    resources_eq (H:=gset_icl) rs2 rs = Ok true.
Proof.
  intros rs that.
  destruct (@add_then_subtract gset_icl gset_icl_laws rs that)
    as (rs1 & rs2 & H1 & H2 & H3 & H4 & H5 & H6 & _ & H8).
  - split; [|by repeat constructor]. constructor; [|constructor].
    apply operand_entry; [|vm_compute; reflexivity]. apply plain_operand; [|done].
    apply scalar_resource_wf; unfold in_range, fixed_bound; lia.
  - apply operand_entry; [|vm_compute; reflexivity]. apply plain_operand; [|done].
    apply scalar_resource_wf; unfold in_range, fixed_bound; lia.
  - reflexivity.
  - intros name. unfold rs, that, amount, foldr, amount_of.
    destruct (String.eqb _ name); unfold in_range, fixed_bound; vm_compute; discriminate.
  - exists rs1, rs2. split_and!; try done. apply H8.
    intros e He _. by apply list_elem_of_singleton in He as ->.
Defined.
