(* ===== verification/ResourcesApply.v ===== *)
(** * ResourcesApply: printing, [find] and [apply] of resources.cpp

    The stream operators, [Resources::validate] of a list, [Resources::find]
    and [Resources::apply] of the offer operations, with the sanity [CHECK]s
    that end it.  The formatting of a [double] by an ostream is a parameter. *)

From S2P Require Import Prelude Binary64 Scalars Ranges IntervalSets StoutStrings Values.
From S2P Require Import Roles Resource ResourceValidate Resources ResourcesLaws ResourcesEqual.
#[local] Open Scope string_scope.
#[local] Open Scope Z_scope.

(** How an ostream of 15 significant digits writes a [double]. *)
Class Ostream := ostream_double : double → string.

(** ** Stream operators *)

Section Printing.
Context `{Ostream}.

Definition print_scalar (s : Scalar) : string :=
  ostream_double (convertToFloating (convertToFixed (scalar_value s))).

Definition print_volume (v : Volume) : string :=
  match host_path v with
  | None => container_path v
  | Some host =>
      host ++ ":" ++ container_path v ++
      match volume_mode v with RW => ":rw" | RO => ":ro" end
  end.

Definition print_reservation (i : ReservationInfo) : string :=
  match reservation_type i with
  | RESERVATION_UNKNOWN => "UNKNOWN" | STATIC => "STATIC" | DYNAMIC => "DYNAMIC" end
  ++ "," ++ reservation_role i
  ++ match rsv_principal i with Some p => "," ++ p | None => "" end
  ++ match rsv_labels i with Some l => "," ++ print_labels l | None => "" end.

Definition print_disk (d : DiskInfo) : string :=
  match disk_source d with Some s => print_source s | None => "" end
  ++ match disk_persistence d with
     | Some p => (if has (disk_source d) then "," else "") ++ persistence_id p
     | None => "" end
  ++ match disk_volume d with Some v => ":" ++ print_volume v | None => "" end.

(** [operator<<(Resource)]; an unexpected type is fatal. *)
Definition print_resource (r : Resource) : outcome string :=
  value ← match r_type r with
          | SCALAR => Ok (print_scalar (scalar_of r))
          | RANGES => Ok (print_ranges (ranges_of r))
          | SET => Ok (print_set (set_of r))
          | TEXT => Fatal
          end;
  Ok (r_name r
      ++ match r_allocation_info r with
         | Some a => "(allocated: " ++ get_or "" (alloc_role a) ++ ")" | None => "" end
      ++ (if (0 <? length (r_reservations r))%nat
          then "(reservations: ["
               ++ str_join "," (map (fun i => "(" ++ print_reservation i ++ ")")
                                  (r_reservations r)) ++ "])"
          else "")
      ++ match r_disk r with Some d => "[" ++ print_disk d ++ "]" | None => "" end
      ++ (if r_revocable r then "{REV}" else "")
      ++ (if r_shared r then "<SHARED>" else "")
      ++ ":" ++ value).

Definition print_entry (e : Resource_) : outcome string :=
  s ← print_resource (resource e);
  Ok (s ++ match sharedCount e with
           | Some c => "<" ++ print_int c ++ ">" | None => "" end).

Fixpoint print_entries (rs : Resources) : outcome string :=
  match rs with
  | [] => Ok ""
  | [e] => print_entry e
  | e :: rs' => s ← print_entry e; t ← print_entries rs'; Ok (s ++ "; " ++ t)
  end.

Definition print_resources (rs : Resources) : outcome string :=
  match rs with [] => Ok "{}" | _ => print_entries rs end.

(** [Resources::validate(RepeatedPtrField)]: the error quotes the resource. *)
Fixpoint validate_list (l : list Resource) : outcome (option string) :=
  match l with
  | [] => Ok None
  | r :: l' =>
      error ← ResourceValidate.validate r;
      match error with
      | Some e => s ← print_resource r;
                  Ok (Some ("Resource '" ++ s ++ "' is invalid: " ++ e))
      | None => validate_list l'
      end
  end.
End Printing.

(** ** [Resources::find] *)

Record find_state := mkFind {
  fs_found : Resources; fs_total : Resources; fs_remaining : Resources }.

Section Find.
Context `{Icl}.

(** The inner loop of [find(target)]: the result when the target is found, or
    the state after a [break] or the last candidate. *)
Fixpoint find_scan (st : find_state) (candidates : Resources)
    : outcome (Resources + find_state) :=
  match candidates with
  | [] => Ok (inr st)
  | c :: candidates' =>
      own ← Resources_of (resource c);
      unreserved ← toUnreserved own;
      enough ← contains unreserved (fs_remaining st);
      if (enough : bool)
      then found ← mfold (fun found r =>
                     add found (map_resource (fun r' =>
                       with_reservations r' (r_reservations (resource c))) r))
                     (fs_found st) (fs_remaining st);
           Ok (inl found)
      else needed ← contains (fs_remaining st) unreserved;
           if (needed : bool)
           then found ← add (fs_found st) c;
                total ← subtract (fs_total st) c;
                remaining ← minus (fs_remaining st) unreserved;
                Ok (inr (mkFind found total remaining))
           else find_scan st candidates'
  end.

Fixpoint find_predicates (st : find_state) (predicates : list (Resource → outcome bool))
    : outcome (option Resources) :=
  match predicates with
  | [] => Ok None
  | p :: predicates' =>
      candidates ← filter (fs_total st) p;
      r ← find_scan st candidates;
      match r with
      | inl found => Ok (Some found)
      | inr st' => find_predicates st' predicates'
      end
  end.

Definition find_target (rs : Resources) (target : Resource) : outcome (option Resources) :=
  own ← Resources_of target;
  remaining ← toUnreserved own;
  reserved ← isReserved target None;
  first ← (if (reserved : bool)
           then role ← reservationRole target; Ok [fun r => isReserved r (Some role)]
           else Ok []);
  find_predicates (mkFind [] rs remaining)
    (first ++ [isUnreserved; (fun _ => Ok true)])%list.

Fixpoint find_loop (rs : Resources) (total : Resources) (targets : list Resource)
    : outcome (option Resources) :=
  match targets with
  | [] => Ok (Some total)
  | target :: targets' =>
      found ← find_target rs target;
      match found with
      | None => Ok None
      | Some found => total' ← plus total found; find_loop rs total' targets'
      end
  end.
Definition find (rs targets : Resources) : outcome (option Resources) :=
  find_loop rs [] (to_list targets).
End Find.

(** ** [Resources::apply] *)

Inductive OperationType :=
  OP_UNKNOWN | LAUNCH | LAUNCH_GROUP | RESERVE | UNRESERVE | CREATE | DESTROY.

(** The resources of a task and of its executor, if any. *)
Record TaskResources := mkTaskResources {
  task_resources : list Resource;
  executor_resources : option (list Resource) }.

(** [Offer::Operation]: the messages that carry resources. *)
Record Operation := mkOperation {
  op_type : OperationType;
  op_launch : option (list TaskResources);
  op_launch_group : option (option (list Resource) * list TaskResources);
  op_reserve : option (list Resource);
  op_unreserve : option (list Resource);
  op_create : option (list Resource);
  op_destroy : option (list Resource) }.

(** Strips persistence and volume from the disk info, and sharedness. *)
Definition strip_volume (volume : Resource) : Resource :=
  with_disk volume
    (if has (disk_source (disk_of volume))
     then Some (mkDisk None None (disk_source (disk_of volume))) else None)
    false.

Section Apply.
Context `{Icl} `{Ostream}.

Definition reserve_step (result : Resources) (reserved : Resource) : outcome Resources :=
  is_reserved ← isReserved reserved None;
  if negb is_reserved then Err "Invalid RESERVE Operation: Resource must be reserved"
  else dynamic ← isDynamicallyReserved reserved;
  if negb dynamic
  then Err ("Invalid RESERVE Operation: Resource must be" ++ " dynamically reserved")
  else own ← Resources_of reserved;
  resources ← popReservation own;
  ok ← contains result resources;
  if negb ok
  then s ← print_resources result; t ← print_resources resources;
       Err ("Invalid RESERVE Operation: " ++ s ++ " does not contain " ++ t)
  else rest ← minus result resources; add rest (Resource__of reserved).

Definition unreserve_step (result : Resources) (reserved : Resource) : outcome Resources :=
  is_reserved ← isReserved reserved None;
  if negb is_reserved then Err "Invalid UNRESERVE Operation: Resource is not reserved"
  else dynamic ← isDynamicallyReserved reserved;
  if negb dynamic
  then Err ("Invalid UNRESERVE Operation: Resource is not" ++ " dynamically reserved")
  else ok ← contains_Resource result reserved;
  if negb ok
  then s ← print_resources result; t ← print_resource reserved;
       Err ("Invalid UNRESERVE Operation: " ++ s ++ " does not contain " ++ t)
  else own ← Resources_of reserved;
  resources ← popReservation own;
  rest ← subtract result (Resource__of reserved);
  plus rest resources.

Definition create_step (result : Resources) (volume : Resource) : outcome Resources :=
  if negb (has (r_disk volume)) then Err "Invalid CREATE Operation: Missing 'disk'"
  else if negb (has (disk_persistence (disk_of volume)))
  then Err "Invalid CREATE Operation: Missing 'persistence'"
  else let stripped := strip_volume volume in
  ok ← contains_Resource result stripped;
  if negb ok
  then s ← print_resource volume;
       Err ("Invalid CREATE Operation: Insufficient disk resources"
            ++ " for persistent volume " ++ s)
  else rest ← subtract result (Resource__of stripped); add rest (Resource__of volume).

Definition destroy_step (result : Resources) (volume : Resource) : outcome Resources :=
  if negb (has (r_disk volume)) then Err "Invalid DESTROY Operation: Missing 'disk'"
  else if negb (has (disk_persistence (disk_of volume)))
  then Err "Invalid DESTROY Operation: Missing 'persistence'"
  else ok ← contains_Resource result volume;
  if negb ok
  then Err "Invalid DESTROY Operation: Persistent volume does not exist"
  else rest ← subtract result (Resource__of volume);
  still ← contains_Resource rest volume;
  if (still : bool)
  then s ← print_resource volume;
       Err ("Invalid DESTROY Operation: Persistent volume " ++ s
            ++ " cannot be removed due to additional " ++ "shared copies")
  else add rest (Resource__of (strip_volume volume)).

(** Validates the operands, then applies them one by one. *)
Definition apply_operands (name : string) (operands : list Resource)
    (step : Resources → Resource → outcome Resources) (rs : Resources)
    : outcome Resources :=
  error ← validate_list operands;
  match error with
  | Some e => Err ("Invalid " ++ name ++ " Operation: " ++ e)
  | None => mfold step rs operands
  end.

Definition apply_result (rs : Resources) (operation : Operation) : outcome Resources :=
  match op_type operation with
  | LAUNCH | LAUNCH_GROUP => Ok rs
  | RESERVE =>
      apply_operands "RESERVE" (get_or [] (op_reserve operation)) reserve_step rs
  | UNRESERVE =>
      apply_operands "UNRESERVE" (get_or [] (op_unreserve operation)) unreserve_step rs
  | CREATE => apply_operands "CREATE" (get_or [] (op_create operation)) create_step rs
  | DESTROY => apply_operands "DESTROY" (get_or [] (op_destroy operation)) destroy_step rs
  | OP_UNKNOWN => Err "Unknown offer operation"
  end.

(** [Option<T>::operator==] *)
Definition option_eqb {T : Type} (eq : T → T → bool) (a b : option T) : bool :=
  match a, b with
  | Some a, Some b => eq a b
  | None, None => true
  | _, _ => false
  end.

(** The sanity checks: the amount of each known resource does not change. *)
Definition same_amounts (result rs : Resources) : outcome unit :=
  _ ← CHECK (option_eqb deqb (cpus result) (cpus rs));
  _ ← CHECK (option_eqb deqb (gpus result) (gpus rs));
  _ ← CHECK (option_eqb Z.eqb (mem result) (mem rs));
  _ ← CHECK (option_eqb Z.eqb (disk result) (disk rs));
  CHECK (option_eqb ranges_eq (ports result) (ports rs)).

Definition apply (rs : Resources) (operation : Operation) : outcome Resources :=
  result ← apply_result rs operation;
  _ ← same_amounts result rs;
  Ok result.

Definition apply_all (rs : Resources) (operations : list Operation) : outcome Resources :=
  mfold apply rs operations.
End Apply.

(** ** The sanity checks never fail *)

Lemma deqb_floating (n : Z) :
  in_range n → deqb (convertToFloating n) (convertToFloating n) = true.
Proof.
  intros Hn. assert (Hfin : ∃ s m e, convertToFloating n = SpecFloat.S754_finite s m e ∨
                                     convertToFloating n = SpecFloat.S754_zero s).
  { destruct (decide (n = 0)) as [->|Hn0].
    - exists false, 1%positive, 0. right. reflexivity.
    - destruct (convertToFloating_finite n Hn Hn0) as (s & m & e & Heq). eauto. }
  destruct Hfin as (s & m & e & [Heq|Heq]); rewrite Heq; [|done].
  unfold deqb, SpecFloat.SFeqb, SpecFloat.SFcompare.
  by rewrite Z.compare_refl, Pos.compare_cont_refl; destruct s.
Qed.

Section SameAmounts.
Context (rs rs' : Resources).
Context (Hrs : Forall entry_wf rs) (Hrs' : Forall entry_wf rs').
Context (Hrange : amounts_in_range rs) (Hsame : same_totals rs rs').

Lemma same_scalar (name : string) :
  get_scalar rs' name = get_scalar rs name ∧
  ∀ s, get_scalar rs name = Some s → s = mkScalar (convertToFloating (amount name rs)).
Proof using All.
  destruct Hsame as (Ha & _ & _ & Hh). specialize (Hh name SCALAR).
  pose proof (get_scalar_spec rs name Hrs (Hrange name)) as [Hy Hn].
  pose proof (get_scalar_spec rs' name Hrs') as Hspec'. rewrite Ha in Hspec'.
  destruct (Hspec' (Hrange name)) as [Hy' Hn'].
  destruct (has_entry_dec name SCALAR rs) as [Hin|Hno].
  - rewrite (Hy Hin), (Hy' (proj2 Hh Hin)). split; [done|]. intros s Hs. congruence.
  - rewrite (Hn Hno), Hn' by tauto. done.
Qed.

Lemma same_ranges (name : string) :
  option_eqb ranges_eq (get_ranges rs' name) (get_ranges rs name) = true.
Proof using All.
  destruct Hsame as (_ & Hi & _ & Hh). specialize (Hh name RANGES).
  pose proof (get_ranges_spec rs name Hrs) as [Hy Hn].
  pose proof (get_ranges_spec rs' name Hrs') as [Hy' Hn'].
  destruct (has_entry_dec name RANGES rs) as [Hin|Hno].
  - destruct (Hy Hin) as (t & -> & Ht & Hm).
    destruct (Hy' (proj2 Hh Hin)) as (t' & -> & Ht' & Hm'). cbn.
    apply ranges_eq_iff; [done|done|]. intros x. by rewrite Hm, Hm'.
  - rewrite Hn, Hn' by tauto. done.
Qed.

Lemma same_amounts_ok : same_amounts rs' rs = Ok tt.
Proof using All.
  unfold same_amounts, cpus, gpus, mem, disk, ports. rewrite same_ranges.
  assert (Hd : ∀ name, option_eqb deqb (scalar_value <$> get_scalar rs name)
                         (scalar_value <$> get_scalar rs name) = true).
  { intros name. destruct (same_scalar name) as [_ Hs].
    destruct (get_scalar rs name) as [s|]; [|done]. cbn. rewrite (Hs s eq_refl).
    apply deqb_floating, Hrange. }
  rewrite !(proj1 (same_scalar _)), !Hd.
  destruct (get_scalar rs "mem"), (get_scalar rs "disk"); cbn; by rewrite ?Z.eqb_refl.
Qed.
End SameAmounts.

(** ** One operand at a time *)

(** The outcome of a step: an error, or a well-formed result with the same
    totals; never fatal. *)
Definition step_ok (rs : Resources) (o : outcome Resources) : Prop :=
  (∃ rs', o = Ok rs' ∧ resources_wf rs' ∧ same_totals rs rs') ∨ (∃ e, o = Err e).

Lemma step_ok_err (rs : Resources) (e : string) : step_ok rs (Err e).
Proof. right. eauto. Qed.
#[local] Hint Resolve step_ok_err : urb.

Definition popped (r : Resource) : Resource :=
  with_reservations r (take (length (r_reservations r) - 1) (r_reservations r)).

Lemma popped_operand (r : Resource) : operand_wf r → operand_wf (popped r).
Proof.
  intros ([Hm Hd] & Hv & Hp & Hs). split; [|done]. split; [|done]. cbn.
  by apply Forall_take.
Qed.

Lemma same_value_popped (r : Resource) : same_value (popped r) r.
Proof. done. Qed.

Lemma strip_operand (r : Resource) : operand_wf r → operand_wf (strip_volume r).
Proof.
  intros ([Hm Hd] & Hv & Hp & Hs). split; [|done]. split; [done|]. unfold strip_volume; cbn.
  intros d Hdd s Hs'. destruct (disk_source (disk_of r)) as [src|] eqn:E; [|done].
  injection Hdd as <-. cbn in Hs'. injection Hs' as <-. unfold disk_of in E.
  destruct (r_disk r) as [d'|] eqn:Ed; [|done]. by apply (Hd d').
Qed.

Lemma same_value_strip (r : Resource) : same_value (strip_volume r) r.
Proof. done. Qed.

Section Steps.
Context `{IclLaws} `{Ostream}.

Lemma print_resource_wf (r : Resource) : value_wf r → ∃ s, print_resource r = Ok s.
Proof.
  unfold value_wf, print_resource. destruct (r_type r); [eauto..|done].
Qed.

Lemma print_resources_wf (rs : Resources) :
  Forall entry_wf rs → ∃ s, print_resources rs = Ok s.
Proof.
  assert (Hentry : ∀ e, entry_wf e → ∃ s, print_entry e = Ok s).
  { intros e (_ & Hv & _). unfold print_entry.
    destruct (print_resource_wf _ Hv) as (s & ->). cbn. eauto. }
  intros Hf. destruct rs as [|e rs]; [cbn; eauto|]. cbn [print_resources].
  induction Hf as [|x l Hx Hl IH]; [cbn; eauto|]. destruct (Hentry x Hx) as (s & Hs).
  destruct l as [|y l]; [cbn; eauto|]. change (print_entries (x :: y :: l)) with
    (s ← print_entry x; t ← print_entries (y :: l); Ok (s ++ "; " ++ t)).
  rewrite Hs. destruct IH as (t & ->). cbn. eauto.
Qed.

Lemma Resources_of_operand (r : Resource) :
  operand_wf r → ResourceValidate.validate r = Ok None →
  Resources_of r = Ok (if empty_value r then [] else [Resource__of r]).
Proof.
  intros Hr Hval. unfold Resources_of, plus_Resource, plus_, validate_, add.
  rewrite operand_shared by done. cbn. rewrite Hval. cbn. rewrite operand_empty by done.
  cbn. by destruct (empty_value r).
Qed.

Lemma pop_operand (r : Resource) :
  operand_wf r → r_reservations r ≠ [] →
  popReservation (if empty_value r then [] else [Resource__of r])
  = Ok (if empty_value r then [] else [Resource__of (popped r)]).
Proof.
  intros Hr Hne. destruct (empty_value r) eqn:E; [done|]. unfold popReservation; cbn.
  unfold pop_step. destruct (r_reservations (resource (Resource__of r))) eqn:Er; [done|].
  cbn [length Nat.ltb Nat.leb CHECK mbind outcome_bind].
  change (map_resource _ (Resource__of r)) with (Resource__of (popped r)).
  unfold add. rewrite operand_empty by by apply popped_operand.
  change (empty_value (popped r)) with (empty_value r). by rewrite E.
Qed.

Lemma contains_single (rs : Resources) (r : Resource) :
  resources_wf rs → operand_wf r → empty_value r = false →
  contains rs [Resource__of r] = Ok (_contains rs (Resource__of r)).
Proof.
  intros Hwf Hr He. cbn. destruct (_contains rs (Resource__of r)) eqn:Hc; cbn [negb]; [|done].
  rewrite isPersistentVolume_post by apply Hr. cbn.
  destruct (subtract_spec rs (Resource__of r)) as (rest & -> & _);
    [done|by apply operand_entry|by apply operand_shared|done|].
  by destruct (_ && _).
Qed.

Lemma contains_Resource_valid (rs : Resources) (r : Resource) :
  ∃ b, contains_Resource rs r = Ok b ∧ (b = true → _contains rs (Resource__of r) = true).
Proof.
  unfold contains_Resource. destruct (resource_validate_total r) as [[e|] ->]; cbn.
  - by exists false.
  - by exists (_contains rs (Resource__of r)).
Qed.

Lemma reserve_step_ok (rs : Resources) (r : Resource) :
  resources_wf rs → amounts_in_range rs → operand_wf r →
  ResourceValidate.validate r = Ok None → step_ok rs (reserve_step rs r).
Proof.
  intros Hwf Hr Hop Hval. unfold reserve_step.
  rewrite isReserved_post, isDynamicallyReserved_post by apply Hop.
  destruct (last (r_reservations r)) as [i|] eqn:El; cbn; [|auto with urb].
  destruct (bool_decide _); cbn; [|auto with urb].
  assert (Hne : r_reservations r ≠ []) by (intros Hnil; by rewrite Hnil in El).
  rewrite Resources_of_operand by done. cbn. rewrite pop_operand by done. cbn.
  destruct (empty_value r) eqn:He.
  - left. exists rs. cbn. unfold add. rewrite operand_empty, He by done. done.
  - rewrite contains_single by (done || by apply popped_operand).
    cbn [mbind outcome_bind].
    destruct (_contains rs _) eqn:Hc; cbn [negb].
    + destruct (exchange rs (popped r) r) as (rest & rs' & Hsub & Hadd & _ & Hwf' & Hsame);
        [done|done|by apply popped_operand|done|done|done|].
      left. exists rs'. unfold minus. cbn [mfold]. rewrite Hsub.
      cbn [mbind outcome_bind]. by rewrite Hadd.
    + destruct (print_resources_wf rs) as (s & ->); [apply Hwf|].
      destruct (print_resources_wf [Resource__of (popped r)]) as (t & Ht).
      { constructor; [|constructor]. apply operand_entry; [by apply popped_operand|done]. }
      cbn [mbind outcome_bind]. rewrite Ht. cbn. auto with urb.
Qed.

(** A reservation for which there is room. *)
Definition reservable (rs : Resources) (r : Resource) : Prop :=
  operand_wf r ∧ ResourceValidate.validate r = Ok None ∧ empty_value r = false ∧
  (∃ i, last (r_reservations r) = Some i ∧ reservation_type i = DYNAMIC) ∧
  _contains rs (Resource__of (popped r)) = true.

Lemma reservable_reservations (rs : Resources) (r : Resource) :
  reservable rs r → r_reservations r ≠ [].
Proof. intros (_ & _ & _ & (i & Hl & _) & _) Hnil. by rewrite Hnil in Hl. Qed.

Lemma reserve_step_succeeds (rs : Resources) (r : Resource) :
  resources_wf rs → amounts_in_range rs → reservable rs r →
  ∃ rest rs', subtract rs (Resource__of (popped r)) = Ok rest ∧
    add rest (Resource__of r) = Ok rs' ∧
    reserve_step rs r = Ok rs' ∧ resources_wf rs' ∧ same_totals rs rs' ∧
    _contains rs' (Resource__of r) = true.
Proof.
  intros Hwf Hr Hres. pose proof (reservable_reservations rs r Hres) as Hne.
  destruct Hres as (Hop & Hval & He & (i & Hl & Hd) & Hc). unfold reserve_step.
  rewrite isReserved_post, isDynamicallyReserved_post by apply Hop. rewrite Hl.
  cbn. rewrite bool_decide_eq_true_2 by done. cbn.
  rewrite Resources_of_operand by done. cbn. rewrite pop_operand by done. cbn. rewrite He.
  rewrite contains_single, Hc by (done || by apply popped_operand).
  cbn [mbind outcome_bind negb].
  destruct (exchange rs (popped r) r) as (rest & rs' & Hsub & Hadd & _ & Hwf' & Hsame);
    [done|done|by apply popped_operand|done|done|done|].
  exists rest, rs'. unfold minus. cbn [mfold]. rewrite Hsub. cbn [mbind outcome_bind].
  do 5 (split; [done|]).
  apply (exchange_contains rs rest rs' (popped r) r); auto using popped_operand, same_value_popped.
Qed.

Lemma unreserve_step_succeeds (rs : Resources) (r : Resource) (i : ReservationInfo) :
  resources_wf rs → amounts_in_range rs → operand_wf r →
  ResourceValidate.validate r = Ok None → empty_value r = false →
  last (r_reservations r) = Some i → reservation_type i = DYNAMIC →
  _contains rs (Resource__of r) = true →
  ∃ rest rs', subtract rs (Resource__of r) = Ok rest ∧
    add rest (Resource__of (popped r)) = Ok rs' ∧
    unreserve_step rs r = Ok rs' ∧ resources_wf rs' ∧ same_totals rs rs' ∧
    _contains rs' (Resource__of (popped r)) = true.
Proof.
  intros Hwf Hr Hop Hval He Hl Hd Hc. unfold unreserve_step.
  rewrite isReserved_post, isDynamicallyReserved_post by apply Hop. rewrite Hl.
  cbn. rewrite bool_decide_eq_true_2 by done. cbn.
  assert (Hne : r_reservations r ≠ []) by (intros Hnil; by rewrite Hnil in Hl).
  unfold contains_Resource. rewrite Hval. cbn. rewrite Hc. cbn.
  rewrite Resources_of_operand by done. cbn. rewrite pop_operand by done. cbn. rewrite He.
  destruct (exchange rs r (popped r)) as (rest & rs' & Hsub & Hadd & _ & Hwf' & Hsame);
    [done|done|done|by apply popped_operand|done|done|].
  rewrite Hsub. cbn. exists rest, rs'. rewrite Hadd. do 5 (split; [done|]).
  apply (exchange_contains rs rest rs' r (popped r)); try done. by apply popped_operand.
Qed.

Lemma unreserve_step_ok (rs : Resources) (r : Resource) :
  resources_wf rs → amounts_in_range rs → operand_wf r →
  ResourceValidate.validate r = Ok None → step_ok rs (unreserve_step rs r).
Proof.
  intros Hwf Hr Hop Hval. unfold unreserve_step.
  rewrite isReserved_post, isDynamicallyReserved_post by apply Hop.
  destruct (last (r_reservations r)) as [i|] eqn:El; cbn; [|auto with urb].
  destruct (bool_decide _); cbn; [|auto with urb].
  assert (Hne : r_reservations r ≠ []) by (intros Hnil; by rewrite Hnil in El).
  destruct (contains_Resource_valid rs r) as (b & -> & Hb). cbn.
  destruct b; cbn.
  - rewrite Resources_of_operand by done. cbn. rewrite pop_operand by done. cbn.
    destruct (exchange rs r (popped r)) as (rest & rs' & -> & Hadd & _ & Hwf' & Hsame);
      [done|done|done|by apply popped_operand|done|by apply Hb|].
    cbn. left. exists rs'. destruct (empty_value r) eqn:He; cbn.
    + unfold add in Hadd. rewrite operand_empty in Hadd by by apply popped_operand.
      change (empty_value (popped r)) with (empty_value r) in Hadd. rewrite He in Hadd.
      by injection Hadd as ->.
    + by rewrite Hadd.
  - destruct (print_resources_wf rs) as (s & ->); [apply Hwf|].
    destruct (print_resource_wf r) as (t & ->); [apply Hop|]. cbn. auto with urb.
Qed.

Lemma create_step_ok (rs : Resources) (r : Resource) :
  resources_wf rs → amounts_in_range rs → operand_wf r → step_ok rs (create_step rs r).
Proof.
  intros Hwf Hr Hop. unfold create_step. do 2 (case_if; [auto with urb|]).
  destruct (contains_Resource_valid rs (strip_volume r)) as (b & -> & Hb). cbn [mbind outcome_bind].
  destruct b; cbn [negb].
  - destruct (exchange rs (strip_volume r) r) as (rest & rs' & -> & Hadd & _ & Hwf' & Hsame);
      [done|done|by apply strip_operand|done|done|by apply Hb|].
    left. exists rs'. cbn [mbind outcome_bind]. by rewrite Hadd.
  - destruct (print_resource_wf r) as (t & ->); [apply Hop|]. cbn. auto with urb.
Qed.

Lemma destroy_step_ok (rs : Resources) (r : Resource) :
  resources_wf rs → amounts_in_range rs → operand_wf r → step_ok rs (destroy_step rs r).
Proof.
  intros Hwf Hr Hop. unfold destroy_step. do 2 (case_if; [auto with urb|]).
  destruct (contains_Resource_valid rs r) as (b & -> & Hb). cbn [mbind outcome_bind].
  destruct b; cbn [negb]; [|auto with urb].
  destruct (exchange rs r (strip_volume r)) as (rest & rs' & -> & Hadd & _ & Hwf' & Hsame);
    [done|done|done|by apply strip_operand|done|by apply Hb|]. cbn [mbind outcome_bind].
  destruct (contains_Resource_valid rest r) as (still & -> & _). cbn [mbind outcome_bind]. destruct still.
  - destruct (print_resource_wf r) as (t & ->); [apply Hop|]. cbn. auto with urb.
  - left. exists rs'. by rewrite Hadd.
Qed.
End Steps.

(** ** Whole operations *)

Definition operands (operation : Operation) : list Resource :=
  match op_type operation with
  | RESERVE => get_or [] (op_reserve operation)
  | UNRESERVE => get_or [] (op_unreserve operation)
  | CREATE => get_or [] (op_create operation)
  | DESTROY => get_or [] (op_destroy operation)
  | _ => []
  end.

Section Whole.
Context `{IclLaws} `{Ostream}.

Lemma validate_list_ok (l : list Resource) :
  Forall operand_wf l →
  ∃ e, validate_list l = Ok e ∧
       (e = None → Forall (fun r => ResourceValidate.validate r = Ok None) l).
Proof.
  induction 1 as [|r l Hr Hl (e & IH & Hval)]; [exists None; by split|].
  cbn. destruct (resource_validate_total r) as [[m|] Hv]; rewrite Hv; cbn.
  - destruct (print_resource_wf r) as (s & ->); [apply Hr|]. cbn. by eexists.
  - exists e. split; [done|]. intros He. constructor; auto.
Qed.

Lemma mfold_step_ok (step : Resources → Resource → outcome Resources) (rs : Resources)
    (l : list Resource) :
  (∀ rs r, r ∈ l → resources_wf rs → amounts_in_range rs → step_ok rs (step rs r)) →
  resources_wf rs → amounts_in_range rs → step_ok rs (mfold step rs l).
Proof.
  revert rs. induction l as [|r l IH]; intros rs Hstep Hwf Hr; cbn.
  { left. by exists rs. }
  destruct (Hstep rs r) as [(rs' & -> & Hwf' & Hsame)|(e & ->)]; [left|done|done| |].
  - cbn. destruct (IH rs') as [(rs'' & -> & Hwf'' & Hsame')|(e & ->)]; [|done| | |].
    + intros. apply Hstep; [by right|done..].
    + by eapply same_totals_in_range.
    + left. exists rs''. split; [done|]. split; [done|]. by transitivity rs'.
    + auto with urb.
  - cbn. auto with urb.
Qed.

Lemma apply_operands_ok (name : string) (l : list Resource)
    (step : Resources → Resource → outcome Resources) (rs : Resources) :
  (∀ rs r, operand_wf r → ResourceValidate.validate r = Ok None →
     resources_wf rs → amounts_in_range rs → step_ok rs (step rs r)) →
  Forall operand_wf l → resources_wf rs → amounts_in_range rs →
  step_ok rs (apply_operands name l step rs).
Proof.
  intros Hstep Hl Hwf Hr. unfold apply_operands.
  destruct (validate_list_ok l Hl) as ([e|] & -> & Hval); cbn; [auto with urb|].
  specialize (Hval eq_refl). apply mfold_step_ok; [|done|done].
  rewrite Forall_forall in Hl, Hval. intros; apply Hstep; auto.
Qed.

Lemma apply_result_ok (rs : Resources) (operation : Operation) :
  resources_wf rs → amounts_in_range rs → Forall operand_wf (operands operation) →
  step_ok rs (apply_result rs operation).
Proof.
  intros Hwf Hr Hop. unfold apply_result, operands in *.
  destruct (op_type operation).
  - auto with urb.
  - left. by exists rs.
  - left. by exists rs.
  - apply apply_operands_ok; [|done..]. intros; by apply reserve_step_ok.
  - apply apply_operands_ok; [|done..]. intros; by apply unreserve_step_ok.
  - apply apply_operands_ok; [|done..]. intros; by apply create_step_ok.
  - apply apply_operands_ok; [|done..]. intros; by apply destroy_step_ok.
Qed.

(** An operation on one valid operand whose step succeeds. *)
Lemma apply_single (rs rs' : Resources) (r : Resource) (operation : Operation)
    (name : string) (step : Resources → Resource → outcome Resources) :
  resources_wf rs → amounts_in_range rs → ResourceValidate.validate r = Ok None →
  apply_result rs operation = apply_operands name [r] step rs →
  step rs r = Ok rs' → resources_wf rs' → same_totals rs rs' → apply rs operation = Ok rs'.
Proof.
  intros Hwf Hr Hval Hop Hstep Hwf' Hsame. unfold apply. rewrite Hop.
  unfold apply_operands. cbn [validate_list]. rewrite Hval. cbn. rewrite Hstep. cbn.
  by rewrite same_amounts_ok; [|apply Hwf|apply Hwf'|..].
Qed.

Lemma apply_ok (rs : Resources) (operation : Operation) :
  resources_wf rs → amounts_in_range rs → Forall operand_wf (operands operation) →
  step_ok rs (apply rs operation).
Proof.
  intros Hwf Hr Hop. unfold apply.
  destruct (apply_result_ok rs operation Hwf Hr Hop)
    as [(rs' & -> & Hwf' & Hsame)|(e & ->)]; cbn; [|auto with urb].
  rewrite same_amounts_ok; [|apply Hwf|apply Hwf'|done|done].
  left. exists rs'. do 2 (split; [done|]). apply Hsame.
Qed.

(** ** Properties *)

(** C1: [Resources::apply] never aborts on well-formed resources whose amounts are in
    range and on well-formed operands that are not shared: it returns an error, or
    resources that satisfy the class invariant and hold, under every name, the same
    amount of scalars, the same numbers of ranges and the same items of sets, so that its
    five sanity [CHECK]s cannot fail.  (On a shared operand they can, see
    [apply_aborts_on_shared_refinement].) *)
Theorem apply_conserves_totals (rs : Resources) (operation : Operation) :
  resources_wf rs → amounts_in_range rs → Forall operand_wf (operands operation) →
  (∃ rs', apply rs operation = Ok rs' ∧ resources_wf rs' ∧ same_totals rs rs') ∨
  (∃ e, apply rs operation = Err e).
Proof. apply apply_ok. Qed.

Definition on_reserve (l : list Resource) : Operation :=
  mkOperation RESERVE None None (Some l) None None None.
Definition on_unreserve (l : list Resource) : Operation :=
  mkOperation UNRESERVE None None None (Some l) None None.

Lemma popped_key (r : Resource) : r_reservations r ≠ [] → key (popped r) ≠ key r.
Proof.
  intros Hne Hk. apply (f_equal (fun k => length (key_reservations k))) in Hk. cbn in Hk.
  rewrite !length_map, length_take in Hk. destruct (r_reservations r); [done|]. cbn in Hk. lia.
Qed.

(** C2: Reserving what is there succeeds and is undone: on well-formed resources RESERVE
    of a valid, non-empty dynamic reservation that is not shared and whose underlying
    resource is contained returns resources that contain the reservation, and UNRESERVE
    of it then succeeds and returns resources that contain the underlying resource, with
    every total as it was.  When the numbers and items were not already reserved in the
    same way, which is always so for scalars, the resources are equal ([operator==]) to
    those before the RESERVE. *)
Theorem reserve_roundtrip (rs : Resources) (r : Resource) :
  resources_wf rs → amounts_in_range rs → reservable rs r →
  ∃ rs1 rs2, apply rs (on_reserve [r]) = Ok rs1 ∧ _contains rs1 (Resource__of r) = true ∧
    apply rs1 (on_unreserve [r]) = Ok rs2 ∧
    _contains rs2 (Resource__of (popped r)) = true ∧
    resources_wf rs2 ∧ same_totals rs rs2 ∧
    (fresh rs r → resources_eq rs2 rs = Ok true).
Proof.
  intros Hwf Hr Hres. pose proof (reservable_reservations rs r Hres) as Hne.
  destruct (reserve_step_succeeds rs r Hwf Hr Hres)
    as (rest & rs1 & Hsub1 & Hadd1 & Hstep1 & Hwf1 & Hs1 & Hc1).
  pose proof (same_totals_in_range rs rs1 Hs1 Hr) as Hr1.
  destruct Hres as (Hop & Hval & He & (i & Hl & Hd) & Hc).
  destruct (unreserve_step_succeeds rs1 r i)
    as (rest' & rs2 & Hsub2 & Hadd2 & Hstep2 & Hwf2 & Hs2 & Hc2); [done..|].
  exists rs1, rs2. split_and!; [|done| |done|done|by transitivity rs1|].
  - by eapply apply_single.
  - by eapply apply_single.
  - intros Hfr. apply same_holdings_eq; [done|done|].
    apply (exchange_back rs rest rs1 rest' rs2 (popped r) r);
      auto using popped_operand, same_value_popped, popped_key.
Qed.
End Whole.

(** ** Concrete operations *)

Definition example_ostream : Ostream := fun _ => "n".

Definition dynamic_for (role : string) : ReservationInfo :=
  mkReservation (Some DYNAMIC) (Some role) None None.

(** Four cpus, of which one and a half are reserved. *)
Definition example_pool : Resources := [Resource__of (scalar_resource "cpus" 4000)].
Definition example_request : Resource :=
  with_reservations (scalar_resource "cpus" 1500) [dynamic_for "eng"].

Lemma example_pool_wf : resources_wf example_pool.
Proof.
  split; [|repeat constructor]. constructor; [|constructor].
  apply operand_entry; [|vm_compute; reflexivity].
  apply plain_operand; [|done]. apply scalar_resource_wf; unfold in_range, fixed_bound; lia.
Qed.

Lemma example_pool_in_range : amounts_in_range example_pool.
Proof.
  intros name. unfold example_pool, amount, foldr, amount_of.
  destruct (String.eqb _ name); unfold in_range, fixed_bound; vm_compute; discriminate.
Qed.

Lemma example_request_operand : operand_wf example_request.
Proof.
  apply plain_operand; [|done].
  destruct (scalar_resource_wf "cpus" 1500) as (_ & Hv & _);
    [lia|unfold in_range, fixed_bound; lia|].
  split; [|split; [exact Hv|done]]. split; [|done]. constructor; [|constructor]. done.
Qed.

Lemma apply_conserves_totals_witness :
  let rs := example_pool in
  let op := on_reserve [example_request] in
  (∃ rs', apply (H:=gset_icl) (H0:=example_ostream) rs op = Ok rs' ∧ length rs' = 2%nat) ∧
  ((∃ rs', apply (H:=gset_icl) (H0:=example_ostream) rs op = Ok rs' ∧
           resources_wf rs' ∧ same_totals rs rs') ∨
   (∃ e, apply (H:=gset_icl) (H0:=example_ostream) rs op = Err e)).
Proof.
  intros rs op. split; [eexists; split; [vm_compute; reflexivity|reflexivity]|].
  apply (@apply_conserves_totals gset_icl gset_icl_laws example_ostream rs op);
    [exact example_pool_wf|exact example_pool_in_range|].
  constructor; [exact example_request_operand|constructor].
Defined.

Lemma reserve_roundtrip_witness :
  ∃ rs1 rs2,
    apply (H:=gset_icl) (H0:=example_ostream) example_pool (on_reserve [example_request]) = Ok rs1 ∧
    _contains rs1 (Resource__of example_request) = true ∧
    apply (H:=gset_icl) (H0:=example_ostream) rs1 (on_unreserve [example_request]) = Ok rs2 ∧
    _contains rs2 (Resource__of (popped example_request)) = true ∧
    resources_wf rs2 ∧ same_totals example_pool rs2 ∧
    resources_eq (H:=gset_icl) rs2 example_pool = Ok true.
Proof.
  destruct (@reserve_roundtrip gset_icl gset_icl_laws example_ostream example_pool example_request)
    as (rs1 & rs2 & H1 & H2 & H3 & H4 & H5 & H6 & H7);
    [exact example_pool_wf|exact example_pool_in_range| |].
  2:{ exists rs1, rs2. split_and!; try assumption. apply H7.
      intros e He _. by apply list_elem_of_singleton in He as ->. }
  split; [exact example_request_operand|]. split; [vm_compute; reflexivity|].
  split; [vm_compute; reflexivity|]. split; [|vm_compute; reflexivity].
  exists (dynamic_for "eng"). split; reflexivity.
Defined.

(** An operation that names a resource of type TEXT aborts the process
    instead of being rejected: [validate] reports the type as unsupported, and
    building the error message prints the resource, which is fatal. *)
Theorem apply_aborts_on_text `{Icl} `{Ostream} (rs : Resources) (r : Resource) :
  r_type r = TEXT → r_name r ≠ "" →
  ResourceValidate.validate r = Ok (Some "Unsupported resource type") ∧
  apply rs (on_reserve [r]) = Fatal.
Proof.
  intros Ht Hn. assert (Hv : ResourceValidate.validate r = Ok (Some "Unsupported resource type")).
  { unfold ResourceValidate.validate, validate_value. rewrite Ht.
    by destruct (r_name r). }
  split; [done|]. unfold apply, apply_result, on_reserve, apply_operands. cbn.
  rewrite Hv. cbn. unfold print_resource. by rewrite Ht.
Qed.

Lemma apply_aborts_on_text_witness :
  apply (H:=gset_icl) (H0:=example_ostream) []
    (on_reserve [mkResource None "note" TEXT None None None None None None [] None false false])
  = Fatal.
Proof.
  apply (apply_aborts_on_text (H:=gset_icl) (H0:=example_ostream)).
  - reflexivity.
  - discriminate.
Defined.

(** A shared persistent volume of 100 MB, statically reserved. *)
Definition shared_volume : Resource :=
  mkResource None "disk" SCALAR (Some (mkScalar (convertToFloating 100000))) None None
    None None None [mkReservation (Some STATIC) (Some "eng") None None]
    (Some (mkDisk (Some (mkPersistence "data" None)) None None)) false true.

(** With a shared volume of which two copies are held, refining the
    reservation of one copy passes every validation and then fails the sanity
    [CHECK] on the amount of disk, which aborts the process: the amount of a
    shared volume counts once however many copies there are. *)
Theorem apply_aborts_on_shared_refinement :
  let rs := [mkR shared_volume (Some 2)] in
  let refined := with_reservations shared_volume
    (r_reservations shared_volume ++ [dynamic_for "eng/ci"])%list in
  validate_list (H:=example_ostream) [refined] = Ok None ∧
  (∃ rs', apply_result (H:=gset_icl) (H0:=example_ostream) rs (on_reserve [refined]) = Ok rs') ∧
  apply (H:=gset_icl) (H0:=example_ostream) rs (on_reserve [refined]) = Fatal.
Proof.
  split; [vm_compute; reflexivity|]. split; [eexists; vm_compute; reflexivity|].
  vm_compute. reflexivity.
Qed.
