(* ===== verification/ResourcesUtils.v ===== *)
(** * ResourcesUtils: resources_utils.cpp

    Conversion between the formats of reservations, normalisation of offer
    operations, downgrading, and the application of checkpointed resources. *)

From S2P Require Import Prelude Binary64 Scalars Ranges IntervalSets StoutStrings Values.
From S2P Require Import Roles Resource ResourceValidate Resources ResourcesLaws.
From S2P Require Import ResourcesApply.
#[local] Open Scope string_scope.
#[local] Open Scope Z_scope.

Inductive ResourceFormat :=
  PRE_RESERVATION_REFINEMENT | POST_RESERVATION_REFINEMENT | ENDPOINT.
#[export] Instance ResourceFormat_eq_dec : EqDecision ResourceFormat.
Proof. solve_decision. Defined.

(** ** [convertResourceFormat] *)

(** To the formats with [role] and [reservation]. *)
Definition convert_down (r : Resource) (format : ResourceFormat) : outcome Resource :=
  _ ← CHECK (negb (has (r_role r)));
  _ ← CHECK (negb (has (r_reservation r)));
  match r_reservations r with
  | [] => Ok (with_format r (Some "*") (r_reservation r) [])
  | [source] =>
      let reservation :=
        if bool_decide (reservation_type source = DYNAMIC)
        then Some (mkReservation None None (rsv_principal source) (rsv_labels source))
        else r_reservation r in
      Ok (with_format r (Some (reservation_role source)) reservation
            (if bool_decide (format = PRE_RESERVATION_REFINEMENT)
             then [] else r_reservations r))
  | _ =>
      _ ← CHECK (negb (bool_decide (format = PRE_RESERVATION_REFINEMENT)));
      Ok r
  end.

(** To the stack of [reservations]. *)
Definition convert_up (r : Resource) : outcome Resource :=
  if (0 <? length (r_reservations r))%nat
  then Ok (with_format r None None (r_reservations r))
  else if String.eqb (role_of r) "*"
  then _ ← CHECK (negb (has (r_reservation r)));
       Ok (with_format r None (r_reservation r) [])
  else
    let reservation :=
      match r_reservation r with
      | None => mkReservation (Some STATIC) (Some (role_of r)) None None
      | Some old => mkReservation (Some DYNAMIC) (Some (role_of r))
                      (rsv_principal old) (rsv_labels old)
      end in
    Ok (with_format r None None [reservation]).

Definition convertResourceFormat (r : Resource) (format : ResourceFormat)
    : outcome Resource :=
  match format with
  | PRE_RESERVATION_REFINEMENT | ENDPOINT => convert_down r format
  | POST_RESERVATION_REFINEMENT => convert_up r
  end.

(** The overloads on lists. *)
Fixpoint convert_list (l : list Resource) (format : ResourceFormat)
    : outcome (list Resource) :=
  match l with
  | [] => Ok []
  | r :: l' =>
      r' ← convertResourceFormat r format;
      rest ← convert_list l' format;
      Ok (r' :: rest)
  end.

(** ** [downgradeResources] *)

Fixpoint check_all (l : list Resource) : outcome unit :=
  match l with
  | [] => Ok tt
  | r :: l' => _ ← check_format r; check_all l'
  end.

Fixpoint find_refined `{Ostream} (l : list Resource) : outcome unit :=
  match l with
  | [] => Ok tt
  | r :: l' =>
      refined ← hasRefinedReservations r;
      if (refined : bool)
      then s ← print_resource r;
           Err ("Invalid resources downgrade: resource " ++ s ++
                " with refined reservations cannot be downgraded")
      else find_refined l'
  end.

Definition downgradeResources `{Ostream} (l : list Resource) : outcome (list Resource) :=
  _ ← check_all l;
  _ ← find_refined l;
  convert_list l PRE_RESERVATION_REFINEMENT.

(** ** [validateAndNormalizeResources] *)

Section Normalize.
Context `{Ostream}.

(** Validates, then converts, one list of resources. *)
Definition normalize (l : list Resource) : outcome (list Resource) :=
  error ← validate_list l;
  match error with
  | Some e => Err e
  | None => convert_list l POST_RESERVATION_REFINEMENT
  end.

Fixpoint validate_tasks (tasks : list TaskResources) : outcome (option string) :=
  match tasks with
  | [] => Ok None
  | task :: tasks' =>
      error ← validate_list (task_resources task);
      match error with
      | Some e => Ok (Some e)
      | None =>
          error ← match executor_resources task with
                  | Some l => validate_list l
                  | None => Ok None
                  end;
          match error with Some e => Ok (Some e) | None => validate_tasks tasks' end
      end
  end.

Fixpoint convert_tasks (tasks : list TaskResources) : outcome (list TaskResources) :=
  match tasks with
  | [] => Ok []
  | task :: tasks' =>
      resources ← convert_list (task_resources task) POST_RESERVATION_REFINEMENT;
      executor ← match executor_resources task with
                 | Some l => l' ← convert_list l POST_RESERVATION_REFINEMENT; Ok (Some l')
                 | None => Ok None
                 end;
      rest ← convert_tasks tasks';
      Ok (mkTaskResources resources executor :: rest)
  end.

Definition missing (article field : string) : string :=
  article ++ " offer operation must have the Offer.Operation." ++ field ++ " field set.".

(** The executor of a LAUNCH_GROUP. *)
Definition convert_executor (executor : option (list Resource))
    : outcome (option (list Resource)) :=
  match executor with
  | Some l => l' ← convert_list l POST_RESERVATION_REFINEMENT; Ok (Some l')
  | None => Ok None
  end.

Definition validate_executor (executor : option (list Resource)) : outcome (option string) :=
  match executor with Some l => validate_list l | None => Ok None end.

(** The LAUNCH_GROUP case: everything is validated before anything is converted. *)
Definition normalize_launch_group (executor : option (list Resource))
    (tasks : list TaskResources) : outcome (option (list Resource) * list TaskResources) :=
  error ← validate_executor executor;
  match error with
  | Some e => Err e
  | None =>
      error ← validate_tasks tasks;
      match error with
      | Some e => Err e
      | None =>
          executor' ← convert_executor executor;
          tasks' ← convert_tasks tasks;
          Ok (executor', tasks')
      end
  end.

(** The LAUNCH case. *)
Definition normalize_launch (tasks : list TaskResources) : outcome (list TaskResources) :=
  error ← validate_tasks tasks;
  match error with
  | Some e => Err e
  | None => convert_tasks tasks
  end.

(** [Err] is the returned error; [Ok] the operation after normalisation. *)
Definition validateAndNormalizeResources (op : Operation) : outcome Operation :=
  match op_type op with
  | RESERVE =>
      match op_reserve op with
      | None => Err (missing "A RESERVE" "reserve")
      | Some l => l' ← normalize l;
          Ok (mkOperation RESERVE (op_launch op) (op_launch_group op) (Some l')
                (op_unreserve op) (op_create op) (op_destroy op))
      end
  | UNRESERVE =>
      match op_unreserve op with
      | None => Err (missing "An UNRESERVE" "unreserve")
      | Some l => l' ← normalize l;
          Ok (mkOperation UNRESERVE (op_launch op) (op_launch_group op) (op_reserve op)
                (Some l') (op_create op) (op_destroy op))
      end
  | CREATE =>
      match op_create op with
      | None => Err (missing "A CREATE" "create")
      | Some l => l' ← normalize l;
          Ok (mkOperation CREATE (op_launch op) (op_launch_group op) (op_reserve op)
                (op_unreserve op) (Some l') (op_destroy op))
      end
  | DESTROY =>
      match op_destroy op with
      | None => Err (missing "A DESTROY" "destroy")
      | Some l => l' ← normalize l;
          Ok (mkOperation DESTROY (op_launch op) (op_launch_group op) (op_reserve op)
                (op_unreserve op) (op_create op) (Some l'))
      end
  | LAUNCH =>
      match op_launch op with
      | None => Err (missing "A LAUNCH" "launch")
      | Some tasks =>
          tasks' ← normalize_launch tasks;
          Ok (mkOperation LAUNCH (Some tasks') (op_launch_group op) (op_reserve op)
                (op_unreserve op) (op_create op) (op_destroy op))
      end
  | LAUNCH_GROUP =>
      match op_launch_group op with
      | None => Err (missing "A LAUNCH_GROUP" "launch_group")
      | Some (executor, tasks) =>
          group ← normalize_launch_group executor tasks;
          Ok (mkOperation LAUNCH_GROUP (op_launch op) (Some group) (op_reserve op)
                (op_unreserve op) (op_create op) (op_destroy op))
      end
  | OP_UNKNOWN => Err "Unknown offer operation"
  end.
End Normalize.

(** ** Checkpointed resources *)

Definition needCheckpointing (r : Resource) : outcome bool :=
  dynamic ← isDynamicallyReserved r;
  if (dynamic : bool) then Ok true else isPersistentVolume r.

(** The agent resource a checkpointed one was made from. *)
Definition strip_checkpointed (r : Resource) : outcome Resource :=
  dynamic ← isDynamicallyReserved r;
  let stripped :=
    if (dynamic : bool)
    then match r_reservations r with
         | reservation :: _ =>
             with_reservations r
               (if bool_decide (reservation_type reservation = STATIC)
                then [reservation] else [])
         | [] => r
         end
    else r in
  persistent ← isPersistentVolume r;
  let disk :=
    if (persistent : bool)
    then if has (disk_source (disk_of stripped))
         then Some (mkDisk None None (disk_source (disk_of stripped))) else None
    else r_disk stripped in
  Ok (with_disk stripped disk false).

Definition checkpoint_step `{Icl} `{Ostream} (total : Resources) (r : Resource)
    : outcome Resources :=
  needed ← needCheckpointing r;
  if negb needed
  then s ← print_resource r; Err ("Unexpected checkpointed resources " ++ s)
  else stripped ← strip_checkpointed r;
  ok ← contains_Resource total stripped;
  if negb ok
  then s ← print_resources total; t ← print_resource stripped;
       Err ("Incompatible agent resources: " ++ s ++ " does not contain " ++ t)
  else rest ← minus_Resource total stripped; plus_Resource rest r.

Definition applyCheckpointedResources `{Icl} `{Ostream} (rs checkpointed : Resources)
    : outcome Resources :=
  mfold checkpoint_step rs (to_list checkpointed).

(** ** Upgrading valid resources *)

Lemma validate_post_format (r : Resource) (i : ReservationInfo) :
  post_format r → r_reservations r = [i] →
  validate_reservation i = Ok None → reservation_type i ≠ RESERVATION_UNKNOWN →
  validate_post r = Ok None.
Proof.
  intros [Hro Hre] Hrs Hi Ht. unfold validate_post. rewrite Hrs. cbn. rewrite Hi. cbn.
  unfold validate_single. rewrite Hro, Hre. cbn. by destruct (reservation_type i).
Qed.

(** [meta_valid] of a resource whose reservation fields were rewritten. *)
Lemma meta_valid_format (r : Resource) (rsvs : list ReservationInfo) :
  meta_valid r →
  (if (length rsvs =? 0)%nat then validate_pre (with_format r None None rsvs)
   else validate_post (with_format r None None rsvs)) = Ok None →
  meta_valid (with_format r None None rsvs).
Proof. intros (Hn & Hd & _ & Hs) Hf. by do 3 (split; [done|]). Qed.

Lemma validate_value_format (r : Resource) role reservation rsvs :
  validate_value (with_format r role reservation rsvs) = validate_value r.
Proof. done. Qed.

Lemma convert_up_pre (r : Resource) :
  r_reservations r = [] → validate_pre r = Ok None → meta_valid r →
  ∃ rsvs, convert_up r = Ok (with_format r None None rsvs) ∧
          meta_valid (with_format r None None rsvs).
Proof.
  intros Hnil Hpre Hmeta. unfold convert_up. rewrite Hnil. cbn.
  unfold validate_pre in Hpre. apply bind_Ok in Hpre as ([e|] & Hrole & Hpre); [done|].
  destruct (String.eqb_spec (role_of r) "*") as [Hstar|Hstar].
  - destruct (r_reservation r) as [i|] eqn:Ei.
    { destruct (has (rsv_type i)), (has (rsv_role i)); done. }
    exists []. split; [done|]. by apply meta_valid_format.
  - eexists. split; [done|]. apply meta_valid_format; [done|].
    cbn [length Nat.eqb]. eapply validate_post_format; [done|done| |].
    + unfold validate_reservation. destruct (r_reservation r); cbn;
        change (reservation_role _) with (role_of r); rewrite Hrole; cbn;
        by rewrite (proj2 (String.eqb_neq _ _)).
    + by destruct (r_reservation r).
Qed.

Lemma convert_up_post (r : Resource) :
  r_reservations r ≠ [] → validate_post r = Ok None → meta_valid r →
  convert_up r = Ok (with_format r None None (r_reservations r)) ∧
  meta_valid (with_format r None None (r_reservations r)).
Proof.
  intros Hne Hpost Hmeta. destruct (r_reservations r) as [|i l] eqn:E; [done|].
  unfold convert_up. rewrite E. split; [done|]. apply meta_valid_format; [done|].
  cbn [length Nat.eqb]. unfold validate_post in *. rewrite E in Hpost. cbn in *.
  destruct (validate_reservation i) as [[e|]| |]; cbn in *; try done.
  destruct (first_error validate_reservation l) as [[e|]| |]; cbn in *; try done.
  destruct (validate_refinement _ l); [done|]. destruct l; [|done]. cbn in *.
  injection Hpost as Hs. unfold validate_single in *. cbn.
  destruct (has (r_role r) && _); [done|]. by destruct (reservation_type i).
Qed.

Lemma upgrade_valid (r : Resource) :
  ResourceValidate.validate r = Ok None →
  ∃ r', convert_up r = Ok r' ∧ post_format r' ∧ ResourceValidate.validate r' = Ok None ∧
        same_value r' r.
Proof.
  intros [Hmeta Hval]%validate_iff. pose proof Hmeta as (_ & _ & Hf & _).
  destruct (r_reservations r) as [|i l] eqn:E.
  - destruct (convert_up_pre r E Hf Hmeta) as (rsvs & -> & Hm).
    eexists. split; [done|]. split; [done|]. split; [|done]. by apply validate_iff.
  - assert (Hne : r_reservations r ≠ []) by (by rewrite E).
    destruct (convert_up_post r Hne Hf Hmeta) as [-> Hm].
    eexists. split; [done|]. split; [done|]. split; [|done]. by apply validate_iff.
Qed.

Lemma upgrade_list_valid (l : list Resource) :
  Forall (fun r => ResourceValidate.validate r = Ok None) l →
  ∃ l', convert_list l POST_RESERVATION_REFINEMENT = Ok l' ∧
        Forall (fun r => post_format r ∧ ResourceValidate.validate r = Ok None) l' ∧
        Forall2 same_value l' l.
Proof.
  induction 1 as [|r l Hr Hl (l' & IH & Hf & Hv)]; [exists []; auto|]. cbn.
  destruct (upgrade_valid r Hr) as (r' & -> & Hp & Hval & Hsame). cbn. rewrite IH. cbn.
  eexists. split; [done|]. split; constructor; auto.
Qed.

(** Validation of resources that can be printed. *)
(** [validate] of a list returns (no TEXT is printed) and reports nothing exactly
    when every resource is valid. *)
Lemma validate_list_typed `{Ostream} (l : list Resource) :
  Forall (fun r => r_type r ≠ TEXT) l →
  ∃ e, validate_list l = Ok e ∧
       (e = None ↔ Forall (fun r => ResourceValidate.validate r = Ok None) l).
Proof.
  induction 1 as [|r l Hr Hl (e & IH & Hval)]; [exists None; by split|].
  cbn. destruct (resource_validate_total r) as [[m|] Hv]; rewrite Hv; cbn.
  - unfold print_resource. destruct (r_type r); try done; cbn;
      (eexists; split; [done|]; rewrite Forall_cons, Hv; by split; [|intros []]).
  - exists e. split; [done|]. rewrite Hval, Forall_cons, Hv. by split; [|intros []].
Qed.

(** The resources that the field of an operation's type carries; [None] when it is
    not set. *)
Definition task_carries (task : TaskResources) : list Resource :=
  (task_resources task ++ default [] (executor_resources task))%list.
Definition carried (op : Operation) : option (list Resource) :=
  match op_type op with
  | RESERVE => op_reserve op
  | UNRESERVE => op_unreserve op
  | CREATE => op_create op
  | DESTROY => op_destroy op
  | LAUNCH => tasks ← op_launch op; Some (tasks ≫= task_carries)
  | LAUNCH_GROUP =>
      '(executor, tasks) ← op_launch_group op;
      Some (default [] executor ++ (tasks ≫= task_carries))%list
  | OP_UNKNOWN => None
  end.

Definition valid (r : Resource) : Prop := ResourceValidate.validate r = Ok None.

(** [l'] is [l] in the new format. *)
Definition normalized (l l' : list Resource) : Prop :=
  Forall2 same_value l' l ∧ Forall (fun r => post_format r ∧ valid r) l'.

Lemma normalized_app l1 l1' l2 l2' :
  normalized l1 l1' → normalized l2 l2' → normalized (l1 ++ l2)%list (l1' ++ l2')%list.
Proof. intros [??] [??]. split; [by apply Forall2_app|by apply Forall_app_2]. Qed.

(** What validation followed by conversion makes of a field of type [A]. *)
Definition normalizes {A : Type} (carries : A → list Resource) (a : A) (r : outcome A) : Prop :=
  Forall (fun r => r_type r ≠ TEXT) (carries a) →
  (Forall valid (carries a) → ∃ a', r = Ok a' ∧ normalized (carries a) (carries a')) ∧
  (¬ Forall valid (carries a) → ∃ e, r = Err e).

Section operations.
Context `{Ostream}.

Lemma convert_list_normalized l :
  Forall valid l →
  ∃ l', convert_list l POST_RESERVATION_REFINEMENT = Ok l' ∧ normalized l l'.
Proof. intros (l' & ? & ? & ?)%upgrade_list_valid. exists l'. by repeat split. Qed.

Lemma convert_executor_normalized executor :
  Forall valid (default [] executor) →
  ∃ executor', convert_executor executor = Ok executor' ∧
               normalized (default [] executor) (default [] executor').
Proof.
  destruct executor as [l|]; cbn; [|intros; exists None; by repeat split].
  intros (l' & -> & Hl)%convert_list_normalized. by exists (Some l').
Qed.

Lemma convert_tasks_normalized tasks :
  Forall valid (tasks ≫= task_carries) →
  ∃ tasks', convert_tasks tasks = Ok tasks' ∧
            normalized (tasks ≫= task_carries) (tasks' ≫= task_carries).
Proof.
  induction tasks as [|[l x] tasks IH]; [exists []; by repeat split|].
  cbn. rewrite !Forall_app. intros [[Hl Hx] Ht].
  destruct (convert_list_normalized l Hl) as (l' & -> & Nl). cbn.
  change (match x with Some l0 => _ | None => Ok None end) with (convert_executor x).
  destruct (convert_executor_normalized x Hx) as (x' & -> & Nx). cbn.
  destruct (IH Ht) as (tasks' & -> & Nt). cbn.
  eexists. split; [done|]. cbn. by repeat apply normalized_app.
Qed.

Lemma validate_executor_typed executor :
  Forall (fun r => r_type r ≠ TEXT) (default [] executor) →
  ∃ e, validate_executor executor = Ok e ∧ (e = None ↔ Forall valid (default [] executor)).
Proof. destruct executor; [apply validate_list_typed|by exists None]. Qed.

Lemma validate_tasks_typed tasks :
  Forall (fun r => r_type r ≠ TEXT) (tasks ≫= task_carries) →
  ∃ e, validate_tasks tasks = Ok e ∧ (e = None ↔ Forall valid (tasks ≫= task_carries)).
Proof.
  induction tasks as [|[l x] tasks IH]; [by exists None|].
  cbn. rewrite !Forall_app. setoid_rewrite Forall_app. setoid_rewrite Forall_app.
  intros [[Hl Hx] Ht].
  destruct (validate_list_typed l Hl) as (e & -> & He). fold valid in He. cbn.
  destruct e as [e|]; [exists (Some e); split; [done|]; split; [done|]; intros [[Hv%He _] _]; done|].
  change (match x with Some l0 => _ | None => Ok None end) with (validate_executor x).
  destruct (validate_executor_typed x Hx) as (e & -> & Hxe). cbn.
  destruct e as [e|]; [exists (Some e); split; [done|]; split; [done|]; intros [[_ Hv%Hxe] _]; done|].
  destruct (IH Ht) as (e & -> & Hte). exists e. split; [done|].
  rewrite Hte. split; [|by intros [_ ?]]. intros ?. split; [split|done]; [by apply He|by apply Hxe].
Qed.

Lemma normalize_normalizes l : normalizes id l (normalize l).
Proof.
  intros Hl. unfold normalize. destruct (validate_list_typed l Hl) as (e & -> & Hval).
  split; intros Hv.
  - apply Hval in Hv as He. subst e. by apply convert_list_normalized.
  - destruct e as [e|]; cbn; [eauto|]. destruct Hv. by apply Hval.
Qed.

Lemma normalize_launch_normalizes tasks :
  normalizes (fun tasks => tasks ≫= task_carries) tasks (normalize_launch tasks).
Proof.
  intros Hl. unfold normalize_launch. destruct (validate_tasks_typed tasks Hl) as (e & -> & Hval).
  split; intros Hv.
  - apply Hval in Hv as He. subst e. by apply convert_tasks_normalized.
  - destruct e as [e|]; cbn; [eauto|]. destruct Hv. by apply Hval.
Qed.

Lemma normalize_launch_group_normalizes executor tasks :
  normalizes (fun '(executor, tasks) => default [] executor ++ (tasks ≫= task_carries))%list
    (executor, tasks) (normalize_launch_group executor tasks).
Proof.
  intros [Hx Ht]%Forall_app. unfold normalize_launch_group. rewrite Forall_app.
  destruct (validate_executor_typed executor Hx) as (e & -> & Hxe).
  destruct (validate_tasks_typed tasks Ht) as (e' & Ee & Hte). cbn.
  split.
  - intros [Vx Vt]. rewrite (proj2 Hxe Vx), Ee, (proj2 Hte Vt). cbn.
    destruct (convert_executor_normalized executor Vx) as (x' & -> & Nx).
    destruct (convert_tasks_normalized tasks Vt) as (t' & -> & Nt). cbn.
    eexists. split; [done|]. by apply normalized_app.
  - intros Hv. destruct e as [e|]; [eauto|]. rewrite Ee. destruct e' as [e'|]; cbn; [eauto|].
    destruct Hv. split; [by apply Hxe|by apply Hte].
Qed.

End operations.

(** ** The rest of the operation stays as it is *)

(** The operation without what the formats of the resources in its field say: the rest
    of the resources, the tasks, the executors and the other fields. *)
Definition erase_format (r : Resource) : Resource := with_format r None None [].
Definition erase_task (task : TaskResources) : TaskResources :=
  mkTaskResources (map erase_format (task_resources task))
                  (option_map (map erase_format) (executor_resources task)).
#[export] Instance OperationType_eq_dec : EqDecision OperationType.
Proof. solve_decision. Defined.
Definition erase_formats (op : Operation) : Operation :=
  let on (ty : OperationType) (l : option (list Resource)) :=
    if decide (op_type op = ty) then option_map (map erase_format) l else l in
  mkOperation (op_type op)
    (if decide (op_type op = LAUNCH) then option_map (map erase_task) (op_launch op) else op_launch op)
    (if decide (op_type op = LAUNCH_GROUP)
     then option_map (prod_map (option_map (map erase_format)) (map erase_task)) (op_launch_group op)
     else op_launch_group op)
    (on RESERVE (op_reserve op)) (on UNRESERVE (op_unreserve op))
    (on CREATE (op_create op)) (on DESTROY (op_destroy op)).

Lemma convert_up_erase r r' : convert_up r = Ok r' → erase_format r' = erase_format r.
Proof.
  unfold convert_up. do 2 (case_if; [by intros; outcome_inv|]). by intros [= <-].
Qed.

Lemma convert_list_erase l l' :
  convert_list l POST_RESERVATION_REFINEMENT = Ok l' → map erase_format l' = map erase_format l.
Proof.
  revert l'. induction l as [|r l IH]; intros l'; cbn; intros Hc; outcome_inv; [done|].
  cbn. f_equal; [by apply convert_up_erase|by apply IH].
Qed.

Lemma convert_executor_erase x x' :
  convert_executor x = Ok x' → option_map (map erase_format) x' = option_map (map erase_format) x.
Proof.
  destruct x as [l|]; cbn; intros Hc; outcome_inv; [|done]. cbn. f_equal. by apply convert_list_erase.
Qed.

Lemma convert_tasks_erase tasks tasks' :
  convert_tasks tasks = Ok tasks' → map erase_task tasks' = map erase_task tasks.
Proof.
  revert tasks'. induction tasks as [|[l x] tasks IH]; intros tasks'; cbn; intros Hc;
    [by injection Hc as <-|].
  change (match x with Some l0 => _ | None => Ok None end) with (convert_executor x) in Hc.
  apply bind_Ok in Hc as (l' & Hl & Hc). apply bind_Ok in Hc as (x' & Hx & Hc).
  apply bind_Ok in Hc as (rest & Hr & Hc). injection Hc as <-. cbn. unfold erase_task at 1 3. cbn.
  by rewrite (convert_list_erase _ _ Hl), (convert_executor_erase _ _ Hx), (IH _ Hr).
Qed.

Lemma normalize_erase `{Ostream} l l' : normalize l = Ok l' → map erase_format l' = map erase_format l.
Proof.
  unfold normalize. intros ([e|] & _ & Hc)%bind_Ok; [done|]. by apply convert_list_erase.
Qed.

Lemma normalized_erase `{Ostream} (op op' : Operation) :
  validateAndNormalizeResources op = Ok op' → erase_formats op' = erase_formats op.
Proof.
  destruct op as [[] launch group reserve unreserve create destroy]; cbn; [done|..].
  - destruct launch as [tasks|]; [|done]. intros (tasks' & Hn & [= <-])%bind_Ok.
    unfold normalize_launch in Hn. apply bind_Ok in Hn as ([e|] & _ & Hn); [done|].
    unfold erase_formats. cbn. by rewrite (convert_tasks_erase _ _ Hn).
  - destruct group as [[x tasks]|]; [|done]. intros (g & Hn & [= <-])%bind_Ok.
    unfold normalize_launch_group in Hn. apply bind_Ok in Hn as ([e|] & _ & Hn); [done|].
    apply bind_Ok in Hn as ([e|] & _ & Hn); [done|]. apply bind_Ok in Hn as (x' & Hx & Hn).
    apply bind_Ok in Hn as (tasks' & Ht & [= <-]). unfold erase_formats. cbn.
    unfold prod_map. cbn. by rewrite (convert_tasks_erase _ _ Ht), (convert_executor_erase _ _ Hx).
  - destruct reserve as [l|]; [|done]. intros (l' & Hn%normalize_erase & [= <-])%bind_Ok.
    unfold erase_formats. cbn. by rewrite Hn.
  - destruct unreserve as [l|]; [|done]. intros (l' & Hn%normalize_erase & [= <-])%bind_Ok.
    unfold erase_formats. cbn. by rewrite Hn.
  - destruct create as [l|]; [|done]. intros (l' & Hn%normalize_erase & [= <-])%bind_Ok.
    unfold erase_formats. cbn. by rewrite Hn.
  - destruct destroy as [l|]; [|done]. intros (l' & Hn%normalize_erase & [= <-])%bind_Ok.
    unfold erase_formats. cbn. by rewrite Hn.
Qed.

Section whole_operation.
Context `{Ostream}.

(** The same of an operation. *)
Definition normalizes_op (op : Operation) : Prop :=
  match carried op with
  | None => ∃ e, validateAndNormalizeResources op = Err e
  | Some l =>
      Forall (fun r => r_type r ≠ TEXT) l →
      (Forall valid l →
       ∃ op' l', validateAndNormalizeResources op = Ok op' ∧
                 erase_formats op' = erase_formats op ∧
                 carried op' = Some l' ∧ normalized l l') ∧
      (¬ Forall valid l → ∃ e, validateAndNormalizeResources op = Err e)
  end.

(** Lifts the normalisation of a field to the operation. *)
Lemma normalizes_operation {A : Type} (carries : A → list Resource) (a : A) (r : outcome A)
    (build : A → Operation) (op : Operation) :
  normalizes carries a r →
  carried op = Some (carries a) →
  validateAndNormalizeResources op = (a' ← r; Ok (build a')) →
  (∀ a, carried (build a) = Some (carries a)) →
  normalizes_op op.
Proof.
  intros Hn Hc Hv Hb. unfold normalizes_op. rewrite Hc, Hv. intros Hl.
  destruct (Hn Hl) as [Hok Herr]. split.
  - intros (a' & Hr & Ha)%Hok. rewrite Hr in *. exists (build a'), (carries a').
    split_and!; [done|by apply normalized_erase|done|done].
  - intros (e & ->)%Herr. by exists e.
Qed.
End whole_operation.

(** ** Properties *)

(** C30: Normalising an operation never aborts when no resource in it is a TEXT.  It is an
    error when the field of its type is not set or one of the resources in it, those
    of its tasks and executors included, is invalid; otherwise the result is the same
    operation but for the format of these resources: the type, the other fields, the
    tasks and executors and everything in the resources but their reservation fields are
    unchanged, and the resources are valid and in the post-reservation-refinement
    format. *)
Theorem operation_normalized `{Ostream} (op : Operation) :
  match carried op with
  | None => ∃ e, validateAndNormalizeResources op = Err e
  | Some l =>
      Forall (fun r => r_type r ≠ TEXT) l →
      (Forall valid l →
       ∃ op' l', validateAndNormalizeResources op = Ok op' ∧
                 erase_formats op' = erase_formats op ∧
                 carried op' = Some l' ∧ normalized l l') ∧
      (¬ Forall valid l → ∃ e, validateAndNormalizeResources op = Err e)
  end.
Proof.
  change (normalizes_op op).
  destruct op as [[] launch group reserve unreserve create destroy].
  - by eexists.
  - destruct launch as [tasks|]; [|by eexists].
    by eapply (normalizes_operation _ _ _ _ _ (normalize_launch_normalizes tasks)).
  - destruct group as [[executor tasks]|]; [|by eexists].
    eapply (normalizes_operation _ _ _ _ _ (normalize_launch_group_normalizes executor tasks));
      [done|done|by intros []].
  - destruct reserve as [l|]; [|by eexists].
    by eapply (normalizes_operation _ _ _ _ _ (normalize_normalizes l)).
  - destruct unreserve as [l|]; [|by eexists].
    by eapply (normalizes_operation _ _ _ _ _ (normalize_normalizes l)).
  - destruct create as [l|]; [|by eexists].
    by eapply (normalizes_operation _ _ _ _ _ (normalize_normalizes l)).
  - destruct destroy as [l|]; [|by eexists].
    by eapply (normalizes_operation _ _ _ _ _ (normalize_normalizes l)).
Qed.

Lemma operation_normalized_witness :
  let r := with_format (scalar_resource "cpus" 1000) (Some "eng") None [] in
  let op := mkOperation LAUNCH (Some [mkTaskResources [r] (Some [r])]) None None None None None in
  ∃ op' l', validateAndNormalizeResources (H:=example_ostream) op = Ok op' ∧
            erase_formats op' = erase_formats op ∧ carried op' = Some l' ∧ normalized [r; r] l'.
Proof.
  intros r op. apply (operation_normalized (H:=example_ostream) op).
  - repeat constructor; discriminate.
  - repeat constructor; vm_compute; reflexivity.
Defined.

(** What the older format can express of a reservation. *)
Definition expressible (i : ReservationInfo) : Prop :=
  match rsv_type i with
  | Some DYNAMIC => has (rsv_role i) = true
  | Some STATIC => has (rsv_role i) = true ∧ rsv_principal i = None ∧ rsv_labels i = None
  | _ => False
  end.

Lemma down_up_single (r : Resource) (i : ReservationInfo) (format : ResourceFormat) :
  post_format r → r_reservations r = [i] → expressible i → reservation_role i ≠ "*" →
  ∃ r', convert_down r format = Ok r' ∧ convert_up r' = Ok r.
Proof.
  intros [Hro Hre] Hrs Hexp Hstar. unfold convert_down. rewrite Hro, Hre, Hrs. cbn.
  eexists. split; [done|]. unfold convert_up. cbn [with_format r_reservations].
  destruct (bool_decide (format = _)); cbn.
  - change (role_of _) with (reservation_role i).
    rewrite (proj2 (String.eqb_neq _ _)) by done. unfold with_format; cbn.
    destruct r; cbn in *; subst. do 2 f_equal. f_equal. destruct i as [t ro p la].
    unfold expressible, reservation_type, reservation_role in *; cbn in *.
    destruct t as [[]|], ro; try done; cbn; first [done | by destruct Hexp as (? & -> & ->)].
  - destruct r; cbn in *; subst. done.
Qed.

(** Downgrading a resource with at most one reservation to the older
    format (or to the endpoint format) and upgrading it again gives it back,
    when the reservation is dynamic, or static without principal and labels. *)
Theorem convert_roundtrip (r : Resource) (format : ResourceFormat) :
  post_format r → format ≠ POST_RESERVATION_REFINEMENT →
  match r_reservations r with
  | [] => True
  | [i] => expressible i ∧ reservation_role i ≠ "*"
  | _ => False
  end →
  ∃ r', convertResourceFormat r format = Ok r' ∧
        convertResourceFormat r' POST_RESERVATION_REFINEMENT = Ok r.
Proof.
  intros Hpost Hfmt Hrs.
  assert (Hdown : convertResourceFormat r format = convert_down r format)
    by by destruct format.
  rewrite Hdown. cbn [convertResourceFormat].
  destruct (r_reservations r) as [|i [|j l]] eqn:E; [| |done].
  - destruct Hpost as [Hro Hre]. unfold convert_down. rewrite Hro, Hre, E. cbn.
    eexists. split; [done|]. destruct r; cbn in *; by subst.
  - destruct Hrs. by eapply down_up_single.
Qed.

Lemma convert_roundtrip_witness :
  let r := with_reservations (scalar_resource "mem" 512000)
    [mkReservation (Some DYNAMIC) (Some "eng") (Some "alice") None] in
  ∃ r', convertResourceFormat r PRE_RESERVATION_REFINEMENT = Ok r' ∧
        convertResourceFormat r' POST_RESERVATION_REFINEMENT = Ok r.
Proof.
  intros r. apply (convert_roundtrip r); [split; reflexivity|discriminate|].
  split; [reflexivity|discriminate].
Defined.

(** The principal and the labels of a static reservation are lost when a
    resource goes through the older format, although the post-reservation
    format allows both on static reservations. *)
Theorem convert_loses_static_principal :
  let r := with_reservations (scalar_resource "mem" 512000)
    [mkReservation (Some STATIC) (Some "eng") (Some "alice") None] in
  ResourceValidate.validate r = Ok None ∧
  ∃ r', convertResourceFormat r PRE_RESERVATION_REFINEMENT = Ok r' ∧
        convertResourceFormat r' POST_RESERVATION_REFINEMENT
        = Ok (with_reservations r [mkReservation (Some STATIC) (Some "eng") None None]).
Proof.
  split; [vm_compute; reflexivity|]. eexists. split; reflexivity.
Qed.

(** ** Applying checkpointed resources *)

Lemma strip_checkpointed_ok (r : Resource) :
  operand_wf r → ∃ p, strip_checkpointed r = Ok p ∧ operand_wf p ∧ same_value p r.
Proof.
  intros Hop. pose proof Hop as ([Hm Hd] & Hv & Hp & Hs). unfold strip_checkpointed.
  rewrite isDynamicallyReserved_post, isPersistentVolume_post by done.
  cbn [mbind outcome_bind]. eexists. split; [done|].
  match goal with |- operand_wf (with_disk ?s _ _) ∧ _ => set (stripped := s) end.
  assert (Hst : Forall reservation_wf (r_reservations stripped) ∧ r_disk stripped = r_disk r ∧
                post_format stripped ∧ value_wf stripped ∧ same_value stripped r).
  { unfold stripped. clear stripped.
    match goal with |- context [if ?b then _ else r] => destruct b end; [|done].
    destruct (r_reservations r) as [|i l] eqn:E; [by rewrite E|]. cbn.
    apply Forall_cons in Hm as [Hi _]. split; [|done].
    destruct (bool_decide _); by repeat constructor. }
  destruct Hst as (Hrs & Hdisk & Hpost & Hval & Hsame).
  assert (Hso : disk_of stripped = disk_of r) by by (unfold disk_of; rewrite Hdisk).
  split; [|by destruct Hsame as (? & ? & ? & ? & ?)].
  split; [|done]. split; [done|]. cbn. rewrite Hso, Hdisk. intros d Hdd s Hs'.
  unfold disk_of in Hdd. destruct (r_disk r) as [d'|] eqn:Ed; cbn in Hdd; [|done].
  apply (Hd d' eq_refl). destruct (has (disk_persistence d')); [|congruence].
  destruct (disk_source d') as [s'|]; [|done]. injection Hdd as <-. done.
Qed.

Section Checkpoint.
Context `{IclLaws} `{Ostream}.

Lemma contains_Resource_true (rs : Resources) (r : Resource) :
  contains_Resource rs r = Ok true →
  ResourceValidate.validate r = Ok None ∧ _contains rs (Resource__of r) = true.
Proof.
  unfold contains_Resource. intros ([e|] & Hv & Hb)%bind_Ok; [done|].
  by injection Hb.
Qed.

Lemma checkpoint_step_ok (rs : Resources) (r : Resource) :
  resources_wf rs → amounts_in_range rs → operand_wf r →
  ResourceValidate.validate r = Ok None → step_ok rs (checkpoint_step rs r).
Proof.
  intros Hwf Hr Hop Hval. unfold checkpoint_step, needCheckpointing.
  rewrite isDynamicallyReserved_post, isPersistentVolume_post by apply Hop.
  cbn [mbind outcome_bind].
  match goal with |- step_ok _ ((if ?b then Ok true else Ok ?c) ≫= _) =>
    replace (if b then Ok true else Ok c) with (Ok (b || c)) by (by destruct b);
    destruct (b || c) end; cbn [mbind outcome_bind negb].
  2:{ destruct (print_resource_wf r) as (s & ->); [apply Hop|]. apply step_ok_err. }
  destruct (strip_checkpointed_ok r Hop) as (p & -> & Hpop & Hsame).
  cbn [mbind outcome_bind].
  destruct (contains_Resource_valid rs p) as (b & Hb & _). rewrite Hb.
  cbn [mbind outcome_bind]. destruct b; cbn [negb].
  - apply contains_Resource_true in Hb as [Hvp Hc].
    destruct (exchange rs p r) as (rest & rs' & Hsub & Hadd & _ & Hwf' & Htot); [done..|].
    left. exists rs'. unfold minus_Resource, minus_, plus_Resource, plus_, validate_.
    rewrite !operand_shared by done. cbn [andb resource Resource__of mbind outcome_bind].
    rewrite Hvp. cbn [mbind outcome_bind]. rewrite Hsub. cbn [mbind outcome_bind].
    rewrite Hval. cbn [mbind outcome_bind]. by rewrite Hadd.
  - destruct (print_resources_wf rs) as (s & ->); [apply Hwf|].
    destruct (print_resource_wf p) as (t & ->); [apply Hpop|]. apply step_ok_err.
Qed.

(** Applying valid checkpointed resources to an agent's resources either
    reports an incompatibility or keeps the class invariant and the total of
    every scalar and range, and never aborts. *)
Theorem checkpoint_conserves_totals (rs checkpointed : Resources) :
  resources_wf rs → amounts_in_range rs →
  Forall (fun r => operand_wf r ∧ ResourceValidate.validate r = Ok None)
    (to_list checkpointed) →
  (∃ rs', applyCheckpointedResources rs checkpointed = Ok rs' ∧
          resources_wf rs' ∧ same_totals rs rs') ∨
  (∃ e, applyCheckpointedResources rs checkpointed = Err e).
Proof.
  intros Hwf Hr Hl. apply mfold_step_ok; [|done|done]. rewrite Forall_forall in Hl.
  intros rs0 r Hin Hwf0 Hr0. destruct (Hl r Hin). by apply checkpoint_step_ok.
Qed.
End Checkpoint.

Lemma checkpoint_conserves_totals_witness :
  let rs := [Resource__of (scalar_resource "disk" 4000)] in
  let volume := with_disk
    (with_reservations (scalar_resource "disk" 1000) [dynamic_for "eng"])
    (Some (mkDisk (Some (mkPersistence "data" None)) None None)) false in
  (∃ rs', applyCheckpointedResources (H:=gset_icl) (H0:=example_ostream) rs
            [Resource__of volume] = Ok rs' ∧ length rs' = 2%nat) ∧
  ((∃ rs', applyCheckpointedResources (H:=gset_icl) (H0:=example_ostream) rs
            [Resource__of volume] = Ok rs' ∧ resources_wf rs' ∧ same_totals rs rs') ∨
   (∃ e, applyCheckpointedResources (H:=gset_icl) (H0:=example_ostream) rs
          [Resource__of volume] = Err e)).
Proof.
  intros rs volume. split; [eexists; split; [vm_compute; reflexivity|reflexivity]|].
  assert (Hcpu : plain_wf (scalar_resource "disk" 4000)) by
    (apply scalar_resource_wf; unfold in_range, fixed_bound; lia).
  assert (Hvol : plain_wf (scalar_resource "disk" 1000)) by
    (apply scalar_resource_wf; unfold in_range, fixed_bound; lia).
  apply (@checkpoint_conserves_totals gset_icl gset_icl_laws example_ostream rs
           [Resource__of volume]).
  - split; [|by repeat constructor]. constructor; [|constructor].
    apply operand_entry; [by apply plain_operand|vm_compute; reflexivity].
  - intros name. unfold rs, amount, foldr, amount_of.
    destruct (String.eqb _ name); unfold in_range, fixed_bound; vm_compute; discriminate.
  - constructor; [|constructor]. split; [|vm_compute; reflexivity].
    destruct Hvol as (_ & Hv & _). split; [|by split; [|split]].
    split; [by repeat constructor|]. intros d [= <-] s. done.
Defined.
