(* ===== verification/ResourcesParse.v ===== *)
(** * ResourcesParse: [Resources::parse] and its helpers (resources.cpp)

    Resources given as text, [name(role):value;...], or as JSON.  The readers
    of numbers and of JSON are parameters.  The main result is that parsing
    never aborts: every text gives an error or resources. *)

From S2P Require Import Prelude Binary64 Scalars Ranges IntervalSets StoutStrings Values.
From S2P Require Import Roles Resource ResourceValidate Resources ResourcesLaws.
From S2P Require Import ResourcesApply ResourcesUtils.
#[local] Open Scope string_scope.
#[local] Open Scope Z_scope.

Definition type_name (ty : ValueType) : string :=
  match ty with
  | SCALAR => "SCALAR" | RANGES => "RANGES" | SET => "SET" | TEXT => "TEXT"
  end.

(** ** [internal::validateCommandLineResources] *)

Fixpoint validate_command_line (nameTypes : gmap string ValueType) (l : list Resource)
    : outcome (option string) :=
  match l with
  | [] => Ok None
  | r :: l' =>
      persistent ← isPersistentVolume r;
      if (persistent : bool)
      then Ok (Some "Persistent volumes cannot be specified at the command line")
      else revocable ← isRevocable r;
      if (revocable : bool)
      then Ok (Some ("Revocable resources cannot be specified at the command line; do"
             ++ " not include a 'revocable' key in the resources JSON"))
      else dynamic ← isDynamicallyReserved r;
      if (dynamic : bool)
      then Ok (Some ("Dynamic reservations cannot be specified at the command line; do"
             ++ " not include a reservation with DYNAMIC type in the resources JSON"))
      else match nameTypes !! r_name r with
           | Some ty =>
               if negb (type_eqb ty (r_type r))
               then Ok (Some ("Resources with the same name ('" ++ r_name r ++ "') but"
                      ++ " different types are not allowed"))
               else validate_command_line nameTypes l'
           | None => validate_command_line (<[r_name r := r_type r]> nameTypes) l'
           end
  end.

Definition validateCommandLineResources (rs : Resources) : outcome (option string) :=
  validate_command_line ∅ (to_list rs).

(** The parser of values only reports errors, whatever the readers of numbers do. *)
Lemma parse_not_fatal nu nd (s : string) : Values.parse nu nd s ≠ Fatal.
Proof.
  unfold Values.parse. do 2 (case_if; [done|]).
  destruct (find_first_of _ "[" 0) as [[|?]|]; [|done|].
  - unfold parse_ranges. case_if; [done|].
    enough (Hp : ∀ l acc, parse_pairs nu l acc ≠ Fatal).
    { specialize (Hp (tokenize (replace s " " "") range_delims None) []).
      by destruct (parse_pairs nu _ []). }
    fix IH 1. intros [|b [|e l]] acc; cbn; [done|done|].
    destruct (nu b), (nu e); try done; apply IH.
  - destruct (find_first_of _ "{" 0) as [[|?]|]; done.
Qed.

Section ResourcesParse.
(** [numify] for the two types of numbers, and the readers of JSON. *)
Context (numify_u64 : string → outcome Z) (numify_double : string → outcome double).
Context {J : Type} (json_array : string → option J)
        (protobuf_parse : J → string + list Resource).

(** [Resources::parse(name, value, role)] *)
Definition parse_resource (name value role : string) : outcome Resource :=
  match Values.parse numify_u64 numify_double value with
  | Err e => Err ("Failed to parse resource " ++ name ++ " value " ++ value
                  ++ " error " ++ e)
  | Fatal => Fatal
  | Ok v =>
      let stack :=
        if negb (String.eqb role "*")
        then [mkReservation (Some STATIC) (Some role) None None] else [] in
      let make ty s rs vs :=
        mkResource None name ty s rs vs None None None stack None false false in
      match value_type v with
      | SCALAR => Ok (make SCALAR (Some (get_or scalar_default (value_scalar v))) None None)
      | RANGES => Ok (make RANGES None (Some (get_or [] (value_ranges v))) None)
      | SET => Ok (make SET None None (Some (get_or [] (value_set v))))
      | TEXT => Err ("Bad type for resource " ++ name ++ " value " ++ value
                     ++ " type " ++ type_name TEXT)
      end
  end.

(** The name and the role of [name(role)]. *)
Definition split_role (token first defaultRole : string) : outcome (string * string) :=
  match find_first_of first "(" 0 with
  | None => Ok (trim first ANY WHITESPACE, defaultRole)
  | Some openParen =>
      match find_first_of first ")" 0 with
      | None => Err ("Bad value for resources, mismatched parentheses in " ++ token)
      | Some closeParen =>
          if (closeParen <? openParen)%nat
          then Err ("Bad value for resources, mismatched parentheses in " ++ token)
          else Ok (trim (substr first 0 openParen) ANY WHITESPACE,
                   trim (substr first (openParen + 1) (closeParen - openParen - 1))
                     ANY WHITESPACE)
      end
  end.

Definition parse_token (defaultRole token : string) : outcome Resource :=
  match tokenize token ":" None with
  | [first; value] =>
      '(name, role) ← split_role token first defaultRole;
      parse_resource name value role
  | _ => Err ("Bad value for resources, missing or extra ':' in " ++ token)
  end.

Fixpoint parse_tokens (defaultRole : string) (tokens : list string)
    : outcome (list Resource) :=
  match tokens with
  | [] => Ok []
  | token :: tokens' =>
      r ← parse_token defaultRole token;
      rest ← parse_tokens defaultRole tokens';
      Ok (r :: rest)
  end.

Definition fromSimpleString (text defaultRole : string) : outcome (list Resource) :=
  parse_tokens defaultRole (tokenize text ";" None).

Definition fromJSON (json : J) (defaultRole : string) : outcome (list Resource) :=
  match protobuf_parse json with
  | inl e => Err ("Some JSON resources were not formatted properly: " ++ e)
  | inr l =>
      Ok (map (fun r =>
            if negb (has (r_role r)) && (length (r_reservations r) =? 0)%nat
            then with_format r (Some defaultRole) (r_reservation r) (r_reservations r)
            else r) l)
  end.

Definition fromString (text defaultRole : string) : outcome (list Resource) :=
  match json_array text with
  | Some json => fromJSON json defaultRole
  | None => fromSimpleString text defaultRole
  end.

Definition parse_step (result : Resources) (r : Resource) : outcome Resources :=
  error ← ResourceValidate.validate r;
  match error with
  | Some e => Err e
  | None =>
      r' ← convertResourceFormat r POST_RESERVATION_REFINEMENT;
      add result (Resource__of r')
  end.

Definition parse_resources (text defaultRole : string) : outcome Resources :=
  l ← fromString text defaultRole;
  result ← mfold parse_step [] l;
  error ← validateCommandLineResources result;
  match error with Some e => Err e | None => Ok result end.

(** ** Parsing never aborts *)

(** An error or a value that satisfies [P]. *)
Definition returns {A : Type} (P : A → Prop) (o : outcome A) : Prop :=
  match o with Ok a => P a | Err _ => True | Fatal => False end.

Lemma returns_bind {A B : Type} (P : A → Prop) (Q : B → Prop) (o : outcome A)
    (f : A → outcome B) :
  returns P o → (∀ a, P a → returns Q (f a)) → returns Q (o ≫= f).
Proof. destruct o; cbn; auto. Qed.

Lemma returns_mfold {A B : Type} (P : A → Prop) (f : A → B → outcome A) (a : A) (l : list B) :
  P a → (∀ a x, P a → returns P (f a x)) → returns P (mfold f a l).
Proof.
  intros Ha Hf. revert a Ha. induction l as [|x l IH]; intros a Ha; [done|].
  cbn. eapply returns_bind; [by apply Hf|done].
Qed.

(** Entries in the post-reservation-refinement format whose counter matches. *)
Definition entry_format (e : Resource_) : Prop :=
  post_format (resource e) ∧ isShared_ e = r_shared (resource e).

Lemma of_format (r : Resource) : post_format r → entry_format (Resource__of r).
Proof.
  intros Hr. split; [done|]. unfold Resource__of, isShared_. cbn. by destruct (r_shared r).
Qed.

Lemma add_format (rs : Resources) (that : Resource_) :
  Forall entry_format rs → entry_format that → returns (Forall entry_format) (add rs that).
Proof.
  intros Hrs [Hp Hs]. unfold add, isEmpty_. rewrite isEmpty_post by done.
  destruct (isShared_ that && _); cbn; [done|]. destruct (empty_value _); [done|].
  destruct (add_loop_cases rs that) as [(l1 & e & l2 & -> & Hadd & ->)|[_ ->]].
  - apply Forall_app in Hrs as [H1 H2]. apply Forall_cons in H2 as [[Hpe Hse] H2].
    apply addable_same_shared in Hadd. unfold add_. rewrite Hse, Hadd, <-Hs.
    destruct (isShared_ that) eqn:Ht; cbn.
    + unfold isShared_ in *. rewrite Hse, Hadd, <-Hs, Ht. cbn.
      apply Forall_app; split; [done|]. constructor; [|done]. split; [done|]. cbn. congruence.
    + apply Forall_app; split; [done|]. constructor; [|done].
      destruct (resource_add_meta (resource e) (resource that))
        as (_ & Hsa & _ & Hra & Hra' & _).
      split; [split; cbn; rewrite ?Hra, ?Hra'; apply Hpe|]. unfold isShared_ in *; cbn. congruence.
  - cbn. apply Forall_app. split; [done|]. constructor; [by split|constructor].
Qed.

Lemma parse_step_returns (rs : Resources) (r : Resource) :
  Forall entry_format rs → returns (Forall entry_format) (parse_step rs r).
Proof.
  intros Hrs. unfold parse_step. destruct (resource_validate_total r) as [[e|] Hv];
    rewrite Hv; cbn [mbind outcome_bind]; [done|].
  destruct (upgrade_valid r Hv) as (r' & Hup & Hp & _). cbn [convertResourceFormat].
  rewrite Hup. cbn [mbind outcome_bind]. by apply add_format, of_format.
Qed.

(** What the command line may give: no persistent volume, nothing revocable, no dynamic
    reservation, and one type for each name. *)
Definition static_resource (r : Resource) : Prop :=
  isPersistentVolume r = Ok false ∧ isRevocable r = Ok false ∧ isDynamicallyReserved r = Ok false.
Definition one_type (nt : gmap string ValueType) (l : list Resource) : Prop :=
  (∀ r ty, r ∈ l → nt !! r_name r = Some ty → r_type r = ty) ∧
  (∀ r r', r ∈ l → r' ∈ l → r_name r = r_name r' → r_type r = r_type r').

Lemma validate_command_line_returns (nt : gmap string ValueType) (l : list Resource) :
  Forall post_format l →
  returns (fun e => e = None → Forall static_resource l ∧ one_type nt l)
          (validate_command_line nt l).
Proof.
  intros Hl. revert nt. induction Hl as [|r l Hr Hl IH]; intros nt.
  { intros _. split; [constructor|]. split; by intros ? ? ?%elem_of_nil. }
  cbn [validate_command_line].
  pose proof (isPersistentVolume_post r Hr) as Hp. pose proof (isDynamicallyReserved_post r Hr) as Hd.
  assert (Hv : isRevocable r = Ok (r_revocable r)) by (unfold isRevocable; by rewrite check_format_post).
  destruct (isPersistentVolume r) as [[]| |] eqn:Ep; try done.
  destruct (isRevocable r) as [[]| |] eqn:Ev; try done.
  destruct (isDynamicallyReserved r) as [[]| |] eqn:Ed; try done. cbn [mbind outcome_bind].
  destruct (nt !! r_name r) as [ty|] eqn:En.
  - unfold type_eqb. case_bool_decide as Ht; [|done]. cbn [negb].
    specialize (IH nt). destruct (validate_command_line nt l) as [e| |]; try done.
    intros He. destruct (IH He) as (Hs & H1 & H2). split; [by constructor|]. split.
    + intros q ty' [->|Hq]%elem_of_cons Hn; [congruence|by eapply H1].
    + intros q q' [->|Hq]%elem_of_cons [->|Hq']%elem_of_cons Hn; [done| | |by apply H2].
      * symmetry. rewrite Ht in En. rewrite Hn in En. by eapply H1.
      * rewrite Ht in En. rewrite <-Hn in En. by eapply H1.
  - specialize (IH (<[r_name r := r_type r]> nt)).
    destruct (validate_command_line _ l) as [e| |]; try done.
    intros He. destruct (IH He) as (Hs & H1 & H2). split; [by constructor|]. split.
    + intros q ty' [->|Hq]%elem_of_cons Hn; [congruence|].
      destruct (decide (r_name q = r_name r)) as [Heq|Hne]; [congruence|].
      eapply H1; [done|]. by rewrite lookup_insert_ne by congruence.
    + intros q q' [->|Hq]%elem_of_cons [->|Hq']%elem_of_cons Hn; [done| | |by apply H2].
      * symmetry. eapply H1; [done|]. rewrite <-Hn. apply lookup_insert_eq.
      * eapply H1; [done|]. rewrite Hn. apply lookup_insert_eq.
Qed.

Lemma parse_steps_valid (l : list Resource) (rs rs' : Resources) :
  mfold parse_step rs l = Ok rs' → Forall (fun r => ResourceValidate.validate r = Ok None) l.
Proof.
  revert rs. induction l as [|r l IH]; intros rs; [by constructor|]. cbn.
  intros (rs1 & Hs & Hm)%bind_Ok. constructor; [|by eapply IH].
  unfold parse_step in Hs. apply bind_Ok in Hs as ([e|] & -> & Hs); [done|]. done.
Qed.

Lemma parse_token_returns (role token : string) :
  returns (fun _ => True) (parse_token role token).
Proof.
  unfold parse_token. destruct (tokenize token ":" None) as [|a [|b [|c l]]]; try done.
  eapply (returns_bind (fun _ => True)).
  - unfold split_role. destruct (find_first_of a "(" 0); [|done].
    destruct (find_first_of a ")" 0); [|done]. by case_if.
  - intros [name ro] _. unfold parse_resource. pose proof (parse_not_fatal numify_u64 numify_double b) as Hvalue.
    destruct (Values.parse _ _ b) as [v| |]; [|done|done]. by destruct (value_type v).
Qed.

Lemma fromString_returns (text role : string) :
  returns (fun _ => True) (fromString text role).
Proof.
  unfold fromString. destruct (json_array text).
  - unfold fromJSON. by destruct (protobuf_parse j).
  - unfold fromSimpleString. induction (tokenize text ";" None) as [|t l IH]; [done|]. cbn.
    eapply returns_bind; [apply parse_token_returns|]. intros r _.
    by eapply returns_bind.
Qed.

(** ** Properties *)

(** C39: [Resources::parse] never aborts the process: for every text and whatever the
    readers of numbers and JSON answer it returns an error or resources.  In the second
    case every resource that was read is valid, and what is returned is in the
    post-reservation-refinement format with consistent share counters, holds no
    persistent volume, nothing revocable and no dynamic reservation, and has one type for
    each name. *)
Theorem parse_resources_total (text defaultRole : string) :
  (∃ e, parse_resources text defaultRole = Err e) ∨
  (∃ l rs, fromString text defaultRole = Ok l ∧
     Forall (fun r => ResourceValidate.validate r = Ok None) l ∧
     parse_resources text defaultRole = Ok rs ∧ Forall entry_format rs ∧
     Forall static_resource (to_list rs) ∧
     ∀ r r', r ∈ to_list rs → r' ∈ to_list rs → r_name r = r_name r' → r_type r = r_type r').
Proof.
  unfold parse_resources. pose proof (fromString_returns text defaultRole) as Hl.
  destruct (fromString text defaultRole) as [l| |]; [|by left; eexists|done]. cbn [mbind outcome_bind].
  assert (Hf : returns (Forall entry_format) (mfold parse_step [] l))
    by (apply returns_mfold; [constructor|apply parse_step_returns]).
  destruct (mfold parse_step [] l) as [rs| |] eqn:Hm; [|by left; eexists|done].
  cbn [mbind outcome_bind]. cbn in Hf.
  assert (Hv : returns (fun e => e = None → Forall static_resource (to_list rs) ∧ one_type ∅ (to_list rs))
                       (validateCommandLineResources rs)).
  { apply validate_command_line_returns. apply Forall_fmap.
    eapply Forall_impl; [exact Hf|]. by intros e [? _]. }
  destruct (validateCommandLineResources rs) as [[e|]| |]; [by left; eexists| |by left; eexists|done].
  right. destruct (Hv eq_refl) as (Hs & _ & H2). exists l, rs.
  split_and!; try done. by eapply parse_steps_valid.
Qed.
End ResourcesParse.

(** A reader that knows one number. *)
Definition example_double (s : string) : outcome double :=
  if String.eqb s "4" then Ok (d_of_Z 4) else Err "not a number".
Definition example_parse (text : string) : outcome Resources :=
  parse_resources decimal_u64 example_double (J:=unit) (fun _ => None) (fun _ => inr []) text "*".

Example example_parse_entries :
  match example_parse "cpus(eng):4;ports:[1-3, 5-9]" with
  | Ok rs => map (fun e => r_name (resource e)) rs = ["cpus"; "ports"]
  | _ => False
  end.
Proof. vm_compute. reflexivity. Qed.
