(* ===== verification/ResourcesMaps.v ===== *)
(** * ResourcesMaps: sums of resources, resources.hpp

    The arithmetic that resources.hpp offers to its clients: the copying
    [operator+] and [operator-], the operators between a repeated field and
    [Resources], the sum of a map of resources, and [+=] and [+] of maps.  A
    [hashmap] is iterated in an order that it does not promise: a map that is read
    is the list of its entries in that order, and the theorems hold for every
    order. *)

From S2P Require Import Prelude Binary64 Scalars Ranges IntervalSets StoutStrings Values.
From S2P Require Import Roles Resource ResourceValidate Resources ResourcesLaws.
#[local] Open Scope string_scope.
#[local] Open Scope Z_scope.

(** ** Operators *)

(** [operator+] and [operator-]: the assignment on a copy. *)
Definition copy_plus_ (rs : Resources) (that : Resource_) : outcome Resources :=
  let result := rs in plus_ result that.
Definition copy_plus_Resource (rs : Resources) (that : Resource) : outcome Resources :=
  let result := rs in plus_Resource result that.
Definition copy_plus (rs that : Resources) : outcome Resources :=
  let result := rs in plus result that.

Section minus.
Context `{Icl}.

Definition copy_minus_ (rs : Resources) (that : Resource_) : outcome Resources :=
  let result := rs in minus_ result that.
Definition copy_minus_Resource (rs : Resources) (that : Resource) : outcome Resources :=
  let result := rs in minus_Resource result that.
Definition copy_minus (rs that : Resources) : outcome Resources :=
  let result := rs in minus result that.

(** [operator!=], of a collection and of an entry. *)
Definition resources_neq (rs that : Resources) : outcome bool :=
  negb <$> resources_eq rs that.

(** A repeated field on the left is converted. *)
Definition repeated_plus (left : list Resource) (right : Resources) : outcome Resources :=
  l ← Resources_of_list left; copy_plus l right.
Definition repeated_minus (left : list Resource) (right : Resources) : outcome Resources :=
  l ← Resources_of_list left; copy_minus l right.
Definition repeated_eq (left : list Resource) (right : Resources) : outcome bool :=
  l ← Resources_of_list left; resources_eq l right.

End minus.

Definition neq_ (e that : Resource_) : bool := negb (eq_ e that).
Definition allocation_neqb (left right : AllocationInfo) : bool := negb (allocation_eqb left right).
Definition reservation_neqb (left right : ReservationInfo) : bool :=
  negb (reservation_eqb left right).
Definition path_neqb (left right : option string) : bool := negb (path_eqb left right).
Definition mount_neqb (left right : option string) : bool := negb (mount_eqb left right).
Definition source_neqb (left right : Source) : bool := negb (source_eqb left right).
Definition disk_neqb (left right : DiskInfo) : bool := negb (disk_eqb left right).
Definition resource_neqb (left right : Resource) : bool := negb (resource_eqb left right).

(** ** Maps *)

(** [Resources::sum]. *)
Definition sum {K : Type} (_resources : list (K * Resources)) : outcome Resources :=
  mfold (fun result '(_, resources) => plus result resources) [] _resources.

Section maps.
Context {K : Type} `{Countable K}.

(** [left += right] of two maps; [left[key]] makes an empty entry. *)
Definition hashmap_plus_assign (left : gmap K Resources) (right : list (K * Resources))
    : outcome (gmap K Resources) :=
  mfold (fun left '(key, resources) =>
           r ← plus (default [] (left !! key)) resources; Ok (<[key := r]> left)) left right.

Definition hashmap_plus (left : gmap K Resources) (right : list (K * Resources))
    : outcome (gmap K Resources) :=
  let result := left in hashmap_plus_assign result right.

End maps.

(** ** Totals *)

(** Entries that are not shared, as the totals need. *)
Definition unshared (rs : Resources) : Prop := Forall (λ e, isShared_ e = false) rs.

Definition proper_resources (rs : Resources) : Prop := resources_wf rs ∧ unshared rs.

(** What [rs'] has of [rs] and of [that] together. *)
Definition joined (rs that rs' : Resources) : Prop :=
  (∀ name, amount name rs' = amount name rs + amount name that) ∧
  (∀ name x, in_ranges name x rs' ↔ in_ranges name x rs ∨ in_ranges name x that).

Lemma in_ranges_nil name x : ¬ in_ranges name x [].
Proof. intros (e & He & _). by apply elem_of_nil in He. Qed.

(** [+=] of two collections never fails, and is exact. *)
Lemma plus_spec rs that :
  resources_wf rs → Forall entry_wf that → unshared that →
  (∀ name, in_range (amount name rs + amount name that)) →
  ∃ rs', plus rs that = Ok rs' ∧ resources_wf rs' ∧ joined rs that rs'.
Proof.
  intros Hwf Hth Hns. revert rs Hwf. unfold plus.
  induction Hth as [|e that He Hth IH]; intros rs Hwf Hr.
  { exists rs. split; [done|]. split; [done|]. split; intros name.
    - cbn. lia.
    - intros x. pose proof (in_ranges_nil name x). tauto. }
  inversion Hns as [|? ? Hse Hns']; subst.
  destruct (add_spec rs e Hwf He Hse) as (rs1 & Ha & Hw1 & Hg & Hi & _).
  { intros name. specialize (Hr name). rewrite amount_cons in Hr.
    pose proof (amount_nonneg name that Hth). pose proof (amount_nonneg name rs (proj1 Hwf)).
    pose proof (amount_of_nonneg name (resource e) (proj1 (proj2 He))).
    unfold in_range in *. lia. }
  destruct (IH Hns' rs1 Hw1) as (rs' & Hp & Hw' & Hj & Hx).
  { intros name. specialize (Hr name). rewrite amount_cons in Hr. rewrite Hg.
    by replace (_ + _) with (amount name rs + (amount_of name (resource e) + amount name that)) by lia. }
  exists rs'. cbn. rewrite Ha. cbn. split; [done|]. split; [done|]. split.
  - intros name. rewrite Hj, Hg, amount_cons. lia.
  - intros name x. rewrite Hx, Hi, in_ranges_cons. tauto.
Qed.

(** The total over the entries of a map. *)
Definition grand_total {K : Type} (name : string) (l : list (K * Resources)) : Z :=
  foldr (fun p acc => amount name p.2 + acc) 0 l.

Lemma grand_total_cons {K : Type} name (p : K * Resources) l :
  grand_total name (p :: l) = amount name p.2 + grand_total name l.
Proof. done. Qed.

#[export] Instance grand_total_perm {K : Type} name :
  Proper ((≡ₚ) ==> (=)) (grand_total (K := K) name).
Proof. unfold grand_total. induction 1; cbn in *; lia. Qed.

Lemma grand_total_nonneg {K : Type} name (l : list (K * Resources)) :
  Forall (λ p, proper_resources p.2) l → 0 ≤ grand_total name l.
Proof.
  unfold grand_total. induction 1 as [|p l [[Hf _] _] _ IH]; cbn in *; [done|].
  pose proof (amount_nonneg name p.2 Hf). lia.
Qed.

Lemma sum_from {K : Type} (l : list (K * Resources)) rs :
  resources_wf rs → Forall (λ p, proper_resources p.2) l →
  (∀ name, in_range (amount name rs + grand_total name l)) →
  ∃ rs', mfold (fun result '(_, resources) => plus result resources) rs l = Ok rs' ∧
    resources_wf rs' ∧ (∀ name, amount name rs' = amount name rs + grand_total name l) ∧
    (∀ name x, in_ranges name x rs' ↔
               in_ranges name x rs ∨ Exists (λ p, in_ranges name x p.2) l).
Proof.
  intros Hwf Hl. revert rs Hwf. induction Hl as [|[k that] l [Hw Hs] Hl IH]; intros rs Hwf Hr.
  { exists rs. split; [done|]. split; [done|]. split; intros name; [cbn; lia|].
    intros x. rewrite Exists_nil. tauto. }
  destruct (plus_spec rs that Hwf (proj1 Hw) Hs) as (rs1 & Hp & Hw1 & Hj & Hx).
  { intros name. specialize (Hr name). rewrite grand_total_cons in Hr. cbn [snd] in Hr. pose proof (grand_total_nonneg name l Hl).
    pose proof (amount_nonneg name that (proj1 Hw)).
    pose proof (amount_nonneg name rs (proj1 Hwf)). unfold in_range in *. lia. }
  destruct (IH rs1 Hw1) as (rs' & Hm & Hw' & Ht & Hi).
  { intros name. specialize (Hr name). rewrite grand_total_cons in Hr. cbn [snd] in Hr. rewrite Hj.
    by replace (_ + _) with (amount name rs + (amount name that + grand_total name l)) by lia. }
  exists rs'. cbn [mfold]. rewrite Hp. cbn [mbind outcome_bind]. split; [done|]. split; [done|]. split.
  - intros name. rewrite Ht, Hj, grand_total_cons. cbn [snd]. lia.
  - intros name x. rewrite Hi, Hx, Exists_cons. cbn. tauto.
Qed.

(** The sum of a map of resources never fails, satisfies the class invariant and
    holds exactly the sum of the amounts of every name and the union of the
    ranges, in whatever order the map is iterated. *)
Theorem sum_is_exact {K : Type} (l l' : list (K * Resources)) :
  Forall (λ p, proper_resources p.2) l → (∀ name, in_range (grand_total name l)) → l ≡ₚ l' →
  ∃ rs', sum l' = Ok rs' ∧ resources_wf rs' ∧ (∀ name, amount name rs' = grand_total name l) ∧
    (∀ name x, in_ranges name x rs' ↔ Exists (λ p, in_ranges name x p.2) l).
Proof.
  intros Hl Hr Hp. rewrite Hp in Hl.
  destruct (sum_from l' []) as (rs' & Hs & Hw & Ht & Hi); [by repeat constructor|done| |].
  { intros name. rewrite <-Hp. apply Hr. }
  exists rs'. split; [done|]. split; [done|]. split.
  - intros name. rewrite Ht, <-Hp. done.
  - intros name x. rewrite Hi, <-Hp. pose proof (in_ranges_nil name x). tauto.
Qed.

(** ** Adding maps *)

Section adding.
Context {K : Type} `{Countable K}.

Definition entry_amount (name : string) (m : gmap K Resources) (k : K) : Z :=
  amount name (default [] (m !! k)).

Definition map_proper (m : gmap K Resources) : Prop := map_Forall (λ _ rs, resources_wf rs) m.

(** What the entries of the right map under [k] amount to. *)
Definition right_amount (name : string) (l : list (K * Resources)) (k : K) : Z :=
  grand_total name (base.filter (λ p, p.1 = k) l).

Lemma default_wf m k : map_proper m → resources_wf (default [] (m !! k)).
Proof.
  intros Hm. destruct (m !! k) as [rs|] eqn:E; [exact (Hm k rs E)|by repeat constructor].
Qed.

(** [+=] of maps never fails; under every key it adds exactly what the right map
    has there, and touches nothing else. *)
Theorem hashmap_plus_is_exact (left : gmap K Resources) (right : list (K * Resources)) :
  map_proper left → Forall (λ p, proper_resources p.2) right →
  (∀ name k, in_range (entry_amount name left k + right_amount name right k)) →
  ∃ m, hashmap_plus left right = Ok m ∧ map_proper m ∧
    (∀ name k, entry_amount name m k = entry_amount name left k + right_amount name right k) ∧
    (∀ k, k ∉ right.*1 → m !! k = left !! k).
Proof.
  intros Hm Hl. unfold hashmap_plus, hashmap_plus_assign. revert left Hm.
  induction Hl as [|[k that] l [Hw Hs] Hl IH]; intros left Hm Hr.
  { exists left. split; [done|]. split; [done|]. split; [|done].
    intros name k. unfold right_amount. cbn. lia. }
  assert (Hf : Forall (λ p, proper_resources p.2) (base.filter (λ p, p.1 = k) l))
    by (apply Forall_forall; intros p [_ Hp]%list_elem_of_filter; rewrite Forall_forall in Hl; by apply Hl).
  assert (Hhere : ∀ name, right_amount name ((k, that) :: l) k =
                          amount name that + right_amount name l k).
  { intros name. unfold right_amount. rewrite filter_cons_True by done. done. }
  destruct (plus_spec (default [] (left !! k)) that (default_wf left k Hm) (proj1 Hw) Hs)
    as (rs1 & Hp & Hw1 & Hj & _).
  { intros name. specialize (Hr name k). rewrite Hhere in Hr. unfold entry_amount in Hr.
    pose proof (grand_total_nonneg name _ Hf).
    pose proof (amount_nonneg name that (proj1 Hw)).
    pose proof (amount_nonneg name _ (proj1 (default_wf left k Hm))).
    unfold in_range, right_amount in *. lia. }
  assert (Hstep : ∀ name k', entry_amount name (<[k:=rs1]> left) k' + right_amount name l k' =
                  entry_amount name left k' + right_amount name ((k, that) :: l) k').
  { intros name k'. unfold entry_amount. destruct (decide (k = k')) as [<-|Hk].
    - rewrite lookup_insert_eq, Hhere. change (default [] (Some rs1)) with rs1. rewrite Hj. lia.
    - rewrite lookup_insert_ne by done. unfold right_amount.
      by rewrite (filter_cons_False _ (k, that)) by done. }
  destruct (IH (<[k:=rs1]> left)) as (m & Hfold & Hmp & Ha & Hu).
  { by apply map_Forall_insert_2. } { intros name k'. rewrite Hstep. apply Hr. }
  exists m. cbn. rewrite Hp. cbn. split; [done|]. split; [done|]. split.
  - intros name k'. rewrite Ha. apply Hstep.
  - intros k' Hk. cbn in Hk. apply not_elem_of_cons in Hk as [Hk Hk'].
    rewrite (Hu k' Hk'). by rewrite lookup_insert_ne.
Qed.

End adding.
