(* ===== verification/Base64.v ===== *)
(** * Base64: libb64, which carries [bytes] fields in JSON

    cencode.c, cdecode.c and the stream wrappers of encode.h and decode.h, as
    [json_protobuf.cpp] uses them.  Both C functions are state machines that are
    resumed at every block: the encoder keeps the bits of the last byte that are
    still to be written, the decoder the partial byte it has read.  A line feed
    follows every 72 characters and the end of the text; the decoder skips
    whatever is not in the alphabet.

    [char] is signed, as on x86: [char_val] is the value of a character,
    [to_char] the conversion of an [int]. *)

From S2P Require Import Prelude.
From Stdlib Require Import Ascii String.
#[local] Open Scope string_scope.
#[local] Open Scope Z_scope.
#[local] Open Scope list_scope.

(** The value of a (signed) [char], and an [int] converted to [char]. *)
Definition to_char (z : Z) : Z := (z + 128) mod 256 - 128.
Definition char_val (c : ascii) : Z := to_char (Z.of_N (N_of_ascii c)).
Definition char_of (z : Z) : ascii := ascii_of_N (Z.to_N (z mod 256)).

(** ** The encoder *)

Inductive encodestep := step_A | step_B | step_C.

Record base64_encodestate := mkEncode {
  e_step : encodestep;
  e_result : Z;
  e_stepcount : Z }.

Definition CHARS_PER_LINE : Z := 72.

Definition base64_init_encodestate : base64_encodestate := mkEncode step_A 0 0.

Definition encoding : list ascii :=
  list_ascii_of_string "ABCDEFGHIJKLMNOPQRSTUVWXYZabcdefghijklmnopqrstuvwxyz0123456789+/".

Definition equals_sign : ascii := "="%char.
Definition newline : ascii := ascii_of_nat 10.

Definition base64_encode_value (value_in : Z) : ascii :=
  if value_in >? 63 then equals_sign else nth (Z.to_nat value_in) encoding newline.

(** One pass through the [switch]: a byte is read at the step the machine is in. *)
Definition encode_char (c : ascii) (s : base64_encodestate) : list ascii * base64_encodestate :=
  let fragment := char_val c in
  match e_step s with
  | step_A =>
      let result := to_char (Z.shiftr (Z.land fragment 0xfc) 2) in
      ([base64_encode_value result],
       mkEncode step_B (to_char (Z.shiftl (Z.land fragment 0x03) 4)) (e_stepcount s))
  | step_B =>
      let result := to_char (Z.lor (e_result s) (Z.shiftr (Z.land fragment 0xf0) 4)) in
      ([base64_encode_value result],
       mkEncode step_C (to_char (Z.shiftl (Z.land fragment 0x0f) 2)) (e_stepcount s))
  | step_C =>
      let result := to_char (Z.lor (e_result s) (Z.shiftr (Z.land fragment 0xc0) 6)) in
      let result' := to_char (Z.shiftr (Z.land fragment 0x3f) 0) in
      let stepcount := e_stepcount s + 1 in
      let full := stepcount =? CHARS_PER_LINE / 4 in
      ([base64_encode_value result; base64_encode_value result'] ++ (if full then [newline] else []),
       mkEncode step_A result' (if full then 0 else stepcount))
  end.

Fixpoint base64_encode_block (plain : list ascii) (s : base64_encodestate)
    : list ascii * base64_encodestate :=
  match plain with
  | [] => ([], s)
  | c :: plain' =>
      let '(out, s) := encode_char c s in
      let '(out', s) := base64_encode_block plain' s in
      (out ++ out', s)
  end.

Definition base64_encode_blockend (s : base64_encodestate) : list ascii :=
  match e_step s with
  | step_B => [base64_encode_value (e_result s); equals_sign; equals_sign]
  | step_C => [base64_encode_value (e_result s); equals_sign]
  | step_A => []
  end ++ [newline].

(** [istream::read]: the characters read, what is left, and whether the stream
    is still good, i.e. all [n] of them were there. *)
Fixpoint read (n : N) (l : list ascii) : list ascii * list ascii * bool :=
  match l with
  | [] => ([], [], (n =? 0)%N)
  | c :: l' =>
      if (n =? 0)%N then ([], l, true)
      else let '(a, b, good) := read (N.pred n) l' in (c :: a, b, good)
  end.

(** The [do ... while] of [encode(istream, ostream)] and of
    [decode(istream, ostream)]: blocks of [_buffersize] characters until the
    stream is no longer good or a read is empty. *)
Fixpoint stream_loop {S : Type} (block : list ascii → S → list ascii * S) (_buffersize : N)
    (fuel : nat) (input : list ascii) (s : S) : outcome (list ascii * S) :=
  match fuel with
  | O => Err "fuel"
  | Datatypes.S fuel =>
      let '(chunk, input, good) := read _buffersize input in
      let '(out, s) := block chunk s in
      if good && negb (bool_decide (chunk = [])) then
        r ← stream_loop block _buffersize fuel input s;
        Ok (out ++ r.1, r.2)
      else Ok (out, s)
  end.

Definition encode (_buffersize : N) (input : list ascii) : outcome (list ascii) :=
  r ← stream_loop base64_encode_block _buffersize (S (List.length input)) input
        base64_init_encodestate;
  Ok (r.1 ++ base64_encode_blockend r.2).

(** ** The decoder *)

Inductive decodestep := step_a | step_b | step_c | step_d.
#[export] Instance decodestep_eq_dec : EqDecision decodestep.
Proof. solve_decision. Defined.

Record base64_decodestate := mkDecode {
  d_step : decodestep;
  d_plainchar : Z }.

Definition base64_init_decodestate : base64_decodestate := mkDecode step_a 0.

Definition decoding : list Z :=
  [62;-1;-1;-1;63;52;53;54;55;56;57;58;59;60;61;-1;-1;-1;-2;-1;-1;-1;0;1;2;3;4;5;6;7;8;9;10;11;12;
   13;14;15;16;17;18;19;20;21;22;23;24;25;-1;-1;-1;-1;-1;-1;26;27;28;29;30;31;32;33;34;35;36;37;
   38;39;40;41;42;43;44;45;46;47;48;49;50;51].

Definition decoding_size : Z := Z.of_nat (List.length decoding).

Definition base64_decode_value (c : ascii) : Z :=
  let value_in := to_char (char_val c - 43) in
  if (value_in <? 0) || (value_in >=? decoding_size) then -1
  else nth (Z.to_nat value_in) decoding (-1).

(** What [*plainchar] holds before it is written: the buffer is not initialised,
    and the loop reads it when the text ends at [step_a].  One value per position
    of the buffer. *)
Section decoder.
Context (uninitialised : nat → Z).

(** One character of the code; [pos] is the position of [plainchar]. *)
Definition decode_char (pos : nat) (c : ascii) (s : base64_decodestate)
    : list ascii * base64_decodestate :=
  let fragment := to_char (base64_decode_value c) in
  if fragment <? 0 then ([], s)
  else
    let p := d_plainchar s in
    match d_step s with
    | step_a => ([], mkDecode step_b (to_char (Z.shiftl (Z.land fragment 0x3f) 2)))
    | step_b =>
        ([char_of (to_char (Z.lor p (Z.shiftr (Z.land fragment 0x30) 4)))],
         mkDecode step_c (to_char (Z.shiftl (Z.land fragment 0x0f) 4)))
    | step_c =>
        ([char_of (to_char (Z.lor p (Z.shiftr (Z.land fragment 0x3c) 2)))],
         mkDecode step_d (to_char (Z.shiftl (Z.land fragment 0x03) 6)))
    | step_d =>
        ([char_of (to_char (Z.lor p (Z.land fragment 0x3f)))],
         mkDecode step_a (to_char (uninitialised (S pos))))
    end.

Fixpoint decode_from (pos : nat) (code : list ascii) (s : base64_decodestate)
    : list ascii * base64_decodestate :=
  match code with
  | [] => ([], s)
  | c :: code' =>
      let '(out, s) := decode_char pos c s in
      let '(out', s) := decode_from (pos + List.length out) code' s in
      (out ++ out', s)
  end.

Definition base64_decode_block (code : list ascii) (s : base64_decodestate)
    : list ascii * base64_decodestate := decode_from 0 code s.

Definition decode (_buffersize : N) (input : list ascii) : outcome (list ascii) :=
  fst <$> stream_loop base64_decode_block _buffersize (S (List.length input)) input
            base64_init_decodestate.

End decoder.

(** ** Streams in blocks *)

Lemma read_app n l a b good : read n l = (a, b, good) → l = a ++ b.
Proof.
  revert n a b good. induction l as [|c l IH]; intros n a b good; cbn.
  { by intros [= <- <- <-]. }
  destruct (N.eqb_spec n 0); [by intros [= <- <- <-]|].
  destruct (read (N.pred n) l) as [[a' b'] g] eqn:E. intros [= <- <- <-].
  by rewrite (IH _ _ _ _ E).
Qed.

(** A stream that is no longer good is at its end; a good one gave characters. *)
Lemma read_good n l a b good :
  (0 < n)%N → read n l = (a, b, good) → if good then a ≠ [] else b = [].
Proof.
  revert n a b good. induction l as [|c l IH]; intros n a b good Hn; cbn.
  { intros [= <- <- <-]. by destruct (N.eqb_spec n 0); [lia|]. }
  destruct (N.eqb_spec n 0); [lia|].
  destruct (read (N.pred n) l) as [[a' b'] g] eqn:E. intros [= <- <- <-].
  destruct g; [done|]. destruct (N.eqb_spec (N.pred n) 0) as [Hz|Hz].
  - rewrite Hz in E. by destruct l; cbn in E; simplify_eq.
  - by apply (IH (N.pred n) a' b' false); [lia|].
Qed.

Section blocks.
Context {S : Type} (R : S → S → Prop) `{!Equivalence R}.
Context (block : list ascii → S → list ascii * S).

(** Two results of a block: the same output, equivalent states. *)
Definition block_eq (r1 r2 : list ascii * S) : Prop := r1.1 = r2.1 ∧ R r1.2 r2.2.

#[local] Instance block_eq_equivalence : Equivalence block_eq.
Proof.
  split.
  - intros r. by split.
  - intros r1 r2 [H1 H2]. by split.
  - intros r1 r2 r3 [H1 H2] [H3 H4]. split; [congruence|by etransitivity].
Qed.

(** What makes a block resumable: it respects the equivalence, and a text may be
    cut anywhere. *)
Class Resumable := {
  block_proper : ∀ l s s', R s s' → block_eq (block l s) (block l s');
  block_app : ∀ l1 l2 s,
    block_eq (block (l1 ++ l2) s)
      ((block l1 s).1 ++ (block l2 (block l1 s).2).1, (block l2 (block l1 s).2).2) }.

(** The buffered loop returns, and does what one block of the whole text does. *)
Lemma stream_loop_block `{!Resumable} n fuel l s :
  (0 < n)%N → (List.length l < fuel)%nat →
  ∃ r, stream_loop block n fuel l s = Ok r ∧ block_eq r (block l s).
Proof.
  intros Hn. revert l s. induction fuel as [|fuel IH]; intros l s Hf; [lia|]. cbn.
  destruct (read n l) as [[a b] good] eqn:E.
  pose proof (read_app _ _ _ _ _ E) as Hl. pose proof (read_good _ _ _ _ _ Hn E) as Hg.
  destruct (block a s) as [out s'] eqn:Eb.
  destruct good; cbn.
  - rewrite bool_decide_false by done. cbn.
    destruct (IH b s') as (r & Hr & Her).
    { rewrite Hl, length_app in Hf. destruct a; cbn in *; [done|lia]. }
    rewrite Hr. cbn. eexists. split; [done|]. rewrite Hl, block_app, Eb. cbn.
    destruct Her as [E1 E2]. split; cbn; [by rewrite E1|done].
  - eexists. split; [done|]. by rewrite Hl, Hg, app_nil_r, Eb.
Qed.

End blocks.

(** The encoder cuts exactly. *)
#[export] Instance encode_resumable : Resumable eq base64_encode_block.
Proof.
  split; [by intros l s s' ->|].
  induction l1 as [|c l1 IH]; intros l2 s; cbn.
  { by destruct (base64_encode_block l2 s). }
  destruct (encode_char c s) as [out s1] eqn:Ec. destruct (IH l2 s1) as [E1 E2].
  destruct (base64_encode_block (l1 ++ l2) s1), (base64_encode_block l1 s1) as [o1 s2]. cbn in *.
  destruct (base64_encode_block l2 s2). cbn in *. subst. split; cbn; [|done].
  by rewrite <-app_assoc.
Qed.

(** The decoder cuts up to what it has kept of a buffer it has not written. *)
Definition decode_equiv (s s' : base64_decodestate) : Prop :=
  d_step s = d_step s' ∧ (d_step s = step_a ∨ d_plainchar s = d_plainchar s').

#[export] Instance decode_equiv_equivalence : Equivalence decode_equiv.
Proof.
  split.
  - intros s. split; auto.
  - intros s1 s2 [H1 [H2|H2]]; split; auto; left; congruence.
  - intros s1 s2 s3 [H1 H2] [H3 H4]. split; [congruence|].
    destruct H2; [auto|]. destruct H4; [left|right]; congruence.
Qed.

Section decoder_laws.
Context (uninitialised : nat → Z).

Lemma decode_char_equiv p p' c s s' :
  decode_equiv s s' →
  block_eq decode_equiv (decode_char uninitialised p c s) (decode_char uninitialised p' c s').
Proof.
  intros [H1 H2]. unfold decode_char. destruct (_ <? 0); [by split|].
  destruct s as [st x], s' as [st' x']; cbn in *; subst st'.
  destruct st, H2; subst; try done; split; cbn; try done; split; cbn; auto.
Qed.

Lemma decode_from_equiv l p p' s s' :
  decode_equiv s s' →
  block_eq decode_equiv (decode_from uninitialised p l s) (decode_from uninitialised p' l s').
Proof.
  revert p p' s s'. induction l as [|c l IH]; intros p p' s s' Hs; cbn; [by split|].
  pose proof (decode_char_equiv p p' c s s' Hs) as [E1 E2].
  destruct (decode_char uninitialised p c s) as [o1 s1],
    (decode_char uninitialised p' c s') as [o1' s1']. cbn in *. subst o1'.
  pose proof (IH (p + List.length o1)%nat (p' + List.length o1)%nat s1 s1' E2) as [E3 E4].
  destruct (decode_from uninitialised _ l s1), (decode_from uninitialised _ l s1').
  cbn in *. subst. by split.
Qed.

Lemma decode_from_app p l1 l2 s :
  block_eq decode_equiv (decode_from uninitialised p (l1 ++ l2) s)
    ((decode_from uninitialised p l1 s).1 ++
       (decode_from uninitialised 0 l2 (decode_from uninitialised p l1 s).2).1,
     (decode_from uninitialised 0 l2 (decode_from uninitialised p l1 s).2).2).
Proof.
  revert p s. induction l1 as [|c l1 IH]; intros p s.
  { exact (decode_from_equiv l2 p 0 s s (reflexivity s)). }
  cbn. destruct (decode_char uninitialised p c s) as [o1 s1].
  destruct (IH (p + List.length o1)%nat s1) as [E1 E2].
  destruct (decode_from uninitialised _ (l1 ++ l2) s1), (decode_from uninitialised _ l1 s1) as [o2 s2].
  cbn in *. destruct (decode_from uninitialised 0 l2 s2). cbn in *. subst.
  split; cbn; [by rewrite <-app_assoc|done].
Qed.

#[export] Instance decode_resumable :
  Resumable decode_equiv (base64_decode_block uninitialised).
Proof.
  split; intros; [by apply decode_from_equiv|apply decode_from_app].
Qed.

End decoder_laws.

(** ** Round trip *)

Definition all_chars : list ascii := ascii_of_nat <$> seq 0 256.

Lemma elem_of_all_chars c : In c all_chars.
Proof.
  apply list_elem_of_In, list_elem_of_fmap. exists (nat_of_ascii c).
  rewrite ascii_nat_embedding. split; [done|].
  apply elem_of_seq. pose proof (nat_ascii_bounded c). lia.
Qed.

(** A property of characters, or of small numbers, by trying them all. *)
Lemma forall_char (P : ascii → bool) : forallb P all_chars = true → ∀ c, P c = true.
Proof. rewrite forallb_forall. intros Hp c. apply Hp, elem_of_all_chars. Qed.

Lemma forall_below (n : Z) (P : Z → bool) :
  forallb P (Z.of_nat <$> seq 0 (Z.to_nat n)) = true → ∀ z, 0 ≤ z < n → P z = true.
Proof.
  rewrite forallb_forall. intros Hp z Hz. apply Hp, list_elem_of_In, list_elem_of_fmap.
  exists (Z.to_nat z). rewrite elem_of_seq. lia.
Qed.

Lemma forall_below2 (m n : Z) (P : Z → Z → bool) :
  forallb (λ x, forallb (P x) (Z.of_nat <$> seq 0 (Z.to_nat n))) (Z.of_nat <$> seq 0 (Z.to_nat m))
    = true →
  ∀ x y, 0 ≤ x < m → 0 ≤ y < n → P x y = true.
Proof.
  intros Hp x y Hx Hy. revert y Hy. apply forall_below. revert x Hx. by apply forall_below.
Qed.

(** The parts of a character that go into one sextet each. *)
Definition hi6 (c : ascii) : Z := Z.shiftr (Z.land (char_val c) 0xfc) 2.
Definition lo2 (c : ascii) : Z := Z.land (char_val c) 0x03.
Definition hi4 (c : ascii) : Z := Z.shiftr (Z.land (char_val c) 0xf0) 4.
Definition lo4 (c : ascii) : Z := Z.land (char_val c) 0x0f.
Definition hi2 (c : ascii) : Z := Z.shiftr (Z.land (char_val c) 0xc0) 6.
Definition lo6 (c : ascii) : Z := Z.shiftr (Z.land (char_val c) 0x3f) 0.

(** What the encoder keeps of a character, and what the decoder does. *)
Definition enc_B (c : ascii) : Z := to_char (Z.shiftl (lo2 c) 4).
Definition enc_C (c : ascii) : Z := to_char (Z.shiftl (lo4 c) 2).
Definition dec_b (c : ascii) : Z := to_char (Z.shiftl (hi6 c) 2).
Definition dec_c (c : ascii) : Z := to_char (Z.shiftl (hi4 c) 4).
Definition dec_d (c : ascii) : Z := to_char (Z.shiftl (hi2 c) 6).

Definition below (n z : Z) : bool := (0 <=? z) && (z <? n).

Lemma below_lt n z : below n z = true → 0 ≤ z < n.
Proof. unfold below. rewrite andb_true_iff, Z.leb_le, Z.ltb_lt. lia. Qed.

Lemma parts_bound : ∀ c,
  below 64 (hi6 c) && below 4 (lo2 c) && below 16 (hi4 c) && below 16 (lo4 c) &&
  below 4 (hi2 c) && below 64 (lo6 c) && (enc_B c =? 16 * lo2 c) && (enc_C c =? 4 * lo4 c) = true.
Proof. apply forall_char. by vm_compute. Qed.

(** A character is put together again from its two parts. *)
Lemma parts_join : ∀ c,
  bool_decide (char_of (to_char (Z.lor (dec_b c) (lo2 c))) = c) &&
  bool_decide (char_of (to_char (Z.lor (dec_c c) (lo4 c))) = c) &&
  bool_decide (char_of (to_char (Z.lor (dec_d c) (lo6 c))) = c) = true.
Proof. apply forall_char. by vm_compute. Qed.

(** The alphabet, both ways. *)
Definition sextet (v : Z) : Z := to_char (base64_decode_value (base64_encode_value (to_char v))).

Lemma sextet_id v : 0 ≤ v < 64 → sextet v = v.
Proof. intros Hv. apply Z.eqb_eq. revert v Hv. apply forall_below. by vm_compute. Qed.

Lemma sextet_join24 x y : 0 ≤ x < 4 → 0 ≤ y < 16 →
  0 ≤ Z.lor (16 * x) y < 64 ∧ Z.shiftr (Z.land (Z.lor (16 * x) y) 0x30) 4 = x ∧
  Z.land (Z.lor (16 * x) y) 0x0f = y.
Proof.
  intros Hx Hy. rewrite <-!Z.eqb_eq.
  assert (E : below 64 (Z.lor (16 * x) y) && (Z.shiftr (Z.land (Z.lor (16 * x) y) 0x30) 4 =? x) &&
              (Z.land (Z.lor (16 * x) y) 0x0f =? y) = true).
  { revert x y Hx Hy. apply forall_below2. by vm_compute. }
  rewrite !andb_true_iff in E. destruct E as [[E1 E2] E3]. by apply below_lt in E1.
Qed.

Lemma sextet_join42 x y : 0 ≤ x < 16 → 0 ≤ y < 4 →
  0 ≤ Z.lor (4 * x) y < 64 ∧ Z.shiftr (Z.land (Z.lor (4 * x) y) 0x3c) 2 = x ∧
  Z.land (Z.lor (4 * x) y) 0x03 = y.
Proof.
  intros Hx Hy. rewrite <-!Z.eqb_eq.
  assert (E : below 64 (Z.lor (4 * x) y) && (Z.shiftr (Z.land (Z.lor (4 * x) y) 0x3c) 2 =? x) &&
              (Z.land (Z.lor (4 * x) y) 0x03 =? y) = true).
  { revert x y Hx Hy. apply forall_below2. by vm_compute. }
  rewrite !andb_true_iff in E. destruct E as [[E1 E2] E3]. by apply below_lt in E1.
Qed.

Lemma sextet_mask v : 0 ≤ v < 64 → Z.land v 0x3f = v.
Proof. intros Hv. apply Z.eqb_eq. revert v Hv. apply forall_below. by vm_compute. Qed.

Section roundtrip.
Context (uninitialised : nat → Z).

(** A character of the alphabet, and the ones that are skipped. *)
Lemma decode_sextet p v s :
  0 ≤ v < 64 →
  decode_char uninitialised p (base64_encode_value (to_char v)) s =
  match d_step s with
  | step_a => ([], mkDecode step_b (to_char (Z.shiftl v 2)))
  | step_b => ([char_of (to_char (Z.lor (d_plainchar s) (Z.shiftr (Z.land v 0x30) 4)))],
               mkDecode step_c (to_char (Z.shiftl (Z.land v 0x0f) 4)))
  | step_c => ([char_of (to_char (Z.lor (d_plainchar s) (Z.shiftr (Z.land v 0x3c) 2)))],
               mkDecode step_d (to_char (Z.shiftl (Z.land v 0x03) 6)))
  | step_d => ([char_of (to_char (Z.lor (d_plainchar s) v))],
               mkDecode step_a (to_char (uninitialised (S p))))
  end.
Proof.
  intros Hv. unfold decode_char. fold (sextet v). rewrite sextet_id by done.
  destruct (Z.ltb_spec v 0); [lia|]. by rewrite !(sextet_mask v).
Qed.

Lemma decode_skips p s :
  decode_char uninitialised p newline s = ([], s) ∧ decode_char uninitialised p equals_sign s = ([], s).
Proof. done. Qed.

(** The two machines after the encoder has read a text and the decoder its code:
    [w] is what the decoder has still to put out. *)
Inductive in_step : base64_encodestate → list ascii → base64_decodestate → Prop :=
  | in_step_A r k p : in_step (mkEncode step_A r k) [] (mkDecode step_a p)
  | in_step_B c k : in_step (mkEncode step_B (enc_B c) k) [c] (mkDecode step_b (dec_b c))
  | in_step_C c k : in_step (mkEncode step_C (enc_C c) k) [c] (mkDecode step_c (dec_c c)).

(** The facts about a character, in arithmetic form. *)
Lemma parts c :
  (0 ≤ hi6 c < 64 ∧ 0 ≤ lo2 c < 4 ∧ 0 ≤ hi4 c < 16 ∧ 0 ≤ lo4 c < 16 ∧ 0 ≤ hi2 c < 4 ∧
   0 ≤ lo6 c < 64) ∧
  enc_B c = 16 * lo2 c ∧ enc_C c = 4 * lo4 c ∧
  char_of (to_char (Z.lor (dec_b c) (lo2 c))) = c ∧
  char_of (to_char (Z.lor (dec_c c) (lo4 c))) = c ∧
  char_of (to_char (Z.lor (dec_d c) (lo6 c))) = c.
Proof.
  pose proof (parts_bound c) as Hb. pose proof (parts_join c) as Hj.
  repeat match goal with
         | H : _ && _ = true |- _ => apply andb_true_iff in H as [H ?]
         | H : below _ _ = true |- _ => apply below_lt in H
         | H : (_ =? _) = true |- _ => apply Z.eqb_eq in H
         | H : bool_decide _ = true |- _ => apply bool_decide_eq_true in H
         end; auto 12.
Qed.

(** One character: the decoder puts out what it owed, and owes the rest. *)
Lemma in_step_char se w sd c pos :
  in_step se w sd →
  ∃ w', let r := decode_from uninitialised pos (encode_char c se).1 sd in
    in_step (encode_char c se).2 w' r.2 ∧ w ++ [c] = r.1 ++ w'.
Proof.
  pose proof (parts c) as ((H6 & H2 & H4 & L4 & L2 & L6) & EB & EC & J1 & J2 & J3).
  intros Hs. destruct Hs as [r k p|d k|d k].
  - exists [c]. cbn -[base64_encode_value]. fold (hi6 c).
    rewrite decode_sextet by done. cbn. split; [|done]. apply in_step_B.
  - pose proof (parts d) as ((_ & D2 & _) & DB & _ & K1 & _).
    exists [c]. cbn -[base64_encode_value]. fold (hi4 c). rewrite DB.
    destruct (sextet_join24 (lo2 d) (hi4 c)) as (Hv & S1 & S2); [done..|].
    rewrite decode_sextet by done. cbn. rewrite S1, S2, K1. split; [|done]. apply in_step_C.
  - pose proof (parts d) as ((_ & _ & _ & D4 & _) & _ & DC & _ & K1 & _).
    exists []. cbn -[base64_encode_value]. fold (hi2 c) (lo6 c). rewrite DC.
    destruct (sextet_join42 (lo4 d) (hi2 c)) as (Hv & S1 & S2); [done..|].
    rewrite decode_sextet by done. cbn -[base64_encode_value]. rewrite S1, S2, K1. fold (dec_d c).
    rewrite decode_sextet by done. cbn. rewrite J3.
    destruct (_ =? _); split; try done; apply in_step_A.
Qed.

(** A text, in any state of the two machines. *)
Lemma in_step_block l se w sd pos :
  in_step se w sd →
  ∃ w', let r := decode_from uninitialised pos (base64_encode_block l se).1 sd in
    in_step (base64_encode_block l se).2 w' r.2 ∧ w ++ l = r.1 ++ w'.
Proof.
  revert se w sd pos. induction l as [|c l IH]; intros se w sd pos Hs; cbn.
  { exists w. by rewrite app_nil_r. }
  destruct (in_step_char se w sd c pos Hs) as (w1 & H1 & E1).
  destruct (encode_char c se) as [out se1]. cbn in *.
  destruct (decode_from uninitialised pos out sd) as [o1 sd1] eqn:Ed. cbn in *.
  destruct (IH se1 w1 sd1 0%nat H1) as (w2 & H2 & E2).
  destruct (base64_encode_block l se1) as [out' se2]. cbn in *.
  destruct (decode_from_app uninitialised pos out out' sd) as [E3 E4].
  rewrite Ed in E3, E4. cbn in *. exists w2.
  rewrite E3, <-app_assoc, <-E2, app_assoc, <-E1, <-app_assoc. split; [|done].
  revert E4 H2. generalize (decode_from uninitialised pos (out ++ out') sd).2.
  generalize (decode_from uninitialised 0 out' sd1).2. intros [st x] [st' x'] [Es Ex] H2. cbn in *.
  subst st'. inversion H2; subst; destruct Ex as [Ex|Ex]; try done; subst; by constructor.
Qed.

Lemma in_step_end se w sd pos :
  in_step se w sd → (decode_from uninitialised pos (base64_encode_blockend se) sd).1 = w.
Proof.
  destruct 1 as [r k p|d k|d k]; [done| |];
    pose proof (parts d) as ((_ & D2 & _ & D4 & _) & DB & DC & J1 & J2 & _); cbn -[base64_encode_value].
  - destruct (sextet_join24 (lo2 d) 0) as (Hv & S1 & S2); [lia..|].
    rewrite Z.lor_0_r in Hv, S1. unfold enc_B.
    rewrite decode_sextet by (rewrite Z.shiftl_mul_pow2 by lia; lia).
    cbn. replace (Z.shiftl (lo2 d) 4) with (16 * lo2 d) by (rewrite Z.shiftl_mul_pow2 by lia; lia).
    by rewrite S1, J1.
  - destruct (sextet_join42 (lo4 d) 0) as (Hv & S1 & S2); [lia..|].
    rewrite Z.lor_0_r in Hv, S1. unfold enc_C.
    rewrite decode_sextet by (rewrite Z.shiftl_mul_pow2 by lia; lia).
    cbn. replace (Z.shiftl (lo4 d) 2) with (4 * lo4 d) by (rewrite Z.shiftl_mul_pow2 by lia; lia).
    by rewrite S1, J2.
Qed.

End roundtrip.

(** What the encoder writes, whatever the size of its buffer. *)
Lemma encode_whole n l :
  (0 < n)%N →
  encode n l = let r := base64_encode_block l base64_init_encodestate in
               Ok (r.1 ++ base64_encode_blockend r.2).
Proof.
  intros Hn. unfold encode.
  destruct (stream_loop_block eq base64_encode_block n (S (List.length l)) l base64_init_encodestate)
    as (r & -> & E1 & E2); [done|lia|]. cbn. by rewrite E1, E2.
Qed.

Lemma decode_encode uninitialised n n' l :
  (0 < n)%N → (0 < n')%N →
  ∃ code, encode n l = Ok code ∧ decode uninitialised n' code = Ok l.
Proof.
  intros Hn Hn'. rewrite encode_whole by done. eexists. split; [done|].
  unfold decode.
  destruct (stream_loop_block decode_equiv (base64_decode_block uninitialised) n'
              (S (List.length ((base64_encode_block l base64_init_encodestate).1 ++
                 base64_encode_blockend (base64_encode_block l base64_init_encodestate).2)))
              _ base64_init_decodestate Hn' (Nat.lt_succ_diag_r _)) as (r & -> & E1 & _).
  cbn. f_equal. rewrite E1. unfold base64_decode_block.
  destruct (decode_from_app uninitialised 0 (base64_encode_block l base64_init_encodestate).1
    (base64_encode_blockend (base64_encode_block l base64_init_encodestate).2)
    base64_init_decodestate) as [-> _].
  destruct (in_step_block uninitialised l base64_init_encodestate [] base64_init_decodestate 0)
    as (w & H1 & H2); [constructor|]. cbn [fst].
  by rewrite (in_step_end uninitialised _ w).
Qed.

(** C20: Decoding what was encoded gives the bytes back, for every text, whatever the
    sizes of the two buffers and whatever the decoder reads of a buffer that it
    has not written. *)
Theorem base64_roundtrip uninitialised n n' l :
  (0 < n)%N → (0 < n')%N →
  ∃ code, encode n l = Ok code ∧ decode uninitialised n' code = Ok l.
Proof. apply decode_encode. Qed.

(** ** The buffers *)

(** The invariant of the line counter, and 54ths of a character that the encoder
    owes: a line of 73 characters for 54 bytes. *)
Definition encode_ok (s : base64_encodestate) : Prop :=
  0 ≤ e_stepcount s < CHARS_PER_LINE / 4.

Definition encode_due (s : base64_encodestate) : Z :=
  3 * e_stepcount s + match e_step s with step_A => 0 | step_B => 19 | step_C => 38 end.

Lemma encode_char_length c s :
  encode_ok s →
  encode_ok (encode_char c s).2 ∧
  54 * Z.of_nat (List.length (encode_char c s).1) =
  73 + encode_due s - encode_due (encode_char c s).2.
Proof.
  unfold encode_ok, encode_due. change (CHARS_PER_LINE / 4) with 18.
  destruct s as [st r k]. intros Hk. unfold encode_char. cbn in *.
  destruct st; cbn; [split; lia..|]. change (CHARS_PER_LINE / 4) with 18.
  destruct (Z.eqb_spec (k + 1) 18); cbn; lia.
Qed.

Lemma encode_block_length l s :
  encode_ok s →
  encode_ok (base64_encode_block l s).2 ∧
  54 * Z.of_nat (List.length (base64_encode_block l s).1) =
  73 * Z.of_nat (List.length l) + encode_due s - encode_due (base64_encode_block l s).2.
Proof.
  revert s. induction l as [|c l IH]; intros s Hs; cbn -[Z.mul Z.of_nat]; [split; [done|lia]|].
  pose proof (encode_char_length c s Hs) as [H1 E1].
  destruct (encode_char c s) as [out s1]. cbn -[Z.mul Z.of_nat] in *.
  destruct (IH s1 H1) as [H2 E2]. destruct (base64_encode_block l s1) as [out' s2].
  cbn -[Z.mul Z.of_nat] in *. rewrite length_app. split; [done|lia].
Qed.

(** Quarters of a byte that the decoder has read. *)
Definition decode_due (s : base64_decodestate) : Z :=
  match d_step s with step_a => 0 | step_b => 3 | step_c => 2 | step_d => 1 end.

Lemma decode_from_length u p l s :
  4 * Z.of_nat (List.length (decode_from u p l s).1) ≤
  3 * Z.of_nat (List.length l) + decode_due s - decode_due (decode_from u p l s).2.
Proof.
  revert p s. induction l as [|c l IH]; intros p s; cbn -[Z.mul Z.of_nat]; [lia|].
  assert (Hc : 4 * Z.of_nat (List.length (decode_char u p c s).1) ≤
               3 + decode_due s - decode_due (decode_char u p c s).2).
  { unfold decode_char. destruct (_ <? 0); [cbn; lia|].
    unfold decode_due. destruct (d_step s); cbn; lia. }
  destruct (decode_char u p c s) as [out s1]. cbn -[Z.mul Z.of_nat] in *.
  specialize (IH (p + List.length out)%nat s1).
  destruct (decode_from u _ l s1) as [out' s2]. cbn -[Z.mul Z.of_nat] in *.
  rewrite length_app. lia.
Qed.

(** C21: No block overruns its buffer: in every state that the encoder can be in, the
    code of at most [n] bytes, and what the end adds, fit into the [2*n]
    characters that [encode] allocates; in every state of the decoder, the bytes
    of at most [n] characters leave a position of the [n] that [decode] allocates
    for the partial byte that follows them. *)
Theorem base64_buffers_suffice u (n : N) l s d :
  (4 ≤ n)%N → (N.of_nat (List.length l) ≤ n)%N → encode_ok s →
  (N.of_nat (List.length (base64_encode_block l s).1) ≤ 2 * n)%N ∧
  encode_ok (base64_encode_block l s).2 ∧
  (N.of_nat (List.length (base64_encode_blockend s)) ≤ 2 * n)%N ∧
  (N.of_nat (List.length (base64_decode_block u l d).1) < n)%N.
Proof.
  intros Hn Hl Hs. destruct (encode_block_length l s Hs) as [Hs' Hlen].
  pose proof (decode_from_length u 0 l d) as Hd.
  unfold encode_ok in Hs, Hs'. change (CHARS_PER_LINE / 4) with 18 in *.
  assert (B : 0 ≤ encode_due s ≤ 89 ∧ 0 ≤ encode_due (base64_encode_block l s).2).
  { unfold encode_due. destruct (e_step s), (e_step (base64_encode_block l s).2); lia. }
  assert (D : decode_due d ≤ 3 ∧ 0 ≤ decode_due (decode_from u 0 l d).2).
  { unfold decode_due. destruct (d_step d), (d_step (decode_from u 0 l d).2); lia. }
  unfold base64_decode_block.
  split; [lia|]. split; [exact Hs'|]. split; [|lia].
  unfold base64_encode_blockend. destruct (e_step s); cbn; lia.
Qed.

(** ** At the sizes of json_protobuf.cpp *)

Definition BUFFERSIZE : N := 16777216.

Definition some_bytes : list ascii := [ascii_of_nat 0; ascii_of_nat 200; ascii_of_nat 65; ascii_of_nat 10].

Lemma base64_roundtrip_witness :
  ∃ code, encode BUFFERSIZE some_bytes = Ok code ∧
          decode (fun _ => 77) BUFFERSIZE code = Ok some_bytes.
Proof. apply base64_roundtrip; done. Defined.

Lemma base64_buffers_suffice_witness :
  (N.of_nat (List.length (base64_encode_block some_bytes base64_init_encodestate).1) ≤ 2 * BUFFERSIZE)%N.
Proof.
  apply (base64_buffers_suffice (fun _ => 0) BUFFERSIZE some_bytes base64_init_encodestate
           base64_init_decodestate); [done|done|split; done].
Defined.

(** The encoded text of four bytes, and of none: the trailing line feed is there. *)
Example encode_some_bytes :
  string_of_list_ascii <$> encode BUFFERSIZE some_bytes =
  Ok (string_of_list_ascii (list_ascii_of_string "AMhBCg==" ++ [newline])).
Proof. by vm_compute. Qed.

Example encode_nothing : encode BUFFERSIZE [] = Ok [newline].
Proof. by vm_compute. Qed.
