(* ===== verification/Assoc.v ===== *)
(** * Assoc: association lists in the order of their keys

    A [std::map], as the sorted list of its entries: the members of a
    [Json::Value] object, the fields of a protobuf message in the order of their
    numbers.  The order of the keys is the class [KeyOrder]; lookup, insertion
    and deletion are characterised by [alookup], and two such lists with the
    same lookups are equal. *)

From S2P Require Import Prelude.
From Stdlib Require Import Sorting.Sorted.

Class KeyOrder (K : Type) := {
  keqb : K → K → bool;
  kltb : K → K → bool;
  keqb_eq : ∀ x y, keqb x y = true ↔ x = y;
  kltb_irrefl : ∀ x, kltb x x = false;
  kltb_trans : ∀ x y z, kltb x y = true → kltb y z = true → kltb x z = true;
  kltb_total : ∀ x y, kltb x y = true ∨ x = y ∨ kltb y x = true }.

#[export] Program Instance Z_key : KeyOrder Z := {| keqb := Z.eqb; kltb := Z.ltb |}.
Next Obligation. apply Z.eqb_eq. Qed.
Next Obligation. apply Z.ltb_irrefl. Qed.
Next Obligation. intros x y z. rewrite !Z.ltb_lt. lia. Qed.
Next Obligation. intros x y. rewrite !Z.ltb_lt. lia. Qed.

Lemma String_ltb_trans s1 s2 s3 :
  String.ltb s1 s2 = true → String.ltb s2 s3 = true → String.ltb s1 s3 = true.
Proof.
  unfold String.ltb. revert s2 s3.
  induction s1 as [|a s1 IH]; intros [|b s2] [|c s3]; cbn; try done.
  unfold Ascii.compare.
  destruct (N.compare_spec (Ascii.N_of_ascii a) (Ascii.N_of_ascii b)) as [E1|E1|E1]; try done;
    destruct (N.compare_spec (Ascii.N_of_ascii b) (Ascii.N_of_ascii c)) as [E2|E2|E2]; try done;
    destruct (N.compare_spec (Ascii.N_of_ascii a) (Ascii.N_of_ascii c)) as [E3|E3|E3];
    try done; try lia; apply IH.
Qed.

Lemma String_ltb_total s1 s2 :
  String.ltb s1 s2 = true ∨ s1 = s2 ∨ String.ltb s2 s1 = true.
Proof.
  unfold String.ltb. rewrite (String.compare_antisym s2 s1).
  destruct (String.compare s1 s2) eqn:E; cbn; auto.
  right. left. by apply String.compare_eq_iff.
Qed.

#[export] Program Instance string_key : KeyOrder string :=
  {| keqb := String.eqb; kltb := String.ltb |}.
Next Obligation. apply String.eqb_eq. Qed.
Next Obligation.
  intros x. unfold String.ltb. induction x as [|c x IH]; cbn; [done|].
  unfold Ascii.compare. by rewrite N.compare_refl.
Qed.
Next Obligation. apply String_ltb_trans. Qed.
Next Obligation. apply String_ltb_total. Qed.

Section assoc.
Context {K : Type} `{KeyOrder K} {V : Type}.
Implicit Types (k : K) (v : V) (l : list (K * V)).

(** [map::find]. *)
Fixpoint alookup k l : option V :=
  match l with
  | [] => None
  | (k', v) :: l' => if keqb k k' then Some v else alookup k l'
  end.

(** [map[k] = v]. *)
Fixpoint aset k v l : list (K * V) :=
  match l with
  | [] => [(k, v)]
  | (k', v') :: l' =>
      if keqb k k' then (k, v) :: l'
      else if kltb k k' then (k, v) :: l
      else (k', v') :: aset k v l'
  end.

(** [map::erase]. *)
Fixpoint adelete k l : list (K * V) :=
  match l with
  | [] => []
  | (k', v') :: l' => if keqb k k' then l' else (k', v') :: adelete k l'
  end.

(** The keys in strictly ascending order. *)
Fixpoint keys_ordered (ks : list K) : bool :=
  match ks with
  | k :: ((k' :: _) as ks') => kltb k k' && keys_ordered ks'
  | _ => true
  end.

Definition key_lt (x y : K) : Prop := kltb x y = true.

Definition asorted l : Prop := StronglySorted key_lt (fst <$> l).

Lemma keqb_refl k : keqb k k = true.
Proof. by apply keqb_eq. Qed.

Lemma keqb_neq k k' : k ≠ k' → keqb k k' = false.
Proof. intros Hn. destruct (keqb k k') eqn:E; [|done]. by apply keqb_eq in E. Qed.

Lemma keqb_reflect k k' : reflect (k = k') (keqb k k').
Proof. apply iff_reflect. symmetry. apply keqb_eq. Qed.

Lemma keys_ordered_asorted l : keys_ordered (fst <$> l) = true ↔ asorted l.
Proof.
  unfold asorted. generalize (fst <$> l). intros ks. split.
  - intros Ho. apply Sorted_StronglySorted; [intros x y z; apply kltb_trans|].
    induction ks as [|k [|k' ks] IH]; [constructor|by repeat constructor|].
    cbn in Ho. apply andb_true_iff in Ho as [H1 H2].
    constructor; [by apply IH|by constructor].
  - induction 1 as [|k ks Hs IH Hf]; [done|]. destruct ks as [|k' ks]; [done|].
    cbn -[keys_ordered]. inversion Hf as [|? ? Hk _]; subst.
    change (kltb k k' && keys_ordered (k' :: ks) = true).
    by rewrite Hk, IH.
Qed.

Lemma asorted_cons k v l :
  asorted ((k, v) :: l) ↔ asorted l ∧ Forall (λ p, key_lt k p.1) l.
Proof.
  unfold asorted. rewrite fmap_cons. split.
  - intros Hs. inversion Hs as [|? ? H1 H2]; subst. split; [done|].
    by apply (Forall_fmap fst) in H2.
  - intros [H1 H2]. apply SSorted_cons; [done|]. by apply (Forall_fmap fst).
Qed.

Lemma alookup_aset k k' v l :
  alookup k' (aset k v l) = if keqb k' k then Some v else alookup k' l.
Proof.
  induction l as [|[k1 v1] l IH]; cbn; [done|].
  destruct (keqb_reflect k k1) as [<-|Hk]; cbn; [by destruct (keqb k' k)|].
  destruct (kltb k k1); cbn; [done|].
  rewrite IH. destruct (keqb_reflect k' k1) as [->|]; [|done].
  by rewrite keqb_neq.
Qed.

Lemma alookup_None_lt k l : Forall (λ p, key_lt k p.1) l → alookup k l = None.
Proof.
  induction 1 as [|[k' v] l Hk _ IH]; cbn; [done|]. unfold key_lt in Hk. cbn in Hk.
  destruct (keqb_reflect k k') as [->|]; [|done]. by rewrite kltb_irrefl in Hk.
Qed.

Lemma aset_Forall (P : K * V → Prop) k v l : P (k, v) → Forall P l → Forall P (aset k v l).
Proof.
  intros Hp. induction 1 as [|[k' v'] l Hx Hl IH]; cbn; [by constructor|].
  repeat case_match; by repeat constructor.
Qed.

Lemma aset_asorted k v l : asorted l → asorted (aset k v l).
Proof.
  induction l as [|[k' v'] l IH]; intros Hs; cbn.
  { apply asorted_cons. split; [done|constructor]. }
  apply asorted_cons in Hs as [Hs Hf].
  destruct (keqb_reflect k k') as [->|Hk]; [by apply asorted_cons|].
  destruct (kltb k k') eqn:E.
  - apply asorted_cons. split; [by apply asorted_cons|].
    constructor; [done|]. eapply Forall_impl; [exact Hf|]. intros p Hp. cbn.
    by apply (kltb_trans _ k').
  - apply asorted_cons. split; [by apply IH|]. apply aset_Forall; [|done].
    destruct (kltb_total k k') as [Hc|[Hc|Hc]]; [by rewrite E in Hc|done|exact Hc].
Qed.

Lemma adelete_Forall (P : K * V → Prop) k l : Forall P l → Forall P (adelete k l).
Proof.
  induction 1 as [|[k' v'] l Hx Hl IH]; cbn; [by constructor|]. case_match; by try constructor.
Qed.

Lemma adelete_asorted k l : asorted l → asorted (adelete k l).
Proof.
  induction l as [|[k' v'] l IH]; intros Hs; cbn; [done|].
  apply asorted_cons in Hs as [Hs Hf]. case_match; [done|].
  apply asorted_cons. split; [by apply IH|by apply adelete_Forall].
Qed.

Lemma alookup_adelete k k' l :
  asorted l → alookup k' (adelete k l) = if keqb k' k then None else alookup k' l.
Proof.
  induction l as [|[k1 v1] l IH]; intros Hs; cbn; [by destruct (keqb k' k)|].
  apply asorted_cons in Hs as [Hs Hf].
  destruct (keqb_reflect k k1) as [->|Hk]; cbn.
  - destruct (keqb_reflect k' k1) as [->|]; [by apply alookup_None_lt|done].
  - rewrite IH by done. destruct (keqb_reflect k' k1) as [->|]; [|done]. by rewrite keqb_neq.
Qed.

Lemma alookup_Some_elem k v l : alookup k l = Some v → (k, v) ∈ l.
Proof.
  induction l as [|[k' v'] l IH]; cbn; [done|].
  destruct (keqb_reflect k k') as [->|]; intros E; [injection E as ->; left|right; auto].
Qed.

Lemma alookup_elem k v l : asorted l → (k, v) ∈ l → alookup k l = Some v.
Proof.
  induction l as [|[k' v'] l IH]; intros Hs He; [by apply elem_of_nil in He|].
  apply asorted_cons in Hs as [Hs Hf]. cbn.
  apply elem_of_cons in He as [He|He]; [injection He as -> ->; by rewrite keqb_refl|].
  destruct (keqb_reflect k k') as [->|]; [|by apply IH].
  rewrite Forall_forall in Hf. specialize (Hf _ He). unfold key_lt in Hf. cbn in Hf.
  by rewrite kltb_irrefl in Hf.
Qed.

Lemma alookup_app_l k v l1 l2 : alookup k l1 = Some v → alookup k (l1 ++ l2) = Some v.
Proof. induction l1 as [|[k' v'] l1 IH]; cbn; [done|]. by case_match. Qed.

(** A sorted list is determined by its lookups. *)
Lemma alookup_ext l1 l2 :
  asorted l1 → asorted l2 → (∀ k, alookup k l1 = alookup k l2) → l1 = l2.
Proof.
  revert l2. induction l1 as [|[k1 v1] l1 IH]; intros [|[k2 v2] l2] H1 H2 He; [done| | |].
  - specialize (He k2). cbn in He. by rewrite keqb_refl in He.
  - specialize (He k1). cbn in He. by rewrite keqb_refl in He.
  - apply asorted_cons in H1 as [H1 F1]. apply asorted_cons in H2 as [H2 F2].
    assert (k1 = k2) as <-.
    { destruct (kltb_total k1 k2) as [Hlt|[Hk|Hlt]]; [|done|].
      - pose proof (He k1) as E. cbn in E. rewrite keqb_refl in E.
        rewrite keqb_neq in E by (intros ->; by rewrite kltb_irrefl in Hlt).
        rewrite alookup_None_lt in E; [done|]. eapply Forall_impl; [exact F2|].
        intros p. by apply kltb_trans.
      - pose proof (He k2) as E. cbn in E. rewrite keqb_refl in E.
        rewrite keqb_neq in E by (intros ->; by rewrite kltb_irrefl in Hlt).
        rewrite alookup_None_lt in E; [done|]. eapply Forall_impl; [exact F1|].
        intros p. by apply kltb_trans. }
    pose proof (He k1) as E. cbn in E. rewrite keqb_refl in E. injection E as ->.
    f_equal. apply IH; [done..|]. intros k.
    destruct (keqb_reflect k k1) as [->|Hk]; [by rewrite !alookup_None_lt|].
    specialize (He k). cbn in He. by rewrite keqb_neq in He.
Qed.

End assoc.

Create HintDb assoc.
#[export] Hint Resolve aset_asorted adelete_asorted : assoc.
