(* ===== verification/Json.v ===== *)
(** * Json: jsoncpp's [Json::Value]

    The values that the broker and the message conversion pass around, with the
    accessors they use, their type tests and their range checks (json_value.cpp
    of jsoncpp 1.8.3).  An exception of jsoncpp is an [Err].  The signed and the
    unsigned integers of jsoncpp are one constructor: no accessor used here
    distinguishes them on the same number.

    The writer and the reader are the parameter [JsonText], with the law that the
    reader reads what the writer writes: for values whose objects have their keys
    in order, whose numbers are finite and in the range of jsoncpp's integers,
    and which are not nested deeper than the reader's limit. *)

From S2P Require Import Prelude Binary64 Assoc.
From Stdlib Require Import SpecFloat.
From stdpp Require Import pretty.
#[local] Open Scope string_scope.
#[local] Open Scope list_scope.
#[local] Open Scope Z_scope.

(** [Json::Value]; an object is a [std::map], kept as the list of its members in
    the order of the keys. *)
Inductive Json :=
  | JNull
  | JBool (b : bool)
  | JInt (z : Z)
  | JReal (d : double)
  | JString (s : string)
  | JArray (l : list Json)
  | JObject (l : list (string * Json)).

(** [Json::FastWriter::write], the value that [Json::Reader::parse] leaves, and
    the decimal text of a double. *)
Class JsonText := {
  json_write : Json → string;
  json_parse : string → Json;
  valueToString : double → string }.

(** ** Members *)

Abbreviation member := (alookup (K:=string)).
Abbreviation set_member := (aset (K:=string)).

(** [Value::find], which [get], [isMember] and [operator[]] use. *)
Definition find (k : string) (j : Json) : outcome (option Json) :=
  match j with
  | JNull => Ok None
  | JObject l => Ok (member k l)
  | _ => Err "requires objectValue or nullValue"
  end.

Definition json_get (k : string) (d : Json) (j : Json) : outcome Json :=
  o ← find k j; Ok (default d o).

Definition isMember (k : string) (j : Json) : outcome bool :=
  o ← find k j; Ok (has o).

(** The non-constant [operator[]]: a missing member is null. *)
Definition json_index (k : string) (j : Json) : outcome Json :=
  o ← find k j; Ok (default JNull o).

(** The same, as the place that an assignment or a call updates: null becomes an
    object, a missing member is created null. *)
Definition update_member (k : string) (f : Json → outcome Json) (j : Json) : outcome Json :=
  old ← json_index k j;
  new ← f old;
  Ok (JObject (set_member k new (match j with JObject l => l | _ => [] end))).

(** [Value::resize]. *)
Definition json_resize (n : nat) (j : Json) : outcome (list Json) :=
  match j with
  | JNull => Ok (replicate n JNull)
  | JArray l => Ok (take n l ++ replicate (n - length l) JNull)
  | _ => Err "in Json::Value::resize(): requires arrayValue"
  end.

(** ** Numbers *)

Definition INT_MIN : Z := -2147483648.
Definition INT_MAX : Z := 2147483647.
Definition UINT_MAX : Z := 4294967295.

(** [modf(d, &integral_part) == 0.0]. *)
Definition IsIntegral (d : double) : bool :=
  match d with
  | S754_zero _ | S754_infinity _ => true
  | S754_nan => false
  | S754_finite _ m e => (0 <=? e) || (Zpos m mod 2 ^ (- e) =? 0)
  end.

(** A conversion of a double to an integer: it drops the fraction. *)
Definition d_trunc (d : double) : Z :=
  match d with
  | S754_finite s m e =>
      let v := if 0 <=? e then Zpos m * 2 ^ e else Zpos m / 2 ^ (- e) in
      if s then - v else v
  | _ => 0
  end.

Definition dleb (x y : double) : bool := SFleb x y.

(** [InRange(d, min, max)]: the bounds are converted to double. *)
Definition InRange (d : double) (min max : Z) : bool :=
  dleb (d_of_Z min) d && dleb d (d_of_Z max).

(** ** Type tests and conversions *)

Definition isBool (j : Json) : bool := match j with JBool _ => true | _ => false end.
Definition isString (j : Json) : bool := match j with JString _ => true | _ => false end.
Definition isArray (j : Json) : bool := match j with JArray _ => true | _ => false end.
Definition isObject (j : Json) : bool := match j with JObject _ => true | _ => false end.
Definition isNumeric (j : Json) : bool :=
  match j with JInt _ | JReal _ => true | _ => false end.

Definition isIntegral (j : Json) : bool :=
  match j with
  | JInt _ => true
  | JReal d => dleb (d_of_Z LLONG_MIN) d && dltb d (d_of_Z u64_max) && IsIntegral d
  | _ => false
  end.

(** [asInt], [asUInt], [asInt64] and [asUInt64] have one shape: an integer is
    returned when it is in range, a real when [InRange] holds.  The rounding of
    the bound lets 2^63 through [asInt64], and 2^64 through [asUInt64]; the
    conversion is then undefined in C++, and x86-64 gives the value [over]. *)
Definition as_integer (min max over : Z) (type : string) (j : Json) : outcome Z :=
  match j with
  | JInt z => if (min <=? z) && (z <=? max) then Ok z else Err ("out of " ++ type ++ " range")
  | JReal d =>
      if InRange d min max
      then Ok (let z := d_trunc d in if (min <=? z) && (z <=? max) then z else over)
      else Err ("double out of " ++ type ++ " range")
  | JNull => Ok 0
  | JBool b => Ok (if b then 1 else 0)
  | _ => Err ("Value is not convertible to " ++ type ++ ".")
  end.

Definition asInt : Json → outcome Z := as_integer INT_MIN INT_MAX 0 "Int".
Definition asUInt : Json → outcome Z := as_integer 0 UINT_MAX 0 "UInt".
Definition asInt64 : Json → outcome Z := as_integer LLONG_MIN LLONG_MAX LLONG_MIN "Int64".
Definition asUInt64 : Json → outcome Z := as_integer 0 u64_max 0 "UInt64".

Definition asDouble (j : Json) : outcome double :=
  match j with
  | JInt z => Ok (d_of_Z z)
  | JReal d => Ok d
  | JNull => Ok dzero
  | JBool b => Ok (d_of_Z (if b then 1 else 0))
  | _ => Err "Value is not convertible to double."
  end.

(** [float]: binary32, and the conversions between it and a double. *)
Definition float := spec_float.

Definition round_to (prec emax : Z) (x : spec_float) : spec_float :=
  match x with
  | S754_finite s m e => binary_normalize prec emax (cond_Zopp s (Zpos m)) e s
  | _ => x
  end.

Definition float_of_double (d : double) : float := round_to 24 128 d.
Definition double_of_float (f : float) : double := round_to prec64 emax64 f.

Definition asFloat (j : Json) : outcome float :=
  match j with
  | JInt z => Ok (binary_normalize 24 128 z 0 false)
  | JReal d => Ok (float_of_double d)
  | JNull => Ok (S754_zero false)
  | JBool b => Ok (binary_normalize 24 128 (if b then 1 else 0) 0 false)
  | _ => Err "Value is not convertible to float."
  end.

Definition asBool (j : Json) : outcome bool :=
  match j with
  | JBool b => Ok b
  | JNull => Ok false
  | JInt z => Ok (negb (z =? 0))
  | JReal d => Ok (negb (deqb d dzero))
  | _ => Err "Value is not convertible to bool."
  end.

Definition asString `{JsonText} (j : Json) : outcome string :=
  match j with
  | JNull => Ok ""
  | JString s => Ok s
  | JBool b => Ok (if b then "true" else "false")
  | JInt z => Ok (pretty z)
  | JReal d => Ok (valueToString d)
  | JArray _ | JObject _ => Err "Type is not convertible to string"
  end.

(** ** Values that survive the text *)

(** A finite double of the format. *)
Definition real_ok (d : double) : bool :=
  match d with
  | S754_zero _ => true
  | S754_finite _ _ _ => valid_binary prec64 emax64 d
  | S754_infinity _ | S754_nan => false
  end.

Fixpoint json_wf (j : Json) : bool :=
  match j with
  | JArray l => forallb json_wf l
  | JObject l => keys_ordered (fst <$> l) && forallb (fun '(_, v) => json_wf v) l
  | JInt z => (LLONG_MIN <=? z) && (z <=? u64_max)
  | JReal d => real_ok d
  | _ => true
  end.

Definition max_list (l : list nat) : nat := foldr Nat.max 0%nat l.

Fixpoint json_depth (j : Json) : nat :=
  match j with
  | JArray l => S (max_list (json_depth <$> l))
  | JObject l => S (max_list ((fun '(_, v) => json_depth v) <$> l))
  | _ => 1
  end.

(** [stackLimit_g] of the reader. *)
Definition stackLimit : nat := 1000.

Class JsonTextLaws `{JsonText} : Prop :=
  json_parse_write : ∀ j, json_wf j = true → (json_depth j ≤ stackLimit)%nat →
    json_parse (json_write j) = j.

(** A value that can be a member of a document. *)
Definition sendable (j : Json) : bool := json_wf j && (json_depth j <? stackLimit)%nat.

(** ** Lemmas *)

Lemma sendable_spec j : sendable j = true ↔ json_wf j = true ∧ (json_depth j < stackLimit)%nat.
Proof. unfold sendable. rewrite andb_true_iff. by rewrite Nat.ltb_lt. Qed.

(** Induction over a value, with the elements of arrays and the members of objects. *)
Lemma Json_induction (P : Json → Prop) :
  P JNull → (∀ b, P (JBool b)) → (∀ z, P (JInt z)) → (∀ d, P (JReal d)) →
  (∀ s, P (JString s)) → (∀ l, Forall P l → P (JArray l)) →
  (∀ l, Forall (λ m, P m.2) l → P (JObject l)) → ∀ j, P j.
Proof.
  intros Hn Hb Hz Hd Hs Ha Ho. fix IH 1. intros [| | | | |l|l];
    [exact Hn|apply Hb|apply Hz|apply Hd|apply Hs| |].
  - apply Ha. induction l as [|j l IHl]; constructor; [apply IH|exact IHl].
  - apply Ho. induction l as [|[k j] l IHl]; constructor; [apply IH|exact IHl].
Qed.

Lemma as_integer_Ok min max over type j z :
  min ≤ 0 ≤ max → 1 ≤ max → min ≤ over ≤ max → as_integer min max over type j = Ok z →
  min ≤ z ≤ max.
Proof.
  intros H0 H1 Ho. destruct j as [|b|x|d|s|l|l]; cbn; intros E; try done.
  - by injection E as <-.
  - injection E as <-. destruct b; lia.
  - destruct (_ && _) eqn:Eb; [|done]. injection E as <-. apply andb_true_iff in Eb. lia.
  - destruct (InRange d min max); [|done]. injection E as <-.
    destruct ((min <=? d_trunc d) && (d_trunc d <=? max)) eqn:Eb; [|done].
    apply andb_true_iff in Eb. lia.
Qed.

Lemma max_list_le (n : nat) l : (max_list l ≤ n)%nat ↔ Forall (λ k, (k ≤ n)%nat) l.
Proof.
  induction l as [|k l IH]; cbn; [split; [constructor|lia]|].
  rewrite Forall_cons, <-IH. unfold max_list. lia.
Qed.
