(* ===== verification/JsonProtobuf.v ===== *)
(** * JsonProtobuf: json_protobuf.cpp

    The conversion between protobuf messages and [Json::Value] by reflection,
    which carries every message of the framework over the broker.  A message
    type is described by its fields, a pool gives the description of every type
    (types may be recursive); a message is the list of the fields it has, in the
    order of their numbers, each with its values: one for a singular field, all
    of them for a repeated one.

    An exception ([std::invalid_argument] of this file, or one of jsoncpp) is an
    [Err]; a call of the reflection interface with the accessor of another type,
    which ends the process, is [Fatal].  [bytes] fields go through base64. *)

From S2P Require Import Prelude Binary64 Base64 Assoc Json.
From Stdlib Require Import Ascii String.
#[local] Open Scope string_scope.
#[local] Open Scope list_scope.
#[local] Open Scope Z_scope.

(** ** Descriptors *)

(** [FieldDescriptor::Type], [CppType] and [Label]. *)
Inductive FieldType :=
  | TYPE_DOUBLE | TYPE_FLOAT | TYPE_INT64 | TYPE_UINT64 | TYPE_INT32 | TYPE_FIXED64
  | TYPE_FIXED32 | TYPE_BOOL | TYPE_STRING | TYPE_GROUP | TYPE_MESSAGE | TYPE_BYTES
  | TYPE_UINT32 | TYPE_ENUM | TYPE_SFIXED32 | TYPE_SFIXED64 | TYPE_SINT32 | TYPE_SINT64.
#[export] Instance FieldType_eq_dec : EqDecision FieldType.
Proof. solve_decision. Defined.

Inductive CppType :=
  | CPPTYPE_INT32 | CPPTYPE_INT64 | CPPTYPE_UINT32 | CPPTYPE_UINT64 | CPPTYPE_DOUBLE
  | CPPTYPE_FLOAT | CPPTYPE_BOOL | CPPTYPE_ENUM | CPPTYPE_STRING | CPPTYPE_MESSAGE.
#[export] Instance CppType_eq_dec : EqDecision CppType.
Proof. solve_decision. Defined.

Inductive Label := LABEL_OPTIONAL | LABEL_REQUIRED | LABEL_REPEATED.

Definition cpp_type (t : FieldType) : CppType :=
  match t with
  | TYPE_DOUBLE => CPPTYPE_DOUBLE
  | TYPE_FLOAT => CPPTYPE_FLOAT
  | TYPE_INT64 | TYPE_SFIXED64 | TYPE_SINT64 => CPPTYPE_INT64
  | TYPE_UINT64 | TYPE_FIXED64 => CPPTYPE_UINT64
  | TYPE_INT32 | TYPE_SFIXED32 | TYPE_SINT32 => CPPTYPE_INT32
  | TYPE_UINT32 | TYPE_FIXED32 => CPPTYPE_UINT32
  | TYPE_BOOL => CPPTYPE_BOOL
  | TYPE_STRING | TYPE_BYTES => CPPTYPE_STRING
  | TYPE_GROUP | TYPE_MESSAGE => CPPTYPE_MESSAGE
  | TYPE_ENUM => CPPTYPE_ENUM
  end.

Definition type_name (t : FieldType) : string :=
  match t with
  | TYPE_DOUBLE => "double" | TYPE_FLOAT => "float" | TYPE_INT64 => "int64"
  | TYPE_UINT64 => "uint64" | TYPE_INT32 => "int32" | TYPE_FIXED64 => "fixed64"
  | TYPE_FIXED32 => "fixed32" | TYPE_BOOL => "bool" | TYPE_STRING => "string"
  | TYPE_GROUP => "group" | TYPE_MESSAGE => "message" | TYPE_BYTES => "bytes"
  | TYPE_UINT32 => "uint32" | TYPE_ENUM => "enum" | TYPE_SFIXED32 => "sfixed32"
  | TYPE_SFIXED64 => "sfixed64" | TYPE_SINT32 => "sint32" | TYPE_SINT64 => "sint64"
  end.

(** A field: [f_enum] are the values of its enum type by name, [f_message] is the
    name of its message type. *)
Record FieldDescriptor := mkField {
  f_name : string;
  f_full_name : string;
  f_number : Z;
  f_type : FieldType;
  f_label : Label;
  f_enum : list (string * Z);
  f_message : string }.

Definition Descriptor := list FieldDescriptor.
Definition Pool := string → Descriptor.

Definition FindFieldByName (name : string) (d : Descriptor) : option FieldDescriptor :=
  List.find (fun f => String.eqb (f_name f) name) d.
Definition FindFieldByNumber (n : Z) (d : Descriptor) : option FieldDescriptor :=
  List.find (fun f => f_number f =? n) d.
Definition FindValueByName (name : string) (f : FieldDescriptor) : option (string * Z) :=
  List.find (fun e => String.eqb (fst e) name) (f_enum f).
Definition FindValueByNumber (n : Z) (f : FieldDescriptor) : option (string * Z) :=
  List.find (fun e => snd e =? n) (f_enum f).

(** ** Messages *)

(** A value of a field, and a message: its fields by number. *)
Inductive PbValue :=
  | PbDouble (d : double)
  | PbFloat (f : float)
  | PbInt (z : Z)
  | PbBool (b : bool)
  | PbString (s : string)
  | PbEnum (n : Z)
  | PbMessage (m : ProtoMessage)
with ProtoMessage := mkProto (fields : list (Z * list PbValue)).

Definition fields (m : ProtoMessage) : list (Z * list PbValue) :=
  let 'mkProto l := m in l.

Definition default_message : ProtoMessage := mkProto [].

(** ** The reflection interface *)

Section reflection.
Context (field : FieldDescriptor).

(** [USAGE_CHECK_TYPE]: an accessor of the wrong type ends the process. *)
Definition USAGE_CHECK_TYPE (t : CppType) : outcome unit :=
  CHECK (bool_decide (cpp_type (f_type field) = t)).

Definition GetDouble (v : PbValue) : outcome double :=
  _ ← USAGE_CHECK_TYPE CPPTYPE_DOUBLE; match v with PbDouble d => Ok d | _ => Fatal end.
Definition GetFloat (v : PbValue) : outcome float :=
  _ ← USAGE_CHECK_TYPE CPPTYPE_FLOAT; match v with PbFloat f => Ok f | _ => Fatal end.
Definition GetInteger (t : CppType) (v : PbValue) : outcome Z :=
  _ ← USAGE_CHECK_TYPE t; match v with PbInt z => Ok z | _ => Fatal end.
Definition GetInt64 := GetInteger CPPTYPE_INT64.
Definition GetUInt64 := GetInteger CPPTYPE_UINT64.
Definition GetInt32 := GetInteger CPPTYPE_INT32.
Definition GetUInt32 := GetInteger CPPTYPE_UINT32.
Definition GetBool (v : PbValue) : outcome bool :=
  _ ← USAGE_CHECK_TYPE CPPTYPE_BOOL; match v with PbBool b => Ok b | _ => Fatal end.
Definition GetString (v : PbValue) : outcome string :=
  _ ← USAGE_CHECK_TYPE CPPTYPE_STRING; match v with PbString s => Ok s | _ => Fatal end.

(** [GetEnum(...)->name()]. *)
Definition GetEnum_name (v : PbValue) : outcome string :=
  _ ← USAGE_CHECK_TYPE CPPTYPE_ENUM;
  match v with
  | PbEnum n => match FindValueByNumber n field with Some e => Ok (fst e) | None => Fatal end
  | _ => Fatal
  end.

(** [SetX] and [AddX], with the constructor of the value; [MutableMessage],
    [AddMessage] and [ClearField]. *)
Definition SetValue {A : Type} (c : A → PbValue) (a : A) (m : ProtoMessage) : ProtoMessage :=
  mkProto (aset (f_number field) [c a] (fields m)).

Definition AddValue {A : Type} (c : A → PbValue) (a : A) (m : ProtoMessage) : ProtoMessage :=
  mkProto (aset (f_number field) (default [] (alookup (f_number field) (fields m)) ++ [c a])
             (fields m)).

Definition MutableMessage (m : ProtoMessage) : ProtoMessage :=
  match alookup (f_number field) (fields m) with
  | Some (PbMessage sub :: _) => sub
  | _ => default_message
  end.

Definition ClearField (m : ProtoMessage) : ProtoMessage :=
  mkProto (adelete (f_number field) (fields m)).

End reflection.

(** ** From a message to JSON *)

(** [E.encode(instream, outstream)] with the buffers of this file. *)
Definition encode_string (s : string) : outcome string :=
  string_of_list_ascii <$> encode BUFFERSIZE (list_ascii_of_string s).

Definition group_error (field : FieldDescriptor) : outcome Json :=
  Err ("group type not supported for field '" ++ f_full_name field ++ "'").

(** The assignments [value[field->name()] = ...]; the value of a sub-message is
    converted in place. *)
Definition convert_single_field (convert_to_json : string → ProtoMessage → Json → outcome Json)
    (field : FieldDescriptor) (v : PbValue) (value : Json) : outcome Json :=
  let assign (get : outcome Json) := update_member (f_name field) (fun _ => get) value in
  match f_type field with
  | TYPE_DOUBLE => assign (JReal <$> GetDouble field v)
  | TYPE_FLOAT => assign (JReal ∘ double_of_float <$> GetFloat field v)
  | TYPE_INT64 | TYPE_SFIXED64 | TYPE_SINT64 => assign (JInt <$> GetInt64 field v)
  | TYPE_UINT64 | TYPE_FIXED64 => assign (JInt <$> GetUInt64 field v)
  | TYPE_INT32 | TYPE_SFIXED32 | TYPE_SINT32 => assign (JInt <$> GetInt32 field v)
  | TYPE_FIXED32 | TYPE_UINT32 => assign (JInt <$> GetUInt32 field v)
  | TYPE_BOOL => assign (JBool <$> GetBool field v)
  | TYPE_STRING => assign (JString <$> GetString field v)
  | TYPE_GROUP => group_error field
  | TYPE_MESSAGE =>
      update_member (f_name field)
        (fun slot => match v with
                     | PbMessage m => convert_to_json (f_message field) m slot
                     | _ => Fatal
                     end) value
  | TYPE_BYTES =>
      s ← GetString field v;
      code ← encode_string s;
      assign (Ok (JString code))
  | TYPE_ENUM => assign (JString <$> GetEnum_name field v)
  end.

(** The loop over the elements: each is assigned to its place in the array. *)
Definition assign_elements (f : PbValue → Json → outcome Json)
    : list PbValue → list Json → outcome (list Json) :=
  fix go vs slots :=
    match vs, slots with
    | v :: vs', slot :: slots' => j ← f v slot; (cons j) <$> go vs' slots'
    | _, _ => Ok []
    end.

(** The three templates [convert_repeated_field<T>],
    [convert_repeated_message_field] and [convert_repeated_enum_field]: resize,
    then convert every element. *)
Definition convert_elements (f : PbValue → Json → outcome Json) (vs : list PbValue)
    (value : Json) : outcome Json :=
  slots ← json_resize (List.length vs) value;
  JArray <$> assign_elements f vs slots.

Definition convert_repeated_field (convert_to_json : string → ProtoMessage → Json → outcome Json)
    (field : FieldDescriptor) (vs : list PbValue) (value : Json) : outcome Json :=
  let elements (get : PbValue → outcome Json) :=
    update_member (f_name field) (convert_elements (fun v _ => get v) vs) value in
  match f_type field with
  | TYPE_DOUBLE => elements (fun v => JReal ∘ d_of_Z <$> GetUInt64 field v)
  | TYPE_FLOAT => elements (fun v => JReal ∘ double_of_float <$> GetFloat field v)
  | TYPE_INT64 | TYPE_SFIXED64 | TYPE_SINT64 => elements (fun v => JInt <$> GetInt64 field v)
  | TYPE_UINT64 | TYPE_FIXED64 => elements (fun v => JInt <$> GetUInt64 field v)
  | TYPE_INT32 | TYPE_SFIXED32 | TYPE_SINT32 => elements (fun v => JInt <$> GetInt32 field v)
  | TYPE_FIXED32 | TYPE_UINT32 => elements (fun v => JInt <$> GetUInt32 field v)
  | TYPE_BOOL => elements (fun v => JBool <$> GetBool field v)
  | TYPE_STRING => elements (fun v => JString <$> GetString field v)
  | TYPE_GROUP => group_error field
  | TYPE_MESSAGE =>
      update_member (f_name field)
        (convert_elements
           (fun v slot => match v with
                          | PbMessage m => convert_to_json (f_message field) m slot
                          | _ => Fatal
                          end) vs) value
  | TYPE_BYTES => Err ("binary type not supported for field '" ++ f_full_name field ++ "'")
  | TYPE_ENUM => elements (fun v => JString <$> GetEnum_name field v)
  end.

Section conversion.
Context (pool : Pool).

(** One round of the loop over [ListFields]: a field that is present, by its
    label.  A number that the type does not have is an unknown field, which
    [ListFields] does not list. *)
Definition convert_field (convert_to_json : string → ProtoMessage → Json → outcome Json)
    (type : string) (n : Z) (vs : list PbValue) (value : Json) : outcome Json :=
  match FindFieldByNumber n (pool type) with
  | None => Ok value
  | Some field =>
      match f_label field with
      | LABEL_OPTIONAL | LABEL_REQUIRED =>
          match vs with
          | v :: _ => convert_single_field convert_to_json field v value
          | [] => Ok value
          end
      | LABEL_REPEATED =>
          match vs with
          | [] => Ok value
          | _ => convert_repeated_field convert_to_json field vs value
          end
      end
  end.

Fixpoint convert_to_json (type : string) (message : ProtoMessage) (value : Json) {struct message}
    : outcome Json :=
  match message with
  | mkProto l =>
      mfold (fun value '(n, vs) => convert_field convert_to_json type n vs value) value l
  end.

(** ** From JSON to a message *)

Context (uninitialised : nat → Z).

Definition decode_string (s : string) : outcome string :=
  string_of_list_ascii <$> decode uninitialised BUFFERSIZE (list_ascii_of_string s).

Section update.
Context `{JsonText}.

Definition update_field {A : Type} (field : FieldDescriptor)
    (updater : A → ProtoMessage → ProtoMessage) (value : Json) (accessor : Json → outcome A)
    (checker : Json → bool) (message : ProtoMessage) : outcome ProtoMessage :=
  if negb (checker value)
  then Err ("expecting type " ++ type_name (f_type field) ++ " for field '" ++ f_full_name field ++ "'")
  else a ← accessor value; Ok (updater a message).

Definition update_enum_field (field : FieldDescriptor)
    (updater : Z → ProtoMessage → ProtoMessage) (value : Json) (message : ProtoMessage)
    : outcome ProtoMessage :=
  if negb (isString value)
  then Err ("expecting string (enum) for field '" ++ f_full_name field ++ "'")
  else
    s ← asString value;
    match FindValueByName s field with
    | None => Err ("unknown enum for field '" ++ f_full_name field ++ "': '" ++ s ++ "'")
    | Some e => Ok (updater (snd e) message)
    end.

(** The table of [update_single_field] and of [update_repeated_field] for the
    types that go through [update_field]: which accessor, which check, which
    constructor; [None] for the other types. *)
Definition scalar_update (t : FieldType) : option ((Json → outcome PbValue) * (Json → bool)) :=
  match t with
  | TYPE_DOUBLE => Some (fun j => PbDouble <$> asDouble j, isNumeric)
  | TYPE_FLOAT => Some (fun j => PbFloat <$> asFloat j, isNumeric)
  | TYPE_INT64 | TYPE_SFIXED64 | TYPE_SINT64 => Some (fun j => PbInt <$> asInt64 j, isIntegral)
  | TYPE_UINT64 | TYPE_FIXED64 => Some (fun j => PbInt <$> asUInt64 j, isIntegral)
  | TYPE_INT32 | TYPE_SFIXED32 | TYPE_SINT32 => Some (fun j => PbInt <$> asInt j, isIntegral)
  | TYPE_FIXED32 | TYPE_UINT32 => Some (fun j => PbInt <$> asUInt j, isIntegral)
  | TYPE_BOOL => Some (fun j => PbBool <$> asBool j, isBool)
  | TYPE_STRING => Some (fun j => PbString <$> asString j, isString)
  | _ => None
  end.

Definition update_single_field
    (update_from_json : string → Json → ProtoMessage → outcome ProtoMessage)
    (field : FieldDescriptor) (value : Json) (message : ProtoMessage) : outcome ProtoMessage :=
  match f_type field with
  | TYPE_GROUP => Err ("group type not supported for field '" ++ f_full_name field ++ "'")
  | TYPE_MESSAGE =>
      sub ← update_from_json (f_message field) value (MutableMessage field message);
      Ok (SetValue field PbMessage sub message)
  | TYPE_BYTES =>
      if isString value then
        code ← asString value;
        s ← decode_string code;
        Ok (SetValue field PbString s message)
      else update_field field (SetValue field PbString) value asString isString message
  | TYPE_ENUM => update_enum_field field (SetValue field PbEnum) value message
  | t =>
      match scalar_update t with
      | Some (accessor, checker) =>
          update_field field (SetValue field id) value accessor checker message
      | None => Fatal
      end
  end.

Definition update_repeated_field
    (update_from_json : string → Json → ProtoMessage → outcome ProtoMessage)
    (field : FieldDescriptor) (elements : list Json) (message : ProtoMessage)
    : outcome ProtoMessage :=
  match f_type field with
  | TYPE_GROUP => Err ("group type not supported for field '" ++ f_full_name field ++ "'")
  | TYPE_MESSAGE =>
      mfold (fun message value =>
               sub ← update_from_json (f_message field) value default_message;
               Ok (AddValue field PbMessage sub message)) message elements
  | TYPE_BYTES => Err ("bytes type not supported for field '" ++ f_full_name field ++ "'")
  | TYPE_ENUM =>
      mfold (fun message value => update_enum_field field (AddValue field PbEnum) value message)
            message elements
  | t =>
      match scalar_update t with
      | Some (accessor, checker) =>
          mfold (fun message value =>
                   update_field field (AddValue field id) value accessor checker message)
                message elements
      | None => Fatal
      end
  end.

(** [iter.memberName()] is a C string: it ends at the first NUL. *)
Fixpoint c_str (s : string) : string :=
  match s with
  | String c s' => if Ascii.eqb c "000" then "" else String c (c_str s')
  | EmptyString => ""
  end.

Definition update_member_field
    (update_from_json : string → Json → ProtoMessage → outcome ProtoMessage)
    (type : string) (name : string) (current : Json) (message : ProtoMessage)
    : outcome ProtoMessage :=
  match FindFieldByName (c_str name) (pool type) with
  | None => Err ("JSON field '" ++ c_str name ++ "' not found in message")
  | Some field =>
      match f_label field with
      | LABEL_OPTIONAL | LABEL_REQUIRED =>
          update_single_field update_from_json field current message
      | LABEL_REPEATED =>
          match current with
          | JArray elements =>
              update_repeated_field update_from_json field elements (ClearField field message)
          | _ => Err ("expecting JSON array for field '" ++ f_full_name field ++ "'")
          end
      end
  end.

Fixpoint update_from_json (type : string) (value : Json) (message : ProtoMessage) {struct value}
    : outcome ProtoMessage :=
  match value with
  | JObject l =>
      mfold (fun message '(name, current) =>
               update_member_field update_from_json type name current message) message l
  | _ => Err "expecting JSON object type"
  end.

(** ** The text versions *)

Definition convert_to_json_text (type : string) (message : ProtoMessage) : outcome string :=
  j ← convert_to_json type message JNull;
  Ok (json_write j).

End update.
End conversion.
