(* ===== verification/JsonProtobufLaws.v ===== *)
(** * JsonProtobufLaws: what goes out comes back

    A message that is well formed for its type converts to a JSON value from
    which [update_from_json] rebuilds it, field by field, whatever the order in
    which the JSON object lists its members.  The well-formedness is the range
    of messages that the conversion supports; the messages outside it that the
    protocol has are shown to fail. *)

From Stdlib Require Import Ascii String Sorting.Sorted.
From S2P Require Import Prelude Binary64 Base64 Assoc Json JsonProtobuf.
#[local] Open Scope string_scope.
#[local] Open Scope list_scope.
#[local] Open Scope Z_scope.

(** ** Permutations and sorted lists *)

Section permutation.
Context {K : Type} `{KeyOrder K} {V : Type}.
Implicit Types (l : list (K * V)).

Lemma alookup_None_fst k l : alookup k l = None ↔ k ∉ l.*1.
Proof.
  induction l as [|[k' v] l IH]; cbn; [split; [by intros _ ?%elem_of_nil|done]|].
  rewrite elem_of_cons. destruct (keqb_reflect k k') as [->|Hk]; [split; [done|tauto]|].
  rewrite IH. tauto.
Qed.

Lemma aset_perm k v l : alookup k l = None → aset k v l ≡ₚ (k, v) :: l.
Proof.
  induction l as [|[k' v'] l IH]; cbn; [done|].
  destruct (keqb k k'); [done|]. intros Hl. destruct (kltb k k'); [done|].
  rewrite IH by done. apply Permutation_swap.
Qed.

Lemma aset_aset k v w l : aset k w (aset k v l) = aset k w l.
Proof.
  induction l as [|[k' v'] l IH]; cbn; [by rewrite keqb_refl|].
  destruct (keqb k k') eqn:E; cbn; [by rewrite keqb_refl|].
  destruct (kltb k k') eqn:E'; cbn; [by rewrite keqb_refl|]. by rewrite E, E', IH.
Qed.

Lemma adelete_None k l : alookup k l = None → adelete k l = l.
Proof.
  induction l as [|[k' v'] l IH]; cbn; [done|]. destruct (keqb k k'); [done|].
  intros Hl. by rewrite IH.
Qed.

Lemma asorted_NoDup l : asorted l → NoDup l.*1.
Proof.
  unfold asorted. induction 1 as [|k ks Hs IH Hf]; constructor; [|done].
  intros Hk. rewrite Forall_forall in Hf. specialize (Hf _ Hk). unfold key_lt in Hf.
  by rewrite kltb_irrefl in Hf.
Qed.

(** Two sorted lists with the same entries are the same list. *)
Lemma asorted_perm l1 l2 : asorted l1 → asorted l2 → l1 ≡ₚ l2 → l1 = l2.
Proof.
  intros H1 H2 Hp. apply alookup_ext; [done..|]. intros k.
  destruct (alookup k l1) as [v|] eqn:E1.
  - apply alookup_Some_elem in E1. rewrite Hp in E1. symmetry. by apply alookup_elem.
  - symmetry. apply alookup_None_fst. apply alookup_None_fst in E1.
    by rewrite <-(fmap_Permutation fst _ _ Hp).
Qed.

End permutation.

(** ** Well-formed messages *)

Definition range_ok (t : FieldType) (z : Z) : bool :=
  match cpp_type t with
  | CPPTYPE_INT32 => (INT_MIN <=? z) && (z <=? INT_MAX)
  | CPPTYPE_UINT32 => (0 <=? z) && (z <=? UINT_MAX)
  | CPPTYPE_INT64 => (LLONG_MIN <=? z) && (z <=? LLONG_MAX)
  | CPPTYPE_UINT64 => (0 <=? z) && (z <=? u64_max)
  | _ => false
  end.

(** A value of the type of its field: a finite double, a number in range, a
    declared value of an enum, a sub-message that is well formed. *)
Definition value_ok (msg_ok : string → ProtoMessage → bool) (f : FieldDescriptor) (v : PbValue)
    : bool :=
  match v with
  | PbDouble d => bool_decide (f_type f = TYPE_DOUBLE) && real_ok d
  | PbFloat _ => false
  | PbInt z => range_ok (f_type f) z
  | PbBool _ => bool_decide (f_type f = TYPE_BOOL)
  | PbString _ => bool_decide (f_type f = TYPE_STRING) || bool_decide (f_type f = TYPE_BYTES)
  | PbEnum n => bool_decide (f_type f = TYPE_ENUM) && has (FindValueByNumber n f)
  | PbMessage m => bool_decide (f_type f = TYPE_MESSAGE) && msg_ok (f_message f) m
  end.

Definition repeatable (t : FieldType) : bool :=
  match t with TYPE_DOUBLE | TYPE_BYTES => false | _ => true end.

(** One value of a singular field; the values of a repeated one, not of type
    double or bytes. *)
Definition field_ok (pool : Pool) (msg_ok : string → ProtoMessage → bool) (type : string) (n : Z)
    (vs : list PbValue) : bool :=
  match FindFieldByNumber n (pool type) with
  | None => false
  | Some f =>
      match f_label f, vs with
      | LABEL_REPEATED, _ :: _ => repeatable (f_type f) && forallb (value_ok msg_ok f) vs
      | (LABEL_OPTIONAL | LABEL_REQUIRED), [v] => value_ok msg_ok f v
      | _, _ => false
      end
  end.

(** At least one field, the fields in the order of their numbers. *)
Fixpoint msg_ok (pool : Pool) (type : string) (m : ProtoMessage) {struct m} : bool :=
  match m with
  | mkProto l =>
      negb (bool_decide (l = [])) && keys_ordered (fst <$> l) &&
      forallb (fun '(n, vs) => field_ok pool (msg_ok pool) type n vs) l
  end.

(** How deep messages are nested. *)
Fixpoint msg_depth (m : ProtoMessage) : nat :=
  match m with
  | mkProto l =>
      S (max_list ((fun '(_, vs) =>
           max_list ((fun v => match v with PbMessage m => msg_depth m | _ => 0%nat end) <$> vs)) <$> l))
  end.

Definition value_depth (v : PbValue) : nat :=
  match v with PbMessage m => msg_depth m | _ => 0 end.
Definition values_depth (vs : list PbValue) : nat := max_list (value_depth <$> vs).

Lemma value_depth_le v vs : v ∈ vs → (value_depth v ≤ values_depth vs)%nat.
Proof.
  intros Hv. assert (Hm : (values_depth vs ≤ values_depth vs)%nat) by lia.
  apply max_list_le in Hm. rewrite Forall_forall in Hm. apply Hm. by apply list_elem_of_fmap_2.
Qed.

(** A JSON value that survives the text and is no deeper than [n]. *)
Definition text_ok (n : nat) (j : Json) : Prop := json_wf j = true ∧ (json_depth j ≤ n)%nat.

(** What protoc guarantees of the types: distinct names, which are C strings,
    distinct numbers, distinct names of the values of an enum. *)
Definition descriptor_ok (d : Descriptor) : Prop :=
  NoDup (f_name <$> d) ∧ NoDup (f_number <$> d) ∧
  Forall (λ f, c_str (f_name f) = f_name f ∧ NoDup (f_enum f).*1) d.

#[export] Instance descriptor_ok_dec d : Decision (descriptor_ok d).
Proof. unfold descriptor_ok. apply _. Defined.

Definition pool_ok (pool : Pool) : Prop := ∀ type, descriptor_ok (pool type).

(** ** Lookups in a descriptor *)

Lemma find_key {A B : Type} (g : A → B) (eqb : B → B → bool) (l : list A) (x : A) :
  (∀ a b, eqb a b = true ↔ a = b) → NoDup (g <$> l) → x ∈ l →
  List.find (fun y => eqb (g y) (g x)) l = Some x.
Proof.
  intros Heq. induction l as [|y l IH]; intros Hn Hx; [by apply elem_of_nil in Hx|].
  cbn. apply NoDup_cons in Hn as [Hy Hn].
  destruct (eqb (g y) (g x)) eqn:E.
  - apply Heq in E. apply elem_of_cons in Hx as [->|Hx]; [done|].
    destruct Hy. rewrite E. by apply list_elem_of_fmap_2.
  - apply elem_of_cons in Hx as [->|Hx]; [|by apply IH].
    by rewrite (proj2 (Heq (g y) (g y)) eq_refl) in E.
Qed.

Lemma find_number_elem n d f :
  FindFieldByNumber n d = Some f → f ∈ d ∧ f_number f = n.
Proof.
  intros Hf. apply find_some in Hf as [H1 H2]. apply Z.eqb_eq in H2.
  split; [by apply list_elem_of_In|done].
Qed.

Section pool.
Context (pool : Pool) (Hpool : pool_ok pool).

Lemma find_name f type : f ∈ pool type → FindFieldByName (c_str (f_name f)) (pool type) = Some f.
Proof.
  intros Hf. destruct (Hpool type) as (Hn & _ & Hc). rewrite Forall_forall in Hc.
  destruct (Hc f Hf) as [-> _]. apply (find_key f_name String.eqb); [apply String.eqb_eq|done..].
Qed.

Lemma find_number f type : f ∈ pool type → FindFieldByNumber (f_number f) (pool type) = Some f.
Proof.
  intros Hf. destruct (Hpool type) as (_ & Hn & _).
  apply (find_key f_number Z.eqb); [apply Z.eqb_eq|done..].
Qed.

Lemma find_enum f type n e :
  f ∈ pool type → FindValueByNumber n f = Some e →
  FindValueByName (fst e) f = Some e ∧ snd e = n.
Proof.
  intros Hf He. destruct (Hpool type) as (_ & _ & Hc). rewrite Forall_forall in Hc.
  destruct (Hc f Hf) as [_ Hn]. apply find_some in He as [H1 H2]. apply Z.eqb_eq in H2.
  split; [|done]. apply (find_key fst String.eqb); [apply String.eqb_eq|done|].
  by apply list_elem_of_In.
Qed.

End pool.

(** Induction over a message, with the sub-messages among the values of its fields. *)
Lemma ProtoMessage_induction (P : ProtoMessage → Prop) :
  (∀ l, Forall (λ p, Forall (λ v, ∀ m, v = PbMessage m → P m) p.2) l → P (mkProto l)) →
  ∀ m, P m.
Proof.
  intros Hp. fix IH 1. intros [l]. apply Hp.
  induction l as [|[n vs] l IHl]; constructor; [|exact IHl]. cbn.
  induction vs as [|v vs IHv]; constructor; [|exact IHv].
  intros m Hm. destruct v; try discriminate Hm. injection Hm as <-. apply IH.
Qed.

(** ** One field *)

(** A value with the members [l]: an object, or null before the first of them. *)
Definition members (value : Json) (l : list (string * Json)) : Prop :=
  value = JObject l ∨ value = JNull ∧ l = [].

Lemma update_member_new k g value l :
  members value l → alookup k l = None →
  update_member k g value = (new ← g JNull; Ok (JObject (aset k new l))).
Proof. intros [->|[-> ->]] Hk; unfold update_member, json_index; cbn; rewrite ?Hk; done. Qed.

Lemma encode_decode_string u s :
  ∃ code, encode_string s = Ok code ∧ decode_string u code = Ok s.
Proof.
  destruct (decode_encode u BUFFERSIZE BUFFERSIZE (list_ascii_of_string s)) as (c & E1 & E2);
    [done..|].
  exists (string_of_list_ascii c). unfold encode_string, decode_string.
  rewrite E1. cbn -[decode encode]. rewrite list_ascii_of_string_of_list_ascii, E2. cbn -[decode encode].
  by rewrite string_of_list_ascii_of_string.
Qed.

Section field.
Context (pool : Pool) (Hpool : pool_ok pool) (u : nat → Z) `{JsonText}.

(** The property of sub-messages that the induction gives. *)
Definition roundtrips (type : string) (m : ProtoMessage) : Prop :=
  ∃ ms, convert_to_json pool type m JNull = Ok (JObject ms) ∧
        update_from_json pool u type (JObject ms) default_message = Ok m ∧
        text_ok (2 * msg_depth m + 1) (JObject ms).

(** A field that goes through [update_field]: how its values are read, and that
    the accessor gets them back. *)
Lemma scalar_field f accessor checker :
  scalar_update (f_type f) = Some (accessor, checker) →
  ∃ get : PbValue → outcome Json,
    (∀ conv v value,
       convert_single_field conv f v value = update_member (f_name f) (fun _ => get v) value) ∧
    (repeatable (f_type f) = true → ∀ conv vs value,
       convert_repeated_field conv f vs value =
       update_member (f_name f) (convert_elements (fun v _ => get v) vs) value) ∧
    (∀ v, value_ok (msg_ok pool) f v = true →
       ∃ j, get v = Ok j ∧ checker j = true ∧ accessor j = Ok v ∧ text_ok 1 j).
Proof.
  unfold convert_single_field, convert_repeated_field.
  destruct (f_type f) eqn:Et; cbn; intros [= <- <-];
    (eexists; split; [reflexivity|]; split; [first [discriminate|reflexivity]|]);
    intros v Hv; destruct v; cbn in Hv; unfold range_ok in Hv; rewrite ?Et in Hv; try done;
    (eexists; split;
       [unfold GetDouble, GetInt64, GetUInt64, GetInt32, GetUInt32, GetInteger, GetBool, GetString,
          USAGE_CHECK_TYPE; rewrite Et; reflexivity|]);
    (split; [reflexivity|]); (split; [cbn in *; rewrite ?Hv; reflexivity|]); split; try done;
    apply andb_true_iff in Hv as [H1 H2]; cbn; try done; apply andb_true_iff;
    apply Z.leb_le in H1, H2; split; apply Z.leb_le;
    unfold LLONG_MIN, LLONG_MAX, u64_max, INT_MIN, INT_MAX, UINT_MAX in *; lia.
Qed.

(** The converter of a sub-message and of an enum value, as the two switches
    write them. *)
Definition convert_sub (f : FieldDescriptor) (v : PbValue) (slot : Json) : outcome Json :=
  match v with
  | PbMessage m => convert_to_json pool (f_message f) m slot
  | _ => Fatal
  end.

Lemma value_enum f type n :
  f ∈ pool type → f_type f = TYPE_ENUM → has (FindValueByNumber n f) = true →
  ∃ s, GetEnum_name f (PbEnum n) = Ok s ∧
       ∀ updater msg, update_enum_field f updater (JString s) msg = Ok (updater n msg).
Proof.
  intros Hf Et Hn. destruct (FindValueByNumber n f) as [e|] eqn:E; [|done].
  destruct (find_enum pool Hpool f type n e Hf E) as [E1 E2].
  exists (fst e). split.
  - unfold GetEnum_name, USAGE_CHECK_TYPE. rewrite Et. cbn. by rewrite E.
  - intros updater msg. unfold update_enum_field. cbn. by rewrite E1, E2.
Qed.

(** A singular field: its value converts into one new member, from which the
    update sets the field. *)
Lemma single_field f type v :
  f ∈ pool type → value_ok (msg_ok pool) f v = true →
  (∀ m, v = PbMessage m → msg_ok pool (f_message f) m = true → roundtrips (f_message f) m) →
  ∃ j,
    (∀ value l, members value l → alookup (f_name f) l = None →
       convert_single_field (convert_to_json pool) f v value =
       Ok (JObject (aset (f_name f) j l))) ∧
    (∀ msg, alookup (f_number f) (fields msg) = None →
       update_single_field u (update_from_json pool u) f j msg =
       Ok (mkProto (aset (f_number f) [v] (fields msg)))) ∧
    text_ok (2 * value_depth v + 1) j.
Proof.
  intros Hf Hv Hsub.
  destruct (scalar_update (f_type f)) as [[accessor checker]|] eqn:Es.
  - destruct (scalar_field f accessor checker Es) as (get & Hs & _ & Hg).
    destruct (Hg v Hv) as (j & Hj & Hc & Ha & [Hw Hd]). exists j. split; [|split].
    3: { split; [done|lia]. }
    + intros value l Hm Hl. rewrite Hs, (update_member_new _ _ _ l), Hj by done. done.
    + intros msg _. unfold update_single_field.
      destruct (f_type f); try discriminate Es; rewrite Es; unfold update_field; rewrite Hc; cbn;
        rewrite Ha; done.
  - destruct v as [d|x|z|b|s|n|m]; cbn in Hv; unfold range_ok in Hv;
      destruct (f_type f) eqn:Et; try discriminate Es; try discriminate Hv.
    + destruct (encode_decode_string u s) as (code & E1 & E2). exists (JString code). split; [|split].
      3: { split; cbn; [done|lia]. }
      * intros value l Hm Hl. unfold convert_single_field.
        assert (Hg : GetString f (PbString s) = Ok s)
          by (unfold GetString, USAGE_CHECK_TYPE; rewrite Et; reflexivity).
        rewrite Et, Hg. cbn -[encode_string update_member]. rewrite E1.
        cbn -[update_member]. by rewrite (update_member_new _ _ _ l).
      * intros msg _. unfold update_single_field. rewrite Et. cbn -[decode_string]. by rewrite E2.
    + destruct (value_enum f type n Hf Et Hv) as (s & E1 & E2). exists (JString s). split; [|split].
      3: { split; cbn; [done|lia]. }
      * intros value l Hm Hl. unfold convert_single_field. rewrite Et.
        rewrite (update_member_new _ _ _ l), E1 by done. done.
      * intros msg _. unfold update_single_field. rewrite Et. by rewrite E2.
    + destruct (Hsub m eq_refl Hv) as (ms & E1 & E2 & Ht). exists (JObject ms). split; [|split; [|exact Ht]].
      * intros value l Hm Hl. unfold convert_single_field. rewrite Et.
        rewrite (update_member_new _ _ _ l), E1 by done. done.
      * intros msg Hn. unfold update_single_field, MutableMessage. rewrite Et, Hn, E2. done.
Qed.

(** The elements of a repeated field, one after the other. *)
Lemma elements_roundtrip f (conv : PbValue → Json → outcome Json)
    (upd : ProtoMessage → Json → outcome ProtoMessage) vs :
  Forall (λ v, ∃ j, conv v JNull = Ok j ∧ (∀ msg, upd msg j = Ok (AddValue f id v msg)) ∧
                    text_ok (2 * value_depth v + 1) j) vs →
  ∃ js, convert_elements conv vs JNull = Ok (JArray js) ∧
    (∀ msg, mfold upd msg js = Ok (foldl (λ m v, AddValue f id v m) msg vs)) ∧
    text_ok (2 * values_depth vs + 2) (JArray js).
Proof.
  unfold convert_elements. cbn -[assign_elements].
  induction 1 as [|v vs (j & Hc & Hu & [Hw Hd]) _ (js & Hcs & Hus & [Hws Hds])].
  { exists []. split; [done|]. split; [done|]. split; cbn; [done|lia]. }
  exists (j :: js). cbn -[text_ok]. rewrite Hc. cbn -[text_ok].
  destruct (assign_elements conv vs _) as [js'| |]; try discriminate Hcs.
  injection Hcs as ->. split; [done|].
  split; [intros msg; rewrite Hu; cbn; apply Hus|].
  cbn in Hws, Hds. split; cbn; [by rewrite Hw, Hws|]. unfold values_depth, max_list in *. cbn. lia.
Qed.

Lemma add_values f vs l ws :
  foldl (λ m v, AddValue f id v m) (mkProto (aset (f_number f) ws l)) vs =
  mkProto (aset (f_number f) (ws ++ vs) l).
Proof.
  revert ws. induction vs as [|v vs IH]; intros ws; cbn [foldl]; [by rewrite app_nil_r|].
  unfold AddValue at 2. cbn [fields]. rewrite alookup_aset, keqb_refl, aset_aset. cbn.
  by rewrite IH, <-app_assoc.
Qed.

(** A repeated field: its values become one array, which replaces the field. *)
Lemma repeated_field f type v vs :
  f ∈ pool type → repeatable (f_type f) = true →
  forallb (value_ok (msg_ok pool) f) (v :: vs) = true →
  Forall (λ v, ∀ m, v = PbMessage m → msg_ok pool (f_message f) m = true →
                    roundtrips (f_message f) m) (v :: vs) →
  ∃ js,
    (∀ value l, members value l → alookup (f_name f) l = None →
       convert_repeated_field (convert_to_json pool) f (v :: vs) value =
       Ok (JObject (aset (f_name f) (JArray js) l))) ∧
    (∀ msg, alookup (f_number f) (fields msg) = None →
       update_repeated_field (update_from_json pool u) f js (ClearField f msg) =
       Ok (mkProto (aset (f_number f) (v :: vs) (fields msg)))) ∧
    text_ok (2 * values_depth (v :: vs) + 2) (JArray js).
Proof.
  intros Hf Hr Hv Hsub. rewrite forallb_forall in Hv.
  assert (Hadd : ∀ msg, alookup (f_number f) (fields msg) = None →
    foldl (λ m v, AddValue f id v m) (ClearField f msg) (v :: vs) =
    mkProto (aset (f_number f) (v :: vs) (fields msg))).
  { intros msg Hn. unfold ClearField. rewrite adelete_None by done. cbn [foldl].
    unfold AddValue at 2. cbn [fields]. rewrite Hn. cbn. apply add_values. }
  assert (Hok : Forall (λ v, value_ok (msg_ok pool) f v = true) (v :: vs)).
  { apply Forall_forall. intros x Hx. by apply Hv, list_elem_of_In. }
  destruct (scalar_update (f_type f)) as [[accessor checker]|] eqn:Es.
  - destruct (scalar_field f accessor checker Es) as (get & _ & Hs & Hg).
    destruct (elements_roundtrip f (fun v _ => get v)
      (fun msg value => update_field f (AddValue f id) value accessor checker msg) (v :: vs))
      as (js & Hc & Hu & Ht).
    { eapply Forall_impl; [exact Hok|]. intros x Hx.
      destruct (Hg x Hx) as (j & Hj & Hck & Ha & [Hw Hd]).
      exists j. split; [done|]. split; [|split; [done|lia]].
      intros msg. unfold update_field. rewrite Hck. cbn. by rewrite Ha. }
    exists js. split; [|split; [|exact Ht]].
    + intros value l Hm Hl. rewrite (Hs Hr), (update_member_new _ _ _ l), Hc by done. done.
    + intros msg Hn. unfold update_repeated_field.
      destruct (f_type f); try discriminate Es; rewrite Es, Hu; by rewrite Hadd.
  - destruct (f_type f) eqn:Et; try discriminate Es; try discriminate Hr.
    + (* no value of a group is well formed *)
      inversion Hok as [|? ? Hx _]; subst. destruct v; cbn in Hx; unfold range_ok in Hx;
        rewrite ?Et in Hx; discriminate Hx.
    + destruct (elements_roundtrip f (convert_sub f)
        (fun msg value => sub ← update_from_json pool u (f_message f) value default_message;
                          Ok (AddValue f PbMessage sub msg)) (v :: vs)) as (js & Hc & Hu & Ht).
      { eapply Forall_impl; [exact (proj2 (Forall_and _ _) (conj Hok Hsub))|].
        intros x [Hx Hm]. destruct x; cbn in Hx; unfold range_ok in Hx; rewrite ?Et in Hx;
          try discriminate Hx. cbn in Hx.
        destruct (Hm m eq_refl Hx) as (ms & E1 & E2 & Ht).
        exists (JObject ms). split; [done|]. split; [|exact Ht]. intros msg. by rewrite E2. }
      exists js. split; [|split; [|exact Ht]].
      * intros value l Hm Hl. unfold convert_repeated_field. rewrite Et.
        fold (convert_sub f). rewrite (update_member_new _ _ _ l), Hc by done. done.
      * intros msg Hn. unfold update_repeated_field. rewrite Et, Hu. by rewrite Hadd.
    + destruct (elements_roundtrip f (fun v _ => JString <$> GetEnum_name f v)
        (fun msg value => update_enum_field f (AddValue f PbEnum) value msg) (v :: vs))
        as (js & Hc & Hu & Ht).
      { eapply Forall_impl; [exact Hok|]. intros x Hx.
        destruct x; cbn in Hx; unfold range_ok in Hx; rewrite ?Et in Hx; try discriminate Hx.
        destruct (value_enum f type n Hf Et Hx) as (s & E1 & E2). exists (JString s).
        rewrite E1. split; [done|]. split; [|split; cbn; [done|lia]]. intros msg. by rewrite E2. }
      exists js. split; [|split; [|exact Ht]].
      * intros value l Hm Hl. unfold convert_repeated_field. rewrite Et.
        rewrite (update_member_new _ _ _ l), Hc by done. done.
      * intros msg Hn. unfold update_repeated_field. rewrite Et, Hu. by rewrite Hadd.
Qed.

(** ** Entries of a message

    A field with its values and with the JSON value that carries them: converting
    it adds the member, updating from the member sets the field. *)
Record entry := mkEntry { en_field : FieldDescriptor; en_json : Json; en_values : list PbValue }.

Definition entry_ok (type : string) (e : entry) : Prop :=
  en_field e ∈ pool type ∧
  (∀ value l, members value l → alookup (f_name (en_field e)) l = None →
     convert_field pool (convert_to_json pool) type (f_number (en_field e)) (en_values e) value =
     Ok (JObject (aset (f_name (en_field e)) (en_json e) l))) ∧
  (∀ msg, alookup (f_number (en_field e)) (fields msg) = None →
     update_member_field pool u (update_from_json pool u) type (f_name (en_field e)) (en_json e) msg =
     Ok (mkProto (aset (f_number (en_field e)) (en_values e) (fields msg)))) ∧
  text_ok (2 * values_depth (en_values e) + 2) (en_json e).

Lemma field_entry type n vs :
  field_ok pool (msg_ok pool) type n vs = true →
  Forall (λ v, ∀ m, v = PbMessage m → ∀ ty, msg_ok pool ty m = true → roundtrips ty m) vs →
  ∃ e, entry_ok type e ∧ f_number (en_field e) = n ∧ en_values e = vs.
Proof.
  unfold field_ok. destruct (FindFieldByNumber n (pool type)) as [f|] eqn:E; [|done].
  destruct (find_number_elem _ _ _ E) as [Hf <-]. intros Hok Hsub.
  assert (Hname := find_name pool Hpool f type Hf).
  unfold entry_ok, convert_field, update_member_field.
  destruct (f_label f) eqn:El, vs as [|v [|w vs]]; try discriminate Hok.
  1,2: inversion Hsub as [|? ? Hs _]; subst;
    destruct (single_field f type v Hf Hok) as (j & H1 & H2 & Hw & Hd);
      [intros m ->; by apply Hs|];
    exists (mkEntry f j [v]); cbn -[update_member_field]; rewrite E, Hname, El;
    (split; [|done]); split; [exact Hf|split; [exact H1|split; [exact H2|split; [exact Hw|]]]];
    unfold values_depth, max_list; cbn in *; lia.
  all: apply andb_true_iff in Hok as [Hr Hv].
  all: match type of Hsub with
       | Forall _ ?l =>
           destruct (repeated_field f type _ _ Hf Hr Hv) as (js & H1 & H2 & Ht);
           [eapply Forall_impl; [exact Hsub|]; intros x Hx m ->; by apply Hx|];
           exists (mkEntry f (JArray js) l); cbn [en_field en_json en_values];
           rewrite E, Hname, El; exact (conj (conj Hf (conj H1 (conj H2 Ht))) (conj eq_refl eq_refl))
       end.
Qed.

(** ** The whole message *)

Implicit Types (es : list entry).

Definition en_member (e : entry) : string * Json := (f_name (en_field e), en_json e).
Definition en_fields (e : entry) : Z * list PbValue := (f_number (en_field e), en_values e).

(** Converting adds one member per entry. *)
Lemma convert_entries type es value l :
  Forall (entry_ok type) es → members value l →
  NoDup ((en_member <$> es).*1 ++ l.*1) → asorted l →
  ∃ value' l',
    mfold (fun value '(n, vs) => convert_field pool (convert_to_json pool) type n vs value)
          value (en_fields <$> es) = Ok value' ∧
    members value' l' ∧ asorted l' ∧ l' ≡ₚ (en_member <$> es) ++ l.
Proof.
  intros Hes. revert value l. induction Hes as [|e es (Hf & Hc & Hu & Ht) Hes IH];
    intros value l Hm Hn Hs.
  { by exists value, l. }
  cbn in Hn. apply NoDup_cons in Hn as [Hx Hn]. rewrite elem_of_app in Hx.
  assert (Hl : alookup (f_name (en_field e)) l = None) by (apply alookup_None_fst; tauto).
  cbn. rewrite (Hc value l Hm Hl). cbn.
  pose proof (aset_perm (f_name (en_field e)) (en_json e) l Hl) as Hp.
  destruct (IH (JObject (aset (f_name (en_field e)) (en_json e) l))
               (aset (f_name (en_field e)) (en_json e) l)) as (value' & l' & E & Hm' & Hs' & Hl').
  { by left. }
  { rewrite (fmap_Permutation fst _ _ Hp). cbn. rewrite Permutation_app_comm. cbn.
    apply NoDup_cons. rewrite elem_of_app. split; [tauto|].
    by rewrite Permutation_app_comm. }
  { by apply aset_asorted. }
  exists value', l'. split; [done|]. split; [done|]. split; [done|].
  rewrite Hl', Hp. cbn. symmetry. apply Permutation_middle.
Qed.

(** Updating sets one field per member, in any order of the members. *)
Lemma update_entries type es msg :
  Forall (entry_ok type) es → asorted (fields msg) →
  NoDup ((en_fields <$> es).*1 ++ (fields msg).*1) →
  ∃ msg', mfold (fun msg '(name, current) =>
                   update_member_field pool u (update_from_json pool u) type name current msg)
                msg (en_member <$> es) = Ok msg' ∧
          asorted (fields msg') ∧ fields msg' ≡ₚ (en_fields <$> es) ++ fields msg.
Proof.
  intros Hes. revert msg. induction Hes as [|e es (Hf & Hc & Hu & Ht) Hes IH]; intros msg Hs Hn.
  { by exists msg. }
  cbn in Hn. apply NoDup_cons in Hn as [Hx Hn]. rewrite elem_of_app in Hx.
  assert (Hl : alookup (f_number (en_field e)) (fields msg) = None)
    by (apply alookup_None_fst; tauto).
  cbn -[update_member_field]. rewrite (Hu msg Hl). cbn -[update_member_field].
  pose proof (aset_perm (f_number (en_field e)) (en_values e) (fields msg) Hl) as Hp.
  destruct (IH (mkProto (aset (f_number (en_field e)) (en_values e) (fields msg))))
    as (msg' & E & Hs' & Hl').
  { by apply aset_asorted. }
  { cbn. rewrite (fmap_Permutation fst _ _ Hp). cbn. rewrite Permutation_app_comm. cbn.
    apply NoDup_cons. rewrite elem_of_app. split; [tauto|].
    by rewrite Permutation_app_comm. }
  exists msg'. split; [done|]. split; [done|].
  rewrite Hl'. cbn. rewrite Hp. symmetry. apply Permutation_middle.
Qed.

Lemma message_entries type l :
  Forall (λ p, field_ok pool (msg_ok pool) type p.1 p.2 = true) l →
  Forall (λ p, Forall (λ v, ∀ m, v = PbMessage m →
                            ∀ ty, msg_ok pool ty m = true → roundtrips ty m) p.2) l →
  ∃ es, Forall (entry_ok type) es ∧ en_fields <$> es = l.
Proof.
  intros Hok. induction Hok as [|[n vs] l Hf _ IH]; intros Hs; [by exists []|].
  inversion Hs as [|? ? Hv Hs']; subst. destruct (IH Hs') as (es & Hes & El).
  destruct (field_entry type n vs Hf Hv) as (e & He & <- & <-).
  exists (e :: es). split; [by constructor|]. cbn. by rewrite El.
Qed.

(** Names are distinct when numbers are, in the fields of a type. *)
Lemma entries_names type es :
  Forall (entry_ok type) es → NoDup (en_fields <$> es).*1 → NoDup (en_member <$> es).*1.
Proof.
  rewrite <-!list_fmap_compose. intros Hes.
  induction Hes as [|e es He Hes IH]; cbn; [intros _; constructor|]. intros [Hx Hn]%NoDup_cons.
  apply NoDup_cons. split; [|by apply IH]. intros (e' & En & He')%list_elem_of_fmap.
  apply Hx. rewrite Forall_forall in Hes. destruct (Hes e' He') as (Hf' & _). destruct He as (Hf & _).
  pose proof (find_name pool Hpool _ type Hf) as E1.
  pose proof (find_name pool Hpool _ type Hf') as E2. cbn in En. rewrite En, E2 in E1.
  apply list_elem_of_fmap. exists e'. split; [|done]. cbn. congruence.
Qed.

(** The object of the members survives the text. *)
Lemma entries_text_ok type es l :
  Forall (entry_ok type) es → asorted (en_member <$> es) → l ≡ₚ en_fields <$> es →
  text_ok (2 * msg_depth (mkProto l) + 1) (JObject (en_member <$> es)).
Proof.
  intros Hes Hs Hl. split.
  - cbn. apply andb_true_iff. split; [by apply keys_ordered_asorted|].
    apply forallb_forall. intros [k j] Hx%list_elem_of_In.
    apply list_elem_of_fmap in Hx as (e & [= -> ->] & He). rewrite Forall_forall in Hes.
    by destruct (Hes e He) as (_ & _ & _ & Hw & _).
  - set (d := msg_depth (mkProto l)).
    assert (Hd : Forall (λ p, (S (values_depth p.2) ≤ d)%nat) l).
    { apply Forall_forall. intros [n vs] Hp. unfold d. cbn. apply le_n_S.
      eapply (proj1 (Forall_forall _ _) (proj1 (max_list_le _ _) (le_n _))).
      apply list_elem_of_fmap. by exists (n, vs). }
    clearbody d. cbn. replace (d + (d + 0) + 1)%nat with (S (2 * d)) by lia. apply le_n_S, max_list_le.
    apply Forall_forall. intros n Hn. apply list_elem_of_fmap in Hn as ([k j] & -> & Hx).
    apply list_elem_of_fmap in Hx as (e & [= -> ->] & He).
    rewrite Forall_forall in Hes. destruct (Hes e He) as (_ & _ & _ & _ & Hdep).
    rewrite Forall_forall in Hd. specialize (Hd (en_fields e)). cbn in Hd.
    assert (He' : en_fields e ∈ l) by (rewrite Hl; by apply list_elem_of_fmap_2).
    specialize (Hd He'). unfold values_depth, max_list in Hdep. lia.
Qed.

Lemma msg_roundtrips m : ∀ type, msg_ok pool type m = true → roundtrips type m.
Proof.
  induction m as [l IH] using ProtoMessage_induction. intros type Hok. cbn -[field_ok] in Hok.
  apply andb_true_iff in Hok as [Hok Hf]. apply andb_true_iff in Hok as [Hne Ho].
  apply negb_true_iff, bool_decide_eq_false in Hne. apply keys_ordered_asorted in Ho.
  destruct (message_entries type l) as (es & Hes & El).
  { apply Forall_forall. intros [n vs] Hx. rewrite forallb_forall in Hf.
    apply (Hf (n, vs)). by apply list_elem_of_In. }
  { eapply Forall_impl; [exact IH|]. intros p Hp. eapply Forall_impl; [exact Hp|]. auto. }
  assert (Hnum : NoDup (en_fields <$> es).*1) by (rewrite El; by apply asorted_NoDup).
  destruct (convert_entries type es JNull []) as (value & ms & Ec & Hv & Hsm & Hms).
  { done. } { by right. } { cbn. rewrite app_nil_r. by apply (entries_names type). } { constructor. }
  rewrite app_nil_r in Hms. rewrite El in Ec.
  destruct Hv as [->|[_ ->]].
  2: { apply Permutation_nil_l in Hms. destruct es; [by subst l|done]. }
  apply Permutation_map_inv in Hms as (es' & -> & Hp).
  destruct (update_entries type es' default_message) as (msg' & Eu & Hs' & Hl').
  { by rewrite <-Hp. } { constructor. }
  { cbn. rewrite app_nil_r. by rewrite <-Hp. }
  exists (en_member <$> es'). split; [exact Ec|]. split.
  2: { apply entries_text_ok with type; [by rewrite <-Hp|done|]. rewrite <-El, Hp. done. }
  - cbn -[update_member_field]. rewrite Eu. f_equal. destruct msg' as [l']. cbn in *. f_equal.
    apply asorted_perm; [done..|]. rewrite Hl', app_nil_r, <-Hp. by rewrite El.
Qed.

End field.

(** C7: Every well-formed message survives the conversion: it converts without an
    exception to a JSON object that the text of a document can carry, and
    [update_from_json] rebuilds from that object exactly the message, in spite of
    the order by name in which the object lists the fields. *)
Theorem json_protobuf_roundtrip pool u `{JsonText} type m :
  pool_ok pool → msg_ok pool type m = true →
  ∃ j, convert_to_json pool type m JNull = Ok j ∧
       update_from_json pool u type j default_message = Ok m ∧
       json_wf j = true ∧ (json_depth j ≤ 2 * msg_depth m + 1)%nat.
Proof.
  intros Hp Hm. destruct (msg_roundtrips pool Hp u m type Hm) as (ms & E1 & E2 & E3 & E4).
  exists (JObject ms). auto.
Qed.

(** ** What does not survive *)

Section failures.
Context (pool : Pool) (u : nat → Z) `{JsonText}.

(** A message without fields converts to null, which no update accepts: neither
    the message itself nor one that has it as a sub-message arrives. *)
Lemma empty_message_rejected type msg :
  convert_to_json pool type default_message JNull = Ok JNull ∧
  update_from_json pool u type JNull msg = Err "expecting JSON object type".
Proof. done. Qed.

Lemma empty_submessage_rejected type f (msg : ProtoMessage) :
  FindFieldByNumber (f_number f) (pool type) = Some f →
  FindFieldByName (c_str (f_name f)) (pool type) = Some f →
  f_type f = TYPE_MESSAGE → f_label f = LABEL_OPTIONAL →
  ∃ j, convert_to_json pool type (mkProto [(f_number f, [PbMessage default_message])]) JNull = Ok j ∧
       update_from_json pool u type j msg = Err "expecting JSON object type".
Proof.
  intros Hn Hname Ht Hl. exists (JObject [(f_name f, JNull)]). split.
  - cbn. unfold convert_field, convert_single_field. rewrite Hn, Hl, Ht. done.
  - cbn. unfold update_member_field, update_single_field. rewrite Hname, Hl, Ht. done.
Qed.

(** A repeated field of type double is read with the accessor of another type,
    which ends the process. *)
Lemma repeated_double_aborts type f d ds value :
  FindFieldByNumber (f_number f) (pool type) = Some f →
  f_type f = TYPE_DOUBLE → f_label f = LABEL_REPEATED →
  (∃ l, members value l) → (∀ l, members value l → alookup (f_name f) l = None) →
  convert_field pool (convert_to_json pool) type (f_number f) (PbDouble d :: ds) value = Fatal.
Proof.
  intros Hn Ht Hl [l Hm] Hk. unfold convert_field, convert_repeated_field. rewrite Hn, Hl, Ht.
  rewrite (update_member_new _ _ _ l) by auto. unfold convert_elements. cbn.
  unfold GetUInt64, GetInteger, USAGE_CHECK_TYPE. by rewrite Ht.
Qed.

(** A member that is no field of the type is refused, whatever its value. *)
Lemma unknown_member_rejected type name j l msg :
  FindFieldByName (c_str name) (pool type) = None →
  update_from_json pool u type (JObject ((name, j) :: l)) msg =
  Err ("JSON field '" ++ c_str name ++ "' not found in message").
Proof. intros Hn. cbn. unfold update_member_field. by rewrite Hn. Qed.

End failures.

(** ** What an update leaves

    Whatever the JSON value, the message that an update leaves is one of its type:
    declared fields in the order of their numbers, one value of a singular field,
    values of the field's type, integers in its range, declared values of enums. *)

Definition value_typed (msg_typed : string → ProtoMessage → bool) (f : FieldDescriptor)
    (v : PbValue) : bool :=
  match v with
  | PbDouble _ => bool_decide (f_type f = TYPE_DOUBLE)
  | PbFloat _ => bool_decide (f_type f = TYPE_FLOAT)
  | PbInt z => range_ok (f_type f) z
  | PbBool _ => bool_decide (f_type f = TYPE_BOOL)
  | PbString _ => bool_decide (f_type f = TYPE_STRING) || bool_decide (f_type f = TYPE_BYTES)
  | PbEnum n => bool_decide (f_type f = TYPE_ENUM) && has (FindValueByNumber n f)
  | PbMessage m => bool_decide (f_type f = TYPE_MESSAGE) && msg_typed (f_message f) m
  end.

Definition field_typed (pool : Pool) (msg_typed : string → ProtoMessage → bool) (type : string)
    (n : Z) (vs : list PbValue) : bool :=
  match FindFieldByNumber n (pool type) with
  | None => false
  | Some f =>
      match f_label f, vs with
      | LABEL_REPEATED, _ => forallb (value_typed msg_typed f) vs
      | _, [v] => value_typed msg_typed f v
      | _, _ => false
      end
  end.

Fixpoint msg_typed (pool : Pool) (type : string) (m : ProtoMessage) {struct m} : bool :=
  match m with
  | mkProto l =>
      keys_ordered (fst <$> l) &&
      forallb (fun '(n, vs) => field_typed pool (msg_typed pool) type n vs) l
  end.

Section typed.
Context (pool : Pool) (Hpool : pool_ok pool) (u : nat → Z) `{JsonText}.
#[local] Abbreviation typed := (msg_typed pool).

Lemma typed_spec type m :
  typed type m = true ↔
  asorted (fields m) ∧ Forall (λ p, field_typed pool typed type p.1 p.2 = true) (fields m).
Proof.
  destruct m as [l]. cbn -[field_typed]. rewrite andb_true_iff, keys_ordered_asorted.
  apply and_iff_compat_l. rewrite forallb_forall, Forall_forall. split.
  - intros Hf [n vs] Hx. by apply (Hf (n, vs)), list_elem_of_In.
  - intros Hf [n vs] Hx. by apply (Hf (n, vs)), list_elem_of_In.
Qed.

Lemma aset_typed type m n vs :
  typed type m = true → field_typed pool typed type n vs = true →
  typed type (mkProto (aset n vs (fields m))) = true.
Proof.
  rewrite !typed_spec. cbn [fields]. intros [Hs Hf] Hv.
  split; [by apply aset_asorted|by apply aset_Forall].
Qed.

Lemma clear_typed type m f : typed type m = true → typed type (ClearField f m) = true.
Proof.
  rewrite !typed_spec. cbn [fields ClearField]. intros [Hs Hf].
  split; [by apply adelete_asorted|by apply adelete_Forall].
Qed.

(** A field that a message has is typed. *)
Lemma lookup_typed type m n vs :
  typed type m = true → alookup n (fields m) = Some vs → field_typed pool typed type n vs = true.
Proof.
  rewrite typed_spec, Forall_forall. intros [_ Hf] Hl. apply alookup_Some_elem in Hl.
  exact (Hf _ Hl).
Qed.

Lemma mutable_typed type f m :
  f ∈ pool type → f_type f = TYPE_MESSAGE → typed type m = true →
  typed (f_message f) (MutableMessage f m) = true.
Proof.
  intros Hf Ht Hm. unfold MutableMessage.
  destruct (alookup (f_number f) (fields m)) as [vs|] eqn:E; [|done].
  pose proof (lookup_typed _ _ _ _ Hm E) as Hv. unfold field_typed in Hv.
  rewrite (find_number pool Hpool f type Hf) in Hv.
  destruct vs as [|v vs]; [done|]. destruct v as [| | | | | |sub]; try done.
  assert (Hs : value_typed typed f (PbMessage sub) = true).
  { destruct (f_label f), vs; try done; by apply andb_true_iff in Hv as [Hv _]. }
  cbn in Hs. by apply andb_true_iff in Hs as [_ Hs].
Qed.

(** Setting a singular field, adding to a repeated one. *)
Lemma set_typed {A : Type} type f m (c : A → PbValue) (a : A) :
  f ∈ pool type → f_label f ≠ LABEL_REPEATED → typed type m = true →
  value_typed typed f (c a) = true → typed type (SetValue f c a m) = true.
Proof.
  intros Hf Hl Hm Hv. apply aset_typed; [done|]. unfold field_typed.
  rewrite (find_number pool Hpool f type Hf). by destruct (f_label f).
Qed.

Lemma add_typed {A : Type} type f m (c : A → PbValue) (a : A) :
  f ∈ pool type → f_label f = LABEL_REPEATED → typed type m = true →
  value_typed typed f (c a) = true → typed type (AddValue f c a m) = true.
Proof.
  intros Hf Hl Hm Hv. apply aset_typed; [done|]. unfold field_typed.
  rewrite (find_number pool Hpool f type Hf), Hl, forallb_app. cbn. rewrite Hv.
  destruct (alookup (f_number f) (fields m)) as [vs|] eqn:E; cbn; [|done].
  pose proof (lookup_typed _ _ _ _ Hm E) as Hvs. unfold field_typed in Hvs.
  rewrite (find_number pool Hpool f type Hf), Hl in Hvs. by rewrite Hvs.
Qed.

Lemma accessor_typed f accessor checker j v :
  scalar_update (f_type f) = Some (accessor, checker) → accessor j = Ok v →
  value_typed typed f v = true.
Proof.
  unfold value_typed, range_ok.
  destruct (f_type f); cbn; intros [= <- <-] Ha; apply fmap_Ok in Ha as (z & Hz & ->); try done;
    apply andb_true_iff; rewrite !Z.leb_le;
    eapply as_integer_Ok in Hz; unfold INT_MIN, INT_MAX, UINT_MAX, LLONG_MIN, LLONG_MAX, u64_max in *; lia.
Qed.

Lemma update_field_typed type f updater accessor checker j m m' :
  scalar_update (f_type f) = Some (accessor, checker) →
  (∀ v, value_typed typed f v = true → typed type (updater v m) = true) →
  update_field f updater j accessor checker m = Ok m' → typed type m' = true.
Proof.
  intros Hs Hu. unfold update_field. destruct (checker j); [|done]. cbn.
  intros He. apply bind_Ok in He as (v & Hv & [= <-]). apply Hu. by eapply accessor_typed.
Qed.

Lemma update_enum_typed type f updater j m m' :
  f_type f = TYPE_ENUM →
  (∀ n, value_typed typed f (PbEnum n) = true → typed type (updater n m) = true) →
  update_enum_field f updater j m = Ok m' → typed type m' = true.
Proof.
  intros Ht Hu. unfold update_enum_field. destruct (isString j); [|done]. cbn.
  intros He. apply bind_Ok in He as (s & Hs & He).
  destruct (FindValueByName s f) as [e|] eqn:E; [|done]. injection He as <-. apply Hu. cbn.
  rewrite Ht. cbn. apply find_some in E as [E _]. unfold FindValueByNumber.
  destruct (List.find (λ e0, e0.2 =? e.2) (f_enum f)) as [e'|] eqn:E'; [done|].
  eapply find_none in E'; [|exact E]. cbn in E'. by rewrite Z.eqb_refl in E'.
Qed.

Definition updates_typed (j : Json) : Prop :=
  ∀ type m m', typed type m = true → update_from_json pool u type j m = Ok m' →
               typed type m' = true.

Lemma update_single_typed type f j m m' :
  f ∈ pool type → f_label f ≠ LABEL_REPEATED → updates_typed j → typed type m = true →
  update_single_field u (update_from_json pool u) f j m = Ok m' → typed type m' = true.
Proof.
  intros Hf Hl Hj Hm. unfold update_single_field.
  destruct (scalar_update (f_type f)) as [[accessor checker]|] eqn:Es.
  - intros He.
    assert (Hu : update_field f (SetValue f id) j accessor checker m = Ok m').
    { destruct (f_type f); try discriminate Es; rewrite Es in He; exact He. }
    eapply update_field_typed; [exact Es| |exact Hu]. intros v Hv. by apply set_typed.
  - destruct (f_type f) eqn:Et; try discriminate Es.
    + discriminate.
    + intros He. apply bind_Ok in He as (sub & Hsub & [= <-]). apply set_typed; [done..|].
      cbn. rewrite Et. cbn. eapply Hj; [|exact Hsub]. by eapply mutable_typed.
    + intros He. assert (Hs : ∃ s, m' = SetValue f PbString s m).
      { unfold update_field in He. destruct (isString j); [|done].
        apply bind_Ok in He as (code & _ & He). apply bind_Ok in He as (s & _ & [= <-]). by exists s. }
      destruct Hs as [s ->]. apply set_typed; [done..|]. cbn. by rewrite Et.
    + intros He. eapply update_enum_typed; [exact Et| |exact He].
      intros n Hn. by apply set_typed.
Qed.

Lemma update_repeated_typed type f js m m' :
  f ∈ pool type → f_label f = LABEL_REPEATED → Forall updates_typed js → typed type m = true →
  update_repeated_field (update_from_json pool u) f js m = Ok m' → typed type m' = true.
Proof.
  intros Hf Hl Hjs Hm. unfold update_repeated_field.
  destruct (scalar_update (f_type f)) as [[accessor checker]|] eqn:Es.
  - intros He.
    assert (Hu : mfold (fun m j => update_field f (AddValue f id) j accessor checker m) m js = Ok m').
    { destruct (f_type f); try discriminate Es; rewrite Es in He; exact He. }
    revert Hu. apply mfold_invariant with (P := λ m, typed type m = true); [|done].
    intros acc j acc' _ Hacc Hu. eapply update_field_typed; [exact Es| |exact Hu].
    intros v Hv. by apply add_typed.
  - destruct (f_type f) eqn:Et; try discriminate Es; try discriminate.
    + apply mfold_invariant with (P := λ m, typed type m = true); [|done].
      intros acc j acc' Hj Hacc He. apply bind_Ok in He as (sub & Hsub & [= <-]).
      apply add_typed; [done..|]. cbn. rewrite Et. cbn.
      rewrite Forall_forall in Hjs. eapply (Hjs j Hj); [|exact Hsub]. done.
    + apply mfold_invariant with (P := λ m, typed type m = true); [|done].
      intros acc j acc' _ Hacc He. eapply update_enum_typed; [exact Et| |exact He].
      intros n Hn. by apply add_typed.
Qed.

Lemma find_name_elem name d f : FindFieldByName name d = Some f → f ∈ d.
Proof. intros Hf. apply find_some in Hf as [Hf _]. by apply list_elem_of_In. Qed.

Lemma update_member_typed type name j m m' :
  updates_typed j → (∀ js, j = JArray js → Forall updates_typed js) → typed type m = true →
  update_member_field pool u (update_from_json pool u) type name j m = Ok m' → typed type m' = true.
Proof.
  intros Hj Hjs Hm. unfold update_member_field.
  destruct (FindFieldByName (c_str name) (pool type)) as [f|] eqn:E; [|done].
  apply find_name_elem in E. destruct (f_label f) eqn:El.
  1,2: intros He; eapply update_single_typed; [exact E| |exact Hj|exact Hm|exact He]; by rewrite El.
  destruct j as [| | | | |js|]; try done.
  intros He. eapply update_repeated_typed; [exact E|exact El|by apply Hjs| |exact He].
  by apply clear_typed.
Qed.

Lemma json_updates_typed j : updates_typed j ∧ (∀ js, j = JArray js → Forall updates_typed js).
Proof.
  induction j as [| | | | |l IH|l IH] using Json_induction; (split; [|try done]);
    try (intros type m m' _; discriminate).
  - intros js [= <-]. eapply Forall_impl; [exact IH|]. by intros j [Hj _].
  - intros type m m' Hm. cbn -[update_member_field].
    apply mfold_invariant with (P := λ m, typed type m = true); [|done].
    intros acc [name j] acc' Hx Hacc He. rewrite Forall_forall in IH.
    destruct (IH _ Hx) as [Hj Hjs]. by eapply update_member_typed.
Qed.

End typed.

(** C19: Whatever JSON value arrives, an update that succeeds turns a message of its
    type into a message of its type, at every level of nesting. *)
Theorem update_keeps_type pool u `{JsonText} type j m m' :
  pool_ok pool → msg_typed pool type m = true →
  update_from_json pool u type j m = Ok m' → msg_typed pool type m' = true.
Proof. intros Hp. apply json_updates_typed. exact Hp. Qed.
