(* ===== verification/Broker.v ===== *)
(** * Broker: message_broker_redis.cpp

    The message broker client: the connection state of [RedisMessageBroker],
    the [notify] channel and the messages it writes.  The [redis3m] library and
    the Redis server are the parameter [Redis]: what the n-th connection attempt
    yields, and whether the asynchronous connection is usable.  Messages are a
    parameter too: the broker only addresses and queues them.

    An exception that C++ throws is an [Err] of [outcome]; [setUrl] returns the
    broker it leaves behind in both cases. *)

From stdpp Require Import pretty.
From S2P Require Import Prelude StoutStrings Url Values.
#[local] Open Scope string_scope.
#[local] Open Scope list_scope.
#[local] Open Scope Z_scope.

(** redis3m and the server behind it.  [redis_connect n] is the answer to the
    n-th attempt: [None] when it throws, otherwise the reply to
    [INCR urb.endpoint.id].  [redis_valid n k]: [conn_->is_valid()] after [n]
    attempts and [k] queued commands. *)
Class Redis := {
  redis_connect : nat → option Z;
  redis_valid : nat → nat → bool }.

Definition MASTER_BROKER_MESOS_ENDPOINT : string := "urb.endpoint.0.mesos".
Definition SERVICE_MONITOR_ENDPOINT : string := "urb.service.monitor".

(** ** [std::stoi] *)

Fixpoint digits_prefix (s : string) : string :=
  match s with
  | String c s' => if is_digit c then String c (digits_prefix s') else ""
  | _ => ""
  end.

Definition stoi (s : string) : outcome Z :=
  let s := substr_from s (default (String.length s) (find_first_not_of s WHITESPACE 0)) in
  let '(sign, ds) :=
    match s with
    | String "-" s' => (-1, digits_prefix s')
    | String "+" s' => (1, digits_prefix s')
    | _ => (1, digits_prefix s)
    end in
  if str_empty ds then Err "stoi"
  else
    let v := sign * Z.of_N (dec_value 0 ds) in
    if (v <? -2147483648) || (2147483647 <? v) then Err "stoi" else Ok v.

Section broker.
Context {Msg : Type}.

(** One [LPUSH]: the list it goes to, the [source_id], the message. *)
Record Written := mkWritten {
  w_name : string;
  w_source : string;
  w_message : Msg }.

Record Broker := mkBroker {
  isRunning_ : bool;
  ha_ : bool;
  redisServer_ : string;
  redisPort_ : Z;
  redisPath_ : string;
  endpointIdStr_ : string;
  conn_ : bool;
  attempts : nat;
  commands_ : list string;
  written : list Written }.

(** The constructor, before any [setUrl]. *)
Definition new_broker : Broker :=
  mkBroker false false "" 0 "" "" false 0 [] [].

(** What a channel keeps: its name, whether an input callback is registered,
    the heartbeat message and the heartbeat timers started. *)
Record Channel := mkChannel {
  ch_name : string;
  ch_callback : bool;
  ch_heartbeat : option string;
  ch_heartbeats : nat }.

Section ops.
Context `{Redis}.

(** [init(false)]: reconnect with the current server. *)
Definition reconnect (b : Broker) : outcome unit * Broker :=
  let n := attempts b in
  let b := mkBroker (isRunning_ b) (ha_ b) (redisServer_ b) (redisPort_ b) (redisPath_ b)
                    (endpointIdStr_ b) (conn_ b) (S n) (commands_ b) (written b) in
  match redis_connect n with
  | None => (Err "connect", b)
  | Some _ =>
      (Ok tt, mkBroker (isRunning_ b) (ha_ b) (redisServer_ b) (redisPort_ b) (redisPath_ b)
                       (endpointIdStr_ b) true (attempts b) (commands_ b) (written b))
  end.

Definition connect (b : Broker) : outcome unit * Broker :=
  let n := attempts b in
  match redis_connect n with
  | None =>
      (Err "connect",
       mkBroker (isRunning_ b) (ha_ b) (redisServer_ b) (redisPort_ b) (redisPath_ b)
                (endpointIdStr_ b) (conn_ b) (S n) (commands_ b) (written b))
  | Some endpointId =>
      (Ok tt,
       mkBroker true (ha_ b) (redisServer_ b) (redisPort_ b) (redisPath_ b)
                ("urb.endpoint." +:+ pretty endpointId) true (S n) (commands_ b) (written b))
  end.

(** The server, port and path that a parsed URL selects. *)
Definition select_server (u : URL) (b : Broker) : outcome unit * Broker :=
  let with_server (server : string) (port : Z) (path : string) :=
    mkBroker (isRunning_ b) (ha u) server port path (endpointIdStr_ b) (conn_ b)
             (attempts b) (commands_ b) (written b) in
  if ha u then (Ok tt, with_server (servers u) 26379 (substr_from (path u) 1))
  else
    match find_last_of (servers u) ":" with
    | None => (Ok tt, with_server (servers u) 6379 (redisPath_ b))
    | Some index =>
        let server := substr (servers u) 0 index in
        match stoi (substr_from (servers u) (index + 1)) with
        | Ok port => (Ok tt, with_server server port (redisPath_ b))
        | _ => (Err "stoi", with_server server (redisPort_ b) (redisPath_ b))
        end
    end.

Definition setUrl (url : string) (b : Broker) : outcome unit * Broker :=
  if isRunning_ b then reconnect b
  else
    match parse_url url with
    | Ok u =>
        let '(r, b) := select_server u b in
        match r with Ok _ => connect b | _ => (r, b) end
    | _ => (Ok tt, b)
    end.

(** [RedisMessageBroker::sendMessage]: queue a command for the event loop when
    the connection is usable, drop it otherwise. *)
Definition queue_command (name : string) (b : Broker) : Broker :=
  if conn_ b && redis_valid (attempts b) (length (commands_ b))
  then mkBroker (isRunning_ b) (ha_ b) (redisServer_ b) (redisPort_ b) (redisPath_ b)
                (endpointIdStr_ b) (conn_ b) (attempts b) (commands_ b ++ [name]) (written b)
  else b.

(** [registerInputCallback] with a non-null callback: the first [BRPOP]. *)
Definition registerInputCallback (c : Channel) (b : Broker) : Channel * Broker :=
  (mkChannel (ch_name c) true (ch_heartbeat c) (ch_heartbeats c),
   queue_command (ch_name c) b).

End ops.

Definition createChannel (name : string) (b : Broker) : Channel :=
  mkChannel (endpointIdStr_ b +:+ "." +:+ name) false None 0.

(** [RedisChannel::write(message, name)]; an exception of the connection is
    caught and logged. *)
Definition write_to (name : string) (m : Msg) (b : Broker) : Broker :=
  mkBroker (isRunning_ b) (ha_ b) (redisServer_ b) (redisPort_ b) (redisPath_ b)
           (endpointIdStr_ b) (conn_ b) (attempts b) (commands_ b)
           (written b ++ [mkWritten name (endpointIdStr_ b) m]).

(** [RedisChannel::write(message)]. *)
Definition write (m : Msg) (b : Broker) : Broker :=
  if isRunning_ b then write_to MASTER_BROKER_MESOS_ENDPOINT m b else b.

(** [setHeartbeatPayload]: the [active_] flag that it tests is the outer
    timer's, which [Timer::delay] never sets, so a timer is always started. *)
Definition setHeartbeatPayload (payload : string) (c : Channel) : Channel :=
  mkChannel (ch_name c) (ch_callback c) (Some payload) (S (ch_heartbeats c)).

(** [sendHeartbeat], when one of the heartbeat timers fires: the message goes to the
    monitor whether the broker runs or not, and the timer is started again. *)
Definition sendHeartbeat (heartbeatMessage : string → Msg) (c : Channel) (b : Broker)
    : Channel * Broker :=
  (mkChannel (ch_name c) (ch_callback c) (ch_heartbeat c) (S (pred (ch_heartbeats c))),
   write_to SERVICE_MONITOR_ENDPOINT (heartbeatMessage (default "" (ch_heartbeat c))) b).

(** One period of the heartbeat: every timer that was running fires once. *)
Definition heartbeat_period (heartbeatMessage : string → Msg) (cb : Channel * Broker)
    : Channel * Broker :=
  Nat.iter (ch_heartbeats cb.1) (fun cb => sendHeartbeat heartbeatMessage cb.1 cb.2) cb.

Definition shutdown (b : Broker) : Broker :=
  mkBroker false (ha_ b) (redisServer_ b) (redisPort_ b) (redisPath_ b)
           (endpointIdStr_ b) (conn_ b) (attempts b) (commands_ b) (written b).

(** ** What the clients rely on *)

Lemma write_running (m : Msg) (b : Broker) :
  isRunning_ b = true →
  written (write m b) =
  written b ++ [mkWritten MASTER_BROKER_MESOS_ENDPOINT (endpointIdStr_ b) m].
Proof. intros Hr. unfold write. by rewrite Hr. Qed.

Lemma write_stopped (m : Msg) (b : Broker) :
  isRunning_ b = false → write m b = b.
Proof. intros Hr. unfold write. by rewrite Hr. Qed.

Lemma write_isRunning (m : Msg) (b : Broker) :
  isRunning_ (write m b) = isRunning_ b.
Proof. unfold write. by case_if. Qed.

Lemma queue_command_written `{Redis} (name : string) (b : Broker) :
  written (queue_command name b) = written b ∧
  isRunning_ (queue_command name b) = isRunning_ b.
Proof. unfold queue_command. by case_if. Qed.

Lemma select_server_written (u : URL) (b : Broker) :
  written (select_server u b).2 = written b ∧
  isRunning_ (select_server u b).2 = isRunning_ b.
Proof. unfold select_server. repeat (case_match; try done). Qed.

Lemma heartbeats_sent (f : string → Msg) (c : Channel) (b : Broker) (k : nat) :
  (0 < ch_heartbeats c)%nat →
  let cb := Nat.iter k (fun cb => sendHeartbeat f cb.1 cb.2) (c, b) in
  cb.1 = c ∧ length (written cb.2) = (length (written b) + k)%nat.
Proof.
  intros Hc. induction k as [|k IH]; [cbn; by rewrite Nat.add_0_r|]. cbn zeta in *.
  rewrite Nat.iter_succ. destruct (Nat.iter k _ (c, b)) as [c1 b1]. cbn in *.
  destruct IH as [-> IHw]. rewrite length_app, IHw. cbn.
  split; [destruct c; cbn in *; f_equal; lia|lia].
Qed.

(** Every call of [setHeartbeatPayload] adds a heartbeat: after [k] of them each period
    sends [k] messages, and [k] timers are running again. *)
Lemma heartbeats_multiply (f : string → Msg) (c : Channel) (b : Broker) (payload : string)
    (k : nat) :
  ch_heartbeats c = O →
  let c' := Nat.iter k (setHeartbeatPayload payload) c in
  ch_heartbeats (heartbeat_period f (c', b)).1 = k ∧
  length (written (heartbeat_period f (c', b)).2) = (length (written b) + k)%nat.
Proof.
  intros Hc c'.
  assert (Hk : ch_heartbeats c' = k)
    by (subst c'; induction k as [|k IH]; [done|]; rewrite Nat.iter_succ; cbn; by f_equal).
  unfold heartbeat_period. cbn [fst]. rewrite Hk. destruct k as [|k].
  - cbn. split; [exact Hc|lia].
  - destruct (heartbeats_sent f c' b (S k)) as [H1 H2]; [lia|]. by rewrite H1, H2, Hk.
Qed.

(** [setUrl] writes nothing and never stops a running broker; when it returns
    without an exception, the broker runs or the URL was malformed. *)
Lemma setUrl_spec `{Redis} (url : string) (b : Broker) :
  written (setUrl url b).2 = written b ∧
  (isRunning_ b = true → isRunning_ (setUrl url b).2 = true) ∧
  ((setUrl url b).1 = Ok tt →
     isRunning_ (setUrl url b).2 = true ∨ ¬ ∃ u, parse_url url = Ok u).
Proof.
  unfold setUrl. destruct (isRunning_ b) eqn:Hr.
  { unfold reconnect. case_match; cbn; rewrite ?Hr; auto. }
  destruct (parse_url url) as [u|e|] eqn:Hp; cbn.
  - pose proof (select_server_written u b) as [Hw Hs].
    destruct (select_server u b) as [[[]|e|] b'] eqn:Hsel; cbn in *.
    + unfold connect. case_match; cbn; rewrite ?Hw; auto.
      split_and!; [done|by intros ?|done].
    + split_and!; [done| |done]. congruence.
    + split_and!; [done| |done]. congruence.
  - split_and!; [done|congruence|]. right. by intros (u & Hu).
  - split_and!; [done|congruence|]. right. by intros (u & Hu).
Qed.

End broker.
Arguments Broker : clear implicits.
Arguments Written : clear implicits.
