(* ===== verification/CommandQueue.v ===== *)
(** * CommandQueue: concurrent_queue.hpp, and the hand-over of commands between threads

    The commands for Redis travel from the application's threads to the event
    loop through [commands_], a [concurrent_queue], and an async watcher:
    [RedisMessageBroker::sendMessage] pushes and sends the async event, and
    [async_cb] (message_broker_redis.cpp) pops until the queue is empty.  Here the
    threads are interleaved at the granularity of the statements: taking and
    releasing a mutex, reading and writing the queue, testing and setting the async
    flag are separate steps, and a thread that cannot take a mutex cannot step.

    The queue is first verified on its own: whatever the threads do, its history
    is one of an atomic queue ([concurrent_queue_linearizable]).  Then the
    hand-over: commands are popped in the order they were pushed
    ([commands_fifo]), and no wake-up is lost ([no_command_stranded]). *)

From S2P Require Import Prelude.
#[local] Open Scope list_scope.
#[local] Open Scope nat_scope.

(** ** The queue *)

Section queue.
Context {Data : Type}.

(** The operations, and what they return. *)
Inductive Op := op_push (data : Data) | op_empty | op_try_pop.
Inductive Res := r_unit | r_bool (b : bool) | r_popped (popped_value : option Data).

(** [std::mutex] as the thread that holds it. *)
Record concurrent_queue := mkQueue {
  the_queue : list Data;
  the_mutex : option nat }.

(** Where a thread is inside an operation: before the [lock_guard], at the first
    statement, about to store the longer queue, before [front()], before [pop()],
    before the destructor of the [lock_guard].  [q_undefined] is reached by
    [front()] or [pop()] of an empty queue. *)
Inductive QPc :=
  | q_lock
  | q_in
  | q_write (q : list Data)
  | q_front
  | q_pop (popped_value : Data)
  | q_unlock (r : Res)
  | q_undefined.

(** One statement of [push], [empty] or [try_pop] in thread [i]: the next place, or
    the result when the operation returns; [None] when the thread is blocked. *)
Definition q_step (i : nat) (o : Op) (pc : QPc) (s : concurrent_queue)
    : option ((QPc + Res) * concurrent_queue) :=
  match pc with
  | q_lock =>
      match the_mutex s with
      | None => Some (inl q_in, mkQueue (the_queue s) (Some i))
      | Some _ => None
      end
  | q_in =>
      match o with
      | op_push data => Some (inl (q_write (the_queue s ++ [data])), s)
      | op_empty =>
          Some (inl (q_unlock (r_bool (match the_queue s with [] => true | _ => false end))), s)
      | op_try_pop =>
          match the_queue s with
          | [] => Some (inl (q_unlock (r_popped None)), s)
          | _ => Some (inl q_front, s)
          end
      end
  | q_write q => Some (inl (q_unlock r_unit), mkQueue q (the_mutex s))
  | q_front =>
      match the_queue s with
      | data :: _ => Some (inl (q_pop data), s)
      | [] => Some (inl q_undefined, s)
      end
  | q_pop data =>
      match the_queue s with
      | _ :: q => Some (inl (q_unlock (r_popped (Some data))), mkQueue q (the_mutex s))
      | [] => Some (inl q_undefined, s)
      end
  | q_unlock r => Some (inr r, mkQueue (the_queue s) None)
  | q_undefined => None
  end.

(** What the operations are meant to do, at once. *)
Definition q_spec (o : Op) (q : list Data) : list Data * Res :=
  match o with
  | op_push data => (q ++ [data], r_unit)
  | op_empty => (q, r_bool (match q with [] => true | _ => false end))
  | op_try_pop =>
      match q with
      | [] => ([], r_popped None)
      | data :: q' => (q', r_popped (Some data))
      end
  end.

(** The mutex is held from [q_in] to [q_unlock]. *)
Definition in_section (pc : QPc) : Prop := pc ≠ q_lock.

(** How far the thread that holds the mutex has come, when [q0] is the queue as it
    was when the mutex was taken. *)
Definition progress (o : Op) (pc : QPc) (q0 q : list Data) : Prop :=
  match pc with
  | q_lock => False
  | q_in => q = q0
  | q_write q' => q = q0 ∧ q' = (q_spec o q0).1 ∧ (q_spec o q0).2 = r_unit
  | q_front => o = op_try_pop ∧ q = q0 ∧ q0 ≠ []
  | q_pop data => o = op_try_pop ∧ q = q0 ∧ ∃ q', q0 = data :: q'
  | q_unlock r => q_spec o q0 = (q, r)
  | q_undefined => False
  end.

(** The mutex discipline for the threads [inside], a partial map from threads to
    the operation they are in. *)
Definition guarded (inside : nat → option (Op * QPc)) (q0 : list Data)
    (s : concurrent_queue) : Prop :=
  (∀ i o pc, inside i = Some (o, pc) → in_section pc → the_mutex s = Some i) ∧
  match the_mutex s with
  | None => the_queue s = q0
  | Some i => ∃ o pc, inside i = Some (o, pc) ∧ progress o pc q0 (the_queue s)
  end.

Lemma guarded_progress inside q0 s i o pc :
  guarded inside q0 s → inside i = Some (o, pc) → in_section pc →
  the_mutex s = Some i ∧ progress o pc q0 (the_queue s).
Proof.
  intros [Hi Hm] Hin Hs. specialize (Hi _ _ _ Hin Hs) as Hx. split; [done|].
  rewrite Hx in Hm. destruct Hm as (o' & pc' & ? & ?). by simplify_eq.
Qed.

(** The mutex keeps every other thread outside. *)
Lemma guarded_alone inside q0 s i j o pc :
  guarded inside q0 s → the_mutex s = Some i → inside j = Some (o, pc) → i ≠ j →
  pc = q_lock.
Proof.
  intros [Hi _] Hm Hj Hne. destruct pc; try done;
    (exfalso; specialize (Hi _ _ _ Hj ltac:(done)); congruence).
Qed.

(** The threads other than [i] are where they were. *)
Definition moved (i : nat) (at_i : option (Op * QPc))
    (inside inside' : nat → option (Op * QPc)) : Prop :=
  inside' i = at_i ∧ ∀ j, j ≠ i → inside' j = inside j.

(** A thread that moves inside the section keeps the discipline. *)
Lemma guarded_inside inside inside' q0 s i o pc pc' q :
  guarded inside q0 s → inside i = Some (o, pc) → the_mutex s = Some i →
  moved i (Some (o, pc')) inside inside' → progress o pc' q0 q →
  guarded inside' q0 (mkQueue q (Some i)).
Proof.
  intros Hg Hin Hm [Hi' Hj] Hp. split; cbn; [|by eauto].
  intros j o' pc'' Hj' Hs. destruct (decide (j = i)) as [->|Hne]; [done|].
  rewrite Hj in Hj' by done. destruct Hs. by apply (guarded_alone inside q0 s i j o').
Qed.

(** One step of a thread that is inside an operation, with the discipline: it
    reaches no undefined behaviour, and when the operation returns it has done
    what it is meant to do, to the queue as it was when the mutex was taken. *)
Lemma guarded_step inside q0 s i o pc next s' :
  guarded inside q0 s → inside i = Some (o, pc) → q_step i o pc s = Some (next, s') →
  match next with
  | inl pc' =>
      pc' ≠ q_undefined ∧
      ∀ inside', moved i (Some (o, pc')) inside inside' → guarded inside' q0 s'
  | inr r =>
      r = (q_spec o q0).2 ∧
      ∀ inside', moved i None inside inside' → guarded inside' (q_spec o q0).1 s'
  end.
Proof.
  intros Hg Hin Hst.
  assert (pc = q_lock ∨ in_section pc) as [->|Hs] by (unfold in_section; destruct pc; auto).
  { cbn in Hst. destruct (the_mutex s) eqn:Hm; simplify_eq. split; [done|].
    intros inside' [Hi' Hj]. destruct Hg as [Hg Hq]. rewrite Hm in Hq. split; cbn; [|by eauto].
    intros j o' pc' Hj' Hs. destruct (decide (j = i)) as [->|Hne]; [done|].
    rewrite Hj in Hj' by done. specialize (Hg _ _ _ Hj' Hs). congruence. }
  destruct (guarded_progress _ _ _ _ _ _ Hg Hin Hs) as [Hm Hp].
  destruct s as [q m]. cbn in Hm, Hp. subst m.
  pose proof (fun inside' pc' q' => guarded_inside inside inside' q0 _ i o pc pc' q' Hg Hin eq_refl)
    as Hmove.
  destruct pc; cbn in Hst, Hp; [done| | | | | |done].
  - subst q0. destruct o; [| |destruct q]; simplify_eq; (split; [done|]);
      intros inside' Hi'; (eapply Hmove; [exact Hi'|]); cbn; eauto.
  - destruct Hp as (-> & -> & Hr). simplify_eq. split; [done|]. intros inside' Hi'.
    eapply Hmove; [exact Hi'|]. cbn. by destruct (q_spec o _); cbn in *; subst.
  - destruct Hp as (-> & -> & Hne). destruct q0 as [|d q']; simplify_eq.
    split; [done|]. intros inside' Hi'. eapply Hmove; [exact Hi'|]. cbn. eauto.
  - destruct Hp as (-> & -> & q' & ->). simplify_eq. split; [done|].
    intros inside' Hi'. by eapply Hmove.
  - simplify_eq. rewrite Hp. split; [done|]. intros inside' [Hi' Hj]. split; cbn; [|done].
    intros j o' pc' Hj' Hsec. destruct (decide (j = i)) as [->|Hne]; [congruence|].
    rewrite Hj in Hj' by done. destruct Hsec. by apply (guarded_alone inside q0 _ i j o' _ Hg).
Qed.

(** The steps that the discipline leaves possible, with the queue before and after. *)
Inductive q_move : Op → QPc → list Data → QPc + Res → list Data → Prop :=
  | m_lock o q : q_move o q_lock q (inl q_in) q
  | m_read d q : q_move (op_push d) q_in q (inl (q_write (q ++ [d]))) q
  | m_write d q : q_move (op_push d) (q_write (q ++ [d])) q (inl (q_unlock r_unit)) (q ++ [d])
  | m_pushed d q : q_move (op_push d) (q_unlock r_unit) q (inr r_unit) q
  | m_empty b q : q_move op_empty q_in q (inl (q_unlock (r_bool b))) q
  | m_tested b q : q_move op_empty (q_unlock (r_bool b)) q (inr (r_bool b)) q
  | m_none : q_move op_try_pop q_in [] (inl (q_unlock (r_popped None))) []
  | m_some d q : q_move op_try_pop q_in (d :: q) (inl q_front) (d :: q)
  | m_front d q : q_move op_try_pop q_front (d :: q) (inl (q_pop d)) (d :: q)
  | m_pop d q : q_move op_try_pop (q_pop d) (d :: q) (inl (q_unlock (r_popped (Some d)))) q
  | m_popped r q : q_move op_try_pop (q_unlock (r_popped r)) q (inr (r_popped r)) q.

Lemma guarded_move inside q0 s i o pc next s' :
  guarded inside q0 s → inside i = Some (o, pc) → q_step i o pc s = Some (next, s') →
  q_move o pc (the_queue s) next (the_queue s').
Proof.
  intros Hg Hin Hst.
  assert (pc = q_lock ∨ in_section pc) as [->|Hs] by (unfold in_section; destruct pc; auto).
  { cbn in Hst. destruct (the_mutex s); simplify_eq. constructor. }
  destruct (guarded_progress _ _ _ _ _ _ Hg Hin Hs) as [_ Hp].
  destruct s as [q m]. destruct pc; cbn in Hst, Hp; [done| | | | | |done].
  - destruct o; [| |destruct q]; simplify_eq; constructor.
  - destruct Hp as (-> & -> & Hr). simplify_eq. destruct o; try done; [constructor|].
    by destruct q0.
  - destruct Hp as (-> & -> & Hne). destruct q0; simplify_eq. constructor.
  - destruct Hp as (-> & -> & q' & ->). simplify_eq. constructor.
  - simplify_eq. destruct o; [| |destruct q0]; simplify_eq/=; constructor.
Qed.

(** A thread that starts an operation is not in the section yet. *)
Lemma guarded_call inside inside' q0 s i o :
  guarded inside q0 s → inside i = None → moved i (Some (o, q_lock)) inside inside' →
  guarded inside' q0 s.
Proof.
  intros [Hg Hq] Hi [Hi' Hj]. split.
  - intros j o' pc Hj' Hs. destruct (decide (j = i)) as [->|Hne]; [|rewrite Hj in Hj'; eauto].
    rewrite Hi' in Hj'. by simplify_eq.
  - destruct (the_mutex s) as [k|]; [|done]. destruct Hq as (o' & pc & Hk & Hp).
    exists o', pc. split; [|done]. rewrite Hj; congruence.
Qed.

(** A thread that moves outside of the queue. *)
Lemma guarded_outside inside inside' q0 s i :
  guarded inside q0 s → inside i = None → moved i None inside inside' → guarded inside' q0 s.
Proof.
  intros [Hg Hq] Hi [Hi' Hj].
  assert (He : ∀ j, inside' j = inside j)
    by (intros j; destruct (decide (j = i)) as [->|]; [congruence|by apply Hj]).
  split.
  - intros j o pc Hin. rewrite He in Hin. eauto.
  - destruct (the_mutex s); [|done]. by setoid_rewrite He.
Qed.

(** When no thread can step, none is inside an operation. *)
Lemma guarded_enabled inside q0 s :
  guarded inside q0 s →
  (∀ i o pc, inside i = Some (o, pc) → q_step i o pc s = None) →
  the_mutex s = None ∧ ∀ i, inside i = None.
Proof.
  intros [Hg Hq] Hstuck. destruct (the_mutex s) as [k|] eqn:Hm.
  - exfalso. destruct Hq as (o & pc & Hk & Hp). specialize (Hstuck _ _ _ Hk).
    destruct pc; cbn in *; repeat case_match; try done; by destruct Hp.
  - split; [done|]. intros i. destruct (inside i) as [[o pc]|] eqn:Hi; [|done].
    exfalso. specialize (Hstuck _ _ _ Hi). destruct pc; cbn in *;
      [by rewrite Hm in Hstuck|..]; by specialize (Hg _ _ _ Hi ltac:(done)).
Qed.

(** ** Threads that use the queue *)

(** Any number of threads, each outside of the queue or inside one operation, and
    the operations in the order they returned. *)
Record System := mkSystem {
  sys_queue : concurrent_queue;
  sys_threads : list (option (Op * QPc));
  sys_log : list (Op * Res) }.

Definition new_system (n : nat) : System :=
  mkSystem (mkQueue [] None) (replicate n None) [].

(** A thread calls an operation, or the operation it is in makes a step. *)
Inductive QLabel := l_call (i : nat) (o : Op) | l_step (i : nat).

Definition sys_step (l : QLabel) (s : System) : option System :=
  match l with
  | l_call i o =>
      match sys_threads s !! i with
      | Some None => Some (mkSystem (sys_queue s) (<[i := Some (o, q_lock)]> (sys_threads s))
                                    (sys_log s))
      | _ => None
      end
  | l_step i =>
      match sys_threads s !! i with
      | Some (Some (o, pc)) =>
          match q_step i o pc (sys_queue s) with
          | Some (inl pc', q) =>
              Some (mkSystem q (<[i := Some (o, pc')]> (sys_threads s)) (sys_log s))
          | Some (inr r, q) =>
              Some (mkSystem q (<[i := None]> (sys_threads s)) (sys_log s ++ [(o, r)]))
          | None => None
          end
      | _ => None
      end
  end.

Fixpoint sys_run (ls : list QLabel) (s : System) : option System :=
  match ls with
  | [] => Some s
  | l :: ls' => sys_step l s ≫= sys_run ls'
  end.

(** The history of a queue whose operations happen at once, one after the other. *)
Fixpoint atomic_history (q : list Data) (log : list (Op * Res)) (q' : list Data) : Prop :=
  match log with
  | [] => q' = q
  | (o, r) :: log' => r = (q_spec o q).2 ∧ atomic_history (q_spec o q).1 log' q'
  end.

Lemma atomic_history_snoc q log q' o r :
  atomic_history q log q' → r = (q_spec o q').2 →
  atomic_history q (log ++ [(o, r)]) (q_spec o q').1.
Proof.
  revert q. induction log as [|[o' r'] log IH]; intros q; cbn.
  - by intros -> ->.
  - intros [-> Hl] Hr. split; [done|]. by apply IH.
Qed.

(** A thread of a list that moves. *)
Lemma moved_insert {T : Type} (place : T → option (Op * QPc)) (ts : list T) i t :
  i < length ts →
  moved i (place t) (fun j => ts !! j ≫= place) (fun j => <[i := t]> ts !! j ≫= place).
Proof.
  intros Hi. split; cbn.
  - by rewrite list_lookup_insert_eq.
  - intros j Hj. by rewrite list_lookup_insert_ne by done.
Qed.

(** The operation of the queue that thread [j] is in. *)
Definition sys_inside (s : System) (j : nat) : option (Op * QPc) :=
  sys_threads s !! j ≫= id.

Definition sys_inv (s : System) : Prop :=
  (∃ q0, atomic_history [] (sys_log s) q0 ∧ guarded (sys_inside s) q0 (sys_queue s)) ∧
  (∀ j o, sys_inside s j ≠ Some (o, q_undefined)).

Lemma moved_defined inside inside' i at_i :
  moved i at_i inside inside' → (∀ o, at_i ≠ Some (o, q_undefined)) →
  (∀ j o, inside j ≠ Some (o, q_undefined)) → ∀ j o, inside' j ≠ Some (o, q_undefined).
Proof.
  intros [Hi Hj] Hat Hall j o. destruct (decide (j = i)) as [->|Hne].
  - rewrite Hi. done.
  - rewrite Hj by done. done.
Qed.

Lemma sys_step_inv l s s' : sys_inv s → sys_step l s = Some s' → sys_inv s'.
Proof.
  intros [(q0 & Hh & Hg) Hu] Hst. destruct l as [i o|i]; cbn in Hst.
  - destruct (sys_threads s !! i) as [[|]|] eqn:Hi; simplify_eq.
    pose proof (moved_insert id _ i (Some (o, q_lock)) (lookup_lt_Some _ _ _ Hi)) as Hm.
    split; [exists q0; split; [done|]|].
    + eapply guarded_call; [exact Hg| |exact Hm]. unfold sys_inside. by rewrite Hi.
    + eapply moved_defined; [exact Hm|done|done].
  - destruct (sys_threads s !! i) as [[[o pc]|]|] eqn:Hi; [|done..].
    assert (Hin : sys_inside s i = Some (o, pc)) by (unfold sys_inside; by rewrite Hi).
    destruct (q_step i o pc (sys_queue s)) as [[next q]|] eqn:Hq; [|done].
    pose proof (guarded_step _ _ _ _ _ _ _ _ Hg Hin Hq) as Hs.
    pose proof (fun t => moved_insert id _ i t (lookup_lt_Some _ _ _ Hi)) as Hm.
    destruct next as [pc'|r]; simplify_eq; destruct Hs as [Hr Hs].
    + split; [exists q0; split; [done|by apply Hs, Hm]|].
      eapply moved_defined; [apply Hm| |done]. cbn. congruence.
    + split; [|eapply moved_defined; [apply Hm|done|done]].
      exists (q_spec o q0).1. split; [by apply atomic_history_snoc|by apply Hs, Hm].
Qed.

Lemma sys_run_inv ls s s' : sys_inv s → sys_run ls s = Some s' → sys_inv s'.
Proof.
  revert s. induction ls as [|l ls IH]; cbn; intros s Hi Hr; [by simplify_eq|].
  destruct (sys_step l s) as [s1|] eqn:Hs; [|done]. cbn in Hr.
  eapply IH; [|done]. by eapply sys_step_inv.
Qed.

Lemma new_system_inv n : sys_inv (new_system n).
Proof.
  assert (Hn : ∀ j, sys_inside (new_system n) j = None).
  { intros j. unfold sys_inside. cbn. destruct (replicate n None !! j) eqn:E; [|done].
    by apply lookup_replicate in E as [-> _]. }
  split; [|intros; by rewrite Hn]. exists []. split; [done|]. split; cbn; [|done].
  intros i o pc Hi. by rewrite Hn in Hi.
Qed.

(** C25: Whatever operations any number of threads call on a [concurrent_queue], in
    whatever interleaving: the results are those of a queue whose operations happen
    at once, in the order in which they returned, and what it then holds is what
    the queue holds when the mutex is free; no thread reads the front of an empty
    queue; and the threads never block each other for good. *)
Theorem concurrent_queue_linearizable n ls s :
  sys_run ls (new_system n) = Some s →
  (∃ q, atomic_history [] (sys_log s) q ∧
        (the_mutex (sys_queue s) = None → the_queue (sys_queue s) = q)) ∧
  (∀ i o, sys_threads s !! i ≠ Some (Some (o, q_undefined))) ∧
  ((∀ i, sys_step (l_step i) s = None) → ∀ i t, sys_threads s !! i = Some t → t = None).
Proof.
  intros Hr. pose proof (sys_run_inv _ _ _ (new_system_inv n) Hr) as [(q & Hh & Hg) Hu].
  split_and!.
  - exists q. split; [done|]. intros Hm. destruct Hg as [_ Hg]. by rewrite Hm in Hg.
  - intros i o Hi. apply (Hu i o). unfold sys_inside. by rewrite Hi.
  - intros Hstuck. destruct (guarded_enabled _ _ _ Hg) as [_ Hnone].
    + intros i o pc Hi. specialize (Hstuck i). cbn in Hstuck. unfold sys_inside in Hi.
      destruct (sys_threads s !! i) as [t|]; [|done]. cbn in Hi. subst t.
      destruct (q_step _ _ _ _) as [[[|] ?]|]; done.
    + intros i t Hi. specialize (Hnone i). unfold sys_inside in Hnone. by rewrite Hi in Hnone.
Qed.

End queue.
Arguments Op : clear implicits.
Arguments Res : clear implicits.
Arguments QPc : clear implicits.
Arguments QLabel : clear implicits.
Arguments concurrent_queue : clear implicits.
Arguments System : clear implicits.

(** ** The hand-over to the event loop *)

Section handover.
Context {Cmd : Type}.

(** Where a thread is: in [sendMessage] (pushing the command, before the
    [lock_guard] on the loop's mutex, before [ev_async_send], before the end of the
    [lock_guard]) or, the event loop's thread, in [async_cb] (before the
    [lock_guard], before the test of [getRunning], in [TryPop], before the command is
    executed, before the end of the [lock_guard]). *)
Inductive Pc :=
  | idle
  | s_push (command : Cmd) (pc : QPc Cmd)
  | s_lock
  | s_send
  | s_unlock
  | c_lock
  | c_running
  | c_pop (pc : QPc Cmd)
  | c_execute (command : Cmd)
  | c_unlock.

(** The mutex is the one of [EvHelper]; [async_sent] is the watcher's pending flag.
    [pushed] and [popped] are the commands in the order their [push] and [try_pop]
    returned; [sent] those handed to a valid connection. *)
Record Threads := mkThreads {
  t_commands : concurrent_queue Cmd;
  t_mutex : option nat;
  t_async_sent : bool;
  t_running : bool;
  t_valid : bool;
  t_threads : list Pc;
  t_pushed : list Cmd;
  t_popped : list Cmd;
  t_sent : list Cmd }.

(** The broker runs, [n] threads besides the event loop's, which is thread 0. *)
Definition new_threads (n : nat) : Threads :=
  mkThreads (mkQueue [] None) None false true true (replicate (S n) idle) [] [] [].

Definition at_pc (i : nat) (pc : Pc) (s : Threads) : Threads :=
  mkThreads (t_commands s) (t_mutex s) (t_async_sent s) (t_running s) (t_valid s)
            (<[i := pc]> (t_threads s)) (t_pushed s) (t_popped s) (t_sent s).
Definition with_commands (q : concurrent_queue Cmd) (s : Threads) : Threads :=
  mkThreads q (t_mutex s) (t_async_sent s) (t_running s) (t_valid s)
            (t_threads s) (t_pushed s) (t_popped s) (t_sent s).
Definition with_mutex (m : option nat) (s : Threads) : Threads :=
  mkThreads (t_commands s) m (t_async_sent s) (t_running s) (t_valid s)
            (t_threads s) (t_pushed s) (t_popped s) (t_sent s).
Definition with_async (b : bool) (s : Threads) : Threads :=
  mkThreads (t_commands s) (t_mutex s) b (t_running s) (t_valid s)
            (t_threads s) (t_pushed s) (t_popped s) (t_sent s).
Definition log_push (c : Cmd) (s : Threads) : Threads :=
  mkThreads (t_commands s) (t_mutex s) (t_async_sent s) (t_running s) (t_valid s)
            (t_threads s) (t_pushed s ++ [c]) (t_popped s) (t_sent s).
Definition log_pop (c : Cmd) (s : Threads) : Threads :=
  mkThreads (t_commands s) (t_mutex s) (t_async_sent s) (t_running s) (t_valid s)
            (t_threads s) (t_pushed s) (t_popped s ++ [c]) (t_sent s).

(** [conn_->execute], when the connection is valid. *)
Definition execute (c : Cmd) (s : Threads) : Threads :=
  mkThreads (t_commands s) (t_mutex s) (t_async_sent s) (t_running s) (t_valid s)
            (t_threads s) (t_pushed s) (t_popped s)
            (if t_valid s then t_sent s ++ [c] else t_sent s).

(** The [lock_guard] on the mutex of the event loop. *)
Definition lock_guard (i : nat) (next : Pc) (s : Threads) : option Threads :=
  match t_mutex s with
  | None => Some (at_pc i next (with_mutex (Some i) s))
  | Some _ => None
  end.

(** One statement of [sendMessage] in thread [i]. *)
Definition send_step (i : nat) (pc : Pc) (s : Threads) : option Threads :=
  match pc with
  | s_push c q =>
      match q_step i (op_push c) q (t_commands s) with
      | Some (inl q', cs) => Some (at_pc i (s_push c q') (with_commands cs s))
      | Some (inr _, cs) => Some (at_pc i s_lock (log_push c (with_commands cs s)))
      | None => None
      end
  | s_lock => lock_guard i s_send s
  | s_send => Some (at_pc i s_unlock (with_async true s))
  | s_unlock => Some (at_pc i idle (with_mutex None s))
  | _ => None
  end.

(** One statement of [async_cb] in thread [i]. *)
Definition callback_step (i : nat) (pc : Pc) (s : Threads) : option Threads :=
  match pc with
  | c_lock => lock_guard i c_running s
  | c_running => Some (at_pc i (if t_running s then c_pop q_lock else c_unlock) s)
  | c_pop q =>
      match q_step i op_try_pop q (t_commands s) with
      | Some (inl q', cs) => Some (at_pc i (c_pop q') (with_commands cs s))
      | Some (inr (r_popped (Some c)), cs) =>
          Some (at_pc i (c_execute c) (log_pop c (with_commands cs s)))
      | Some (inr _, cs) => Some (at_pc i c_unlock (with_commands cs s))
      | None => None
      end
  | c_execute c => Some (at_pc i (c_pop q_lock) (execute c s))
  | c_unlock => Some (at_pc i idle (with_mutex None s))
  | _ => None
  end.

Definition in_callback (pc : Pc) : bool :=
  match pc with
  | c_lock | c_running | c_pop _ | c_execute _ | c_unlock => true
  | _ => false
  end.
Definition thread_step (i : nat) (pc : Pc) (s : Threads) : option Threads :=
  if in_callback pc then callback_step i pc s else send_step i pc s.

(** What can happen: a thread calls [sendMessage]; the event loop finds the async
    event, clears it and calls [async_cb]; a thread makes a step; the broker is
    started or stopped; the connection is lost or made. *)
Inductive TLabel :=
  | l_send (i : nat) (command : Cmd)
  | l_wake
  | l_run (i : nat)
  | l_running (b : bool)
  | l_valid (b : bool).

Definition t_step (l : TLabel) (s : Threads) : option Threads :=
  match l with
  | l_send i c =>
      match t_threads s !! i with
      | Some idle => Some (if t_valid s then at_pc i (s_push c q_lock) s else s)
      | _ => None
      end
  | l_wake =>
      match t_threads s !! O with
      | Some idle => if t_async_sent s then Some (at_pc 0 c_lock (with_async false s)) else None
      | _ => None
      end
  | l_run i => t_threads s !! i ≫= (fun pc => thread_step i pc s)
  | l_running b =>
      Some (mkThreads (t_commands s) (t_mutex s) (t_async_sent s) b (t_valid s)
                      (t_threads s) (t_pushed s) (t_popped s) (t_sent s))
  | l_valid b =>
      Some (mkThreads (t_commands s) (t_mutex s) (t_async_sent s) (t_running s) b
                      (t_threads s) (t_pushed s) (t_popped s) (t_sent s))
  end.

Fixpoint t_run (ls : list TLabel) (s : Threads) : option Threads :=
  match ls with
  | [] => Some s
  | l :: ls' => t_step l s ≫= t_run ls'
  end.

(** *** Who holds what *)

Definition place (pc : Pc) : option (Op Cmd * QPc Cmd) :=
  match pc with
  | s_push c q => Some (op_push c, q)
  | c_pop q => Some (op_try_pop, q)
  | _ => None
  end.
Definition inside (s : Threads) (j : nat) : option (Op Cmd * QPc Cmd) :=
  t_threads s !! j ≫= place.

(** The places between taking and releasing the mutex of the event loop. *)
Definition holds (pc : Pc) : bool :=
  match pc with
  | s_send | s_unlock | c_running | c_pop _ | c_execute _ | c_unlock => true
  | _ => false
  end.

(** The places from which the queue will still be looked at, or the event sent. *)
Definition covers (pc : Pc) : bool :=
  match pc with
  | s_push _ (q_unlock _) | s_lock | s_send | c_lock | c_running | c_execute _ => true
  | c_pop (q_unlock (r_popped (Some _))) => true
  | c_pop (q_unlock _) => false
  | c_pop _ => true
  | _ => false
  end.

(** The command that was popped and is about to be executed. *)
Definition in_hand (pc : option Pc) : list Cmd :=
  match pc with Some (c_execute c) => [c] | _ => [] end.

(** The commands pushed and not popped, when the queue's mutex is free. *)
Definition queued (s : Threads) (q0 : list Cmd) : Prop :=
  guarded (inside s) q0 (t_commands s) ∧ t_pushed s = t_popped s ++ q0.

(** [steady]: the connection was never lost. *)
Context (steady : bool).
Definition executed_ok (s : Threads) (executed : list Cmd) : Prop :=
  if steady then t_valid s = true ∧ t_sent s = executed else sublist (t_sent s) executed.

Record t_inv (s : Threads) : Prop := mkTInv {
  tv_queue : ∃ q0, queued s q0;
  tv_mutex : ∀ i pc, t_threads s !! i = Some pc → holds pc = true → t_mutex s = Some i;
  tv_holder : ∀ i, t_mutex s = Some i → ∃ pc, t_threads s !! i = Some pc ∧ holds pc = true;
  tv_callback : ∀ i pc, t_threads s !! i = Some pc → in_callback pc = true → i = O;
  tv_sent : ∃ executed, t_popped s = executed ++ in_hand (t_threads s !! O) ∧
                        executed_ok s executed }.

(** No wake-up is lost while the broker runs. *)
Definition woken (s : Threads) : Prop :=
  t_running s = true ∧
  (the_queue (t_commands s) ≠ [] →
   t_async_sent s = true ∨ ∃ j pc, t_threads s !! j = Some pc ∧ covers pc = true).

(** The work that is left: steps of the threads, of the commands that are queued and
    of the event that was sent. *)
Definition q_work (q : QPc Cmd) : nat :=
  match q with
  | q_lock => 20 | q_in => 19 | q_write _ => 18 | q_unlock _ => 11
  | q_front | q_pop _ | q_undefined => 0
  end.
Definition pc_work (pc : Pc) : nat :=
  match pc with
  | idle => 0
  | s_push _ q => q_work q
  | s_lock => 10 | s_send => 9 | s_unlock => 1
  | c_lock => 6 | c_running => 5
  | c_pop q_lock => 4 | c_pop q_in => 3 | c_pop q_front => 2 | c_pop (q_pop _) => 1
  | c_pop (q_unlock (r_popped (Some _))) => 6
  | c_pop (q_unlock _) => 2
  | c_pop _ => 0
  | c_execute _ => 5 | c_unlock => 1
  end.
Definition t_work (s : Threads) : nat :=
  sum_list (pc_work <$> t_threads s) + 6 * length (the_queue (t_commands s)) +
  (if t_async_sent s then 7 else 0).

(** The steps of the threads themselves. *)
Definition internal (l : TLabel) : Prop := l = l_wake ∨ ∃ i, l = l_run i.

(** *** Preservation *)

Lemma inside_at i pc s :
  i < length (t_threads s) → moved i (place pc) (inside s) (inside (at_pc i pc s)).
Proof. intros Hi. by apply (moved_insert place). Qed.

(** The mutex of the event loop, when thread [i] goes from [pc] to [pc']. *)
Lemma mutex_move s s' i pc pc' :
  t_inv s → t_threads s !! i = Some pc → t_threads s' = <[i := pc']> (t_threads s) →
  (in_callback pc' = true → i = O) →
  t_mutex s' = (if holds pc' then Some i else if holds pc then None else t_mutex s) →
  (holds pc' = true → holds pc = false → t_mutex s = None) →
  (∀ i pc, t_threads s' !! i = Some pc → holds pc = true → t_mutex s' = Some i) ∧
  (∀ i, t_mutex s' = Some i → ∃ pc, t_threads s' !! i = Some pc ∧ holds pc = true) ∧
  (∀ i pc, t_threads s' !! i = Some pc → in_callback pc = true → i = O).
Proof.
  intros Hi Hpc Ht Hcb Hm Hfree. pose proof (lookup_lt_Some _ _ _ Hpc) as Hlt.
  destruct Hi as [_ Hmx Hh Hc _]. rewrite Ht. split_and!.
  - intros j pj Hj Hhj. rewrite Hm. destruct (decide (j = i)) as [->|Hne].
    { rewrite list_lookup_insert_eq in Hj by done. simplify_eq. by rewrite Hhj. }
    rewrite list_lookup_insert_ne in Hj by done. pose proof (Hmx _ _ Hj Hhj) as Hmj.
    destruct (holds pc) eqn:Hp.
    { pose proof (Hmx _ _ Hpc Hp). congruence. }
    destruct (holds pc') eqn:Hp'; [|done]. by rewrite Hfree in Hmj.
  - intros j Hj. rewrite Hm in Hj. destruct (holds pc') eqn:Hp'.
    { simplify_eq. exists pc'. by rewrite list_lookup_insert_eq by done. }
    destruct (holds pc) eqn:Hp; [done|]. destruct (Hh _ Hj) as (pj & Hj' & Hhj).
    exists pj. split; [|done]. rewrite list_lookup_insert_ne; [done|].
    intros ->. rewrite Hpc in Hj'. simplify_eq. congruence.
  - intros j pj Hj Hcj. destruct (decide (j = i)) as [->|Hne].
    + rewrite list_lookup_insert_eq in Hj by done. simplify_eq. auto.
    + rewrite list_lookup_insert_ne in Hj by done. eauto.
Qed.

(** What was popped and not yet executed stays in hand. *)
Lemma in_hand_move s i pc pc' :
  t_inv s → t_threads s !! i = Some pc →
  in_hand (Some pc) = [] → in_hand (Some pc') = [] →
  in_hand (<[i := pc']> (t_threads s) !! O) = in_hand (t_threads s !! O).
Proof.
  intros Hi Hpc H1 H2. destruct (decide (i = O)) as [->|Hne].
  - rewrite Hpc, list_lookup_insert_eq; [congruence|by eapply lookup_lt_Some].
  - by rewrite list_lookup_insert_ne.
Qed.

(** A step of thread [i] outside of the queue: it may start an operation. *)
Lemma queued_outside s s' i pc pc' :
  (∃ q0, queued s q0) → t_threads s !! i = Some pc → place pc = None →
  t_threads s' = <[i := pc']> (t_threads s) →
  (place pc' = None ∨ ∃ o, place pc' = Some (o, q_lock)) →
  t_commands s' = t_commands s → t_pushed s' = t_pushed s → t_popped s' = t_popped s →
  ∃ q0, queued s' q0.
Proof.
  intros (q0 & Hg & Hpq) Hpc Hp Ht Hp' Hc Hpu Hpo. exists q0. split; [|congruence].
  rewrite Hc. pose proof (inside_at i pc' s (lookup_lt_Some _ _ _ Hpc)) as Hm.
  assert (Hi : inside s i = None) by (unfold inside; by rewrite Hpc).
  assert (Hin : inside s' = inside (at_pc i pc' s)) by (unfold inside; by rewrite Ht).
  rewrite Hin. destruct Hp' as [Hp'|[o Hp']]; rewrite Hp' in Hm.
  - by eapply guarded_outside.
  - by eapply guarded_call.
Qed.

Lemma sent_frame s s' i pc pc' :
  t_inv s → t_threads s !! i = Some pc → t_threads s' = <[i := pc']> (t_threads s) →
  in_hand (Some pc) = [] → in_hand (Some pc') = [] →
  t_popped s' = t_popped s → t_sent s' = t_sent s → t_valid s' = t_valid s →
  ∃ executed, t_popped s' = executed ++ in_hand (t_threads s' !! O) ∧
              executed_ok s' executed.
Proof.
  intros Hi Hpc Ht H1 H2 Hpo Hse Hv. destruct (tv_sent _ Hi) as (ex & Hex & Hs).
  exists ex. unfold executed_ok in *. rewrite Ht, Hpo, Hse, Hv.
  by rewrite (in_hand_move s i pc pc').
Qed.

(** A step that neither uses the queue nor pops or executes. *)
Lemma t_inv_plain s s' i pc pc' :
  t_inv s → t_threads s !! i = Some pc → t_threads s' = <[i := pc']> (t_threads s) →
  place pc = None → (place pc' = None ∨ ∃ o, place pc' = Some (o, q_lock)) →
  in_hand (Some pc) = [] → in_hand (Some pc') = [] →
  (in_callback pc' = true → i = O) →
  t_mutex s' = (if holds pc' then Some i else if holds pc then None else t_mutex s) →
  (holds pc' = true → holds pc = false → t_mutex s = None) →
  t_commands s' = t_commands s → t_pushed s' = t_pushed s → t_popped s' = t_popped s →
  t_sent s' = t_sent s → t_valid s' = t_valid s → t_inv s'.
Proof.
  intros Hi Hpc Ht Hp Hp' Hh Hh' Hcb Hm Hf Hc Hpu Hpo Hse Hv.
  destruct (mutex_move s s' i pc pc' Hi Hpc Ht Hcb Hm Hf) as (? & ? & ?).
  split; [|done..|].
  - by eapply (queued_outside s s' i pc pc' (tv_queue _ Hi)).
  - by eapply (sent_frame s s' i pc pc').
Qed.

(** A step inside the queue: [pc'] is where the operation goes on or returns to. *)
Lemma queued_step s s' i pc pc' o q next cs :
  (∃ q0, queued s q0) → t_threads s !! i = Some pc → place pc = Some (o, q) →
  q_step i o q (t_commands s) = Some (next, cs) →
  t_threads s' = <[i := pc']> (t_threads s) → t_commands s' = cs →
  match next with
  | inl q' => place pc' = Some (o, q') ∧ t_pushed s' = t_pushed s ∧ t_popped s' = t_popped s
  | inr r =>
      place pc' = None ∧
      match o, r with
      | op_push c, _ => t_pushed s' = t_pushed s ++ [c] ∧ t_popped s' = t_popped s
      | op_try_pop, r_popped (Some c) =>
          t_pushed s' = t_pushed s ∧ t_popped s' = t_popped s ++ [c]
      | _, _ => t_pushed s' = t_pushed s ∧ t_popped s' = t_popped s
      end
  end →
  ∃ q0, queued s' q0.
Proof.
  intros (q0 & Hg & Hpq) Hpc Hp Hq Ht Hcs Hnext.
  assert (Hin : inside s i = Some (o, q)) by (unfold inside; by rewrite Hpc).
  pose proof (inside_at i pc' s (lookup_lt_Some _ _ _ Hpc)) as Hm.
  assert (Hin' : inside s' = inside (at_pc i pc' s)) by (unfold inside; by rewrite Ht).
  rewrite <-Hin' in Hm. pose proof (guarded_step _ _ _ _ _ _ _ _ Hg Hin Hq) as Hs.
  destruct next as [q'|r]; destruct Hs as [Hr Hs].
  - destruct Hnext as (Hp' & Hpu & Hpo). rewrite Hp' in Hm. exists q0.
    split; [rewrite Hcs; by apply Hs|congruence].
  - destruct Hnext as [Hp' Hlog]. rewrite Hp' in Hm. exists (q_spec o q0).1.
    split; [rewrite Hcs; by apply Hs|]. subst r. destruct o as [c| |]; cbn in *.
    + destruct Hlog as [-> ->]. by rewrite Hpq, app_assoc.
    + by destruct Hlog as [-> ->].
    + destruct q0 as [|c q0]; cbn in *; destruct Hlog as [-> ->]; [done|].
      by rewrite Hpq, <-app_assoc.
Qed.

Lemma push_step_inv s i c q s' :
  t_inv s → t_threads s !! i = Some (s_push c q) → thread_step i (s_push c q) s = Some s' →
  t_inv s'.
Proof.
  intros Hi Hpc Hst. cbn in Hst.
  destruct (q_step i (op_push c) q (t_commands s)) as [[next cs]|] eqn:Hq; [|done].
  assert (∃ pc', t_threads s' = <[i := pc']> (t_threads s) ∧ holds pc' = false ∧
            in_callback pc' = false ∧ in_hand (Some pc') = [] ∧
            t_mutex s' = t_mutex s ∧ t_popped s' = t_popped s ∧ t_sent s' = t_sent s ∧
            t_valid s' = t_valid s)
    as (pc' & Ht & Hh & Hcb & Hha & Hm & Hpo & Hse & Hv)
    by (destruct next; simplify_eq; eexists; by split_and!).
  destruct (mutex_move s s' i _ pc' Hi Hpc Ht) as (? & ? & ?);
    [congruence|by rewrite Hh|congruence|].
  split; [|done..|by eapply sent_frame].
  destruct next as [q'|r]; simplify_eq.
  - by apply (queued_step s _ i _ (s_push c q') _ q (inl q') cs (tv_queue _ Hi) Hpc eq_refl Hq).
  - by apply (queued_step s _ i _ s_lock _ q (inr r) cs (tv_queue _ Hi) Hpc eq_refl Hq).
Qed.

Lemma pop_step_inv s i q s' :
  t_inv s → t_threads s !! i = Some (c_pop q) → thread_step i (c_pop q) s = Some s' → t_inv s'.
Proof.
  intros Hi Hpc Hst. cbn in Hst. pose proof (tv_callback _ Hi _ _ Hpc eq_refl) as ->.
  pose proof (tv_mutex _ Hi _ _ Hpc eq_refl) as Hmx.
  destruct (q_step 0 op_try_pop q (t_commands s)) as [[next cs]|] eqn:Hq; [|done].
  pose proof (tv_sent _ Hi) as (ex & Hex & Hsub). rewrite Hpc in Hex. cbn in Hex.
  rewrite app_nil_r in Hex. pose proof (lookup_lt_Some _ _ _ Hpc) as Hlt.
  destruct next as [q'|r].
  { simplify_eq. destruct (mutex_move s (at_pc 0 (c_pop q') (with_commands cs s)) 0 _ (c_pop q')
      Hi Hpc) as (? & ? & ?); try done. split; [|done..|by eapply sent_frame].
    by apply (queued_step s _ 0 _ (c_pop q') _ q (inl q') cs (tv_queue _ Hi) Hpc eq_refl Hq). }
  assert (Hx : (∃ c, r = r_popped (Some c) ∧
                 s' = at_pc 0 (c_execute c) (log_pop c (with_commands cs s))) ∨
               (∀ c, r ≠ r_popped (Some c)) ∧ s' = at_pc 0 c_unlock (with_commands cs s)).
  { destruct r as [| |[c|]]; simplify_eq; [right|right|left|right]; eauto; by split. }
  destruct Hx as [(c & -> & ->)|[Hr ->]].
  - destruct (mutex_move s (at_pc 0 (c_execute c) (log_pop c (with_commands cs s))) 0 _
      (c_execute c) Hi Hpc) as (? & ? & ?); try done. split; [|done..|].
    + by apply (queued_step s _ 0 _ (c_execute c) _ q _ cs (tv_queue _ Hi) Hpc eq_refl Hq).
    + exists ex. cbn. rewrite list_lookup_insert_eq by done. cbn. by rewrite Hex.
  - destruct (mutex_move s (at_pc 0 c_unlock (with_commands cs s)) 0 _ c_unlock
      Hi Hpc) as (? & ? & ?); try done. split; [|done..|by eapply sent_frame].
    apply (queued_step s _ 0 _ c_unlock _ q _ cs (tv_queue _ Hi) Hpc eq_refl Hq); [done..|].
    split; [done|]. by destruct r as [| |[c|]]; [..|by destruct (Hr c)|].
Qed.

Lemma execute_step_inv s i c s' :
  t_inv s → t_threads s !! i = Some (c_execute c) →
  thread_step i (c_execute c) s = Some s' → t_inv s'.
Proof.
  intros Hi Hpc Hst. cbn in Hst. pose proof (tv_callback _ Hi _ _ Hpc eq_refl) as ->.
  pose proof (tv_mutex _ Hi _ _ Hpc eq_refl) as Hmx. simplify_eq.
  pose proof (tv_sent _ Hi) as (ex & Hex & Hsub). rewrite Hpc in Hex. cbn in Hex.
  pose proof (lookup_lt_Some _ _ _ Hpc) as Hlt.
  destruct (mutex_move s (at_pc 0 (c_pop q_lock) (execute c s)) 0 _ (c_pop q_lock)
      Hi Hpc) as (? & ? & ?); try done. split; [|done..|].
  - eapply (queued_outside s _ 0 _ (c_pop q_lock) (tv_queue _ Hi) Hpc); try done. right. eauto.
  - exists (ex ++ [c]). cbn. rewrite list_lookup_insert_eq by done. cbn. rewrite app_nil_r.
    split; [done|]. unfold executed_ok in *. cbn. destruct steady.
    { destruct Hsub as [-> ->]. done. }
    destruct (t_valid s); [by apply sublist_app|by apply sublist_inserts_r].
Qed.

Lemma thread_step_inv s i pc s' :
  t_inv s → t_threads s !! i = Some pc → thread_step i pc s = Some s' → t_inv s'.
Proof.
  intros Hi Hpc Hst. pose proof (tv_mutex _ Hi _ _ Hpc) as Hmx.
  pose proof (tv_callback _ Hi _ _ Hpc) as Hcb.
  destruct pc as [|c q| | | | | |q|c|]; [done|by eapply push_step_inv| | | | | |
    by eapply pop_step_inv|by eapply execute_step_inv|]; cbn in Hst.
  all: unfold lock_guard in Hst; repeat case_match; simplify_eq;
    (eapply t_inv_plain; [exact Hi|exact Hpc|cbn; reflexivity|..]); cbn; eauto; try done.
  all: try (by right; eauto).
Qed.

Lemma t_step_inv l s s' :
  t_inv s → (steady = true → l ≠ l_valid false) → t_step l s = Some s' → t_inv s'.
Proof.
  intros Hi Hl Hst. destruct l as [i c| |i|b|b]; cbn in Hst.
  - destruct (t_threads s !! i) as [[]|] eqn:Hpc; simplify_eq.
    destruct (t_valid s); [|done].
    eapply t_inv_plain; [exact Hi|exact Hpc|cbn; reflexivity|..]; cbn; eauto; done.
  - destruct (t_threads s !! 0) as [[]|] eqn:Hpc; try done. case_match; simplify_eq.
    eapply t_inv_plain; [exact Hi|exact Hpc|cbn; reflexivity|..]; cbn; eauto; done.
  - destruct (t_threads s !! i) as [pc|] eqn:Hpc; [|done]. by eapply thread_step_inv.
  - simplify_eq. destruct Hi. by split.
  - simplify_eq. destruct Hi as [? ? ? ? (ex & Hex & Hs)]. split; try done.
    exists ex. split; [done|]. unfold executed_ok in *. cbn. destruct steady; [|done].
    destruct b; [by destruct Hs|by destruct (Hl eq_refl)].
Qed.

(** *** No lost wake-up *)

Lemma queue_move s i pc o q next cs :
  t_inv s → t_threads s !! i = Some pc → place pc = Some (o, q) →
  q_step i o q (t_commands s) = Some (next, cs) →
  q_move o q (the_queue (t_commands s)) next (the_queue cs).
Proof.
  intros Hi Hpc Hp Hq. destruct (tv_queue _ Hi) as (q0 & Hg & _).
  eapply guarded_move; [exact Hg| |exact Hq]. unfold inside. by rewrite Hpc.
Qed.

(** Thread [i] moves; it sends the event, is itself one that will look at the queue,
    or was not one before. *)
Lemma woken_move s s' i pc pc' :
  woken s → t_threads s !! i = Some pc → t_threads s' = <[i := pc']> (t_threads s) →
  t_running s' = true →
  (the_queue (t_commands s') ≠ [] →
   t_async_sent s' = true ∨ covers pc' = true ∨
   covers pc = false ∧ the_queue (t_commands s) ≠ [] ∧ t_async_sent s' = t_async_sent s) →
  woken s'.
Proof.
  intros [Hr Hw] Hpc Ht Hr' Hc. split; [done|]. intros Hq.
  pose proof (lookup_lt_Some _ _ _ Hpc) as Hlt.
  destruct (Hc Hq) as [?|[Hc'|(Hn & Hq' & Ha)]]; [by left| |].
  - right. exists i, pc'. by rewrite Ht, list_lookup_insert_eq.
  - rewrite Ha. destruct (Hw Hq') as [?|(j & pj & Hj & Hcj)]; [by left|].
    right. exists j, pj. split; [|done]. rewrite Ht, list_lookup_insert_ne; [done|].
    intros ->. rewrite Hpc in Hj. simplify_eq. congruence.
Qed.

Ltac woken_at Hw Hpc :=
  simplify_eq; (eapply woken_move; [exact Hw|exact Hpc|reflexivity|done|cbn]).

Lemma thread_step_woken s i pc s' :
  t_inv s → woken s → t_threads s !! i = Some pc → thread_step i pc s = Some s' → woken s'.
Proof.
  intros Hi Hw Hpc Hst. pose proof (proj1 Hw) as Hr.
  destruct pc as [|c q| | | | | |q|c|]; [done|..]; cbn in Hst; unfold lock_guard in Hst.
  - destruct (q_step _ _ _ _) as [[next cs]|] eqn:Hq; [|done].
    pose proof (queue_move _ _ _ _ _ _ _ Hi Hpc eq_refl Hq) as Hm.
    inversion Hm; subst; woken_at Hw Hpc; try (by auto);
      intros; right; right; split_and!; try done; congruence.
  - case_match; woken_at Hw Hpc; auto.
  - woken_at Hw Hpc; auto.
  - woken_at Hw Hpc; auto.
  - case_match; woken_at Hw Hpc; auto.
  - rewrite Hr in Hst. woken_at Hw Hpc; auto.
  - destruct (q_step _ _ _ _) as [[next cs]|] eqn:Hq; [|done].
    pose proof (queue_move _ _ _ _ _ _ _ Hi Hpc eq_refl Hq) as Hm.
    inversion Hm as [| | | | | | | | | |r]; subst; [..|destruct r]; woken_at Hw Hpc;
      try (by auto); intros; try (by right; right; split_and!; try done; congruence); congruence.
  - woken_at Hw Hpc; auto.
  - woken_at Hw Hpc; auto.
Qed.

Lemma t_step_woken l s s' :
  t_inv s → woken s → l ≠ l_running false → t_step l s = Some s' → woken s'.
Proof.
  intros Hi Hw Hl Hst. pose proof (proj1 Hw) as Hr. destruct l as [i c| |i|b|b]; cbn in Hst.
  - destruct (t_threads s !! i) as [[]|] eqn:Hpc; simplify_eq.
    destruct (t_valid s); [woken_at Hw Hpc; auto|done].
  - destruct (t_threads s !! 0) as [[]|] eqn:Hpc; try done. case_match; woken_at Hw Hpc; auto.
  - destruct (t_threads s !! i) as [pc|] eqn:Hpc; [|done]. by eapply thread_step_woken.
  - simplify_eq. destruct b; [|done]. by destruct Hw.
  - simplify_eq. by destruct Hw.
Qed.

(** *** Every run comes to an end *)

Lemma work_insert (ts : list Pc) i pc pc' :
  ts !! i = Some pc →
  sum_list (pc_work <$> <[i := pc']> ts) + pc_work pc = sum_list (pc_work <$> ts) + pc_work pc'.
Proof.
  revert i. induction ts as [|t ts IH]; intros [|i] Hi; simplify_eq/=; [lia|].
  specialize (IH _ Hi). lia.
Qed.

Lemma work_move s s' i pc pc' :
  t_threads s !! i = Some pc → t_threads s' = <[i := pc']> (t_threads s) →
  pc_work pc' + 6 * length (the_queue (t_commands s')) + (if t_async_sent s' then 7 else 0) <
  pc_work pc + 6 * length (the_queue (t_commands s)) + (if t_async_sent s then 7 else 0) →
  t_work s' < t_work s.
Proof.
  intros Hpc Ht Hw. unfold t_work. rewrite Ht. pose proof (work_insert _ _ _ pc' Hpc). lia.
Qed.

Lemma push_work c q l next l' :
  q_move (op_push c) q l next l' →
  match next with inl q' => q_work q' | inr _ => 10 end + 6 * length l' < q_work q + 6 * length l.
Proof. inversion 1; subst; rewrite ?length_app; cbn; lia. Qed.

Lemma pop_work q l next l' :
  q_move op_try_pop q l next l' →
  match next with
  | inl q' => pc_work (c_pop q')
  | inr (r_popped (Some _)) => 5
  | inr _ => 1
  end + 6 * length l' < pc_work (c_pop q) + 6 * length l.
Proof. inversion 1 as [| | | | | | | | | |[d|]]; subst; cbn; lia. Qed.

Ltac work_at Hpc :=
  simplify_eq; (eapply work_move; [exact Hpc|reflexivity|cbn -[Nat.mul] in *]).

Lemma internal_step_work l s s' :
  t_inv s → internal l → t_step l s = Some s' → t_work s' < t_work s.
Proof.
  intros Hi Hl Hst. destruct Hl as [->|[i ->]]; cbn in Hst.
  { destruct (t_threads s !! 0) as [[]|] eqn:Hpc; try done.
    destruct (t_async_sent s) eqn:Ha; work_at Hpc. rewrite Ha. lia. }
  destruct (t_threads s !! i) as [pc|] eqn:Hpc; [|done].
  destruct pc as [|c q| | | | | |q|c|]; [done|..]; cbn in Hst; unfold lock_guard in Hst.
  - destruct (q_step _ _ _ _) as [[next cs]|] eqn:Hq; [|done].
    pose proof (queue_move _ _ _ _ _ _ _ Hi Hpc eq_refl Hq) as Hm.
    apply push_work in Hm. destruct next; work_at Hpc; lia.
  - case_match; work_at Hpc; lia.
  - work_at Hpc. destruct (t_async_sent s); lia.
  - work_at Hpc; lia.
  - case_match; work_at Hpc; lia.
  - destruct (t_running s); work_at Hpc; lia.
  - destruct (q_step _ _ _ _) as [[next cs]|] eqn:Hq; [|done].
    pose proof (queue_move _ _ _ _ _ _ _ Hi Hpc eq_refl Hq) as Hm.
    apply pop_work in Hm. destruct next as [|[| |[|]]]; work_at Hpc; lia.
  - work_at Hpc; lia.
  - work_at Hpc; lia.
Qed.

(** The labels that leave the broker running and, if [steady], the connection valid. *)
Lemma t_run_inv ls s s' :
  t_inv s → (steady = true → l_valid false ∉ ls) → t_run ls s = Some s' → t_inv s'.
Proof.
  revert s. induction ls as [|l ls IH]; cbn; intros s Hi Hl Hr; [by simplify_eq|].
  destruct (t_step l s) as [s1|] eqn:Hs; [|done]. cbn in Hr. eapply (IH s1); [| |done].
  - eapply t_step_inv; [done| |done]. intros Ht. specialize (Hl Ht). set_solver.
  - intros Ht. specialize (Hl Ht). set_solver.
Qed.

Lemma t_run_woken ls s s' :
  t_inv s → woken s → l_running false ∉ ls → (steady = true → l_valid false ∉ ls) →
  t_run ls s = Some s' → woken s'.
Proof.
  revert s. induction ls as [|l ls IH]; cbn; intros s Hi Hw Hl Hv Hr; [by simplify_eq|].
  destruct (t_step l s) as [s1|] eqn:Hs; [|done]. cbn in Hr.
  apply not_elem_of_cons in Hl as [Hne Hl].
  assert (Hv' : steady = true → l ≠ l_valid false ∧ l_valid false ∉ ls)
    by (intros Ht; specialize (Hv Ht); set_solver).
  eapply (IH s1); [|by eapply t_step_woken|done|by apply Hv'|done].
  eapply t_step_inv; [done|by apply Hv'|done].
Qed.

Lemma internal_run_work ls s s' :
  t_inv s → Forall internal ls → t_run ls s = Some s' → length ls + t_work s' ≤ t_work s.
Proof.
  revert s. induction ls as [|l ls IH]; cbn; intros s Hi Hl Hr; [simplify_eq; lia|].
  destruct (t_step l s) as [s1|] eqn:Hs; [|done]. cbn in Hr.
  apply Forall_cons in Hl as [Hl Hls].
  pose proof (internal_step_work _ _ _ Hi Hl Hs).
  assert (Hi1 : t_inv s1).
  { eapply t_step_inv; [exact Hi| |exact Hs]. intros _ ->. by destruct Hl as [|[]]. }
  pose proof (IH s1 Hi1 Hls Hr). lia.
Qed.

Lemma t_step_length l s s' :
  t_step l s = Some s' → length (t_threads s') = length (t_threads s).
Proof.
  destruct l as [i c| |i|b|b]; cbn; intros Hst; try (by simplify_eq).
  - repeat case_match; simplify_eq; cbn; by rewrite ?length_insert.
  - repeat case_match; simplify_eq; cbn; by rewrite ?length_insert.
  - destruct (t_threads s !! i) as [pc|]; [|done]. cbn in Hst.
    destruct pc; cbn in Hst; unfold lock_guard in Hst; repeat case_match; simplify_eq; cbn;
      by rewrite ?length_insert.
Qed.

Lemma t_run_length ls s s' :
  t_run ls s = Some s' → length (t_threads s') = length (t_threads s).
Proof.
  revert s. induction ls as [|l ls IH]; cbn; intros s Hr; [by simplify_eq|].
  destruct (t_step l s) as [s1|] eqn:Hs; [|done]. cbn in Hr.
  by rewrite (IH _ Hr), (t_step_length _ _ _ Hs).
Qed.

Lemma new_threads_idle n j pc : t_threads (new_threads n) !! j = Some pc → pc = idle.
Proof. cbn [new_threads t_threads]. by intros [-> _]%lookup_replicate. Qed.

Lemma new_threads_inv n : t_inv (new_threads n).
Proof.
  split.
  - exists []. split; [|done]. split; [|done]. intros i o pc Hi. unfold inside in Hi.
    destruct (t_threads (new_threads n) !! i) as [p|] eqn:E; [|done].
    by rewrite (new_threads_idle _ _ _ E) in Hi.
  - intros i pc ->%new_threads_idle. done.
  - done.
  - intros i pc ->%new_threads_idle. done.
  - exists []. split; [done|]. unfold executed_ok. cbn. by destruct steady.
Qed.

(** When no thread can step, none is anywhere but idle. *)
Lemma stuck_idle s :
  t_inv s → (∀ i, t_step (l_run i) s = None) →
  the_mutex (t_commands s) = None ∧ ∀ i pc, t_threads s !! i = Some pc → pc = idle.
Proof.
  intros Hi Hstuck. destruct (tv_queue _ Hi) as (q0 & Hg & _).
  assert (Hst : ∀ i pc, t_threads s !! i = Some pc → thread_step i pc s = None).
  { intros i pc Hpc. specialize (Hstuck i). cbn in Hstuck. by rewrite Hpc in Hstuck. }
  destruct (guarded_enabled _ _ _ Hg) as [Hq Hnone].
  { intros i o pc Hin. unfold inside in Hin.
    destruct (t_threads s !! i) as [p|] eqn:Hp; [|done]. cbn in Hin. specialize (Hst _ _ Hp).
    destruct p; simplify_eq/=; unfold thread_step in Hst; cbn in Hst; by repeat case_match. }
  split; [done|].
  assert (Hout : ∀ i pc, t_threads s !! i = Some pc → place pc = None).
  { intros i pc Hpc. specialize (Hnone i). unfold inside in Hnone. by rewrite Hpc in Hnone. }
  assert (Hm : t_mutex s = None).
  { destruct (t_mutex s) as [k|] eqn:Hk; [|done].
    destruct (tv_holder _ Hi _ Hk) as (pc & Hpc & Hh).
    specialize (Hst _ _ Hpc). specialize (Hout _ _ Hpc). by destruct pc. }
  intros i pc Hpc. specialize (Hst _ _ Hpc). specialize (Hout _ _ Hpc).
  destruct pc; try done; cbn in Hst; unfold lock_guard in Hst; by rewrite Hm in Hst.
Qed.

End handover.
Arguments Pc : clear implicits.
Arguments TLabel : clear implicits.
Arguments Threads : clear implicits.

#[export] Instance TLabel_eq_dec `{EqDecision Cmd} : EqDecision (TLabel Cmd).
Proof. solve_decision. Defined.

(** *** The theorems *)

Section theorems.
Context {Cmd : Type}.
Implicit Types (ls : list (TLabel Cmd)) (s : Threads Cmd).

(** However many threads call [sendMessage] while the event loop runs [async_cb],
    in whatever interleaving, and whether the broker runs or the connection is
    valid: the commands are popped in the order in which they were pushed, each
    once; those that reach the connection do so in this order, and while the
    connection is never lost none is left out. *)
Theorem commands_fifo n ls s :
  t_run ls (new_threads n) = Some s →
  t_popped s `prefix_of` t_pushed s ∧ sublist (t_sent s) (t_popped s) ∧
  (l_valid false ∉ ls → t_sent s `prefix_of` t_popped s).
Proof.
  intros Hr. pose proof (t_run_inv false _ _ _ (new_threads_inv false n) ltac:(done) Hr) as Hi.
  destruct (tv_queue _ _ Hi) as (q0 & _ & Hq). destruct (tv_sent _ _ Hi) as (ex & Hex & Hs).
  split_and!.
  - rewrite Hq. by exists q0.
  - rewrite Hex. by apply sublist_inserts_r.
  - intros Hv.
    pose proof (t_run_inv true _ _ _ (new_threads_inv true n) (fun _ => Hv) Hr) as Hi'.
    destruct (tv_sent _ _ Hi') as (ex' & Hex' & _ & ->). rewrite Hex'. by eexists.
Qed.

(** C15: No wake-up is lost while the broker runs: left to themselves, the threads make
    at most [t_work] steps, whatever the order in which they are scheduled, and when
    none of them can make another one, every command that was pushed has been popped
    (and handed to the connection, if that was never lost), no thread waits for a
    mutex and the queue is empty. *)
Theorem no_command_stranded n ls s :
  t_run ls (new_threads n) = Some s → l_running false ∉ ls →
  (∀ ls' s', Forall internal ls' → t_run ls' s = Some s' → length ls' ≤ t_work s) ∧
  ((∀ l, internal l → t_step l s = None) →
   t_popped s = t_pushed s ∧ the_queue (t_commands s) = [] ∧
   (∀ i pc, t_threads s !! i = Some pc → pc = idle) ∧
   (l_valid false ∉ ls → t_sent s = t_pushed s)).
Proof.
  intros Hr Hl. pose proof (t_run_inv false _ _ _ (new_threads_inv false n) ltac:(done) Hr) as Hi.
  split.
  { intros ls' s' Hint Hr'. pose proof (internal_run_work _ _ _ _ Hi Hint Hr'). lia. }
  intros Hstuck.
  destruct (stuck_idle _ _ Hi) as [Hm Hidle]; [intros i; apply Hstuck; right; by exists i|].
  assert (Hw : woken s).
  { eapply (t_run_woken false); [apply new_threads_inv| |exact Hl|done|exact Hr]. by split. }
  assert (Hq : the_queue (t_commands s) = []).
  { destruct (the_queue (t_commands s)) as [|c q] eqn:E; [done|]. exfalso.
    destruct (proj2 Hw) as [Ha|(j & pc & Hj & Hc)]; [congruence| |by rewrite (Hidle _ _ Hj) in Hc].
    specialize (Hstuck l_wake (or_introl eq_refl)). cbn in Hstuck.
    destruct (t_threads s !! 0) as [pc|] eqn:H0.
    - rewrite (Hidle _ _ H0), Ha in Hstuck. done.
    - pose proof (t_run_length _ _ _ Hr) as Hlen. apply lookup_ge_None in H0. cbn in Hlen.
      rewrite length_replicate in Hlen. lia. }
  destruct (tv_queue _ _ Hi) as (q0 & [_ Hg] & Hpq). rewrite Hm in Hg.
  assert (t_popped s = t_pushed s) as Hpp by (rewrite Hpq, <-Hg, Hq, app_nil_r; done).
  split_and!; try done. intros Hv. rewrite <-Hpp.
  pose proof (t_run_inv true _ _ _ (new_threads_inv true n) (fun _ => Hv) Hr) as Hi'.
  destruct (tv_sent _ _ Hi') as (ex & -> & _ & ->).
  destruct (t_threads s !! 0) as [pc|] eqn:H0; [rewrite (Hidle _ _ H0)|]; cbn; by rewrite app_nil_r.
Qed.
End theorems.

(** ** A session *)

Module CommandQueueSession.
#[local] Open Scope string_scope.

(** Thread 1 asks for an element while thread 0 is pushing one. *)
Definition two_threads : list (QLabel string) :=
  l_call 0 (op_push "a") :: l_call 1 op_try_pop :: replicate 4 (l_step 0) ++
  replicate 5 (l_step 1).

Lemma concurrent_queue_linearizable_witness :
  ∃ s, sys_run two_threads (new_system 2) = Some s ∧
       sys_log s = [(op_push "a", r_unit); (op_try_pop, r_popped (Some "a"))] ∧
       ∃ q, atomic_history [] (sys_log s) q ∧
            (the_mutex (sys_queue s) = None → the_queue (sys_queue s) = q).
Proof.
  eexists. split; [vm_compute; reflexivity|]. split; [reflexivity|].
  apply (concurrent_queue_linearizable 2 two_threads). vm_compute. reflexivity.
Defined.

(** Threads 1 and 2 send a command each; thread 2 sends the event only after the
    loop has taken both commands, so the loop is called a second time for nothing. *)
Definition two_senders : list (TLabel string) :=
  l_send 1 "a" :: replicate 4 (l_run 1) ++ l_send 2 "b" :: replicate 4 (l_run 2) ++
  replicate 3 (l_run 1) ++ l_wake :: replicate 18 (l_run 0) ++
  replicate 3 (l_run 2) ++ l_wake :: replicate 6 (l_run 0).

Lemma commands_fifo_witness :
  ∃ s, t_run two_senders (new_threads 2) = Some s ∧ t_sent s = ["a"; "b"] ∧
       t_popped s `prefix_of` t_pushed s.
Proof.
  eexists. split; [vm_compute; reflexivity|]. split; [reflexivity|].
  apply (commands_fifo 2 two_senders). vm_compute. reflexivity.
Defined.

Lemma no_command_stranded_witness :
  ∃ s, t_run two_senders (new_threads 2) = Some s ∧ t_sent s = t_pushed s ∧
       t_pushed s = ["a"; "b"].
Proof.
  eexists. split; [vm_compute; reflexivity|]. split; [|reflexivity].
  eapply (no_command_stranded 2 two_senders);
    [vm_compute; reflexivity|apply (bool_decide_unpack _); vm_compute; exact I| |
     apply (bool_decide_unpack _); vm_compute; exact I].
  intros l [->|[i ->]]; [reflexivity|]. by destruct i as [|[|[|i]]].
Defined.

(** The broker has to run: a command that the event loop finds while the broker is
    stopped stays in the queue when it is started again, until the next one. *)
Example stopped_broker_strands :
  ∃ s, t_run (l_send 1 "a" :: replicate 7 (l_run 1) ++ l_running false :: l_wake ::
              replicate 3 (l_run 0) ++ [l_running true]) (new_threads 1) = Some s ∧
       (∀ l, internal l → t_step l s = None) ∧ the_queue (t_commands s) = ["a"].
Proof.
  eexists. split; [vm_compute; reflexivity|]. split; [|reflexivity].
  intros l [->|[i ->]]; [reflexivity|]. by destruct i as [|[|i]].
Qed.
End CommandQueueSession.
