(* ===== verification/MessageBroker.v ===== *)
(** * MessageBroker: message_broker.cpp, and the callbacks of
    message_broker_redis.cpp

    [Message] is what travels over Redis: a target, a source, a channel to reply
    to and a payload, in a JSON envelope ([Json.v]).

    The second part is the input side of a channel: the queue of [BRPOP]
    commands, [async_cb] which hands them to Redis, [BaseAsyncHandler::onReply]
    which turns a reply into a message, and [RedisChannelCallback::onInput] which
    delivers it and polls again. *)

From Stdlib Require Import SpecFloat.
From S2P Require Import Prelude StoutStrings Url Broker Binary64 Assoc Json.
#[local] Open Scope string_scope.
#[local] Open Scope list_scope.
#[local] Open Scope Z_scope.

(** ** The class [Message] *)

Inductive PayloadType := JSON | PROTOBUF.
#[export] Instance PayloadType_eq_dec : EqDecision PayloadType.
Proof. solve_decision. Defined.

Inductive Type_ := ERROR | NIL | VALID.
#[export] Instance Type_eq_dec : EqDecision Type_.
Proof. solve_decision. Defined.

Record Message := mkMessage {
  payload_ : string;
  payloadJson_ : Json;
  extPayload_ : Json;
  target_ : string;
  sourceId_ : string;
  replyTo_ : string;
  payloadType_ : PayloadType;
  messageType_ : Type_ }.

(** The default constructor, and the one that takes a payload type. *)
Definition Message_of_type (t : PayloadType) : Message :=
  mkMessage "" JNull JNull "" "" "" t ERROR.
Definition Message_default : Message := Message_of_type JSON.

(** [setPayloadType] does not store the type: it only clears the text when the
    type changes from PROTOBUF. *)
Definition setPayloadType (t : PayloadType) (m : Message) : Message :=
  if decide (t = payloadType_ m) then m
  else match payloadType_ m with
       | JSON => m
       | PROTOBUF => mkMessage "" (payloadJson_ m) (extPayload_ m) (target_ m) (sourceId_ m)
                               (replyTo_ m) (payloadType_ m) (messageType_ m)
       end.

Definition setPayload (j : Json) (m : Message) : Message :=
  mkMessage (payload_ m) j (extPayload_ m) (target_ m) (sourceId_ m) (replyTo_ m)
            (payloadType_ m) (messageType_ m).
Definition setExtPayload (j : Json) (m : Message) : Message :=
  mkMessage (payload_ m) (payloadJson_ m) j (target_ m) (sourceId_ m) (replyTo_ m)
            (payloadType_ m) (messageType_ m).
Definition setTarget (s : string) (m : Message) : Message :=
  mkMessage (payload_ m) (payloadJson_ m) (extPayload_ m) s (sourceId_ m) (replyTo_ m)
            (payloadType_ m) (messageType_ m).
Definition setSourceId (s : string) (m : Message) : Message :=
  mkMessage (payload_ m) (payloadJson_ m) (extPayload_ m) (target_ m) s (replyTo_ m)
            (payloadType_ m) (messageType_ m).
Definition setReplyTo (s : string) (m : Message) : Message :=
  mkMessage (payload_ m) (payloadJson_ m) (extPayload_ m) (target_ m) (sourceId_ m) s
            (payloadType_ m) (messageType_ m).
Definition setType (t : Type_) (m : Message) : Message :=
  mkMessage (payload_ m) (payloadJson_ m) (extPayload_ m) (target_ m) (sourceId_ m) (replyTo_ m)
            (payloadType_ m) t.

Definition getTypeStr (m : Message) : string :=
  match messageType_ m with ERROR => "ERROR" | VALID => "VALID" | NIL => "NIL" end.

(** [Message(Json::Value)]. *)
Definition Message_of_json `{JsonText} (json : Json) : outcome Message :=
  let m := Message_default in
  target ← json_get "target" (JString "") json ≫= asString;
  let m := setTarget target m in
  source ← json_get "source_id" (JString "") json ≫= asString;
  let m := setSourceId source m in
  reply ← json_get "reply_to" (JString "") json ≫= asString;
  let m := setReplyTo reply m in
  ext ← isMember "ext_payload" json;
  m ← (if (ext : bool) then j ← json_index "ext_payload" json; Ok (setExtPayload j m) else Ok m);
  payload ← json_index "payload" json;
  Ok (setPayloadType JSON (setPayload payload m)).

Section text.
Context `{JsonText}.

(** [setPayload(const std::string&)]. *)
Definition setPayload_text (data : string) (m : Message) : Message :=
  let j := match payloadType_ m with JSON => json_parse data | PROTOBUF => payloadJson_ m end in
  mkMessage data j (extPayload_ m) (target_ m) (sourceId_ m) (replyTo_ m)
            (payloadType_ m) (messageType_ m).

(** [getPayloadAsString], which also stores the text it returns. *)
Definition getPayloadAsString (m : Message) : string * Message :=
  let text := match payloadType_ m with
              | JSON => json_write (payloadJson_ m)
              | PROTOBUF => payload_ m
              end in
  (text, mkMessage text (payloadJson_ m) (extPayload_ m) (target_ m) (sourceId_ m) (replyTo_ m)
                   (payloadType_ m) (messageType_ m)).

(** The members that [toNetworkMessage] assigns, in its order. *)
Definition network_members (m : Message) : list (string * Json) :=
  [("target", JString (target_ m)); ("source_id", JString (sourceId_ m));
   ("ext_payload", extPayload_ m)] ++
  match payloadType_ m with
  | JSON => [("payload", payloadJson_ m); ("payload_type", JString "json")]
  | PROTOBUF => [("payload_type", JString "protobuf"); ("payload", JString (payload_ m))]
  end ++
  (if String.eqb (replyTo_ m) "" then [] else [("reply_to", JString (replyTo_ m))]).

Definition network_root (m : Message) : Json :=
  JObject (foldl (fun l '(k, v) => set_member k v l) [] (network_members m)).

Definition toNetworkMessage (m : Message) : string := json_write (network_root m).

(** ** Round trip *)

(** The members of the envelope, in the order of their keys. *)
Lemma network_root_eq m :
  network_root m = JObject
    ([("ext_payload", extPayload_ m);
      ("payload", match payloadType_ m with JSON => payloadJson_ m | PROTOBUF => JString (payload_ m) end);
      ("payload_type", JString (match payloadType_ m with JSON => "json" | PROTOBUF => "protobuf" end))] ++
     (if String.eqb (replyTo_ m) "" then [] else [("reply_to", JString (replyTo_ m))]) ++
     [("source_id", JString (sourceId_ m)); ("target", JString (target_ m))]).
Proof.
  unfold network_root, network_members.
  by destruct (payloadType_ m), (String.eqb (replyTo_ m) "").
Qed.

(** The envelope as the reader sees it. *)
Lemma network_root_find m :
  Json.find "target" (network_root m) = Ok (Some (JString (target_ m))) ∧
  Json.find "source_id" (network_root m) = Ok (Some (JString (sourceId_ m))) ∧
  Json.find "ext_payload" (network_root m) = Ok (Some (extPayload_ m)) ∧
  Json.find "reply_to" (network_root m) =
    Ok (if String.eqb (replyTo_ m) "" then None else Some (JString (replyTo_ m))) ∧
  Json.find "payload" (network_root m) =
    Ok (Some (match payloadType_ m with JSON => payloadJson_ m | PROTOBUF => JString (payload_ m) end)).
Proof. rewrite network_root_eq. by destruct (String.eqb (replyTo_ m) ""). Qed.

Lemma network_root_wf m :
  sendable (payloadJson_ m) = true → sendable (extPayload_ m) = true →
  json_wf (network_root m) = true ∧ (json_depth (network_root m) ≤ stackLimit)%nat.
Proof.
  intros Hp He. rewrite network_root_eq.
  set (q := match payloadType_ m with JSON => payloadJson_ m | _ => _ end).
  assert (Hq : sendable q = true) by (by unfold q; destruct (payloadType_ m)).
  clearbody q. clear Hp. apply sendable_spec in Hq as [Hq Dq], He as [He De].
  destruct (String.eqb (replyTo_ m) ""); cbn -[stackLimit]; rewrite Hq, He;
    split; try done; unfold stackLimit in *; lia.
Qed.

(** What [Message(Json::Value)] makes of the text of a message. *)
Definition received (m : Message) : Message :=
  mkMessage ""
    (match payloadType_ m with JSON => payloadJson_ m | PROTOBUF => JString (payload_ m) end)
    (extPayload_ m) (target_ m) (sourceId_ m) (replyTo_ m) JSON ERROR.

Lemma message_received `{!JsonTextLaws} m :
  sendable (payloadJson_ m) = true → sendable (extPayload_ m) = true →
  Message_of_json (json_parse (toNetworkMessage m)) = Ok (received m).
Proof.
  intros Hp He. unfold toNetworkMessage.
  rewrite json_parse_write by (by apply network_root_wf).
  destruct (network_root_find m) as (Ht & Hs & Hx & Hr & Hpl).
  unfold Message_of_json, json_get, isMember, json_index, received.
  rewrite Ht, Hs, Hx, Hr, Hpl. cbn.
  destruct (String.eqb_spec (replyTo_ m) "") as [->|_]; done.
Qed.

(** What [Message(Json::Value)] makes of a message that came over the network is
    the message that was sent: its target, source, reply channel and both
    payloads.  A PROTOBUF payload arrives as a JSON string. *)
Theorem message_roundtrip `{!JsonTextLaws} m :
  sendable (payloadJson_ m) = true → sendable (extPayload_ m) = true →
  Message_of_json (json_parse (toNetworkMessage m)) =
  Ok (mkMessage ""
        (match payloadType_ m with JSON => payloadJson_ m | PROTOBUF => JString (payload_ m) end)
        (extPayload_ m) (target_ m) (sourceId_ m) (replyTo_ m) JSON ERROR).
Proof. apply message_received. Qed.

End text.

(** ** Replies of Redis *)

(** [redis3m::reply]. *)
Inductive Reply :=
  | ReplyString (s : string)
  | ReplyArray (elements : list Reply)
  | ReplyInteger (z : Z)
  | ReplyNil
  | ReplyStatus (s : string)
  | ReplyError (s : string).

(** [reply::str()]: the text of a reply that has one. *)
Definition reply_str (r : Reply) : string :=
  match r with
  | ReplyString s | ReplyStatus s | ReplyError s => s
  | _ => ""
  end.

Section reply.
Context `{JsonText}.

Definition redisReply_json (r : Reply) : Json := json_parse (reply_str r).

(** What [BaseAsyncHandler::onReply] makes of a reply: an array of two is the
    answer of [BRPOP], whose second element is the text of a message. *)
Definition onReply (r : Reply) : outcome Message :=
  let '(t, j) :=
    match r with
    | ReplyArray [_; e] => (VALID, redisReply_json e)
    | ReplyString _ => (VALID, redisReply_json r)
    | ReplyNil => (NIL, json_parse (toNetworkMessage Message_default))
    | _ => (ERROR, json_parse (toNetworkMessage Message_default))
    end in
  m ← Message_of_json j; Ok (setType t m).

End reply.

(** ** The input side of a channel *)

Section polling.
Context {Msg : Type} `{JsonText} `{Redis}.

(** What the user's callback does with the broker. *)
Inductive PollOp :=
  | po_register
  | po_unregister
  | po_write (m : Msg)
  | po_setUrl (url : string)
  | po_shutdown.

(** A channel and its broker; [in_flight] are the commands given to Redis and not
    yet answered, [registrations] counts the calls of [registerInputCallback],
    [delivered] is what the user's callback received. *)
Record Poll := mkPoll {
  p_broker : Broker Msg;
  p_channel : Channel;
  in_flight : list string;
  registrations : nat;
  delivered : list Message }.

Definition poll_op (p : Poll) (o : PollOp) : Poll :=
  match o with
  | po_register =>
      let '(c, b) := registerInputCallback (p_channel p) (p_broker p) in
      mkPoll b c (in_flight p) (S (registrations p)) (delivered p)
  | po_unregister =>
      (* [delete_channel] resets the callback *)
      let c := p_channel p in
      mkPoll (p_broker p) (mkChannel (ch_name c) false (ch_heartbeat c) (ch_heartbeats c))
             (in_flight p) (registrations p) (delivered p)
  | po_write m => mkPoll (write m (p_broker p)) (p_channel p) (in_flight p) (registrations p)
                         (delivered p)
  | po_setUrl url => mkPoll (setUrl url (p_broker p)).2 (p_channel p) (in_flight p)
                            (registrations p) (delivered p)
  | po_shutdown => mkPoll (shutdown (p_broker p)) (p_channel p) (in_flight p) (registrations p)
                          (delivered p)
  end.

(** [async_cb]: pop every command and hand it to the connection while that is
    valid, as [valid] says for the n-th one. *)
Fixpoint execute_all (valid : nat → bool) (cs : list string) : list string :=
  match cs with
  | [] => []
  | c :: cs' =>
      let rest := execute_all (fun n => valid (S n)) cs' in
      if valid 0%nat then c :: rest else rest
  end.

Definition set_commands (cs : list string) (b : Broker Msg) : Broker Msg :=
  mkBroker (isRunning_ b) (ha_ b) (redisServer_ b) (redisPort_ b) (redisPath_ b)
           (endpointIdStr_ b) (conn_ b) (attempts b) cs (written b).

Definition async_cb (valid : nat → bool) (p : Poll) : Poll :=
  if isRunning_ (p_broker p) then
    mkPoll (set_commands [] (p_broker p)) (p_channel p)
           (in_flight p ++ execute_all valid (commands_ (p_broker p)))
           (registrations p) (delivered p)
  else p.

Section callback.
Context (user : Message → list PollOp).

(** [RedisChannelCallback::onInput]. *)
Definition channel_onInput (m : Message) (p : Poll) : Poll :=
  if isRunning_ (p_broker p) then
    if ch_callback (p_channel p) then
      let p := if decide (messageType_ m = NIL) then p
               else foldl poll_op
                      (mkPoll (p_broker p) (p_channel p) (in_flight p) (registrations p)
                              (delivered p ++ [m]))
                      (user m) in
      mkPoll (queue_command (ch_name (p_channel p)) (p_broker p)) (p_channel p) (in_flight p)
             (registrations p) (delivered p)
    else p
  else p.

(** Redis answers one of the commands in flight. *)
Definition reply_event (i : nat) (r : Reply) (p : Poll) : outcome Poll :=
  m ← onReply r;
  Ok (channel_onInput m
        (mkPoll (p_broker p) (p_channel p) (delete i (in_flight p)) (registrations p)
                (delivered p))).

Inductive PollEvent :=
  | pe_op (o : PollOp)
  | pe_async (valid : nat → bool)
  | pe_reply (i : nat) (r : Reply).

Definition poll_event (e : PollEvent) (p : Poll) : outcome Poll :=
  match e with
  | pe_op o => Ok (poll_op p o)
  | pe_async valid => Ok (async_cb valid p)
  | pe_reply i r => reply_event i r p
  end.

(** A reply needs a command in flight. *)
Definition poll_enabled (e : PollEvent) (p : Poll) : Prop :=
  match e with pe_reply i _ => (i < length (in_flight p))%nat | _ => True end.

Definition new_poll (name : string) (b : Broker Msg) : Poll :=
  mkPoll b (createChannel name b) [] 0 [].

(** Runs in which every event is an allowed one. *)
Inductive poll_run (allowed : PollEvent → Prop) (p0 : Poll) : Poll → Prop :=
  | poll_run_refl : poll_run allowed p0 p0
  | poll_run_step e p p' :
      poll_run allowed p0 p → allowed e → poll_enabled e p → poll_event e p = Ok p' →
      poll_run allowed p0 p'.

(** ** How many polls are outstanding *)

Definition outstanding (p : Poll) : nat :=
  (length (commands_ (p_broker p)) + length (in_flight p))%nat.

Lemma execute_all_length valid cs : (length (execute_all valid cs) ≤ length cs)%nat.
Proof.
  revert valid. induction cs as [|c cs IH]; intros valid; cbn; [done|].
  specialize (IH (fun n => valid (S n))). case_if; cbn; lia.
Qed.

Lemma queue_command_length name (b : Broker Msg) :
  (length (commands_ (queue_command name b)) ≤ S (length (commands_ b)))%nat.
Proof. unfold queue_command. case_if; cbn; rewrite ?length_app; cbn; lia. Qed.

Lemma setUrl_commands url (b : Broker Msg) : commands_ (setUrl url b).2 = commands_ b.
Proof. unfold setUrl, reconnect, connect, select_server. repeat (case_match; simplify_eq/=; try done). Qed.

Lemma poll_op_bound k p o :
  (outstanding p + k ≤ registrations p)%nat →
  (outstanding (poll_op p o) + k ≤ registrations (poll_op p o))%nat.
Proof.
  unfold outstanding. destruct o; cbn; intros Hb; try done.
  - pose proof (queue_command_length (ch_name (p_channel p)) (p_broker p)). lia.
  - unfold write. case_if; cbn; lia.
  - rewrite setUrl_commands. lia.
Qed.

Lemma poll_ops_bound k ops p :
  (outstanding p + k ≤ registrations p)%nat →
  (outstanding (foldl poll_op p ops) + k ≤ registrations (foldl poll_op p ops))%nat.
Proof.
  revert p. induction ops as [|o ops IH]; intros p Hb; cbn; [done|]. by apply IH, poll_op_bound.
Qed.

Lemma channel_onInput_bound m p :
  (outstanding p + 1 ≤ registrations p)%nat →
  (outstanding (channel_onInput m p) ≤ registrations (channel_onInput m p))%nat.
Proof.
  intros Hb. unfold channel_onInput. case_if; [|lia]. case_if; [|lia].
  set (p' := if decide _ then p else _).
  assert (Hp' : (outstanding p' + 1 ≤ registrations p')%nat).
  { unfold p'. case_decide; [done|]. by apply poll_ops_bound. }
  unfold outstanding in *. cbn.
  pose proof (queue_command_length (ch_name (p_channel p')) (p_broker p')). lia.
Qed.

Lemma length_delete_lt {A} (i : nat) (l : list A) :
  (i < length l)%nat → (length (delete i l) + 1 = length l)%nat.
Proof. intros Hi. rewrite length_delete by (by apply lookup_lt_is_Some). lia. Qed.

(** However often the channel is registered, replies arrive and commands are
    dropped on a lost connection: there are never more polls queued or waiting at
    Redis than [registerInputCallback] was called. *)
Theorem polls_bounded_by_registrations allowed name b p :
  commands_ b = [] → poll_run allowed (new_poll name b) p →
  (outstanding p ≤ registrations p)%nat.
Proof.
  intros Hb. induction 1 as [|e p p' _ IH _ Hen He]; [unfold outstanding; cbn; by rewrite Hb|].
  destruct e as [o|valid|i rep]; cbn in *.
  - simplify_eq. pose proof (poll_op_bound 0 p o). lia.
  - simplify_eq. unfold async_cb, outstanding in *. case_if; cbn; [|lia]. rewrite length_app.
    pose proof (execute_all_length valid (commands_ (p_broker p))). lia.
  - unfold reply_event in He. outcome_inv. apply channel_onInput_bound.
    unfold outstanding in *. cbn. pose proof (length_delete_lt _ _ Hen). lia.
Qed.

(** ** No poll is lost while the connection holds *)

Definition benign_op (o : PollOp) : Prop :=
  match o with po_unregister | po_shutdown => False | _ => True end.

Definition benign (e : PollEvent) : Prop :=
  match e with
  | pe_op o => benign_op o
  | pe_async valid => ∀ n, valid n = true
  | pe_reply _ _ => True
  end.

(** [k] polls are missing: those whose reply is being handled. *)
Record polling (k : nat) (p : Poll) : Prop := mkPolling {
  polling_running : isRunning_ (p_broker p) = true;
  polling_conn : conn_ (p_broker p) = true;
  polling_callback : (0 < registrations p)%nat → ch_callback (p_channel p) = true;
  polling_count : (outstanding p + k = registrations p)%nat }.

Lemma execute_all_valid valid cs : (∀ n, valid n = true) → execute_all valid cs = cs.
Proof.
  revert valid. induction cs as [|c cs IH]; intros valid Hv; cbn; [done|].
  rewrite Hv, IH by (intros; apply Hv). done.
Qed.

Lemma setUrl_running_conn url (b : Broker Msg) :
  isRunning_ b = true → conn_ b = true →
  isRunning_ (setUrl url b).2 = true ∧ conn_ (setUrl url b).2 = true.
Proof. intros Hr Hc. unfold setUrl. rewrite Hr. unfold reconnect. by case_match. Qed.

Section valid.
Context (Hvalid : ∀ n k, redis_valid n k = true).

Lemma queue_command_valid name (b : Broker Msg) :
  conn_ b = true →
  length (commands_ (queue_command name b)) = S (length (commands_ b)) ∧
  isRunning_ (queue_command name b) = isRunning_ b ∧ conn_ (queue_command name b) = conn_ b.
Proof.
  intros Hc. unfold queue_command. rewrite Hc, Hvalid. cbn. rewrite length_app. cbn.
  split_and!; [lia|done|done].
Qed.

Lemma poll_op_polling k p o : benign_op o → polling k p → polling k (poll_op p o).
Proof.
  intros Hb [Hr Hc Hcb Hn]. unfold outstanding in *. destruct o; cbn in *; try done.
  - destruct (queue_command_valid (ch_name (p_channel p)) (p_broker p) Hc) as (Hl & Hr' & Hc').
    split; unfold outstanding; cbn; rewrite ?Hr', ?Hc', ?Hl; try done. lia.
  - unfold write. rewrite Hr. by split.
  - destruct (setUrl_running_conn url (p_broker p) Hr Hc).
    split; unfold outstanding; cbn; rewrite ?setUrl_commands; done.
Qed.

Lemma poll_ops_polling k ops p :
  Forall benign_op ops → polling k p → polling k (foldl poll_op p ops).
Proof.
  intros Hb. revert p. induction Hb as [|o ops Ho _ IH]; intros p Hp; cbn; [done|].
  by apply IH, poll_op_polling.
Qed.

Lemma channel_onInput_polling m p :
  Forall benign_op (user m) → polling 1 p → polling 0 (channel_onInput m p).
Proof.
  intros Hu Hp. unfold channel_onInput. rewrite (polling_running _ _ Hp).
  rewrite (polling_callback _ _ Hp) by (pose proof (polling_count _ _ Hp); lia).
  set (p' := if decide _ then p else _).
  assert (Hp' : polling 1 p').
  { unfold p'. case_decide; [done|]. apply poll_ops_polling; [done|]. destruct Hp. by split. }
  destruct Hp' as [Hr Hc Hcb Hn].
  destruct (queue_command_valid (ch_name (p_channel p')) (p_broker p') Hc) as (Hl & Hr' & Hc').
  split; unfold outstanding in *; cbn; rewrite ?Hr', ?Hc', ?Hl; try done. lia.
Qed.

Lemma poll_event_polling e p p' :
  (∀ m, Forall benign_op (user m)) → benign e → poll_enabled e p → polling 0 p →
  poll_event e p = Ok p' → polling 0 p'.
Proof.
  intros Hu Hal Hen Hp He. destruct e as [o|valid|i rep]; cbn in *.
  - simplify_eq. by apply poll_op_polling.
  - simplify_eq. destruct Hp as [Hr Hc Hcb Hn]. unfold async_cb. rewrite Hr.
    split; unfold outstanding in *; cbn; try done.
    rewrite length_app, execute_all_valid by done. lia.
  - unfold reply_event in He. outcome_inv. apply channel_onInput_polling; [done|].
    destruct Hp as [Hr Hc Hcb Hn]. split; unfold outstanding in *; cbn; try done.
    pose proof (length_delete_lt _ _ Hen). lia.
Qed.

Lemma poll_run_polling name b p :
  commands_ b = [] → isRunning_ b = true → conn_ b = true →
  (∀ m, Forall benign_op (user m)) → poll_run benign (new_poll name b) p → polling 0 p.
Proof.
  intros Hb Hr Hc Hu. induction 1 as [|e p p' _ IH Hal Hen He].
  - split; unfold outstanding; cbn; rewrite ?Hb; try done. lia.
  - by eapply poll_event_polling.
Qed.

(** C24: While the connection holds and nobody shuts the broker down, no poll is ever
    lost: every registration keeps exactly one poll queued or waiting, for ever.
    In particular each further registration of the same channel, as every
    re-registration of a framework makes one, adds a poll to the others. *)
Theorem every_registration_polls name b p :
  commands_ b = [] → isRunning_ b = true → conn_ b = true →
  (∀ m, Forall benign_op (user m)) →
  poll_run benign (new_poll name b) p →
  outstanding p = registrations p ∧ isRunning_ (p_broker p) = true.
Proof.
  intros Hb Hr Hc Hu Hrun.
  destruct (poll_run_polling name b p Hb Hr Hc Hu Hrun) as [Hr' _ _ Hn]. split; [lia|done].
Qed.

End valid.

(** ** Delivery *)

Lemma poll_op_delivered p o : delivered (poll_op p o) = delivered p.
Proof. by destruct o. Qed.

Lemma poll_ops_delivered ops p : delivered (foldl poll_op p ops) = delivered p.
Proof.
  revert p. induction ops as [|o ops IH]; intros p; cbn; [done|].
  by rewrite IH, poll_op_delivered.
Qed.

(** What a reply becomes: the answer of [BRPOP] is delivered as the message in
    it, once; a timeout is not delivered; anything else is delivered as an error
    with an empty target.  Nothing is delivered on a broker that is shut down. *)
Theorem reply_delivery `{!JsonTextLaws} p i r p' :
  reply_event i r p = Ok p' →
  delivered p' = delivered p ++
    (if isRunning_ (p_broker p) && ch_callback (p_channel p) then
       match r with
       | ReplyNil => []
       | ReplyArray [_; e] =>
           match Message_of_json (json_parse (reply_str e)) with
           | Ok m => [setType VALID m]
           | _ => []
           end
       | ReplyString s =>
           match Message_of_json (json_parse s) with Ok m => [setType VALID m] | _ => [] end
       | _ => [Message_default]
       end
     else []).
Proof.
  assert (Hd : Message_of_json (json_parse (toNetworkMessage Message_default)) = Ok Message_default)
    by (unfold toNetworkMessage; rewrite json_parse_write by (by apply network_root_wf); done).
  unfold reply_event. intros He. apply bind_Ok in He as (m & Hm & He). injection He as <-.
  assert (Hone : delivered (channel_onInput m
      (mkPoll (p_broker p) (p_channel p) (delete i (in_flight p)) (registrations p) (delivered p)))
    = delivered p ++ (if isRunning_ (p_broker p) && ch_callback (p_channel p)
                      then (if decide (messageType_ m = NIL) then [] else [m]) else [])).
  { unfold channel_onInput. cbn.
    destruct (isRunning_ (p_broker p)), (ch_callback (p_channel p)); cbn; rewrite ?app_nil_r; try done.
    case_decide; cbn; rewrite ?app_nil_r; [done|]. by rewrite poll_ops_delivered. }
  rewrite Hone. f_equal. destruct (isRunning_ _ && ch_callback _); [|done].
  unfold onReply, redisReply_json in Hm.
  destruct r as [s|[|e1 [|e2 [|e3 l]]]|z| |s|s]; cbn in *;
    apply bind_Ok in Hm as (m0 & Hm0 & Hm); rewrite ?Hd in Hm0; simplify_eq; rewrite ?Hm0; done.
Qed.

End callback.
End polling.

(** A text that is no message throws: in the event loop, which lets the exception
    end the process. *)
Lemma malformed_message_throws `{JsonText} (name text : Reply) :
  (∃ l, json_parse (reply_str text) = JArray l) ∨
  (∃ l, json_parse (reply_str text) = JObject [("target", JArray l)]) →
  ∃ e, onReply (ReplyArray [name; text]) = Err e.
Proof.
  intros [[l E]|[l E]]; cbn; unfold redisReply_json; rewrite E; eauto.
Qed.

(** ** A session

    Any injective text will do for a writer; here a JSON value is encoded as a
    number and written in binary. *)
Module MessageBrokerSession.

Fixpoint to_tree (j : Json) : gen_tree (string + Z) :=
  match j with
  | JNull => GenNode 0 []
  | JBool b => GenNode (if b then 1 else 2) []
  | JInt z => GenNode 3 [GenLeaf (inr z)]
  | JReal d =>
      GenNode 4 (GenLeaf ∘ inr <$>
        match d with
        | S754_zero s => [0; if s then 1 else 0]
        | S754_infinity s => [1; if s then 1 else 0]
        | S754_nan => [2]
        | S754_finite s m e => [3; if s then 1 else 0; Zpos m; e]
        end)
  | JString s => GenNode 5 [GenLeaf (inl s)]
  | JArray l => GenNode 6 (to_tree <$> l)
  | JObject l => GenNode 7 ((fun '(k, v) => GenNode 8 [GenLeaf (inl k); to_tree v]) <$> l)
  end.

Fixpoint of_tree (t : gen_tree (string + Z)) : Json :=
  match t with
  | GenNode 1 [] => JBool true
  | GenNode 2 [] => JBool false
  | GenNode 3 [GenLeaf (inr z)] => JInt z
  | GenNode 4 [GenLeaf (inr 0); GenLeaf (inr s)] => JReal (S754_zero (s =? 1))
  | GenNode 4 [GenLeaf (inr 1); GenLeaf (inr s)] => JReal (S754_infinity (s =? 1))
  | GenNode 4 [_] => JReal S754_nan
  | GenNode 4 [_; GenLeaf (inr s); GenLeaf (inr m); GenLeaf (inr e)] =>
      JReal (S754_finite (s =? 1) (Z.to_pos m) e)
  | GenNode 5 [GenLeaf (inl s)] => JString s
  | GenNode 6 l => JArray (of_tree <$> l)
  | GenNode 7 l =>
      JObject ((fun t => match t with
                         | GenNode 8 [GenLeaf (inl k); t'] => (k, of_tree t')
                         | _ => ("", JNull)
                         end) <$> l)
  | _ => JNull
  end.

Lemma of_to_tree : ∀ j, of_tree (to_tree j) = j.
Proof.
  fix IH 1. intros [| |z|d|s|l|l]; cbn; try done.
  - by destruct b.
  - by destruct d as [[]|[]| |[] m e].
  - f_equal. induction l as [|j l IHl]; cbn; [done|]. by rewrite IH, IHl.
  - f_equal. induction l as [|[k j] l IHl]; cbn; [done|]. by rewrite IH, IHl.
Qed.

Fixpoint bits (p : positive) : string :=
  match p with
  | xH => ""
  | xO p => String "0" (bits p)
  | xI p => String "1" (bits p)
  end.

Fixpoint of_bits (s : string) : positive :=
  match s with
  | String c s => if Ascii.eqb c "0" then xO (of_bits s) else xI (of_bits s)
  | EmptyString => xH
  end.

Lemma of_bits_bits p : of_bits (bits p) = p.
Proof. induction p; cbn; congruence. Qed.

#[local] Instance binary_text : JsonText := {|
  json_write j := bits (encode (to_tree j));
  json_parse s := match decode (of_bits s) with Some t => of_tree t | None => JNull end;
  valueToString d := bits (encode (to_tree (JReal d))) |}.

#[local] Instance binary_text_laws : JsonTextLaws.
Proof.
  intros j _ _. cbn -[encode decode]. by rewrite of_bits_bits, decode_encode, of_to_tree.
Qed.

Definition hello : Message :=
  setTarget "HeartbeatMessage" (setReplyTo "urb.endpoint.7.notify"
    (setPayload (JObject [("id", JInt 7)]) Message_default)).

Lemma message_roundtrip_witness :
  Message_of_json (json_parse (toNetworkMessage hello)) = Ok hello.
Proof. exact (message_roundtrip hello eq_refl eq_refl). Defined.

(** A connection that always works, and a broker that runs. *)
#[local] Instance steady : Redis := {|
  redis_connect := fun _ => Some 7;
  redis_valid := fun _ _ => true |}.

Definition running : Broker unit := (setUrl "urb://localhost" new_broker).2.

Definition quiet (_ : Message) : list (PollOp (Msg:=unit)) := [].

(** Register, poll, and receive the message. *)
Definition session : list (PollEvent (Msg:=unit)) :=
  [pe_op po_register; pe_async (fun _ => true);
   pe_reply 0 (ReplyArray [ReplyString "n"; ReplyString (toNetworkMessage hello)])].

Definition after_session : outcome Poll :=
  mfold (fun p e => poll_event quiet e p) (new_poll "notify" running) session.

Lemma session_runs :
  ∃ p, after_session = Ok p ∧ registrations p = 1%nat ∧
       poll_run quiet benign (new_poll "notify" running) p.
Proof.
  set (p1 := poll_op (new_poll "notify" running) po_register).
  set (p2 := async_cb (fun _ => true) p1).
  assert (Hr : poll_run quiet benign (new_poll "notify" running) p2).
  { eapply (poll_run_step _ _ _ (pe_async (fun _ => true)) p1); [|done|done|reflexivity].
    eapply (poll_run_step _ _ _ (pe_op po_register)); [apply poll_run_refl|done|done|reflexivity]. }
  destruct (reply_event quiet 0 (ReplyArray [ReplyString "n"; ReplyString (toNetworkMessage hello)])
              p2) as [p3|e|] eqn:E; [|vm_compute in E; discriminate..].
  exists p3. split_and!.
  - change after_session with (p3 ← reply_event quiet 0
      (ReplyArray [ReplyString "n"; ReplyString (toNetworkMessage hello)]) p2; Ok p3).
    by rewrite E.
  - vm_compute in E. by injection E as <-.
  - eapply (poll_run_step _ _ _ (pe_reply 0 _) p2 p3 Hr); [done| |exact E]. vm_compute. lia.
Qed.

Lemma polls_bounded_by_registrations_witness :
  ∃ p, after_session = Ok p ∧ (outstanding p ≤ registrations p)%nat.
Proof.
  destruct session_runs as (p & Hp & _ & Hr). exists p. split; [exact Hp|].
  exact (polls_bounded_by_registrations quiet benign "notify" running p eq_refl Hr).
Defined.

Lemma every_registration_polls_witness :
  ∃ p, after_session = Ok p ∧ outstanding p = 1%nat.
Proof.
  destruct session_runs as (p & Hp & H1 & Hr). exists p. split; [exact Hp|]. rewrite <-H1.
  assert (Hv : ∀ n k, redis_valid n k = true) by (intros; reflexivity).
  assert (Hu : ∀ m, Forall benign_op (quiet m)) by (intros; constructor).
  apply (every_registration_polls quiet Hv "notify" running p eq_refl eq_refl eq_refl Hu Hr).
Defined.

Lemma reply_delivery_witness :
  ∃ p, after_session = Ok p ∧ delivered p = [setType VALID hello].
Proof.
  destruct (mfold (fun p e => poll_event quiet e p) (new_poll "notify" running)
              (take 2 session)) as [p1|e|] eqn:E; [|vm_compute in E; discriminate..].
  destruct (reply_event quiet 0 (ReplyArray [ReplyString "n"; ReplyString (toNetworkMessage hello)])
              p1) as [p2|e|] eqn:E2;
    [|vm_compute in E; injection E as <-; vm_compute in E2; discriminate..].
  exists p2. split.
  { unfold after_session. change session with (take 2 session ++ drop 2 session).
    rewrite mfold_app, E.
    change ((q ← reply_event quiet 0
      (ReplyArray [ReplyString "n"; ReplyString (toNetworkMessage hello)]) p1; Ok q) = Ok p2).
    by rewrite E2. }
  rewrite (reply_delivery quiet p1 0 _ p2 E2). vm_compute in E. injection E as <-.
  vm_compute. reflexivity.
Defined.

End MessageBrokerSession.
