(* ===== verification/PollThreads.v ===== *)
(** * PollThreads: the polls of a channel with their threads

    [MessageBroker] handles a registration, a reply or a wake-up of the event loop as
    one atomic event; in the program they are many statements of several threads.
    Here they are put together: the threads of [CommandQueue] interleave, statement by
    statement, with the replies that the event thread handles
    ([RedisChannelCallback::onInput], which calls the application, whose calls
    interleave too, and then sends the next poll) and with the calls of the
    application's own threads.

    The theorem is the refinement: whatever the threads do, when they have come to rest
    their state is one that the atomic events reach, with every poll at Redis.  The
    atomic events are matched where they take effect: a registration when its command
    is in the queue, a reply when the next poll is in the queue, a wake-up when
    [async_cb] finds the queue empty. *)

From S2P Require Import Prelude StoutStrings Url Broker Assoc Json CommandQueue MessageBroker.
#[local] Open Scope list_scope.
#[local] Open Scope nat_scope.

(** ** The threads *)

Section threads.
Context {Msg : Type} `{JsonText} `{Redis}.
Context (user : Message → list (PollOp (Msg := Msg))).

(** What [onInput] still has to do after the message was given to the application: the
    calls that the application makes, and the next poll. *)
Inductive Todo := td_op (o : PollOp (Msg := Msg)) | td_again.

(** The commands are in the queue of the threads and not in the broker's record;
    [t_sent] are the commands at Redis that are not answered yet. *)
Record PollThreads := mkPollThreads {
  pt_threads : Threads string;
  pt_broker : Broker Msg;
  pt_channel : Channel;
  pt_registrations : nat;
  pt_delivered : list Message;
  pt_todo : list Todo }.

Definition new_poll_threads (n : nat) (name : string) (b : Broker Msg) : PollThreads :=
  mkPollThreads (new_threads n) b (createChannel name b) 0 [] [].

(** Thread [i] calls [sendMessage] with the next poll. *)
Definition send_poll (i : nat) (pt : PollThreads) : option PollThreads :=
  th ← t_step (l_send i (ch_name (pt_channel pt))) (pt_threads pt);
  Some (mkPollThreads th (pt_broker pt) (pt_channel pt) (pt_registrations pt)
                      (pt_delivered pt) (pt_todo pt)).

Definition with_broker (b : Broker Msg) (pt : PollThreads) : PollThreads :=
  mkPollThreads (pt_threads pt) b (pt_channel pt) (pt_registrations pt) (pt_delivered pt)
                (pt_todo pt).

(** Thread [i], which does nothing else, makes a call.  [write] takes the mutex of the
    event loop for the synchronous connection. *)
Definition call_op (i : nat) (o : PollOp (Msg := Msg)) (pt : PollThreads) : option PollThreads :=
  match t_threads (pt_threads pt) !! i, o with
  | Some idle, po_register =>
      let c := pt_channel pt in
      send_poll i
        (mkPollThreads (pt_threads pt) (pt_broker pt)
           (mkChannel (ch_name c) true (ch_heartbeat c) (ch_heartbeats c))
           (S (pt_registrations pt)) (pt_delivered pt) (pt_todo pt))
  | Some idle, po_write m =>
      match t_mutex (pt_threads pt) with
      | None => Some (with_broker (write m (pt_broker pt)) pt)
      | Some _ => None
      end
  | Some idle, po_setUrl url => Some (with_broker (setUrl url (pt_broker pt)).2 pt)
  | _, _ => None
  end.

Definition answer (k : nat) (s : Threads string) : Threads string :=
  mkThreads (t_commands s) (t_mutex s) (t_async_sent s) (t_running s) (t_valid s)
            (t_threads s) (t_pushed s) (t_popped s) (delete k (t_sent s)).

(** A thread of the application calls; Redis answers the [k]-th command; the event thread
    goes on with what [onInput] has to do; a thread makes a step; the event loop is woken. *)
Inductive PtEvent :=
  | pt_call (i : nat) (o : PollOp (Msg := Msg))
  | pt_reply (k : nat) (r : Reply)
  | pt_next
  | pt_run (i : nat)
  | pt_wake.

Definition with_threads (th : Threads string) (pt : PollThreads) : PollThreads :=
  mkPollThreads th (pt_broker pt) (pt_channel pt) (pt_registrations pt) (pt_delivered pt)
                (pt_todo pt).
Definition with_todo (todo : list Todo) (pt : PollThreads) : PollThreads :=
  mkPollThreads (pt_threads pt) (pt_broker pt) (pt_channel pt) (pt_registrations pt)
                (pt_delivered pt) todo.

(** What [onInput] has to do for a message. *)
Definition todo_for (m : Message) : list Todo :=
  (td_op <$> (if decide (messageType_ m = NIL) then [] else user m)) ++ [td_again].

(** The event thread starts to handle the reply. *)
Definition reply_step (k : nat) (r : Reply) (pt : PollThreads) : option PollThreads :=
  match t_threads (pt_threads pt) !! 0, pt_todo pt, onReply r with
  | Some idle, [], Ok m =>
      if decide (k < length (t_sent (pt_threads pt))) then
        let pt := with_threads (answer k (pt_threads pt)) pt in
        if isRunning_ (pt_broker pt) && ch_callback (pt_channel pt) then
          Some (mkPollThreads (pt_threads pt) (pt_broker pt) (pt_channel pt) (pt_registrations pt)
                  (if decide (messageType_ m = NIL) then pt_delivered pt
                   else pt_delivered pt ++ [m])
                  (todo_for m))
        else Some pt
      else None
  | _, _, _ => None
  end.

Definition pt_step (e : PtEvent) (pt : PollThreads) : option PollThreads :=
  match e with
  | pt_call i o => if decide (i = 0) then None else call_op i o pt
  | pt_reply k r => reply_step k r pt
  | pt_next =>
      match pt_todo pt, t_threads (pt_threads pt) !! 0 with
      | td_op o :: todo, _ => call_op 0 o (with_todo todo pt)
      | td_again :: todo, Some idle => send_poll 0 (with_todo todo pt)
      | _, _ => None
      end
  | pt_run i => th ← t_step (l_run i) (pt_threads pt); Some (with_threads th pt)
  | pt_wake =>
      match pt_todo pt with
      | [] => th ← t_step l_wake (pt_threads pt); Some (with_threads th pt)
      | _ => None
      end
  end.

Fixpoint pt_steps (es : list PtEvent) (pt : PollThreads) : option PollThreads :=
  match es with
  | [] => Some pt
  | e :: es' => pt_step e pt ≫= pt_steps es'
  end.

(** The steps of the threads themselves. *)
Definition pt_internal (e : PtEvent) : Prop :=
  match e with pt_next | pt_run _ | pt_wake => True | _ => False end.

End threads.
Arguments PollThreads : clear implicits.
Arguments PtEvent : clear implicits.
Arguments Todo : clear implicits.

(** ** What a step of a thread does to the commands *)

(** Where a thread is, as far as the commands are concerned. *)
Inductive Kind := k_free | k_push (c : string) | k_drain | k_exec (c : string).
Definition kind (pc : Pc string) : Kind :=
  match pc with
  | s_push c _ => k_push c
  | c_lock | c_running | c_pop _ => k_drain
  | c_execute c => k_exec c
  | _ => k_free
  end.

(** The effect on what was pushed, popped and sent, when a thread goes from one place to
    another. *)
Inductive effect (s s' : Threads string) : Kind → Kind → Prop :=
  | eff_none k :
      t_pushed s' = t_pushed s → t_popped s' = t_popped s → t_sent s' = t_sent s →
      effect s s' k k
  | eff_push c :
      t_pushed s' = t_pushed s ++ [c] → t_popped s' = t_popped s → t_sent s' = t_sent s →
      effect s s' (k_push c) k_free
  | eff_pop c :
      t_pushed s' = t_pushed s → t_popped s' = t_popped s ++ [c] → t_sent s' = t_sent s →
      effect s s' k_drain (k_exec c)
  | eff_empty :
      t_pushed s' = t_pushed s → t_popped s' = t_popped s → t_sent s' = t_sent s →
      t_popped s = t_pushed s → effect s s' k_drain k_free
  | eff_exec c :
      t_pushed s' = t_pushed s → t_popped s' = t_popped s → t_sent s' = t_sent s ++ [c] →
      effect s s' (k_exec c) k_drain.

(** A [try_pop] that finds nothing finds the queue empty. *)
Lemma pop_none_empty (s : Threads string) i q cs :
  t_inv false s → t_threads s !! i = Some (c_pop q) →
  q_step i op_try_pop q (t_commands s) = Some (inr (r_popped None), cs) →
  t_popped s = t_pushed s.
Proof.
  intros Hi Hpc Hq. destruct (tv_queue _ _ Hi) as (q0 & Hg & Hp).
  assert (Hin : inside s i = Some (op_try_pop, q)) by (unfold inside; by rewrite Hpc).
  destruct (guarded_step _ _ _ _ _ _ _ _ Hg Hin Hq) as [Hr _].
  destruct q0 as [|c q0]; [|done]. by rewrite Hp, app_nil_r.
Qed.

Lemma thread_step_effect (s : Threads string) i pc s' :
  t_inv false s → t_valid s = true → t_running s = true →
  t_threads s !! i = Some pc → thread_step i pc s = Some s' →
  ∃ pc', t_threads s' = <[i := pc']> (t_threads s) ∧ t_valid s' = true ∧ t_running s' = true ∧
         effect s s' (kind pc) (kind pc').
Proof.
  intros Hi Hv Hr Hpc Hst.
  destruct pc as [|c q| | | | | |q|c|]; [done|..]; cbn in Hst; unfold lock_guard in Hst.
  - destruct (q_step _ _ _ _) as [[[q'|r] cs]|] eqn:Hq; [..|done]; simplify_eq;
      eexists; (split_and!; [reflexivity|done|done|]); cbn; by constructor.
  - case_match; simplify_eq; eexists; (split_and!; [reflexivity|done|done|]); by constructor.
  - simplify_eq; eexists; (split_and!; [reflexivity|done|done|]); by constructor.
  - simplify_eq; eexists; (split_and!; [reflexivity|done|done|]); by constructor.
  - case_match; simplify_eq; eexists; (split_and!; [reflexivity|done|done|]); by constructor.
  - rewrite Hr in Hst. simplify_eq; eexists; (split_and!; [reflexivity|done|done|]); by constructor.
  - destruct (q_step _ _ _ _) as [[[q'|r] cs]|] eqn:Hq; [..|done].
    { simplify_eq; eexists; (split_and!; [reflexivity|done|done|]); by constructor. }
    pose proof (queue_move _ _ _ _ _ _ _ _ Hi Hpc eq_refl Hq) as Hm.
    inversion Hm as [| | | | | | | | | |[c|]]; subst; simplify_eq;
      eexists; (split_and!; [reflexivity|done|done|]); constructor; try done.
    by eapply pop_none_empty.
  - simplify_eq; eexists; (split_and!; [reflexivity|done|done|]); constructor; try done.
    cbn. by rewrite Hv.
  - simplify_eq; eexists; (split_and!; [reflexivity|done|done|]); by constructor.
Qed.

(** ** The commands are all the same *)

(** The threads of one channel only ever send its poll, [name]. *)
Record named (name : string) (s : Threads string) : Prop := mkNamed {
  nm_inv : t_inv false s;
  nm_valid : t_valid s = true;
  nm_running : t_running s = true;
  nm_pushed : Forall (eq name) (t_pushed s);
  nm_sent : Forall (eq name) (t_sent s);
  nm_kinds : ∀ i pc c, t_threads s !! i = Some pc →
    kind pc = k_push c ∨ kind pc = k_exec c → c = name }.

Lemma named_pushed name s c : named name s → c ∈ t_popped s → c = name.
Proof.
  intros [Hi _ _ Hp _ _] Hc. destruct (tv_queue _ _ Hi) as (q0 & _ & Hq).
  rewrite Hq, Forall_app in Hp. destruct Hp as [Hp _]. symmetry.
  by apply (proj1 (Forall_forall _ _) Hp).
Qed.

(** A thread moves, with an effect. *)
Lemma named_move name s s' i pc pc' :
  named name s → t_inv false s' → t_valid s' = true → t_running s' = true →
  t_threads s !! i = Some pc → t_threads s' = <[i := pc']> (t_threads s) →
  (∀ c, kind pc' = k_push c → c = name) → effect s s' (kind pc) (kind pc') →
  named name s'.
Proof.
  intros Hn Hi' Hv Hr Hpc Ht Hpush He. pose proof Hn as [Hi _ _ Hp Hs Hk].
  assert (Hp' : Forall (eq name) (t_pushed s')).
  { inversion He as [k E1 E2 E3|c E1 E2 E3 K|c E1 E2 E3 K|E1 E2 E3 _ K|c E1 E2 E3 K];
      rewrite E1; try done. apply Forall_app_2; [done|]. constructor; [|done].
    symmetry. eapply Hk; [exact Hpc|by left]. }
  assert (Hs' : Forall (eq name) (t_sent s')).
  { inversion He as [k E1 E2 E3|c E1 E2 E3 K|c E1 E2 E3 K|E1 E2 E3 _ K|c E1 E2 E3 K];
      rewrite E3; try done. apply Forall_app_2; [done|]. constructor; [|done].
    symmetry. eapply Hk; [exact Hpc|by right]. }
  split; try done. intros j pj c Hj Hc. destruct (decide (j = i)) as [->|Hne].
  - rewrite Ht, list_lookup_insert_eq in Hj by (by eapply lookup_lt_Some). simplify_eq.
    destruct Hc as [Hc|Hc]; [by apply Hpush|].
    inversion He as [k E1 E2 E3 K K'|c' E1 E2 E3 K K'|c' E1 E2 E3 K K'|E1 E2 E3 _ K K'|c' E1 E2 E3 K K'];
      try congruence.
    + eapply Hk; [exact Hpc|right; congruence].
    + assert (c' = c) as -> by congruence.
      destruct (tv_queue _ _ Hi') as (q0 & _ & Hq). rewrite Hq, E2 in Hp'.
      rewrite !Forall_app, Forall_singleton in Hp'. by destruct Hp' as [[_ ->] _].
  - rewrite Ht, list_lookup_insert_ne in Hj by done. by eapply Hk.
Qed.

Lemma named_answer name k s : named name s → named name (answer k s).
Proof.
  intros [Hi Hv Hr Hp Hs Hk]. split; try done.
  - destruct Hi as [? ? ? ? (ex & Hex & Hsub)]. split; try done.
    exists ex. split; [done|]. cbn in *. etransitivity; [apply sublist_delete|exact Hsub].
  - cbn. by apply Forall_delete.
Qed.

(** The logs are the same. *)
Definition same_logs (s s' : Threads string) : Prop :=
  t_pushed s' = t_pushed s ∧ t_popped s' = t_popped s ∧ t_sent s' = t_sent s.

Lemma named_run name s i pc s' :
  named name s → t_threads s !! i = Some pc → thread_step i pc s = Some s' →
  named name s' ∧
  ∃ pc', t_threads s' = <[i := pc']> (t_threads s) ∧ effect s s' (kind pc) (kind pc').
Proof.
  intros Hn Hpc Hst. pose proof Hn as [Hi Hv Hr _ _ Hk].
  destruct (thread_step_effect s i pc s' Hi Hv Hr Hpc Hst) as (pc' & Ht & Hv' & Hr' & He).
  split; [|by exists pc']. eapply named_move; try done.
  - by eapply thread_step_inv.
  - intros c Hc. inversion He; try congruence. eapply Hk; [exact Hpc|left; congruence].
Qed.

Lemma named_send name s i :
  named name s → t_threads s !! i = Some idle →
  ∃ s', t_step (l_send i name) s = Some s' ∧ named name s' ∧ same_logs s s' ∧
        t_threads s' = <[i := s_push name q_lock]> (t_threads s).
Proof.
  intros Hn Hpc. pose proof Hn as [Hi Hv Hr Hp Hs Hk].
  assert (Hst : t_step (l_send i name) s = Some (at_pc i (s_push name q_lock) s))
    by (cbn; by rewrite Hpc, Hv).
  exists (at_pc i (s_push name q_lock) s). split_and!; try done.
  split; try done.
  - by eapply t_step_inv; [exact Hi| |exact Hst].
  - intros j pj c Hj Hc. cbn in Hj. destruct (decide (j = i)) as [->|Hne].
    + rewrite list_lookup_insert_eq in Hj by (by eapply lookup_lt_Some). simplify_eq.
      destruct Hc as [Hc|Hc]; cbn in Hc; congruence.
    + rewrite list_lookup_insert_ne in Hj by done. by eapply Hk.
Qed.

Lemma named_wake name s s' :
  named name s → t_step l_wake s = Some s' →
  named name s' ∧ same_logs s s' ∧ t_threads s !! 0 = Some idle ∧
  t_threads s' = <[0 := c_lock]> (t_threads s).
Proof.
  intros Hn Hst. pose proof Hn as [Hi Hv Hr Hp Hs Hk].
  assert (Hi' : t_inv false s') by (by eapply t_step_inv; [exact Hi| |exact Hst]).
  cbn in Hst. destruct (t_threads s !! 0) as [[]|] eqn:Hpc; try done. case_match; simplify_eq.
  split_and!; try done. split; try done.
  intros j pj c Hj Hc. cbn in Hj. destruct (decide (j = 0)) as [->|Hne].
  - rewrite list_lookup_insert_eq in Hj by (by eapply lookup_lt_Some). simplify_eq.
    by destruct Hc as [Hc|Hc].
  - rewrite list_lookup_insert_ne in Hj by done. by eapply Hk.
Qed.

(** ** The other threads that are about to queue a poll *)

Definition push_one (pc : Pc string) : nat := match pc with s_push _ _ => 1 | _ => 0 end.
Definition pushing (ts : list (Pc string)) : nat := sum_list (push_one <$> tail ts).

Lemma pushing_insert_0 ts pc : pushing (<[0 := pc]> ts) = pushing ts.
Proof. by destruct ts. Qed.

Lemma sum_insert {A : Type} (f : A → nat) (l : list A) i x y :
  l !! i = Some x → sum_list (f <$> <[i := y]> l) + f x = sum_list (f <$> l) + f y.
Proof.
  revert i. induction l as [|z l IH]; intros [|i] Hi; simplify_eq/=; [lia|].
  specialize (IH _ Hi). lia.
Qed.

Lemma pushing_insert ts i pc pc' :
  i ≠ 0 → ts !! i = Some pc →
  pushing (<[i := pc']> ts) + push_one pc = pushing ts + push_one pc'.
Proof.
  intros Hi Hpc. destruct i as [|i]; [done|]. destruct ts as [|t ts]; [done|].
  by apply (sum_insert push_one).
Qed.

Lemma pushing_idle ts : (∀ i pc, ts !! i = Some pc → pc = idle) → pushing ts = 0.
Proof.
  destruct ts as [|t ts]; [done|]. intros Hi. unfold pushing. cbn.
  assert (Ht : ∀ i pc, ts !! i = Some pc → pc = idle) by (intros i; apply (Hi (S i))).
  clear Hi. induction ts as [|t' ts IH]; [done|]. cbn.
  rewrite (Ht 0 t' eq_refl). cbn. apply IH. intros i. apply (Ht (S i)).
Qed.

Lemma push_one_kind pc : push_one pc = match kind pc with k_push _ => 1 | _ => 0 end.
Proof. by destruct pc. Qed.

(** ** What the calls do to the atomic model *)

Section refinement.
Context {Msg : Type} `{JsonText} `{Redis}.
Context (user : Message → list (PollOp (Msg := Msg))).
Context (Hvalid : ∀ n k, redis_valid n k = true).
Context (Huser : ∀ m, Forall benign_op (user m)).
Implicit Types (p : Poll (Msg := Msg)) (pt : PollThreads Msg) (o : PollOp (Msg := Msg)).

Definition is_register o : nat := match o with po_register => 1 | _ => 0 end.
Definition registers (ops : list (PollOp (Msg := Msg))) : nat := sum_list (is_register <$> ops).
Definition writes (source : string) (ops : list (PollOp (Msg := Msg))) : list (Written Msg) :=
  ops ≫= fun o =>
    match o with
    | po_write m => [mkWritten MASTER_BROKER_MESOS_ENDPOINT source m]
    | _ => []
    end.

(** The part of a broker that a running one keeps. *)
Definition settled (b : Broker Msg) : bool * bool * string * Z * string * string * bool :=
  (isRunning_ b, ha_ b, redisServer_ b, redisPort_ b, redisPath_ b, endpointIdStr_ b, conn_ b).
Definition settled_channel (c : Channel) : string * option string * nat :=
  (ch_name c, ch_heartbeat c, ch_heartbeats c).

(** [ops] lead from [p] to [p']. *)
Record after_ops (ops : list (PollOp (Msg := Msg))) (p p' : Poll (Msg := Msg)) : Prop := mkAfter {
  af_settled : settled (p_broker p') = settled (p_broker p);
  af_channel : settled_channel (p_channel p') = settled_channel (p_channel p);
  af_callback : ch_callback (p_channel p) = true → ch_callback (p_channel p') = true;
  af_commands : commands_ (p_broker p') =
    commands_ (p_broker p) ++ replicate (registers ops) (ch_name (p_channel p));
  af_flight : in_flight p' = in_flight p;
  af_registrations : registrations p' = registrations p + registers ops;
  af_delivered : delivered p' = delivered p;
  af_written : written (p_broker p') =
    written (p_broker p) ++ writes (endpointIdStr_ (p_broker p)) ops }.

Lemma after_one k o p : benign_op o → polling k p → after_ops [o] p (poll_op p o).
Proof.
  intros Hb [Hr Hc _ _].
  assert (Hs : ∀ b, settled b = settled (p_broker p) ↔
    isRunning_ b = true ∧ ha_ b = ha_ (p_broker p) ∧ redisServer_ b = redisServer_ (p_broker p) ∧
    redisPort_ b = redisPort_ (p_broker p) ∧ redisPath_ b = redisPath_ (p_broker p) ∧
    endpointIdStr_ b = endpointIdStr_ (p_broker p) ∧ conn_ b = true).
  { intros b. unfold settled. rewrite Hr, Hc. split; [by intros [=]|].
    by intros (-> & -> & -> & -> & -> & -> & ->). }
  destruct o; cbn in *; try done.
  - unfold queue_command. rewrite Hc, Hvalid. split; cbn; rewrite ?app_nil_r; try done;
      solve [lia|by apply Hs].
  - unfold write. rewrite Hr. split; cbn; rewrite ?app_nil_r; try done; solve [lia|by apply Hs].
  - unfold setUrl. rewrite Hr. unfold reconnect.
    destruct (redis_connect (attempts (p_broker p))); split; cbn; rewrite ?app_nil_r; try done;
      solve [lia|by apply Hs].
Qed.

Lemma registers_app ops1 ops2 : registers (ops1 ++ ops2) = registers ops1 + registers ops2.
Proof. unfold registers. by rewrite fmap_app, sum_list_with_app. Qed.

Lemma after_trans ops1 ops2 p1 p2 p3 :
  after_ops ops1 p1 p2 → after_ops ops2 p2 p3 → after_ops (ops1 ++ ops2) p1 p3.
Proof.
  intros [S1 C1 B1 M1 F1 R1 D1 W1] [S2 C2 B2 M2 F2 R2 D2 W2].
  assert (En : ch_name (p_channel p2) = ch_name (p_channel p1)) by (by injection C1).
  assert (Ee : endpointIdStr_ (p_broker p2) = endpointIdStr_ (p_broker p1)) by (by injection S1).
  split; try congruence; try (by auto).
  - rewrite M2, M1, En, registers_app, replicate_add. by rewrite app_assoc.
  - rewrite R2, R1, registers_app. lia.
  - rewrite W2, W1, Ee. unfold writes. by rewrite bind_app, app_assoc.
Qed.

Lemma after_all k ops p :
  Forall benign_op ops → polling k p → after_ops ops p (foldl poll_op p ops).
Proof.
  intros Hb. revert p. induction Hb as [|o ops Ho _ IH]; intros p Hp; cbn.
  - split; cbn; rewrite ?app_nil_r; try done; lia.
  - eapply (after_trans [o]); [by eapply after_one|]. by apply IH, poll_op_polling.
Qed.

#[local] Arguments registers : simpl never.
#[local] Arguments writes : simpl never.

(** The calls that the application makes for a message. *)
Definition ops_of (m : Message) : list (PollOp (Msg := Msg)) :=
  if decide (messageType_ m = NIL) then [] else user m.

(** A reply that is handled at once. *)
Lemma reply_after k r m p :
  polling 0 p → k < length (in_flight p) → onReply r = Ok m →
  ∃ p', poll_event user (pe_reply k r) p = Ok p' ∧
    settled (p_broker p') = settled (p_broker p) ∧
    settled_channel (p_channel p') = settled_channel (p_channel p) ∧
    ch_callback (p_channel p') = true ∧
    commands_ (p_broker p') = commands_ (p_broker p) ++
      replicate (S (registers (ops_of m))) (ch_name (p_channel p)) ∧
    in_flight p' = delete k (in_flight p) ∧
    registrations p' = registrations p + registers (ops_of m) ∧
    delivered p' = delivered p ++ (if decide (messageType_ m = NIL) then [] else [m]) ∧
    written (p_broker p') =
      written (p_broker p) ++ writes (endpointIdStr_ (p_broker p)) (ops_of m).
Proof.
  intros Hp Hk Hm. pose proof Hp as [Hr Hc Hcb Hn].
  assert (Hcb' : ch_callback (p_channel p) = true)
    by (apply Hcb; unfold outstanding in Hn; lia).
  cbn. unfold reply_event. rewrite Hm. eexists. split; [reflexivity|].
  unfold channel_onInput. cbn [p_broker p_channel]. rewrite Hr, Hcb'.
  set (p1 := mkPoll (p_broker p) (p_channel p) (delete k (in_flight p)) (registrations p)
               (delivered p ++ (if decide (messageType_ m = NIL) then [] else [m]))).
  assert (Hp1 : polling 1 p1).
  { split; try done. unfold outstanding in *. cbn. pose proof (length_delete_lt k _ Hk). lia. }
  set (p2 := if decide _ then _ else foldl poll_op _ (user m)).
  assert (Ha : after_ops (ops_of m) p1 p2).
  { subst p1 p2. unfold ops_of. case_decide; cbn [delivered in_flight registrations].
    - rewrite app_nil_r. apply (after_all 1 [] _); [constructor|].
      destruct Hp1 as [? ? ? ?]. split; try done.
    - by eapply after_all. }
  clearbody p2. destruct Ha as [S1 C1 B1 M1 F1 R1 D1 W1].
  assert (Hc2 : conn_ (p_broker p2) = true) by (injection S1; intros; congruence).
  assert (En : ch_name (p_channel p2) = ch_name (p_channel p)) by (by injection C1).
  cbn. unfold queue_command. rewrite Hc2, Hvalid. cbn. split_and!; try done.
  - etransitivity; [|exact S1]. unfold settled. cbn. by rewrite Hc2.
  - by apply B1.
  - rewrite M1, En. cbn. by rewrite <-app_assoc, replicate_cons_app.
Qed.

Lemma async_after p :
  polling 0 p →
  poll_event user (pe_async (fun _ => true)) p =
  Ok (mkPoll (set_commands [] (p_broker p)) (p_channel p) (in_flight p ++ commands_ (p_broker p))
             (registrations p) (delivered p)).
Proof.
  intros [Hr _ _ _]. cbn. unfold async_cb. rewrite Hr. by rewrite execute_all_valid.
Qed.

(** ** The simulation *)

(** What the event thread is doing that the atomic model has not done yet: nothing; an
    [async_cb] that has popped [d] commands and executed [e] of them; the reply [r] to the
    [k]-th command, for whose message [m] the calls [made] were started and [h] of their
    polls queued. *)
Inductive Ghost :=
  | g_rest
  | g_drain (d e : nat)
  | g_handle (k : nat) (r : Reply) (m : Message) (made : list (PollOp (Msg := Msg))) (h : nat).

Definition g_popped (g : Ghost) : nat := match g with g_drain d _ => d | _ => 0 end.
Definition g_executed (g : Ghost) : nat := match g with g_drain _ e => e | _ => 0 end.
Definition g_answered (g : Ghost) : nat := match g with g_handle _ _ _ _ _ => 1 | _ => 0 end.
Definition g_queued (g : Ghost) : nat := match g with g_handle _ _ _ _ h => h | _ => 0 end.
Definition g_done (g : Ghost) : list (PollOp (Msg := Msg)) :=
  match g with g_handle _ _ _ made _ => made | _ => [] end.
Definition g_message (g : Ghost) : list Message :=
  match g with
  | g_handle _ _ m _ _ => if decide (messageType_ m = NIL) then [] else [m]
  | _ => []
  end.

(** Where the event thread is then. *)
Definition g_ok (g : Ghost) (k0 : Kind) (todo : list (Todo Msg)) (flight : nat) : Prop :=
  match g with
  | g_rest => k0 = k_free ∧ todo = []
  | g_drain d e =>
      todo = [] ∧ match k0 with k_drain => d = e | k_exec _ => d = S e | _ => False end
  | g_handle k r m made h =>
      onReply r = Ok m ∧ k < flight ∧
      ∃ rest, ops_of m = made ++ rest ∧
        match k0 with
        | k_free => todo = (td_op <$> rest) ++ [td_again] ∧ registers made = h
        | k_push _ =>
            todo = (td_op <$> rest) ++ [td_again] ∧ registers made = S h ∨
            todo = [] ∧ rest = [] ∧ registers made = h
        | _ => False
        end
  end.

(** The state of the threads and the state of the atomic model. *)
Record sim (g : Ghost) pt p : Prop := mkSim {
  sm_named : named (ch_name (pt_channel pt)) (pt_threads pt);
  sm_head : ∃ pc, t_threads (pt_threads pt) !! 0 = Some pc ∧
                  g_ok g (kind pc) (pt_todo pt) (length (in_flight p));
  sm_settled : settled (pt_broker pt) = settled (p_broker p);
  sm_channel : settled_channel (pt_channel pt) = settled_channel (p_channel p);
  sm_callback : ch_callback (p_channel p) = true → ch_callback (pt_channel pt) = true;
  sm_registered : ch_callback (pt_channel pt) = true ↔ 0 < pt_registrations pt;
  sm_commands : Forall (eq (ch_name (pt_channel pt))) (commands_ (p_broker p));
  sm_in_flight : Forall (eq (ch_name (pt_channel pt))) (in_flight p);
  sm_queue : length (commands_ (p_broker p)) + g_queued g + length (t_popped (pt_threads pt)) =
             length (t_pushed (pt_threads pt)) + g_popped g;
  sm_flight : length (in_flight p) + g_executed g =
              length (t_sent (pt_threads pt)) + g_answered g;
  sm_registrations : pt_registrations pt =
    registrations p + pushing (t_threads (pt_threads pt)) + registers (g_done g);
  sm_delivered : pt_delivered pt = delivered p ++ g_message g;
  sm_written : written (pt_broker pt) ≡ₚ
    written (p_broker p) ++ writes (endpointIdStr_ (p_broker p)) (g_done g) }.

(** No event of the atomic model, or one. *)
Definition matches p p' : Prop :=
  p' = p ∨ ∃ e, benign e ∧ poll_enabled e p ∧ poll_event user e p = Ok p'.

(** The broker after a call that does not queue a poll. *)
Lemma call_broker o b :
  benign_op o → is_register o = 0 → isRunning_ b = true → conn_ b = true →
  let b' := match o with
            | po_write m => write m b
            | po_setUrl url => (setUrl url b).2
            | _ => b
            end in
  settled b' = settled b ∧ written b' = written b ++ writes (endpointIdStr_ b) [o].
Proof.
  intros Hb Hr Hrun Hc b'.
  set (c := mkChannel "" true None 0).
  set (q := mkPoll b c [] (length (commands_ b)) []).
  assert (Hq : polling 0 q) by (split; try done; unfold outstanding; cbn; lia).
  destruct (after_one 0 o q Hb Hq) as [S1 _ _ _ _ _ _ W1]. by destruct o.
Qed.

Lemma sim_running g pt p : sim g pt p → polling 0 p →
  isRunning_ (pt_broker pt) = true ∧ conn_ (pt_broker pt) = true.
Proof. intros Hs [Hr Hc _ _]. pose proof (sm_settled _ _ _ Hs) as He. injection He. intros. split; congruence. Qed.

Lemma sim_endpoint g pt p : sim g pt p →
  endpointIdStr_ (pt_broker pt) = endpointIdStr_ (p_broker p).
Proof. intros Hs. pose proof (sm_settled _ _ _ Hs) as He. by injection He. Qed.

Lemma sim_name g pt p : sim g pt p → ch_name (pt_channel pt) = ch_name (p_channel p).
Proof. intros Hs. pose proof (sm_channel _ _ _ Hs) as He. by injection He. Qed.

(** *** Calls *)

(** The outcome of a call by an idle thread. *)
Lemma call_cases i o pt pt' :
  call_op i o pt = Some pt' →
  t_threads (pt_threads pt) !! i = Some idle ∧ benign_op o ∧
  (o = po_register ∧
     send_poll i (mkPollThreads (pt_threads pt) (pt_broker pt)
       (mkChannel (ch_name (pt_channel pt)) true (ch_heartbeat (pt_channel pt))
                  (ch_heartbeats (pt_channel pt)))
       (S (pt_registrations pt)) (pt_delivered pt) (pt_todo pt)) = Some pt' ∨
   is_register o = 0 ∧
     pt' = with_broker match o with
                       | po_write m => write m (pt_broker pt)
                       | po_setUrl url => (setUrl url (pt_broker pt)).2
                       | _ => pt_broker pt
                       end pt).
Proof.
  unfold call_op. intros Hc. destruct (t_threads (pt_threads pt) !! i) as [[]|]; try done.
  split; [done|]. destruct o; try done; (split; [done|]); [left; auto|right..].
  - case_match; simplify_eq. done.
  - simplify_eq. done.
Qed.

(** A thread of the application that does not register. *)
Lemma sim_call g pt p o :
  polling 0 p → sim g pt p → benign_op o → is_register o = 0 →
  let b := match o with
           | po_write m => write m (pt_broker pt)
           | po_setUrl url => (setUrl url (pt_broker pt)).2
           | _ => pt_broker pt
           end in
  ∃ p', matches p p' ∧ sim g (with_broker b pt) p'.
Proof.
  intros Hp Hs Hb Hr b. pose proof (sim_running _ _ _ Hs Hp) as [Hrun Hc].
  destruct (call_broker o (pt_broker pt) Hb Hr Hrun Hc) as [Sb Wb]. fold b in Sb, Wb.
  pose proof (after_one 0 o p Hb Hp) as [S1 C1 B1 M1 F1 R1 D1 W1].
  assert (Hz : registers [o] = 0) by (unfold registers; cbn; lia).
  rewrite Hz in M1, R1. cbn in M1. rewrite app_nil_r in M1. rewrite Nat.add_0_r in R1.
  pose proof (sim_endpoint _ _ _ Hs) as He. destruct Hs as [? Hh Hst Hch Hcb Hrg Hcm Hif Hq Hfl Hre Hde Hwr].
  assert (Ee : endpointIdStr_ (p_broker (poll_op p o)) = endpointIdStr_ (p_broker p)) by (by injection S1).
  exists (poll_op p o). split; [right; exists (pe_op o); by split_and!|].
  split; cbn [with_broker pt_threads pt_broker pt_channel pt_registrations pt_delivered pt_todo];
    rewrite ?M1, ?F1, ?R1, ?D1; try done; try congruence.
  - intros Hx. apply Hcb. by destruct o.
  - rewrite Wb, W1, Hwr, Ee, He. solve_Permutation.
Qed.

(** Thread [i] starts to send a poll: the queues are the same. *)
Lemma send_poll_spec i pt pt' :
  named (ch_name (pt_channel pt)) (pt_threads pt) →
  t_threads (pt_threads pt) !! i = Some idle → send_poll i pt = Some pt' →
  ∃ th, pt' = with_threads th pt ∧ named (ch_name (pt_channel pt)) th ∧
        same_logs (pt_threads pt) th ∧
        t_threads th = <[i := s_push (ch_name (pt_channel pt)) q_lock]> (t_threads (pt_threads pt)).
Proof.
  intros Hn Hi Hsp. destruct (named_send _ _ _ Hn Hi) as (th & Hst & Hn' & Hl & Ht).
  unfold send_poll in Hsp. rewrite Hst in Hsp. cbn in Hsp. simplify_eq. by exists th.
Qed.

(** A thread of the application registers: its poll is not in the queue yet. *)
Lemma sim_register g pt p i pt' :
  sim g pt p → i ≠ 0 → call_op i po_register pt = Some pt' → sim g pt' p.
Proof.
  intros Hs Hi Hc. apply call_cases in Hc as (Hidle & _ & [[_ Hsp]|[? _]]); [|done].
  destruct Hs as [Hn Hh Hst Hch Hcb Hrg Hcm Hif Hq Hfl Hre Hde Hwr].
  apply send_poll_spec in Hsp as (th & -> & Hn' & (L1 & L2 & L3) & Ht); [|done|done].
  cbn in *. pose proof (pushing_insert _ i _ (s_push (ch_name (pt_channel pt)) q_lock) Hi Hidle) as Hpu.
  rewrite <-Ht in Hpu. cbn in Hpu.
  split; cbn; rewrite ?L1, ?L2, ?L3; try done.
  - by rewrite Ht, list_lookup_insert_ne by done.
  - split; [lia|done].
  - lia.
Qed.

(** *** Replies *)

Lemma sim_reply g pt p k r pt' :
  polling 0 p → sim g pt p → reply_step user k r pt = Some pt' → ∃ g', sim g' pt' p.
Proof.
  intros Hp Hs Hst. pose proof (sim_running _ _ _ Hs Hp) as [Hrun _].
  destruct Hs as [Hn (pc & Hpc & Hg) Hse Hch Hcb Hrg Hcm Hif Hq Hfl Hre Hde Hwr].
  unfold reply_step in Hst. rewrite Hpc in Hst.
  destruct pc; try done. destruct (pt_todo pt) eqn:Etodo; [|done].
  destruct (onReply r) as [m| |] eqn:Em; try done. case_decide as Hk; [|done].
  assert (g = g_rest) as ->.
  { destruct g as [|d e|k' r' m' made h]; cbn in Hg; [done|by destruct Hg|].
    destruct Hg as (_ & _ & rest & _ & Ht & _). by destruct rest. }
  cbn in Hfl, Hq, Hre, Hde. assert (Hkf : k < length (in_flight p)) by lia.
  assert (Hcbp : ch_callback (p_channel p) = true).
  { destruct Hp as [_ _ Hcbp Hcount]. apply Hcbp. unfold outstanding in Hcount. lia. }
  cbn in Hst. rewrite Hrun, (Hcb Hcbp) in Hst. cbn in Hst. injection Hst as <-.
  exists (g_handle k r m [] 0).
  split; cbn; try done.
  - by apply named_answer.
  - exists idle. split; [done|]. split_and!; [done|done|]. by exists (ops_of m).
  - pose proof (length_delete_lt k _ Hk). lia.
  - rewrite Hde, app_nil_r. case_decide; [by rewrite app_nil_r|done].
Qed.

(** *** The event thread goes on with what [onInput] has to do *)

Lemma benign_ops_of m : Forall benign_op (ops_of m).
Proof. unfold ops_of. case_decide; [constructor|apply Huser]. Qed.

Lemma sim_next_call g pt p o todo pt' :
  polling 0 p → sim g pt p → pt_todo pt = td_op o :: todo →
  call_op 0 o (with_todo todo pt) = Some pt' → ∃ g', sim g' pt' p.
Proof.
  intros Hp Hs Etodo Hc. pose proof (sim_running _ _ _ Hs Hp) as [Hrun Hconn].
  pose proof (sim_endpoint _ _ _ Hs) as He.
  apply call_cases in Hc as (Hidle & Hb & Hcase). cbn in Hidle.
  destruct Hs as [Hn (pc & Hpc & Hg) Hse Hch Hcb Hrg Hcm Hif Hq Hfl Hre Hde Hwr].
  rewrite Hidle in Hpc. injection Hpc as <-. cbn in Hg. rewrite Etodo in Hg.
  destruct g as [|d e|k r m made h]; [by destruct Hg..|].
  destruct Hg as (Hm & Hk & rest & Hops & Htodo & Hh).
  destruct rest as [|o' rest]; [done|]. cbn in Htodo. injection Htodo as <- ->.
  assert (Hops' : ops_of m = (made ++ [o]) ++ rest) by (by rewrite <-app_assoc).
  destruct Hcase as [[-> Hsp]|[Hr ->]].
  - apply send_poll_spec in Hsp as (th & -> & Hn' & (L1 & L2 & L3) & Ht); [|done|done].
    exists (g_handle k r m (made ++ [po_register]) h). cbn in *.
    split; cbn; rewrite ?L1, ?L2, ?L3; try done.
    + exists (s_push (ch_name (pt_channel pt)) q_lock).
      rewrite Ht, list_lookup_insert_eq by (by eapply lookup_lt_Some). split; [done|].
      split_and!; [done|done|]. exists rest. split; [done|]. left. split; [done|].
      rewrite registers_app. unfold registers in *. cbn. lia.
    + split; [lia|done].
    + rewrite Ht, pushing_insert_0, registers_app. unfold registers in *. cbn. lia.
    + rewrite Hwr. unfold writes. rewrite bind_app. cbn. by rewrite app_nil_r.
  - destruct (call_broker o (pt_broker pt) Hb Hr Hrun Hconn) as [Sb Wb].
    exists (g_handle k r m (made ++ [o]) h). cbn in *.
    assert (Hz : registers (made ++ [o]) = registers made) by (rewrite registers_app; unfold registers; cbn; lia).
    split; cbn; try done; try congruence.
    + exists idle. split; [done|]. split_and!; [done|done|]. exists rest. by rewrite Hz.
    + rewrite Wb, Hwr, He. unfold writes. rewrite bind_app. by rewrite app_assoc.
Qed.

Lemma sim_again g pt p todo pt' :
  sim g pt p → pt_todo pt = td_again :: todo → t_threads (pt_threads pt) !! 0 = Some idle →
  send_poll 0 (with_todo todo pt) = Some pt' → ∃ g', sim g' pt' p.
Proof.
  intros Hs Etodo Hidle Hsp.
  destruct Hs as [Hn (pc & Hpc & Hg) Hse Hch Hcb Hrg Hcm Hif Hq Hfl Hre Hde Hwr].
  rewrite Hidle in Hpc. injection Hpc as <-. cbn in Hg. rewrite Etodo in Hg.
  destruct g as [|d e|k r m made h]; [by destruct Hg..|].
  destruct Hg as (Hm & Hk & rest & Hops & Htodo & Hh).
  destruct rest as [|o' rest]; [|done]. cbn in Htodo. injection Htodo as ->.
  apply send_poll_spec in Hsp as (th & -> & Hn' & (L1 & L2 & L3) & Ht); [|done|done].
  exists (g_handle k r m made h). cbn in *.
  split; cbn; rewrite ?L1, ?L2, ?L3; try done.
  - exists (s_push (ch_name (pt_channel pt)) q_lock).
    rewrite Ht, list_lookup_insert_eq by (by eapply lookup_lt_Some). split; [done|].
    split_and!; [done|done|]. exists []. split; [done|]. by right.
  - by rewrite Ht, pushing_insert_0.
Qed.

Lemma sim_next g pt p pt' :
  polling 0 p → sim g pt p → pt_step user pt_next pt = Some pt' → ∃ g', sim g' pt' p.
Proof.
  intros Hp Hs Hst. unfold pt_step in Hst.
  destruct (pt_todo pt) as [|[o|] todo] eqn:Etodo; [done|..].
  - by eapply sim_next_call.
  - destruct (t_threads (pt_threads pt) !! 0) as [[]|] eqn:Hi; try done. exact (sim_again _ _ _ _ _ Hs Etodo Hi Hst).
Qed.

Lemma sim_wake g pt p pt' :
  sim g pt p → pt_step user pt_wake pt = Some pt' → ∃ g', sim g' pt' p.
Proof.
  intros [Hn (pc & Hpc & Hg) Hse Hch Hcb Hrg Hcm Hif Hq Hfl Hre Hde Hwr] Hst. unfold pt_step in Hst.
  destruct (pt_todo pt) eqn:Etodo; [|done].
  destruct (t_step l_wake (pt_threads pt)) as [th|] eqn:Hw; [|done]. cbn in Hst. injection Hst as <-.
  destruct (named_wake _ _ _ Hn Hw) as (Hn' & (L1 & L2 & L3) & Hidle & Ht).
  rewrite Hidle in Hpc. injection Hpc as <-. cbn in Hg.
  destruct g as [|d e|k r m made h]; [|by destruct Hg|].
  - exists (g_drain 0 0). cbn in *. split; cbn; rewrite ?L1, ?L2, ?L3; try done.
    + exists c_lock. rewrite Ht, list_lookup_insert_eq by (by eapply lookup_lt_Some).
      by split_and!.
    + by rewrite Ht, pushing_insert_0.
  - destruct Hg as (_ & _ & rest & _ & Hx & _). by destruct rest.
Qed.

(** *** Steps of the threads *)

(** A thread of the application makes a step: its registration takes effect when its
    poll is in the queue. *)
Lemma sim_run_other g pt p i pc th :
  polling 0 p → sim g pt p → i ≠ 0 → t_threads (pt_threads pt) !! i = Some pc →
  thread_step i pc (pt_threads pt) = Some th →
  ∃ p', matches p p' ∧ sim g (with_threads th pt) p'.
Proof.
  intros Hp Hs Hi Hpc Hst. pose proof (sim_name _ _ _ Hs) as En. pose proof Hs as Hs0.
  destruct Hs as [Hn (pc0 & Hpc0 & Hg) Hse Hch Hcb Hrg Hcm Hif Hq Hfl Hre Hde Hwr].
  destruct (named_run _ _ _ _ _ Hn Hpc Hst) as (Hn' & pc' & Ht & He).
  pose proof (tv_callback _ _ (nm_inv _ _ Hn) _ _ Hpc) as Hcall.
  pose proof (pushing_insert _ i _ pc' Hi Hpc) as Hpu. rewrite <-Ht, !push_one_kind in Hpu.
  assert (Hpc0' : t_threads th !! 0 = Some pc0) by (by rewrite Ht, list_lookup_insert_ne by done).
  inversion He as [k L1 L2 L3 K K'|c L1 L2 L3 K K'|c L1 L2 L3 K K'|L1 L2 L3 _ K K'|c L1 L2 L3 K K'].
  - exists p. split; [by left|]. split; cbn; rewrite ?L1, ?L2, ?L3; try done; [by exists pc0|].
    rewrite <-K' in Hpu. lia.
  - pose proof (after_one 0 po_register p I Hp) as [S1 C1 B1 M1 F1 R1 D1 W1].
    exists (poll_op p po_register). split; [right; exists (pe_op po_register); by split_and!|].
    assert (Ee : endpointIdStr_ (p_broker (poll_op p po_register)) = endpointIdStr_ (p_broker p))
      by (by injection S1).
    rewrite <-K, <-K' in Hpu.
    split; cbn [with_threads pt_threads pt_broker pt_channel pt_registrations pt_delivered pt_todo];
      rewrite ?L1, ?L2, ?L3, ?F1, ?D1; try done; try congruence.
    + by exists pc0.
    + intros _. apply Hrg. lia.
    + rewrite M1. apply Forall_app_2; [done|]. rewrite En. unfold registers. cbn. by constructor.
    + rewrite M1, !length_app. unfold registers. cbn. lia.
    + rewrite R1. unfold registers in *. cbn in *. lia.
    + rewrite W1, Ee. unfold writes at 1. cbn. by rewrite app_nil_r.
  - destruct Hi, pc; try done; by apply Hcall.
  - destruct Hi, pc; try done; by apply Hcall.
  - destruct Hi, pc; try done; by apply Hcall.
Qed.

(** The event thread makes a step: the reply that it handles takes effect when the next
    poll is in the queue, the wake-up when the queue is found empty. *)
Lemma sim_run_event g pt p pc th :
  polling 0 p → sim g pt p → t_threads (pt_threads pt) !! 0 = Some pc →
  thread_step 0 pc (pt_threads pt) = Some th →
  ∃ g' p', matches p p' ∧ sim g' (with_threads th pt) p'.
Proof.
  intros Hp Hs Hpc Hst. pose proof (sim_name _ _ _ Hs) as En.
  destruct Hs as [Hn (pc0 & Hpc0 & Hg) Hse Hch Hcb Hrg Hcm Hif Hq Hfl Hre Hde Hwr].
  rewrite Hpc in Hpc0. injection Hpc0 as <-.
  destruct (named_run _ _ _ _ _ Hn Hpc Hst) as (Hn' & pc' & Ht & He).
  assert (Hpc' : t_threads th !! 0 = Some pc')
    by (rewrite Ht; apply list_lookup_insert_eq; by eapply lookup_lt_Some).
  assert (Hpu : pushing (t_threads th) = pushing (t_threads (pt_threads pt)))
    by (by rewrite Ht, pushing_insert_0).
  inversion He as [k L1 L2 L3 K K'|c L1 L2 L3 K K'|c L1 L2 L3 K K'|L1 L2 L3 Lq K K'|c L1 L2 L3 K K'];
    rewrite <-K in Hg.
  - exists g, p. split; [by left|].
    split; cbn; rewrite ?L1, ?L2, ?L3, ?Hpu; try done. exists pc'. by rewrite <-K', <-K.
  - destruct g as [|d e|k r m made h]; [by destruct Hg..|].
    destruct Hg as (Hm & Hk & rest & Hops & [[Htodo Hh]|(Htodo & -> & Hh)]).
    + exists (g_handle k r m made (S h)), p. split; [by left|].
      split; cbn in *; rewrite ?L1, ?L2, ?L3, ?Hpu, ?length_app; cbn; try done; [|lia].
      exists pc'. rewrite <-K'. split; [done|]. split_and!; [done|done|]. by exists rest.
    + rewrite app_nil_r in Hops. subst made.
      destruct (reply_after k r m p Hp Hk Hm) as (p' & Hev & S1 & C1 & B1 & M1 & F1 & R1 & D1 & W1).
      exists g_rest, p'. split; [right; exists (pe_reply k r); by split_and!|].
      cbn in *. pose proof (length_delete_lt k _ Hk).
      split; cbn; rewrite ?L1, ?L2, ?L3, ?Hpu, ?M1, ?F1, ?R1, ?D1, ?W1, ?length_app,
        ?length_replicate, ?app_nil_r; cbn; try done; try congruence; try lia.
      * exists pc'. by rewrite <-K'.
      * intros _. apply Hcb. destruct Hp as [_ _ Hcbp Hcount]. apply Hcbp.
        unfold outstanding in Hcount. lia.
      * apply Forall_app_2; [done|]. rewrite En. constructor; [done|by apply Forall_replicate].
      * by apply Forall_delete.
      * rewrite length_replicate. lia.
      * rewrite Hre. change (registers []) with 0. lia.
  - destruct g as [|d e|k r m made h]; [by destruct Hg| |by destruct Hg as (_ & _ & ? & _ & [])].
    destruct Hg as [Htodo ->]. exists (g_drain (S e) e), p. split; [by left|].
    split; cbn in *; rewrite ?L1, ?L2, ?L3, ?Hpu, ?length_app; cbn; try done; [|lia].
    exists pc'. by rewrite <-K'.
  - destruct g as [|d e|k r m made h]; [by destruct Hg| |by destruct Hg as (_ & _ & ? & _ & [])].
    destruct Hg as [Htodo ->]. cbn in *. rewrite Lq in Hq.
    eexists g_rest, _. split.
    { right. exists (pe_async (fun _ => true)). split_and!; [done|done|]. by apply async_after. }
    split; cbn; rewrite ?L1, ?L2, ?L3, ?Hpu, ?length_app; cbn; try done; try lia.
    + exists pc'. by rewrite <-K'.
    + by apply Forall_app_2.
    + by rewrite Lq.
  - destruct g as [|d e|k r m made h]; [by destruct Hg| |by destruct Hg as (_ & _ & ? & _ & [])].
    destruct Hg as [Htodo ->]. exists (g_drain (S e) (S e)), p. split; [by left|].
    split; cbn in *; rewrite ?L1, ?L2, ?L3, ?Hpu, ?length_app; cbn; try done; [|lia].
    exists pc'. by rewrite <-K'.
Qed.

Lemma sim_step g pt p e pt' :
  polling 0 p → sim g pt p → pt_step user e pt = Some pt' →
  ∃ g' p', matches p p' ∧ sim g' pt' p'.
Proof.
  intros Hp Hs Hst. destruct e as [i o|k r| |i|].
  - unfold pt_step in Hst. case_decide as Hi; [done|].
    pose proof (call_cases _ _ _ _ Hst) as (_ & Hb & [[-> _]|[Hr ->]]).
    + exists g, p. split; [by left|]. by eapply sim_register.
    + destruct (sim_call g pt p o Hp Hs Hb Hr) as (p' & ? & ?). by exists g, p'.
  - destruct (sim_reply _ _ _ _ _ _ Hp Hs Hst) as [g' ?]. exists g', p. split; [by left|done].
  - destruct (sim_next _ _ _ _ Hp Hs Hst) as [g' ?]. exists g', p. split; [by left|done].
  - cbn in Hst. destruct (t_threads (pt_threads pt) !! i) as [pc|] eqn:Hpc; [|done]. cbn in Hst.
    destruct (thread_step i pc (pt_threads pt)) as [th|] eqn:Hth; [|done].
    cbn in Hst. injection Hst as <-. destruct (decide (i = 0)) as [->|Hi].
    + by eapply sim_run_event.
    + destruct (sim_run_other g pt p i pc th) as (p' & ? & ?); try done. by exists g, p'.
  - destruct (sim_wake _ _ _ _ Hs Hst) as [g' ?]. exists g', p. split; [by left|done].
Qed.

(** ** Coming to rest *)

(** What is left to do: the statements of the threads, and those that [onInput] will
    start. *)
Definition pt_work pt : nat := t_work (pt_threads pt) + 21 * length (pt_todo pt).

(** What the steps of the event thread and of the others do to the threads. *)
Lemma call_threads i o pt pt' :
  call_op i o pt = Some pt' →
  pt_todo pt' = pt_todo pt ∧
  (pt_threads pt' = pt_threads pt ∨
   t_threads (pt_threads pt) !! i = Some idle ∧
   t_step (l_send i (ch_name (pt_channel pt))) (pt_threads pt) = Some (pt_threads pt')).
Proof.
  intros Hc. apply call_cases in Hc as (Hi & _ & [[-> Hs]|[_ ->]]); [|by auto].
  unfold send_poll in Hs. apply bind_Some in Hs as (th & Hth & Hs). cbn in Hs. simplify_eq.
  cbn. auto.
Qed.

Lemma send_work i name (s s' : Threads string) :
  t_threads s !! i = Some idle → t_step (l_send i name) s = Some s' → t_work s' ≤ t_work s + 20.
Proof.
  intros Hi Hst. cbn in Hst. rewrite Hi in Hst. simplify_eq. destruct (t_valid s); [|lia].
  unfold t_work. cbn [at_pc t_threads t_commands t_async_sent].
  pose proof (work_insert _ _ _ (s_push name q_lock) Hi) as Hw. cbn [pc_work q_work] in Hw. lia.
Qed.

Lemma internal_pt_work e pt pt' :
  t_inv false (pt_threads pt) → pt_internal e → pt_step user e pt = Some pt' →
  pt_work pt' < pt_work pt.
Proof.
  intros Hi He Hst. unfold pt_work. destruct e as [| | |i|]; try done; unfold pt_step in Hst.
  - destruct (pt_todo pt) as [|[o|] todo] eqn:Etodo; [done|..].
    + apply call_threads in Hst as [Ht Hth]. cbn in Ht, Hth. rewrite Ht. cbn.
      destruct Hth as [->|[Hidle Hth]]; [lia|].
      pose proof (send_work _ _ _ _ Hidle Hth). lia.
    + destruct (t_threads (pt_threads pt) !! 0) as [[]|] eqn:Hpc; try done.
      unfold send_poll in Hst. apply bind_Some in Hst as (th & Hth & Hst). cbn in Hth, Hst.
      simplify_eq. cbn [pt_threads pt_todo length with_todo].
      pose proof (send_work 0 (ch_name (pt_channel pt)) _ th Hpc Hth). lia.
  - apply bind_Some in Hst as (th & Hth & Hst). simplify_eq. cbn [with_threads pt_threads pt_todo].
    pose proof (internal_step_work false (l_run i) _ _ Hi (or_intror (ex_intro _ i eq_refl)) Hth). lia.
  - destruct (pt_todo pt) eqn:Etodo; [|done].
    apply bind_Some in Hst as (th & Hth & Hst). simplify_eq. cbn [with_threads pt_threads pt_todo]. rewrite Etodo.
    pose proof (internal_step_work false l_wake _ _ Hi (or_introl eq_refl) Hth). lia.
Qed.

Lemma pt_step_woken g e pt p pt' :
  sim g pt p → woken (pt_threads pt) → pt_step user e pt = Some pt' → woken (pt_threads pt').
Proof.
  intros Hs Hw Hst. pose proof (nm_inv _ _ (sm_named _ _ _ Hs)) as Hi.
  assert (Hsend : ∀ i name th, t_step (l_send i name) (pt_threads pt) = Some th → woken th)
    by (intros i name th; by apply (t_step_woken false)).
  assert (Hcall : ∀ i o todo, call_op i o (with_todo todo pt) = Some pt' → woken (pt_threads pt')).
  { intros i o todo Hc. apply call_threads in Hc as [_ [->|[_ Hth]]]; [done|]. by eapply Hsend. }
  destruct e as [i o|k r| |i|]; unfold pt_step in Hst.
  - case_decide; [done|]. eapply (Hcall i o (pt_todo pt)). by destruct pt.
  - unfold reply_step in Hst. repeat case_match; simplify_eq; done.
  - destruct (pt_todo pt) as [|[o|] todo]; [done|by eapply Hcall|].
    destruct (t_threads (pt_threads pt) !! 0) as [[]|]; try done.
    unfold send_poll in Hst. apply bind_Some in Hst as (th & Hth & Hst). simplify_eq.
    by eapply Hsend.
  - apply bind_Some in Hst as (th & Hth & Hst). simplify_eq.
    by eapply (t_step_woken false (l_run i)).
  - destruct (pt_todo pt); [|done]. apply bind_Some in Hst as (th & Hth & Hst). simplify_eq.
    by eapply (t_step_woken false l_wake).
Qed.

(** The invariant of a run: the atomic model has a run that matches. *)
Definition refined (p0 : Poll (Msg := Msg)) pt : Prop :=
  ∃ g p, poll_run user benign p0 p ∧ polling 0 p ∧ sim g pt p ∧ woken (pt_threads pt).

Lemma refined_step p0 e pt pt' :
  refined p0 pt → pt_step user e pt = Some pt' → refined p0 pt'.
Proof.
  intros (g & p & Hrun & Hp & Hs & Hw) Hst.
  destruct (sim_step g pt p e pt' Hp Hs Hst) as (g' & p' & Hm & Hs').
  pose proof (pt_step_woken _ _ _ _ _ Hs Hw Hst) as Hw'.
  exists g', p'. destruct Hm as [->|(ev & Hb & Hen & Hev)]; [by split_and!|].
  split_and!; [by eapply poll_run_step|by eapply poll_event_polling|done|done].
Qed.

Lemma refined_steps p0 es pt pt' :
  refined p0 pt → pt_steps user es pt = Some pt' → refined p0 pt'.
Proof.
  revert pt. induction es as [|e es IH]; cbn; intros pt Hr Hst; [by simplify_eq|].
  destruct (pt_step user e pt) as [pt1|] eqn:He; [|done]. cbn in Hst.
  eapply IH; [|exact Hst]. by eapply refined_step.
Qed.

Lemma refined_new n name b :
  commands_ b = [] → isRunning_ b = true → conn_ b = true →
  refined (new_poll name b) (new_poll_threads n name b).
Proof.
  intros Hb Hr Hc. exists g_rest, (new_poll name b).
  split_and!; [constructor|split; unfold outstanding; cbn; rewrite ?Hb; try done; lia| |by split].
  assert (Hts : t_threads (new_threads (Cmd := string) n) !! 0 = Some idle) by done.
  split; cbn [new_poll new_poll_threads pt_threads pt_broker pt_channel pt_registrations
    pt_delivered pt_todo p_broker p_channel in_flight registrations delivered]; rewrite ?Hb; try done.
  - split; try done; [apply new_threads_inv|].
    intros i pc c ->%new_threads_idle. by intros [|].
  - by exists idle.
  - cbn. split; [done|lia].
  - rewrite pushing_idle; [done|]. intros i pc. apply new_threads_idle.
  - cbn. by rewrite app_nil_r.
Qed.

(** The threads at rest. *)
Definition at_rest pt : Prop :=
  (∀ i pc, t_threads (pt_threads pt) !! i = Some pc → pc = idle) ∧ pt_todo pt = [] ∧
  the_queue (t_commands (pt_threads pt)) = [] ∧
  t_popped (pt_threads pt) = t_pushed (pt_threads pt).

Lemma idle_mutex s : t_inv false s → (∀ i pc, t_threads s !! i = Some pc → pc = idle (Cmd := string)) →
  t_mutex s = None.
Proof.
  intros Hi Hidle. destruct (t_mutex s) as [i|] eqn:Hm; [|done].
  destruct (tv_holder _ _ Hi _ Hm) as (pc & Hpc & Hh). by rewrite (Hidle _ _ Hpc) in Hh.
Qed.

(** When the event thread is idle there is nothing that [onInput] has to do and cannot. *)
Lemma next_enabled g pt p :
  sim g pt p → t_threads (pt_threads pt) !! 0 = Some idle → t_mutex (pt_threads pt) = None →
  pt_step user pt_next pt = None → pt_todo pt = [].
Proof.
  intros Hs Hidle Hm Hst. destruct (sm_head _ _ _ Hs) as (pc & Hpc & Hg).
  rewrite Hidle in Hpc. injection Hpc as <-. cbn [kind] in Hg.
  destruct g as [|d e|k r m made h]; [by destruct Hg..|].
  destruct Hg as (_ & _ & rest & Hops & Htodo & _). exfalso.
  destruct (named_send _ _ 0 (sm_named _ _ _ Hs) Hidle) as (th & Hth & _).
  unfold pt_step in Hst. rewrite Htodo in Hst. destruct rest as [|o rest].
  - cbn [fmap list_fmap app] in Hst. rewrite Hidle in Hst. unfold send_poll in Hst.
    change (pt_channel (with_todo [] pt)) with (pt_channel pt) in Hst.
    change (pt_threads (with_todo [] pt)) with (pt_threads pt) in Hst. by rewrite Hth in Hst.
  - assert (Hb : benign_op o).
    { pose proof (benign_ops_of m) as Hb. rewrite Hops, Forall_app, Forall_cons in Hb. by destruct Hb as (_ & ? & _). }
    change ((td_op <$> o :: rest) ++ [td_again]) with (td_op o :: (td_op <$> rest) ++ [td_again]) in Hst.
    unfold call_op in Hst.
    change (pt_threads (with_todo _ pt)) with (pt_threads pt) in Hst. rewrite Hidle in Hst.
    destruct o; try done.
    + unfold send_poll in Hst. cbn [pt_channel ch_name pt_threads with_todo] in Hst. by rewrite Hth in Hst.
    + by rewrite Hm in Hst.
Qed.

Lemma stuck_at_rest p0 pt :
  refined p0 pt → (∀ e, pt_internal e → pt_step user e pt = None) → at_rest pt.
Proof.
  intros (g & p & _ & Hp & Hs & Hw) Hstuck.
  pose proof (nm_inv _ _ (sm_named _ _ _ Hs)) as Hi.
  destruct (stuck_idle false _ Hi) as [Hqm Hidle].
  { intros i. specialize (Hstuck (pt_run i) I). unfold pt_step in Hstuck.
    by destruct (t_step (l_run i) (pt_threads pt)). }
  destruct (sm_head _ _ _ Hs) as (pc & Hpc & _). pose proof (Hidle _ _ Hpc) as ->.
  pose proof (next_enabled _ _ _ Hs Hpc (idle_mutex _ Hi Hidle) (Hstuck pt_next I)) as Htodo.
  assert (Hq : the_queue (t_commands (pt_threads pt)) = []).
  { destruct (the_queue (t_commands (pt_threads pt))) as [|c q] eqn:E; [done|]. exfalso.
    destruct (proj2 Hw) as [Ha|(j & pj & Hj & Hc)]; [congruence| |by rewrite (Hidle _ _ Hj) in Hc].
    specialize (Hstuck pt_wake I). unfold pt_step in Hstuck. rewrite Htodo in Hstuck.
    cbn in Hstuck. by rewrite Hpc, Ha in Hstuck. }
  split_and!; [done|done|done|].
  destruct (tv_queue _ _ Hi) as (q0 & [_ Hg] & Hpq). rewrite Hqm in Hg.
  by rewrite Hpq, <-Hg, Hq, app_nil_r.
Qed.

Lemma same_names name (l1 l2 : list string) :
  Forall (eq name) l1 → Forall (eq name) l2 → length l1 = length l2 → l1 = l2.
Proof.
  intros H1. revert l2. induction H1 as [|x l1 Hx _ IH]; intros [|y l2] H2 Hl; try done.
  apply Forall_cons in H2 as [Hy H2]. injection Hl as Hl. f_equal; [congruence|by apply IH].
Qed.

(** At rest the two states are the same. *)
Lemma rest_refines g pt p :
  polling 0 p → sim g pt p → at_rest pt →
  commands_ (p_broker p) = [] ∧ in_flight p = t_sent (pt_threads pt) ∧
  registrations p = pt_registrations pt ∧ length (t_sent (pt_threads pt)) = pt_registrations pt ∧
  delivered p = pt_delivered pt ∧ p_channel p = pt_channel pt ∧
  written (pt_broker pt) ≡ₚ written (p_broker p).
Proof.
  intros [_ _ Hpcb Hcount] [Hn (pc & Hpc & Hg) Hse Hch Hcb Hrg Hcm Hif Hq Hfl Hre Hde Hwr]
    (Hidle & Htodo & _ & Hpp).
  pose proof (Hidle _ _ Hpc) as ->. rewrite Htodo in Hg. cbn [kind] in Hg.
  destruct g as [|d e|k r m made h]; [|by destruct Hg|].
  2: { destruct Hg as (_ & _ & rest & _ & Hx & _). by destruct rest. }
  cbn [g_queued g_popped g_executed g_answered g_done g_message] in *.
  rewrite (pushing_idle _ Hidle) in Hre. change (registers []) with 0 in Hre. rewrite Hpp in Hq.
  unfold outstanding in Hcount.
  assert (Hc0 : commands_ (p_broker p) = []) by (apply length_zero_iff_nil; lia).
  rewrite Hc0 in Hcount. cbn in Hcount.
  split_and!; [done| |lia|lia|by rewrite Hde, app_nil_r| |].
  - eapply same_names; [exact Hif|exact (nm_sent _ _ Hn)|lia].
  - destruct (p_channel p) as [n1 c1 h1 k1], (pt_channel pt) as [n2 c2 h2 k2]. cbn in *.
    injection Hch as -> -> ->. f_equal.
    destruct c1, c2; try done; [by rewrite Hcb|]. apply Hpcb. pose proof (proj1 Hrg eq_refl). lia.
  - rewrite Hwr. change (writes _ []) with (@nil (Written Msg)). by rewrite app_nil_r.
Qed.

Lemma internal_steps_work p0 es pt pt' :
  refined p0 pt → Forall pt_internal es → pt_steps user es pt = Some pt' →
  length es + pt_work pt' ≤ pt_work pt.
Proof.
  revert pt. induction es as [|e es IH]; cbn [pt_steps length]; intros pt Hr He Hst; [simplify_eq; lia|].
  apply Forall_cons in He as [He Hes].
  destruct (pt_step user e pt) as [pt1|] eqn:E1; [|done]. cbn in Hst.
  pose proof (refined_step _ _ _ _ Hr E1) as Hr1.
  destruct Hr as (g & p & _ & _ & Hs & _).
  pose proof (internal_pt_work e pt pt1 (nm_inv _ _ (sm_named _ _ _ Hs)) He E1).
  pose proof (IH pt1 Hr1 Hes Hst). lia.
Qed.

(** C6: The threads of the broker refine its atomic events.  The broker is running and
    connected, every connection that is made stays valid, and nobody shuts the broker
    down: the application only registers, writes and sets the URL.  Then, however many
    threads do so while Redis answers, and however the statements of [sendMessage], of
    [async_cb] and of [onInput] interleave ([write] is one step, made while the mutex of
    the loop is free, and so is [setUrl]): left to themselves the threads make at most
    [pt_work] more steps; when none can make another one they are at rest, every
    registration has its poll waiting at Redis, and there is a run of atomic events that
    ends with the same channel, the same polls at Redis and the same messages delivered
    in the same order, and has written the same messages. *)
Theorem threads_refine_polls n name b es pt :
  commands_ b = [] → isRunning_ b = true → conn_ b = true →
  pt_steps user es (new_poll_threads n name b) = Some pt →
  (∀ es' pt', Forall pt_internal es' → pt_steps user es' pt = Some pt' →
     length es' ≤ pt_work pt) ∧
  ((∀ e, pt_internal e → pt_step user e pt = None) →
   (∀ i pc, t_threads (pt_threads pt) !! i = Some pc → pc = idle) ∧ pt_todo pt = [] ∧
   length (t_sent (pt_threads pt)) = pt_registrations pt ∧
   ∃ p, poll_run user benign (new_poll name b) p ∧
        commands_ (p_broker p) = [] ∧ in_flight p = t_sent (pt_threads pt) ∧
        registrations p = pt_registrations pt ∧ delivered p = pt_delivered pt ∧
        p_channel p = pt_channel pt ∧ written (pt_broker pt) ≡ₚ written (p_broker p)).
Proof.
  intros Hb Hr Hc Hst.
  pose proof (refined_steps _ _ _ _ (refined_new n name b Hb Hr Hc) Hst) as Href. split.
  - intros es' pt' He Hst'. pose proof (internal_steps_work _ _ _ _ Href He Hst'). lia.
  - intros Hstuck. pose proof (stuck_at_rest _ _ Href Hstuck) as Hrest.
    destruct Href as (g & p & Hrun & Hp & Hs & _).
    destruct (rest_refines g pt p Hp Hs Hrest) as (? & ? & ? & ? & ? & ? & ?).
    destruct Hrest as (? & ? & _). split_and!; [done|done|done|]. exists p. by split_and!.
Qed.
End refinement.

(** ** A session *)

Module PollThreadsSession.
Import MessageBrokerSession.
#[local] Open Scope string_scope.
#[local] Existing Instance binary_text.
#[local] Existing Instance steady.

(** The application answers every message with one of its own, and registers again. *)
Definition answering (_ : Message) : list (PollOp (Msg := unit)) := [po_write tt; po_register].

Definition a_message : Reply :=
  ReplyArray [ReplyString "notify"; ReplyString (toNetworkMessage hello)].

(** Thread 1 registers; Redis answers its poll; while [onInput] is handling the message,
    thread 1 registers once more. *)
Definition conversation : list (PtEvent unit) :=
  pt_call 1 po_register :: replicate 7 (pt_run 1) ++
  pt_wake :: replicate 12 (pt_run 0) ++
  pt_reply 0 a_message :: pt_next :: pt_call 1 po_register :: pt_run 1 ::
  pt_run 1 :: pt_next :: pt_run 1 :: pt_run 1 :: replicate 7 (pt_run 0) ++
  replicate 3 (pt_run 1) ++ pt_next :: replicate 7 (pt_run 0) ++
  pt_wake :: replicate 24 (pt_run 0).

Lemma threads_refine_polls_witness :
  ∃ pt, pt_steps answering conversation (new_poll_threads 1 "notify" running) = Some pt ∧
        pt_registrations pt = 3 ∧ length (t_sent (pt_threads pt)) = 3 ∧
        pt_delivered pt = [setType VALID hello] ∧
        ∃ p, poll_run answering benign (new_poll "notify" running) p ∧
             in_flight p = t_sent (pt_threads pt) ∧ delivered p = pt_delivered pt ∧
             commands_ (p_broker p) = [].
Proof.
  eexists. split; [vm_compute; reflexivity|]. split_and!; [reflexivity..|].
  assert (Hv : ∀ n k, redis_valid n k = true) by (intros; reflexivity).
  assert (Hu : ∀ m, Forall benign_op (answering m)) by (intros; by repeat constructor).
  edestruct (threads_refine_polls answering Hv Hu 1 "notify" running conversation)
    as [_ Hrest]; [reflexivity..|vm_compute; reflexivity|].
  destruct Hrest as (_ & _ & _ & p & Hp & Hc & Hf & _ & Hd & _).
  { intros [| | |i|]; try done. by destruct i as [|[|i]]. }
  exists p. by split_and!.
Defined.
End PollThreadsSession.
