(* ===== verification/Scheduler.v ===== *)
(** * Scheduler: scheduler_process.cpp, scheduler_process.hpp

    The framework side of URB: [UrbSchedulerProcess], which keeps the
    registration with the master, turns messages of the master into callbacks of
    the application and calls of the driver into messages to the master.

    One record, [World], holds the driver's status and the process's members
    together with what they act on: the broker, the pending timers and the
    callbacks delivered.  The application is the argument [cb] of the operations
    that call it back: the effect of a callback on the world, which is built
    from driver calls in file [SchedulerDriver].

    [Fatal] is a failed [CHECK] or the use of [pNotifyChannel_] before
    [createChannels] has set it (the constructor leaves it uninitialised);
    [Err] only stands for an exhausted call depth. *)

From S2P Require Import Prelude Broker.
#[local] Open Scope string_scope.
#[local] Open Scope list_scope.
#[local] Open Scope Z_scope.

(** ** Data *)

Inductive Status :=
  | DRIVER_NOT_STARTED
  | DRIVER_RUNNING
  | DRIVER_ABORTED
  | DRIVER_STOPPED.

Inductive TaskState :=
  | TASK_STAGING | TASK_STARTING | TASK_RUNNING | TASK_KILLING
  | TASK_FINISHED | TASK_FAILED | TASK_KILLED | TASK_ERROR | TASK_LOST
  | TASK_DROPPED | TASK_UNREACHABLE | TASK_GONE | TASK_GONE_BY_OPERATOR
  | TASK_UNKNOWN.

#[export] Instance Status_eq_dec : EqDecision Status.
Proof. solve_decision. Defined.
#[export] Instance TaskState_eq_dec : EqDecision TaskState.
Proof. solve_decision. Defined.

(** The fields of the protobuf messages that the code reads or writes; [..._rest]
    stands for the ones it only copies. *)
Record FrameworkInfo := mkFrameworkInfo {
  fi_user : string;
  fi_name : string;
  fi_id : option string;
  fi_rest : string }.

Record ExecutorInfo := mkExecutorInfo {
  ei_executor_id : string;
  ei_framework_id : option string;
  ei_rest : string }.

Record TaskInfo := mkTaskInfo {
  ti_name : string;
  ti_task_id : string;
  ti_slave_id : string;
  ti_executor : option ExecutorInfo;
  ti_command : option string;
  ti_labels : option (list (string * option string));
  ti_rest : string }.

Record TaskStatus := mkTaskStatus {
  ts_task_id : string;
  ts_state : TaskState;
  ts_message : option string;
  ts_slave_id : option string;
  ts_uuid : option string;
  ts_timestamp : option Z }.

Record StatusUpdate := mkStatusUpdate {
  su_framework_id : string;
  su_slave_id : option string;
  su_status : TaskStatus;
  su_timestamp : Z;
  su_uuid : option string }.

Record Offer := mkOffer {
  of_id : string;
  of_slave_id : string;
  of_rest : string }.

Inductive OperationType :=
  | UNKNOWN | LAUNCH | LAUNCH_GROUP | RESERVE | UNRESERVE | CREATE | DESTROY.

#[export] Instance OperationType_eq_dec : EqDecision OperationType.
Proof. solve_decision. Defined.

Record Operation := mkOperation {
  op_type : OperationType;
  op_task_infos : list TaskInfo }.

(** What the process sends, one constructor per [sendMessage] overload. *)
Inductive Message :=
  | RegisterFrameworkMessage (framework : FrameworkInfo) (job_submit_options : option string)
  | ReregisterFrameworkMessage (framework : FrameworkInfo) (failover : bool)
  | StatusUpdateAcknowledgementMessage (framework_id slave_id task_id : string)
                                       (uuid : option string)
  | UnregisterFrameworkMessage (framework_id : string)
  | DeactivateFrameworkMessage (framework_id : string)
  | KillTaskMessage (framework_id task_id : string)
  | ResourceRequestMessage (framework_id : string) (requests : list string)
  | LaunchTasksMessage (framework_id : string) (offer_ids : list string)
                       (tasks : list TaskInfo) (filters : string)
  | ReviveOffersMessage (framework_id : string)
  | FrameworkToExecutorMessage (slave_id framework_id executor_id data : string)
  | ReconcileTasksMessage (framework_id : string) (statuses : list TaskStatus).

(** The [_TARGET] constants, by the overload of [sendMessage] that uses them. *)
Definition target (m : Message) : string :=
  match m with
  | RegisterFrameworkMessage _ _ => "RegisterFrameworkMessage"
  | ReregisterFrameworkMessage _ _ => "ReregisterFrameworkMessage"
  | StatusUpdateAcknowledgementMessage _ _ _ _ => "StatusUpdateAcknowledgementMessage"
  | UnregisterFrameworkMessage _ => "UnregisterFrameworkMessage"
  | DeactivateFrameworkMessage _ => "DeactivateFrameworkMessage"
  | KillTaskMessage _ _ => "KillTaskMessage"
  | ResourceRequestMessage _ _ => "ResourceRequestMessage"
  | LaunchTasksMessage _ _ _ _ => "LaunchTasksMessage"
  | ReviveOffersMessage _ => "ReviveOffersMessage"
  | FrameworkToExecutorMessage _ _ _ _ => "FrameworkToExecutorMessage"
  | ReconcileTasksMessage _ _ => "ReconcileTasksMessage"
  end.

(** The methods of the application's [Scheduler] that the process calls. *)
Inductive Callback :=
  | cb_registered (frameworkId masterInfo : string)
  | cb_reregistered (masterInfo : string)
  | cb_resourceOffers (offers : list Offer)
  | cb_offerRescinded (offerId : string)
  | cb_statusUpdate (status : TaskStatus)
  | cb_slaveLost (slaveId : string)
  | cb_frameworkMessage (executorId slaveId data : string)
  | cb_error (message : string).

(** The member functions that timers run, with their delay in seconds. *)
Inductive TimerMethod :=
  | doReliableRegistration_after (seconds : Z)
  | checkReconcile_after (seconds : Z).

#[export] Instance TimerMethod_eq_dec : EqDecision TimerMethod.
Proof. solve_decision. Defined.

(** [uuid_generate] and [time] for the n-th update that the driver makes up,
    [os::user] and the environment variable [URB_job_submit_options].  A uuid is
    sixteen bytes in an array on the stack; [after_uuid] are the bytes behind it. *)
Class Os := {
  uuid_generate : nat → string;
  after_uuid : nat → string;
  time0 : nat → Z;
  os_user : option string;
  job_submit_options_env : option string }.

(** The text that [set_uuid((char* )uuid)] stores: the bytes are read as a C string,
    up to the first zero byte, inside of the array or behind it. *)
Fixpoint c_str (s : string) : string :=
  match s with
  | "" => ""
  | String c s' => if Ascii.eqb c Ascii.zero then "" else String c (c_str s')
  end.
Definition uuid_text `{Os} (n : nat) : string := c_str (uuid_generate n ++ after_uuid n).

(** ** State *)

Record World := mkWorld {
  (* MesosSchedulerDriver *)
  framework : FrameworkInfo;
  master : string;
  process : bool;
  status : Status;
  (* UrbSchedulerProcess *)
  channelsCreated_ : bool;
  pNotifyChannel_ : option Channel;
  framework_ : FrameworkInfo;
  failover_ : bool;
  master_ : string;
  connected_ : bool;
  aborted_ : bool;
  savedSlavePids_ : gmap string string;
  activeTasks_ : gmap string TaskState;
  (* what they act on *)
  broker : Broker Message;
  timers : list TimerMethod;
  generated : nat;
  notified : list Callback }.

Definition set_status (x : Status) (w : World) : World :=
  mkWorld (framework w) (master w) (process w) x (channelsCreated_ w) (pNotifyChannel_ w)
    (framework_ w) (failover_ w) (master_ w) (connected_ w) (aborted_ w)
    (savedSlavePids_ w) (activeTasks_ w) (broker w) (timers w) (generated w) (notified w).

Definition set_channel (created : bool) (x : option Channel) (w : World) : World :=
  mkWorld (framework w) (master w) (process w) (status w) created x
    (framework_ w) (failover_ w) (master_ w) (connected_ w) (aborted_ w)
    (savedSlavePids_ w) (activeTasks_ w) (broker w) (timers w) (generated w) (notified w).

Definition set_framework (x : FrameworkInfo) (w : World) : World :=
  mkWorld (framework w) (master w) (process w) (status w) (channelsCreated_ w)
    (pNotifyChannel_ w) x (failover_ w) (master_ w) (connected_ w) (aborted_ w)
    (savedSlavePids_ w) (activeTasks_ w) (broker w) (timers w) (generated w) (notified w).

(** [connected_], [aborted_] and [failover_] are set together or alone. *)
Definition set_flags (connected aborted failover : bool) (w : World) : World :=
  mkWorld (framework w) (master w) (process w) (status w) (channelsCreated_ w)
    (pNotifyChannel_ w) (framework_ w) failover (master_ w) connected aborted
    (savedSlavePids_ w) (activeTasks_ w) (broker w) (timers w) (generated w) (notified w).

Definition set_pids (x : gmap string string) (w : World) : World :=
  mkWorld (framework w) (master w) (process w) (status w) (channelsCreated_ w)
    (pNotifyChannel_ w) (framework_ w) (failover_ w) (master_ w) (connected_ w)
    (aborted_ w) x (activeTasks_ w) (broker w) (timers w) (generated w) (notified w).

Definition set_activeTasks (x : gmap string TaskState) (w : World) : World :=
  mkWorld (framework w) (master w) (process w) (status w) (channelsCreated_ w)
    (pNotifyChannel_ w) (framework_ w) (failover_ w) (master_ w) (connected_ w)
    (aborted_ w) (savedSlavePids_ w) x (broker w) (timers w) (generated w) (notified w).

Definition set_broker (x : Broker Message) (w : World) : World :=
  mkWorld (framework w) (master w) (process w) (status w) (channelsCreated_ w)
    (pNotifyChannel_ w) (framework_ w) (failover_ w) (master_ w) (connected_ w)
    (aborted_ w) (savedSlavePids_ w) (activeTasks_ w) x (timers w) (generated w) (notified w).

Definition set_timers (x : list TimerMethod) (w : World) : World :=
  mkWorld (framework w) (master w) (process w) (status w) (channelsCreated_ w)
    (pNotifyChannel_ w) (framework_ w) (failover_ w) (master_ w) (connected_ w)
    (aborted_ w) (savedSlavePids_ w) (activeTasks_ w) (broker w) x (generated w) (notified w).

Definition set_generated (x : nat) (w : World) : World :=
  mkWorld (framework w) (master w) (process w) (status w) (channelsCreated_ w)
    (pNotifyChannel_ w) (framework_ w) (failover_ w) (master_ w) (connected_ w)
    (aborted_ w) (savedSlavePids_ w) (activeTasks_ w) (broker w) (timers w) x (notified w).

Definition set_notified (x : list Callback) (w : World) : World :=
  mkWorld (framework w) (master w) (process w) (status w) (channelsCreated_ w)
    (pNotifyChannel_ w) (framework_ w) (failover_ w) (master_ w) (connected_ w)
    (aborted_ w) (savedSlavePids_ w) (activeTasks_ w) (broker w) (timers w) (generated w) x.

(** [framework_.id().value()]. *)
Definition framework_id (w : World) : string := get_or "" (fi_id (framework_ w)).

(** [Timer::delay]: schedules another run, whether or not one is pending. *)
Definition delay (t : TimerMethod) (w : World) : World := set_timers (timers w ++ [t]) w.

Definition str_eqb (a b : string) : bool := bool_decide (a = b).

(** The terminal states of the [switch] in [statusUpdate]. *)
Definition removes_task (s : TaskState) : bool :=
  match s with
  | TASK_FINISHED | TASK_FAILED | TASK_KILLED | TASK_LOST => true
  | _ => false
  end.

(** ** Sending *)

(** [sendMesosMessage]: through [pNotifyChannel_]. *)
Definition sendMessage (m : Message) (w : World) : outcome World :=
  match pNotifyChannel_ w with
  | None => Fatal
  | Some _ => Ok (set_broker (write m (broker w)) w)
  end.

(** The guard of the operations that talk to the master. *)
Definition checkMaster (w : World) : outcome unit :=
  CHECK (negb (str_eqb (master_ w) "")).

Definition send_when_connected (m : World → Message) (w : World) : outcome World :=
  if connected_ w then _ ← checkMaster w; sendMessage (m w) w else Ok w.

Definition killTask (taskId : string) : World → outcome World :=
  send_when_connected (fun w => KillTaskMessage (framework_id w) taskId).

Definition requestResources (requests : list string) : World → outcome World :=
  send_when_connected (fun w => ResourceRequestMessage (framework_id w) requests).

Definition reviveOffers : World → outcome World :=
  send_when_connected (fun w => ReviveOffersMessage (framework_id w)).

Definition sendFrameworkMessage (executorId slaveId data : string) : World → outcome World :=
  send_when_connected (fun w =>
    FrameworkToExecutorMessage slaveId (framework_id w) executorId data).

Definition reconcileTasks (statuses : list TaskStatus) : World → outcome World :=
  send_when_connected (fun w => ReconcileTasksMessage (framework_id w) statuses).

Definition acknowledgeStatusUpdate (st : TaskStatus) (w : World) : outcome World :=
  if connected_ w then
    _ ← checkMaster w;
    match ts_uuid st, ts_slave_id st with
    | Some uuid, Some slave =>
        sendMessage (StatusUpdateAcknowledgementMessage (framework_id w) slave
                       (ts_task_id st) (Some uuid)) w
    | _, _ => Ok w
    end
  else Ok w.

Definition stop (failover : bool) (w : World) : outcome World :=
  if connected_ w && negb failover then
    _ ← checkMaster w;
    w' ← sendMessage (UnregisterFrameworkMessage (framework_id w)) w;
    Ok (set_flags false (aborted_ w') (failover_ w') w')
  else Ok w.

Definition abort (w : World) : outcome World :=
  if connected_ w then
    _ ← checkMaster w;
    w' ← sendMessage (DeactivateFrameworkMessage (framework_id w)) w;
    Ok (set_flags false true (failover_ w') w')
  else Ok w.

(** [MesosSchedulerDriver::abort], which [error] calls. *)
Definition driver_abort (w : World) : outcome World :=
  if decide (status w = DRIVER_RUNNING) then
    _ ← CHECK (process w);
    w' ← abort w;
    Ok (set_status DRIVER_ABORTED w')
  else Ok w.

(** ** Registration *)

(** A [std::map] is iterated in the order of its keys. *)
Definition entry_le (a b : string * TaskState) : Prop := String.leb a.1 b.1 = true.
#[export] Instance entry_le_dec : RelDecision entry_le.
Proof. intros a b. unfold entry_le. apply _. Defined.

Definition sorted_entries (tasks : gmap string TaskState) : list (string * TaskState) :=
  merge_sort entry_le (map_to_list tasks).

Definition staging_statuses (tasks : gmap string TaskState) : list TaskStatus :=
  (fun '(id, _) => mkTaskStatus id TASK_STAGING None None None None) <$>
  filter (fun '(_, s) => s = TASK_STAGING) (sorted_entries tasks).

Definition checkReconcile (w : World) : outcome World :=
  let statuses := staging_statuses (activeTasks_ w) in
  w' ← match statuses with [] => Ok w | _ => reconcileTasks statuses w end;
  Ok (delay (checkReconcile_after 60) w').

Definition startRegistration (w : World) : World :=
  delay (doReliableRegistration_after 0) w.

Section registration.
Context `{Redis} `{Os}.

Definition createChannels (w : World) : outcome World :=
  let w := if channelsCreated_ w then w
           else set_channel true (Some (createChannel "notify" (broker w))) w in
  match pNotifyChannel_ w with
  | None => Fatal
  | Some c =>
      let '(c, b) := registerInputCallback c (broker w) in
      Ok (set_broker b (set_channel (channelsCreated_ w) (Some c) w))
  end.

Definition registration_message (w : World) : Message :=
  if negb (has (fi_id (framework_ w))) || str_eqb (framework_id w) "" || failover_ w
  then RegisterFrameworkMessage (framework_ w) job_submit_options_env
  else ReregisterFrameworkMessage (framework_ w) (failover_ w).

Definition doReliableRegistration (w : World) : outcome World :=
  if connected_ w || str_eqb (master_ w) "" then Ok w
  else if aborted_ w then Ok (set_flags true false (failover_ w) w)
  else
    let '(r, b) := setUrl (master_ w) (broker w) in
    let w := set_broker b w in
    match r with
    | Ok _ => w' ← createChannels w; sendMessage (registration_message w') w'
    | _ => Ok (delay (doReliableRegistration_after 1) w)
    end.

End registration.

Definition startHeartbeat (frameworkId : string) (w : World) : outcome World :=
  match pNotifyChannel_ w with
  | None => Fatal
  | Some c => Ok (set_channel (channelsCreated_ w) (Some (setHeartbeatPayload frameworkId c)) w)
  end.

(** ** Messages of the master *)

Section handlers.
Context `{Os}.
(** The application: what calling it back does. *)
Variable cb : Callback → World → outcome World.

Definition registered (from frameworkId masterInfo : string) (w : World) : outcome World :=
  if aborted_ w || connected_ w || negb (str_eqb (master_ w) from) then Ok w
  else
    let f := framework_ w in
    let w := set_framework (mkFrameworkInfo (fi_user f) (fi_name f) (Some frameworkId)
                              (fi_rest f)) w in
    let w := set_flags true (aborted_ w) false w in
    w' ← startHeartbeat frameworkId w;
    cb (cb_registered frameworkId masterInfo) w'.

Definition reregistered (from frameworkId masterInfo : string) (w : World) : outcome World :=
  if aborted_ w || connected_ w || negb (str_eqb (master_ w) from) then Ok w
  else
    _ ← CHECK (str_eqb (framework_id w) frameworkId);
    let w := set_flags true (aborted_ w) false w in
    w' ← startHeartbeat frameworkId w;
    cb (cb_reregistered masterInfo) w'.

(** The preamble of the handlers that need a connection: whether to go on. *)
Definition from_leader (from : string) (w : World) : outcome bool :=
  if aborted_ w || negb (connected_ w) then Ok false
  else _ ← checkMaster w; Ok (str_eqb from (master_ w)).

Definition resourceOffers (from : string) (offers : list Offer) (pids : list string)
    (w : World) : outcome World :=
  go ← from_leader from w;
  if (go : bool) then cb (cb_resourceOffers offers) w else Ok w.

Definition rescindOffer (from offerId : string) (w : World) : outcome World :=
  go ← from_leader from w;
  if (go : bool) then cb (cb_offerRescinded offerId) w else Ok w.

Definition lostSlave (from slaveId : string) (w : World) : outcome World :=
  go ← from_leader from w;
  if (go : bool)
  then cb (cb_slaveLost slaveId) (set_pids (delete slaveId (savedSlavePids_ w)) w)
  else Ok w.

Definition statusUpdateAcknowledgement (update : StatusUpdate) (w : World) : outcome World :=
  if aborted_ w then Ok w
  else
    let slave := match su_slave_id update with
                 | Some s => s
                 | None => get_or "" (ts_slave_id (su_status update))
                 end in
    sendMessage (StatusUpdateAcknowledgementMessage (framework_id w) slave
                   (ts_task_id (su_status update)) (Some (get_or "" (su_uuid update)))) w.

Definition statusUpdate (from : string) (update : StatusUpdate) (pid : string)
    (w : World) : outcome World :=
  if aborted_ w then Ok w
  else
    go ← (if str_eqb from "" then Ok true else from_leader from w);
    if (go : bool) then
      let st := su_status update in
      _ ← CHECK (str_eqb (framework_id w) (su_framework_id update));
      w1 ← cb (cb_statusUpdate st) w;
      w2 ← statusUpdateAcknowledgement update w1;
      Ok (set_activeTasks
            (if removes_task (ts_state st)
             then delete (ts_task_id st) (activeTasks_ w2)
             else <[ts_task_id st := ts_state st]> (activeTasks_ w2)) w2)
    else Ok w.

Definition frameworkMessage (slaveId frameworkId executorId data : string) (w : World)
    : outcome World :=
  if aborted_ w then Ok w else cb (cb_frameworkMessage executorId slaveId data) w.

Definition error (message : string) (w : World) : outcome World :=
  if aborted_ w then Ok w
  else w' ← driver_abort w; cb (cb_error message) w'.

(** ** Launching tasks *)

(** The [TASK_LOST] update that the driver makes up for a task it does not
    send. *)
Definition lost_update (message : string) (task : TaskInfo) (w : World) : StatusUpdate :=
  mkStatusUpdate (framework_id w) None
    (mkTaskStatus (ti_task_id task) TASK_LOST (Some message) None None None)
    (time0 (generated w)) (Some (uuid_text (generated w))).

Definition report_lost (message : string) (task : TaskInfo) (w : World) : outcome World :=
  statusUpdate "" (lost_update message task w) "" (set_generated (S (generated w)) w).

(** Why a task is refused, if it is. *)
Definition task_error (fid : string) (task : TaskInfo) : option string :=
  if bool_decide (has (ti_executor task) = has (ti_command task))
  then Some "TaskInfo must have either an 'executor' or a 'command'"
  else
    match ti_executor task with
    | Some (mkExecutorInfo _ (Some f) _) =>
        if str_eqb f fid then None
        else Some ("ExecutorInfo has an invalid FrameworkID (Actual: " +:+ f +:+
                   " vs Expected: " +:+ fid +:+ ")")
    | _ => None
    end.

(** The copy that is sent. *)
Definition prepare (fid : string) (task : TaskInfo) : TaskInfo :=
  mkTaskInfo (ti_name task) (ti_task_id task) (ti_slave_id task)
    (match ti_executor task with
     | Some (mkExecutorInfo e None r) => Some (mkExecutorInfo e (Some fid) r)
     | e => e
     end)
    (ti_command task)
    (match ti_labels task with Some [] => None | l => l end)
    (ti_rest task).

Definition launch_step (acc : list TaskInfo * World) (task : TaskInfo)
    : outcome (list TaskInfo * World) :=
  let '(result, w) := acc in
  match task_error (framework_id w) task with
  | Some message => w' ← report_lost message task w; Ok (result, w')
  | None =>
      Ok (result ++ [prepare (framework_id w) task],
          set_activeTasks (<[ti_task_id task := TASK_STAGING]> (activeTasks_ w)) w)
  end.

Definition launchTasks (offerIds : list string) (tasks : list TaskInfo) (filters : string)
    (w : World) : outcome World :=
  if connected_ w then
    '(result, w') ← mfold launch_step ([], w) tasks;
    _ ← checkMaster w';
    sendMessage (LaunchTasksMessage (framework_id w') offerIds result filters) w'
  else mfold (fun w task => report_lost "Master Disconnected" task w) w tasks.

Definition acceptOffers (offerIds : list string) (operations : list Operation)
    (filters : string) (w : World) : outcome World :=
  mfold (fun w operation =>
    if decide (op_type operation = LAUNCH)
    then launchTasks offerIds (op_task_infos operation) filters w
    else Ok w) w operations.

End handlers.
