(* ===== verification/DriverJoin.v ===== *)
(** * DriverJoin: lock.cpp, and the threads that wait for a driver

    [MesosSchedulerDriver] (sched.cpp) guards every call with a recursive mutex,
    taken by the RAII class [Lock] (lock.cpp), and [join] waits on a condition
    variable until [stop] or [abort] signals it.  The model of the driver elsewhere
    takes a call as one event; here the calls of several threads are interleaved at
    the granularity of the mutex and of the condition variable: a call may block,
    an application's callback may call the driver again from inside a call (the
    mutex is recursive), and a waiting thread has released the mutex.

    The theorems: a [Lock] gives the mutex back as it found it
    ([lock_gives_mutex_back]); when one thread joins, a driver that is stopped or
    aborted lets it return, and no call blocks for good ([join_returns]).  With two
    threads that join, the second one waits for ever ([second_join_hangs]). *)

From S2P Require Import Prelude Scheduler.
#[local] Open Scope list_scope.
#[local] Open Scope nat_scope.

(** ** [Lock] *)

(** A [PTHREAD_MUTEX_RECURSIVE] mutex: its owner and how often it holds it. *)
Definition Mutex : Type := option (nat * nat).

(** [None]: the calling thread blocks. *)
Definition pthread_mutex_lock (i : nat) (m : Mutex) : option Mutex :=
  match m with
  | None => Some (Some (i, 1))
  | Some (j, d) => if decide (j = i) then Some (Some (i, S d)) else None
  end.

(** Of the owner. *)
Definition pthread_mutex_unlock (m : Mutex) : Mutex :=
  match m with
  | Some (j, S (S d)) => Some (j, S d)
  | _ => None
  end.

(** The object: its [locked] flag, beside the mutex it points to. *)
Record Lock := mkLock { locked : bool }.

Definition Lock_lock (i : nat) (l : Lock) (m : Mutex) : option (Lock * Mutex) :=
  if locked l then Some (l, m)
  else m' ← pthread_mutex_lock i m; Some (mkLock true, m').

Definition Lock_unlock (l : Lock) (m : Mutex) : Lock * Mutex :=
  if locked l then (mkLock false, pthread_mutex_unlock m) else (l, m).

Definition Lock_Lock (i : nat) (m : Mutex) : option (Lock * Mutex) :=
  Lock_lock i (mkLock false) m.
Definition Lock_destroy (l : Lock) (m : Mutex) : Mutex := (Lock_unlock l m).2.

(** What the code between constructor and destructor does with the object. *)
Inductive LockOp := do_lock | do_unlock.
Definition lock_op (i : nat) (o : LockOp) (lm : Lock * Mutex) : option (Lock * Mutex) :=
  match o with
  | do_lock => Lock_lock i lm.1 lm.2
  | do_unlock => Some (Lock_unlock lm.1 lm.2)
  end.
Fixpoint lock_scope (i : nat) (os : list LockOp) (lm : Lock * Mutex) : option Mutex :=
  match os with
  | [] => Some (Lock_destroy lm.1 lm.2)
  | o :: os' => lm' ← lock_op i o lm; lock_scope i os' lm'
  end.

(** The mutex is free or held by thread [i], at least once. *)
Definition available (i : nat) (m : Mutex) : Prop :=
  match m with None => True | Some (j, d) => j = i ∧ 0 < d end.

(** The mutex as the object left it: [m] before it took it. *)
Definition scoped (i : nat) (m : Mutex) (lm : Lock * Mutex) : Prop :=
  if locked lm.1 then pthread_mutex_lock i m = Some lm.2 else lm.2 = m.

Lemma unlock_lock i m m' :
  available i m → pthread_mutex_lock i m = Some m' → pthread_mutex_unlock m' = m.
Proof.
  destruct m as [[j d]|]; cbn; [|by intros; simplify_eq]. intros [-> Hd] Hl.
  rewrite decide_True in Hl by done. simplify_eq. by destruct d; [lia|].
Qed.

Lemma lock_available i m : available i m → ∃ m', pthread_mutex_lock i m = Some m'.
Proof.
  destruct m as [[j d]|]; cbn; [|by eauto]. intros [-> _]. rewrite decide_True; eauto.
Qed.

Lemma scoped_op i m o lm :
  available i m → scoped i m lm → ∃ lm', lock_op i o lm = Some lm' ∧ scoped i m lm'.
Proof.
  intros Ha. unfold scoped. destruct lm as [[[|]] m1]; cbn; intros Hs; destruct o.
  - by exists (mkLock true, m1).
  - exists (mkLock false, pthread_mutex_unlock m1). split; [done|]. by eapply unlock_lock.
  - subst m1. destruct (lock_available _ _ Ha) as (m' & Hm).
    exists (mkLock true, m'). split; [|done]. cbn. unfold Lock_lock. cbn. by rewrite Hm.
  - by exists (mkLock false, m1).
Qed.

(** A [Lock] of a thread that does not have to wait never blocks, whatever calls
    of [lock] and [unlock] its owner makes, and when it goes out of scope the mutex
    is as it was before: free, or held by the callers of the thread as often as
    they had taken it. *)
Theorem lock_gives_mutex_back i m os :
  available i m →
  ∃ lm, Lock_Lock i m = Some lm ∧ lock_scope i os lm = Some m.
Proof.
  intros Ha. destruct (scoped_op i m do_lock (mkLock false, m) Ha eq_refl) as (lm & Hl & Hs).
  exists lm. split; [done|]. clear Hl. revert lm Hs.
  induction os as [|o os IH]; intros lm Hs; cbn.
  - destruct lm as [[[|]] m1]; unfold scoped in Hs; cbn in *; [|by subst].
    by rewrite (unlock_lock _ _ _ Ha Hs).
  - destruct (scoped_op i m o lm Ha Hs) as (lm' & -> & Hs'). cbn. by apply IH.
Qed.

(** ** The threads of a driver *)

(** [k_call] is any of the calls that only forward to the process: the process may
    call the application back, and that may call the driver again. *)
Inductive DCall := k_start | k_stop | k_abort | k_join | k_call.

(** A call in progress: before the [Lock], in the body with the mutex, in
    [pthread_cond_wait] without it, woken and about to take it again, before the
    destructor of the [Lock]. *)
Inductive Frame := f_lock (k : DCall) | f_body (k : DCall) | f_wait | f_woken | f_unlock.

(** A thread is the stack of its calls, the innermost first. *)
Record DriverThreads := mkDriverThreads {
  d_status : Status;
  d_mutex : Mutex;
  d_waiting : list nat;
  d_threads : list (list Frame) }.

Definition new_driver_threads (n : nat) : DriverThreads :=
  mkDriverThreads DRIVER_NOT_STARTED None [] (replicate n []).

Definition set_stack (i : nat) (st : list Frame) (s : DriverThreads) : DriverThreads :=
  mkDriverThreads (d_status s) (d_mutex s) (d_waiting s) (<[i := st]> (d_threads s)).
Definition set_d_status (x : Status) (s : DriverThreads) : DriverThreads :=
  mkDriverThreads x (d_mutex s) (d_waiting s) (d_threads s).
Definition set_d_mutex (m : Mutex) (s : DriverThreads) : DriverThreads :=
  mkDriverThreads (d_status s) m (d_waiting s) (d_threads s).
Definition set_waiting (l : list nat) (s : DriverThreads) : DriverThreads :=
  mkDriverThreads (d_status s) (d_mutex s) l (d_threads s).

(** The thread at place [w] of the condition variable leaves it. *)
Definition wake (w : nat) (s : DriverThreads) : option DriverThreads :=
  i ← d_waiting s !! w;
  match d_threads s !! i with
  | Some (f_wait :: st) =>
      Some (set_stack i (f_woken :: st) (set_waiting (delete w (d_waiting s)) s))
  | _ => None
  end.

(** [pthread_cond_signal] wakes one thread, of its choice, if any waits. *)
Definition pthread_cond_signal (w : nat) (s : DriverThreads) : option DriverThreads :=
  match d_waiting s with [] => Some s | _ => wake w s end.

(** The bodies, between the two ends of the [Lock]; [process->stop] and the like are
    part of the step.  [st] is the rest of the stack. *)
Definition body_step (i w : nat) (k : DCall) (st : list Frame) (s : DriverThreads)
    : option DriverThreads :=
  let return_ s := Some (set_stack i (f_unlock :: st) s) in
  match k with
  | k_start => return_ (set_d_status DRIVER_RUNNING s)
  | k_stop =>
      match d_status s with
      | DRIVER_RUNNING | DRIVER_ABORTED =>
          s' ← pthread_cond_signal w s; return_ (set_d_status DRIVER_STOPPED s')
      | _ => return_ s
      end
  | k_abort =>
      match d_status s with
      | DRIVER_RUNNING =>
          s' ← pthread_cond_signal w s; return_ (set_d_status DRIVER_ABORTED s')
      | _ => return_ s
      end
  | k_join =>
      match d_status s with
      | DRIVER_RUNNING =>
          Some (set_stack i (f_wait :: st)
                  (set_waiting (d_waiting s ++ [i])
                     (set_d_mutex (pthread_mutex_unlock (d_mutex s)) s)))
      | _ => return_ s
      end
  | k_call => return_ s
  end.

Definition frame_step (i w : nat) (f : Frame) (st : list Frame) (s : DriverThreads)
    : option DriverThreads :=
  match f with
  | f_lock k => m ← pthread_mutex_lock i (d_mutex s);
                Some (set_stack i (f_body k :: st) (set_d_mutex m s))
  | f_body k => body_step i w k st s
  | f_wait => None
  | f_woken => m ← pthread_mutex_lock i (d_mutex s);
               Some (set_stack i (f_body k_join :: st) (set_d_mutex m s))
  | f_unlock => Some (set_stack i st (set_d_mutex (pthread_mutex_unlock (d_mutex s)) s))
  end.

(** A thread calls the driver; the application calls it from a callback; a thread
    makes a step (and signals the thread at place [w]); a wait ends without a signal,
    as POSIX allows. *)
Inductive DLabel :=
  | l_calls (i : nat) (k : DCall)
  | l_callback (i : nat) (k : DCall)
  | l_steps (i w : nat)
  | l_spurious (w : nat).

Definition d_step (l : DLabel) (s : DriverThreads) : option DriverThreads :=
  match l with
  | l_calls i k =>
      match d_threads s !! i with
      | Some [] => Some (set_stack i [f_lock k] s)
      | _ => None
      end
  | l_callback i k =>
      match d_threads s !! i with
      | Some (f_body k_call :: st) => Some (set_stack i (f_lock k :: f_body k_call :: st) s)
      | _ => None
      end
  | l_steps i w =>
      match d_threads s !! i with
      | Some (f :: st) => frame_step i w f st s
      | _ => None
      end
  | l_spurious w => wake w s
  end.

Fixpoint d_run (ls : list DLabel) (s : DriverThreads) : option DriverThreads :=
  match ls with
  | [] => Some s
  | l :: ls' => d_step l s ≫= d_run ls'
  end.

(** Only thread [j] joins, and not from a callback. *)
Definition only_joiner (j : nat) (l : DLabel) : Prop :=
  match l with
  | l_calls i k_join => i = j
  | l_callback _ k_join => False
  | _ => True
  end.

(** The work that is left to the threads. *)
Definition call_work (k : DCall) : nat := match k with k_stop | k_abort => 5 | _ => 2 end.
Definition frame_work (f : Frame) : nat :=
  match f with
  | f_lock k => S (call_work k) | f_body k => call_work k
  | f_wait => 0 | f_woken => 3 | f_unlock => 1
  end.
Definition d_work (s : DriverThreads) : nat :=
  sum_list ((fun st => sum_list (frame_work <$> st)) <$> d_threads s).

(** *** The mutex and the stacks *)

(** How often the calls of a stack hold the mutex, and how often thread [i] does. *)
Definition held (f : Frame) : nat := match f with f_body _ | f_unlock => 1 | _ => 0 end.
Definition held_stack (st : list Frame) : nat := sum_list (held <$> st).
Definition depth (m : Mutex) (i : nat) : nat :=
  match m with Some (j, d) => if decide (j = i) then d else 0 | None => 0 end.

Definition joining (f : Frame) : bool :=
  match f with f_lock k_join | f_body k_join | f_wait | f_woken => true | _ => false end.

(** Below the innermost call there are only calls that called back, and a thread that
    joins is in no other call. *)
Definition shape (st : list Frame) : Prop :=
  match st with
  | [] => True
  | f :: rest => Forall (eq (f_body k_call)) rest ∧ (joining f = true → rest = [])
  end.

Lemma lock_depth i m m' :
  pthread_mutex_lock i m = Some m' →
  depth m' i = S (depth m i) ∧ (∀ k, k ≠ i → depth m' k = depth m k) ∧
  (∀ k d, m' = Some (k, d) → 0 < d).
Proof.
  destruct m as [[j d]|]; cbn; [case_decide|]; intros Hl; simplify_eq; cbn;
    rewrite ?decide_True by done; (split_and!; [done| |by intros; simplify_eq; lia]);
    intros k Hk; by rewrite !decide_False by done.
Qed.

Lemma unlock_depth i m :
  0 < depth m i →
  S (depth (pthread_mutex_unlock m) i) = depth m i ∧
  (∀ k, k ≠ i → depth (pthread_mutex_unlock m) k = depth m k) ∧
  (∀ k d, pthread_mutex_unlock m = Some (k, d) → 0 < d).
Proof.
  destruct m as [[j d]|]; cbn; [|lia].
  destruct (decide (j = i)) as [->|Hj]; intros Hd; [|lia].
  destruct d as [|[|d]]; [lia|..]; cbn; rewrite ?decide_True by done;
    (split_and!; [done| |by intros; simplify_eq; lia]);
    intros k Hk; by rewrite ?decide_False by done.
Qed.

Section joiner.
Context (j : nat).

Record d_inv (s : DriverThreads) : Prop := mkDInv {
  dv_depth : ∀ i st, d_threads s !! i = Some st → held_stack st = depth (d_mutex s) i;
  dv_owner : ∀ i d, d_mutex s = Some (i, d) → 0 < d ∧ ∃ st, d_threads s !! i = Some st;
  dv_shape : ∀ i st, d_threads s !! i = Some st → shape st;
  dv_joiner : ∀ i st f, d_threads s !! i = Some st → f ∈ st → joining f = true → i = j;
  dv_waiting : d_waiting s = match d_threads s !! j with Some [f_wait] => [j] | _ => [] end;
  dv_running : d_waiting s ≠ [] → d_status s = DRIVER_RUNNING }.

(** Thread [i] goes from [st] to [st']. *)
Lemma d_inv_move s s' i st st' :
  d_inv s → d_threads s !! i = Some st → d_threads s' = <[i := st']> (d_threads s) →
  held_stack st' = depth (d_mutex s') i →
  (∀ k, k ≠ i → depth (d_mutex s') k = depth (d_mutex s) k) →
  (∀ k d, d_mutex s' = Some (k, d) → 0 < d) →
  shape st' → (∀ f, f ∈ st' → joining f = true → i = j) →
  (if decide (i = j) then d_waiting s' = match st' with [f_wait] => [j] | _ => [] end
   else d_waiting s' = d_waiting s) →
  (d_waiting s' ≠ [] → d_status s' = DRIVER_RUNNING) → d_inv s'.
Proof.
  intros [Hd Ho Hs Hj Hw Hr] Hst Ht Hh Hk Hpos Hshape Hjoin Hwait Hrun.
  pose proof (lookup_lt_Some _ _ _ Hst) as Hlt.
  assert (Hcase : ∀ k st1, d_threads s' !! k = Some st1 →
            k = i ∧ st1 = st' ∨ k ≠ i ∧ d_threads s !! k = Some st1).
  { intros k st1. rewrite Ht. destruct (decide (k = i)) as [->|Hne].
    - rewrite list_lookup_insert_eq by done. intros; simplify_eq. by left.
    - rewrite list_lookup_insert_ne by done. by right. }
  split; [| | | | |done].
  - intros k st1 [[-> ->]|[Hne Hk1]]%Hcase; [done|]. rewrite Hk by done. by apply Hd.
  - intros k d Hm. specialize (Hpos _ _ Hm) as Hp. split; [done|]. rewrite Ht.
    destruct (decide (k = i)) as [->|Hne]; [rewrite list_lookup_insert_eq; eauto|].
    rewrite list_lookup_insert_ne by done. specialize (Hk k Hne). rewrite Hm in Hk. cbn in Hk.
    rewrite decide_True in Hk by done. destruct (d_mutex s) as [[k' d']|] eqn:Hm'; cbn in Hk; [|lia].
    destruct (decide (k' = k)) as [->|]; [by eapply Ho|lia].
  - intros k st1 [[-> ->]|[Hne Hk1]]%Hcase; eauto.
  - intros k st1 f [[-> ->]|[Hne Hk1]]%Hcase; eauto.
  - rewrite Ht. case_decide as Hij.
    + subst i. by rewrite list_lookup_insert_eq.
    + rewrite list_lookup_insert_ne by congruence. by rewrite Hwait.
Qed.

(** Only thread [j] can wait, so a signal wakes it and leaves nobody waiting. *)
Lemma wake_inv w s s' :
  d_inv s → wake w s = Some s' →
  d_waiting s = [j] ∧ d_threads s !! j = Some [f_wait] ∧
  s' = set_stack j [f_woken] (set_waiting [] s) ∧ d_inv s'.
Proof.
  intros Hi Hw. pose proof (dv_waiting _ Hi) as Hwait. unfold wake in Hw.
  destruct (d_threads s !! j) as [[|[] []]|] eqn:Hj; rewrite Hwait in Hw; try done.
  destruct w; [|done]. cbn in Hw. rewrite Hj in Hw. simplify_eq. split_and!; try done.
  pose proof (dv_depth _ Hi _ _ Hj) as Hd.
  eapply d_inv_move; [exact Hi|exact Hj|reflexivity|exact Hd|done| |done|done| |done].
  - intros k d Hm. by apply (dv_owner _ Hi) in Hm as [? _].
  - cbn. by rewrite decide_True.
Qed.

Lemma signal_inv w s s' i f st :
  d_inv s → d_threads s !! i = Some (f :: st) → f ≠ f_wait →
  pthread_cond_signal w s = Some s' →
  d_inv s' ∧ d_waiting s' = [] ∧ d_threads s' !! i = Some (f :: st) ∧
  d_mutex s' = d_mutex s ∧ d_status s' = d_status s ∧ d_work s' ≤ d_work s + 3.
Proof.
  intros Hi Hst Hf Hs. unfold pthread_cond_signal in Hs.
  destruct (d_waiting s) as [|k l] eqn:Hw; simplify_eq; [by split_and!; try lia|].
  destruct (wake_inv _ _ _ Hi Hs) as (_ & Hj & -> & Hi'). split_and!; try done.
  - cbn. rewrite list_lookup_insert_ne; [done|]. intros ->. congruence.
  - unfold d_work. cbn. clear -Hj. revert j Hj.
    induction (d_threads s) as [|t ts IH]; intros [|k] Hk; simplify_eq/=; [lia|].
    specialize (IH _ Hk). lia.
Qed.

(** The step of a call that returns to its end with status [x]. *)
Lemma return_inv s i k st x :
  d_inv s → d_threads s !! i = Some (f_body k :: st) →
  (d_waiting s ≠ [] → x = DRIVER_RUNNING) →
  d_inv (set_stack i (f_unlock :: st) (set_d_status x s)).
Proof.
  intros Hi Hst Hx. pose proof (dv_shape _ Hi _ _ Hst) as [Hs _].
  eapply d_inv_move; [exact Hi|exact Hst|reflexivity| |done| | | | |exact Hx]; cbn.
  - apply (dv_depth _ Hi _ _ Hst).
  - intros n d Hm. by apply (dv_owner _ Hi) in Hm as [? _].
  - split; [exact Hs|done].
  - intros f [->|Hf]%elem_of_cons; [done|]. rewrite Forall_forall in Hs. by rewrite <-(Hs _ Hf).
  - case_decide as Hij; [|done]. subst i. by rewrite (dv_waiting _ Hi), Hst.
Qed.

(** The step of a call that takes the mutex, at first or after waiting. *)
Lemma acquire_inv s i f k st m :
  d_inv s → d_threads s !! i = Some (f :: st) → held f = 0 → f ≠ f_wait →
  joining f = joining (f_body k) →
  pthread_mutex_lock i (d_mutex s) = Some m →
  d_inv (set_stack i (f_body k :: st) (set_d_mutex m s)).
Proof.
  intros Hi Hst Hh Hf Hjf Hm. pose proof (dv_shape _ Hi _ _ Hst) as [Hs Hjs].
  pose proof (dv_depth _ Hi _ _ Hst) as Hd. unfold held_stack in Hd. cbn in Hd.
  destruct (lock_depth _ _ _ Hm) as (Hl & Hk & Hpos).
  eapply d_inv_move; [exact Hi|exact Hst|reflexivity| |exact Hk|exact Hpos| | | |].
  - unfold held_stack. cbn. rewrite Hl. lia.
  - split; [exact Hs|]. by rewrite <-Hjf.
  - intros g [->|Hg]%elem_of_cons Hjg.
    + eapply (dv_joiner _ Hi _ _ f Hst); [by left|congruence].
    + rewrite Forall_forall in Hs. by rewrite <-(Hs _ Hg) in Hjg.
  - cbn. case_decide as Hij; [|done]. subst i. rewrite (dv_waiting _ Hi), Hst. by destruct f.
  - apply (dv_running _ Hi).
Qed.

Lemma body_inv s s' i w k st :
  d_inv s → d_threads s !! i = Some (f_body k :: st) → body_step i w k st s = Some s' → d_inv s'.
Proof.
  intros Hi Hst Hb. pose proof (dv_running _ Hi) as Hr.
  assert (Hsame : d_inv (set_stack i (f_unlock :: st) s)).
  { pose proof (return_inv s i k st (d_status s) Hi Hst Hr) as Hs. by destruct s. }
  assert (Hsig : ∀ x, (s1 ← pthread_cond_signal w s;
            Some (set_stack i (f_unlock :: st) (set_d_status x s1))) = Some s' → d_inv s').
  { intros x. destruct (pthread_cond_signal w s) as [s1|] eqn:Hs; [|done]. cbn. intros; simplify_eq.
    destruct (signal_inv _ _ _ _ _ _ Hi Hst ltac:(done) Hs) as (Hi1 & Hw & Hst1 & _).
    eapply return_inv; [exact Hi1|exact Hst1|]. by rewrite Hw. }
  destruct k; cbn in Hb.
  - simplify_eq. by eapply return_inv.
  - destruct (d_status s); simplify_eq; eauto.
  - destruct (d_status s); simplify_eq; eauto.
  - destruct (d_status s) eqn:Hx; simplify_eq; try done.
    pose proof (dv_joiner _ Hi _ _ (f_body k_join) Hst ltac:(by left) eq_refl) as ->.
    pose proof (dv_shape _ Hi _ _ Hst) as [_ Hnil]. rewrite (Hnil eq_refl) in *.
    pose proof (dv_depth _ Hi _ _ Hst) as Hd. cbn in Hd.
    destruct (unlock_depth j (d_mutex s)) as (Hu & Hk & Hpos); [lia|].
    eapply d_inv_move; [exact Hi|exact Hst|reflexivity| |exact Hk|exact Hpos| | | |done].
    + cbn. lia.
    + done.
    + done.
    + rewrite decide_True by done. cbn. by rewrite (dv_waiting _ Hi), Hst.
  - by simplify_eq.
Qed.

Lemma unlock_inv s i st :
  d_inv s → d_threads s !! i = Some (f_unlock :: st) →
  d_inv (set_stack i st (set_d_mutex (pthread_mutex_unlock (d_mutex s)) s)).
Proof.
  intros Hi Hst. pose proof (dv_shape _ Hi _ _ Hst) as [Hs _].
  pose proof (dv_depth _ Hi _ _ Hst) as Hd. unfold held_stack in Hd. cbn in Hd.
  destruct (unlock_depth i (d_mutex s)) as (Hu & Hk & Hpos); [lia|].
  assert (Hcalls : ∀ f, f ∈ st → f = f_body k_call)
    by (intros f Hf; rewrite Forall_forall in Hs; by rewrite <-(Hs _ Hf)).
  eapply d_inv_move; [exact Hi|exact Hst|reflexivity| |exact Hk|exact Hpos| | | |].
  - unfold held_stack. cbn. lia.
  - destruct st as [|f st]; [done|]. split; [by inversion Hs|].
    by rewrite (Hcalls f ltac:(by left)).
  - intros f Hf. by rewrite (Hcalls f Hf).
  - case_decide as Hij; [|done]. subst i. cbn. rewrite (dv_waiting _ Hi), Hst.
    destruct st as [|f []]; try done; [by rewrite (Hcalls f ltac:(by left))|by destruct f].
  - apply (dv_running _ Hi).
Qed.

(** A new call, of an idle thread or from a callback. *)
Lemma call_inv s i k st :
  d_inv s → d_threads s !! i = Some st → Forall (eq (f_body k_call)) st →
  (k = k_join → i = j ∧ st = []) → d_inv (set_stack i (f_lock k :: st) s).
Proof.
  intros Hi Hst Hs Hk.
  assert (Hcalls : ∀ f, f ∈ st → f = f_body k_call)
    by (intros f Hf; rewrite Forall_forall in Hs; by rewrite <-(Hs _ Hf)).
  eapply d_inv_move; [exact Hi|exact Hst|reflexivity| |done| | | | |].
  - unfold held_stack. cbn. by apply (dv_depth _ Hi).
  - intros n d Hm. by apply (dv_owner _ Hi) in Hm as [? _].
  - split; [done|]. destruct k; try done. intros _. by apply Hk.
  - intros f [->|Hf]%elem_of_cons; [|by rewrite (Hcalls f Hf)].
    destruct k; try done. intros _. by apply Hk.
  - case_decide as Hij; [|done]. subst i. cbn. rewrite (dv_waiting _ Hi), Hst.
    destruct st as [|f []]; try done; [by rewrite (Hcalls f ltac:(by left))|by destruct f].
  - apply (dv_running _ Hi).
Qed.

Lemma d_step_inv l s s' :
  d_inv s → only_joiner j l → d_step l s = Some s' → d_inv s'.
Proof.
  intros Hi Hl Hst. destruct l as [i k|i k|i w|w]; cbn in Hst.
  - destruct (d_threads s !! i) as [[|]|] eqn:Hi'; simplify_eq.
    eapply call_inv; [done|exact Hi'|done|]. by intros ->.
  - destruct (d_threads s !! i) as [[|[|[]| | |] st]|] eqn:Hi'; simplify_eq.
    eapply call_inv; [done|exact Hi'| |by intros ->].
    constructor; [done|]. by apply (dv_shape _ Hi) in Hi' as [? _].
  - destruct (d_threads s !! i) as [[|f st]|] eqn:Hi'; try done.
    destruct f as [k|k| | |]; cbn in Hst; [|by eapply body_inv|done| |].
    + destruct (pthread_mutex_lock i (d_mutex s)) as [m|] eqn:Hm; simplify_eq/=.
      by eapply acquire_inv.
    + destruct (pthread_mutex_lock i (d_mutex s)) as [m|] eqn:Hm; simplify_eq/=.
      by eapply acquire_inv.
    + simplify_eq. by apply unlock_inv.
  - by eapply wake_inv.
Qed.

Lemma d_run_inv ls s s' :
  d_inv s → Forall (only_joiner j) ls → d_run ls s = Some s' → d_inv s'.
Proof.
  revert s. induction ls as [|l ls IH]; cbn; intros s Hi Hl Hr; [by simplify_eq|].
  destruct (d_step l s) as [s1|] eqn:Hs; [|done]. cbn in Hr.
  apply Forall_cons in Hl as [Hl Hls]. eapply (IH s1); [|done|done]. by eapply d_step_inv.
Qed.

Lemma new_driver_inv n : d_inv (new_driver_threads n).
Proof.
  assert (Hn : ∀ i st, d_threads (new_driver_threads n) !! i = Some st → st = [])
    by (cbn; by intros i st [-> _]%lookup_replicate).
  split; try done.
  - by intros i st ->%Hn.
  - by intros i st ->%Hn.
  - intros i st f ->%Hn. by intros ?%not_elem_of_nil.
  - destruct (d_threads (new_driver_threads n) !! j) eqn:E; [|done]. by rewrite (Hn _ _ E).
Qed.

(** *** Every run comes to an end *)

Lemma d_work_insert (ts : list (list Frame)) i st st' :
  ts !! i = Some st →
  sum_list ((fun st => sum_list (frame_work <$> st)) <$> <[i := st']> ts) +
    sum_list (frame_work <$> st) =
  sum_list ((fun st => sum_list (frame_work <$> st)) <$> ts) + sum_list (frame_work <$> st').
Proof.
  revert i. induction ts as [|t ts IH]; intros [|i] Hi; simplify_eq/=; [lia|].
  specialize (IH _ Hi). lia.
Qed.

Lemma d_work_move s s' i st st' :
  d_threads s !! i = Some st → d_threads s' = <[i := st']> (d_threads s) →
  sum_list (frame_work <$> st') < sum_list (frame_work <$> st) → d_work s' < d_work s.
Proof.
  intros Hst Ht Hw. unfold d_work. rewrite Ht. pose proof (d_work_insert _ _ _ st' Hst). lia.
Qed.

Lemma body_work s s' i w k st :
  d_inv s → d_threads s !! i = Some (f_body k :: st) → body_step i w k st s = Some s' →
  d_work s' < d_work s.
Proof.
  intros Hi Hst Hb.
  assert (Hret : ∀ x, d_work (set_stack i (f_unlock :: st) (set_d_status x s)) < d_work s).
  { intros x. eapply d_work_move; [exact Hst|reflexivity|]. destruct k; cbn; lia. }
  assert (Hsame : d_work (set_stack i (f_unlock :: st) s) < d_work s)
    by (specialize (Hret (d_status s)); by destruct s).
  assert (Hsig : ∀ x, (k = k_stop ∨ k = k_abort) → (s1 ← pthread_cond_signal w s;
            Some (set_stack i (f_unlock :: st) (set_d_status x s1))) = Some s' →
            d_work s' < d_work s).
  { intros x Hk. destruct (pthread_cond_signal w s) as [s1|] eqn:Hs; [|done]. cbn.
    intros; simplify_eq.
    destruct (signal_inv _ _ _ _ _ _ Hi Hst ltac:(done) Hs) as (_ & _ & Hst1 & _ & _ & Hw).
    unfold d_work in *. cbn. pose proof (d_work_insert _ _ _ (f_unlock :: st) Hst1) as Hin.
    destruct Hk as [-> | ->]; cbn in Hin; lia. }
  destruct k; cbn in Hb; try (destruct (d_status s)); simplify_eq; eauto.
  eapply d_work_move; [exact Hst|reflexivity|]. cbn. lia.
Qed.

Lemma steps_work s s' i w : d_inv s → d_step (l_steps i w) s = Some s' → d_work s' < d_work s.
Proof.
  intros Hi Hst. cbn in Hst. destruct (d_threads s !! i) as [[|f st]|] eqn:Hi'; try done.
  destruct f as [k|k| | |]; cbn in Hst; [|by eapply body_work|done| |].
  - destruct (pthread_mutex_lock _ _); simplify_eq/=.
    eapply d_work_move; [exact Hi'|reflexivity|]. cbn. lia.
  - destruct (pthread_mutex_lock _ _); simplify_eq/=.
    eapply d_work_move; [exact Hi'|reflexivity|]. cbn. lia.
  - simplify_eq. eapply d_work_move; [exact Hi'|reflexivity|]. cbn. lia.
Qed.

Lemma steps_run_work ls s s' :
  d_inv s → Forall (fun l => ∃ i w, l = l_steps i w) ls → d_run ls s = Some s' →
  length ls + d_work s' ≤ d_work s.
Proof.
  revert s. induction ls as [|l ls IH]; cbn; intros s Hi Hl Hr; [simplify_eq; lia|].
  destruct (d_step l s) as [s1|] eqn:Hs; [|done]. cbn in Hr.
  apply Forall_cons in Hl as [(i & w & ->) Hls].
  pose proof (steps_work _ _ _ _ Hi Hs).
  pose proof (IH s1 (d_step_inv (l_steps i w) _ _ Hi I Hs) Hls Hr). lia.
Qed.

(** When no thread can step, nobody is in a call but a thread that waits for a
    running driver. *)
Lemma stuck_threads s i st :
  d_inv s → (∀ i w, d_step (l_steps i w) s = None) → d_threads s !! i = Some st →
  st = [] ∨ st = [f_wait] ∧ d_status s = DRIVER_RUNNING.
Proof.
  intros Hi Hstuck Hst.
  assert (Htop : ∀ k f st, d_threads s !! k = Some (f :: st) → (∀ w, frame_step k w f st s = None)).
  { intros k f st' Hk w. specialize (Hstuck k w). cbn in Hstuck. by rewrite Hk in Hstuck. }
  assert (Hbody : ∀ k f st, d_threads s !! k = Some (f :: st) → held f = 0).
  { intros k f st' Hk. pose proof (Htop _ _ _ Hk 0) as Hf. destruct f as [c|c| | |]; try done.
    exfalso. pose proof (dv_waiting _ Hi) as Hw.
    destruct c; cbn in Hf; try (destruct (d_status s)); try done.
    all: unfold pthread_cond_signal, wake in Hf; rewrite Hw in Hf;
      destruct (d_threads s !! j) as [[|[] []]|] eqn:Hj; cbn in Hf; try done;
      by rewrite ?Hj in Hf. }
  assert (Hm : d_mutex s = None).
  { destruct (d_mutex s) as [[k d]|] eqn:Hm; [|done]. exfalso.
    destruct (dv_owner _ Hi _ _ Hm) as (Hd & st' & Hk).
    pose proof (dv_depth _ Hi _ _ Hk) as Hdep. rewrite Hm in Hdep. cbn in Hdep.
    rewrite decide_True in Hdep by done. destruct st' as [|f st']; [cbn in Hdep; lia|].
    pose proof (Hbody _ _ _ Hk) as Hf. pose proof (Htop _ _ _ Hk 0) as Hf'.
    destruct (dv_shape _ Hi _ _ Hk) as [Hs Hjs].
    destruct f; try done; cbn in Hf'; rewrite ?Hm in Hf'; cbn in Hf';
      rewrite ?decide_True in Hf' by done; try done.
    rewrite (Hjs eq_refl) in Hdep. cbn in Hdep. lia. }
  destruct st as [|f st]; [by left|]. right. pose proof (Htop _ _ _ Hst 0) as Hf.
  pose proof (Hbody _ _ _ Hst) as Hh. destruct (dv_shape _ Hi _ _ Hst) as [_ Hjs].
  destruct f; try done; cbn in Hf; rewrite ?Hm in Hf; cbn in Hf; try done.
  rewrite (Hjs eq_refl) in *. split; [done|]. apply (dv_running _ Hi).
  pose proof (dv_joiner _ Hi _ _ f_wait Hst ltac:(by left) eq_refl) as ->.
  by rewrite (dv_waiting _ Hi), Hst.
Qed.
End joiner.

(** C26: When one thread joins (and not from inside a callback), whatever calls all the
    threads make, nested in callbacks or not: the calls take at most [d_work] steps
    together, whatever the schedule, and when no thread can make another one, every
    call has returned, the [join] too if the driver was stopped or aborted; no call
    waits for the mutex, and the only thread that may still be waiting is the one
    that joined a driver that is running. *)
Theorem join_returns n j ls s :
  d_run ls (new_driver_threads n) = Some s → Forall (only_joiner j) ls →
  (∀ ls' s', Forall (fun l => ∃ i w, l = l_steps i w) ls' → d_run ls' s = Some s' →
             length ls' ≤ d_work s) ∧
  ((∀ i w, d_step (l_steps i w) s = None) →
   ∀ i st, d_threads s !! i = Some st →
     st = [] ∨ st = [f_wait] ∧ d_status s = DRIVER_RUNNING).
Proof.
  intros Hr Hl. pose proof (d_run_inv j _ _ _ (new_driver_inv j n) Hl Hr) as Hi. split.
  - intros ls' s' Hls Hr'. pose proof (steps_run_work j _ _ _ Hi Hls Hr'). lia.
  - intros Hstuck i st Hst. by eapply stuck_threads.
Qed.

(** ** Sessions *)

Module DriverJoinSession.

(** Thread 0 starts the driver and joins; thread 1 makes a call from whose callback it
    aborts the driver; the join returns. *)
Definition abort_from_callback : list DLabel :=
  l_calls 0 k_start :: replicate 3 (l_steps 0 0) ++
  l_calls 0 k_join :: replicate 2 (l_steps 0 0) ++
  l_calls 1 k_call :: l_steps 1 0 :: l_callback 1 k_abort :: replicate 5 (l_steps 1 0) ++
  replicate 3 (l_steps 0 0).

Lemma join_returns_witness :
  ∃ s, d_run abort_from_callback (new_driver_threads 2) = Some s ∧
       d_status s = DRIVER_ABORTED ∧ ∀ i st, d_threads s !! i = Some st → st = [].
Proof.
  eexists. split; [vm_compute; reflexivity|]. split; [reflexivity|].
  intros i st Hi.
  eapply (join_returns 2 0 abort_from_callback) in Hi as [->|[_ Hs]];
    [reflexivity|discriminate Hs|vm_compute; reflexivity|repeat constructor|].
  intros k w. by destruct k as [|[|k]].
Defined.

Lemma lock_gives_mutex_back_witness :
  available 1 (Some (1, 2)) ∧
  ∃ lm, Lock_Lock 1 (Some (1, 2)) = Some lm ∧
        lock_scope 1 [do_unlock; do_lock; do_lock] lm = Some (Some (1, 2)).
Proof.
  split; [cbn; lia|]. apply (lock_gives_mutex_back 1 (Some (1, 2)) [do_unlock; do_lock; do_lock]).
  cbn. lia.
Defined.

(** Two threads join: [stop] wakes one of them only, and the other one waits for a
    driver that is stopped; stopping or aborting it again does not help. *)
Example second_join_hangs :
  ∃ s, d_run (l_calls 0 k_start :: replicate 3 (l_steps 0 0) ++
              l_calls 0 k_join :: replicate 2 (l_steps 0 0) ++
              l_calls 1 k_join :: replicate 2 (l_steps 1 0) ++
              l_calls 2 k_stop :: replicate 3 (l_steps 2 0) ++ replicate 3 (l_steps 0 0) ++
              l_calls 2 k_stop :: replicate 3 (l_steps 2 0) ++
              l_calls 2 k_abort :: replicate 3 (l_steps 2 0)) (new_driver_threads 3) = Some s ∧
       d_status s = DRIVER_STOPPED ∧ d_threads s = [[]; [f_wait]; []] ∧
       (∀ i w, d_step (l_steps i w) s = None).
Proof.
  eexists. split; [vm_compute; reflexivity|]. split_and!; [reflexivity..|].
  intros k w. by destruct k as [|[|[|k]]].
Qed.

(** A thread that joins from a callback keeps the outer hold on the mutex: the call that
    would stop the driver waits for it for ever. *)
Example join_from_callback_hangs :
  ∃ s, d_run (l_calls 0 k_start :: replicate 3 (l_steps 0 0) ++
              l_calls 0 k_call :: l_steps 0 0 :: l_callback 0 k_join :: replicate 2 (l_steps 0 0) ++
              [l_calls 1 k_stop]) (new_driver_threads 2) = Some s ∧
       d_threads s = [[f_wait; f_body k_call]; [f_lock k_stop]] ∧
       (∀ i w, d_step (l_steps i w) s = None).
Proof.
  eexists. split; [vm_compute; reflexivity|]. split; [reflexivity|].
  intros k w. by destruct k as [|[|k]].
Qed.
End DriverJoinSession.
