(* ===== verification/TypeUtils.v ===== *)
(** * TypeUtils: operators on messages (type_utils.hpp, type_utils.cpp, messages.cpp)

    Equality, order, hashes and printing of the protobuf messages.  A record has
    the fields that the operators read; an accessor of an unset field returns
    the default of the field, so [get_or] is applied where the source calls the
    accessor.  [SerializeAsString] and [boost::hash_combine] are library code,
    arguments of the definitions that use them.

    An operator on a repeated field whose order does not matter tests that the
    two sides have the same number of elements and that each element on the left
    is equal to some element on the right ([found_eqb]). *)

From S2P Require Import Prelude Binary64 Ranges IntervalSets StoutStrings Values Url Attributes Resource Resources Fetcher Scheduler.

(** ** Repeated fields *)

(** The two nested loops over [left] and [right]. *)
Definition found_eqb {A : Type} (eq : A → A → bool) (left right : list A) : bool :=
  if negb (length left =? length right)%nat then false
  else all (fun l => any (eq l) right) left.

(** The loop over two lists whose order matters. *)
Definition ordered_eqb {A : Type} (eq : A → A → bool) (left right : list A) : bool :=
  if negb (length left =? length right)%nat then false
  else all (fun p => eq p.1 p.2) (zip left right).

(** ** Commands *)

Record Variable_ := mkVariable { var_name : string; var_value : option string }.

Definition variable_eqb (left right : Variable_) : bool :=
  String.eqb (var_name left) (var_name right) &&
  String.eqb (get_or "" (var_value left)) (get_or "" (var_value right)).

Definition Environment : Type := list Variable_.
Definition environment_eqb (left right : Environment) : bool :=
  found_eqb variable_eqb left right.

Definition uri_eqb (left right : URI) : bool :=
  String.eqb (value left) (value right) &&
  Bool.eqb (is_executable left) (is_executable right) &&
  Bool.eqb (is_extract left) (is_extract right).

Record CommandInfo := mkCommandInfo {
  cmd_uris : list URI;
  cmd_environment : option Environment;
  cmd_shell : option bool;
  cmd_value : option string;
  cmd_arguments : list string;
  cmd_user : option string }.
Definition default_CommandInfo : CommandInfo := mkCommandInfo [] None None None [] None.

Definition command_eqb (left right : CommandInfo) : bool :=
  if negb (found_eqb uri_eqb (cmd_uris left) (cmd_uris right)) then false
  else if negb (ordered_eqb String.eqb (cmd_arguments left) (cmd_arguments right)) then false
  else
    environment_eqb (get_or [] (cmd_environment left)) (get_or [] (cmd_environment right)) &&
    String.eqb (get_or "" (cmd_value left)) (get_or "" (cmd_value right)) &&
    String.eqb (get_or "" (cmd_user left)) (get_or "" (cmd_user right)) &&
    Bool.eqb (get_or true (cmd_shell left)) (get_or true (cmd_shell right)).

(** ** Identifiers *)

(** A [ContainerID] names its parents: nested containers. *)
Inductive ContainerID := mkContainerID (container_value : string) (parent : option ContainerID).
Definition container_value (c : ContainerID) : string :=
  match c with mkContainerID v _ => v end.
Definition parent (c : ContainerID) : option ContainerID :=
  match c with mkContainerID _ p => p end.

Fixpoint container_id_eqb (left right : ContainerID) {struct left} : bool :=
  match left, right with
  | mkContainerID lv lp, mkContainerID rv rp =>
      String.eqb lv rv && Bool.eqb (has lp) (has rp) &&
      (negb (has lp) ||
       match lp, rp with
       | Some l, Some r => container_id_eqb l r
       | _, _ => true
       end)
  end.

(** [ExecutorID], [FrameworkID], [OfferID], [ResourceProviderID], [SlaveID] and
    [TaskID] are messages with one string, [TimeInfo] and [DurationInfo] with one
    number of nanoseconds; their operators are those of the string or number. *)
Definition id_eqb (left right : string) : bool := String.eqb left right.
Definition id_eqb_string (left : string) (right : string) : bool := String.eqb left right.
Definition id_neqb (left right : string) : bool := negb (String.eqb left right).
Definition id_ltb (left right : string) : bool := String.ltb left right.
Definition nanoseconds_eqb (left right : Z) : bool := left =? right.
Definition nanoseconds_neqb (left right : Z) : bool := negb (left =? right).
Definition container_id_neqb (left right : ContainerID) : bool :=
  negb (container_id_eqb left right).
(** The order of container ids: the values, without the parents. *)
Definition container_id_ltb (left right : ContainerID) : bool :=
  String.ltb (container_value left) (container_value right).
(** Comparison with a string. *)
Definition container_id_eqb_string (left : ContainerID) (right : string) : bool :=
  String.eqb (container_value left) right.

Definition framework_eqb (left right : FrameworkInfo) : bool :=
  String.eqb (fi_name left) (fi_name right) && String.eqb (fi_user left) (fi_user right).

Record FaultDomain := mkFaultDomain { region_name : string; zone_name : string }.
Definition fault_domain_eqb (left right : FaultDomain) : bool :=
  String.eqb (region_name left) (region_name right) &&
  String.eqb (zone_name left) (zone_name right).
(** [DomainInfo]; the names of an unset fault domain are empty. *)
Definition domain_eqb (left right : option FaultDomain) : bool :=
  fault_domain_eqb (get_or (mkFaultDomain "" "") left) (get_or (mkFaultDomain "" "") right).

(** [::tolower] in the C locale, [strings::lower] *)
Definition tolower (c : ascii) : ascii :=
  if ((65 <=? nat_of_ascii c) && (nat_of_ascii c <=? 90))%nat
  then ascii_of_nat (nat_of_ascii c + 32) else c.
Fixpoint lower (s : string) : string :=
  match s with
  | "" => ""
  | String c s' => String (tolower c) (lower s')
  end.

Record MachineID := mkMachineID { hostname : option string; ip : option string }.
Definition machine_eqb (left right : MachineID) : bool :=
  Bool.eqb (has (hostname left)) (has (hostname right)) &&
  String.eqb (lower (get_or "" (hostname left))) (lower (get_or "" (hostname right))) &&
  Bool.eqb (has (ip left)) (has (ip right)) &&
  String.eqb (get_or "" (ip left)) (get_or "" (ip right)).

Record Credential := mkCredential { principal : string; secret : option string }.
Definition credential_eqb (left right : Credential) : bool :=
  String.eqb (principal left) (principal right) &&
  String.eqb (get_or "" (secret left)) (get_or "" (secret right)).

(** ** Containers and discovery *)

Definition volume_eqb (left right : Volume) : bool :=
  String.eqb (container_path left) (container_path right) &&
  String.eqb (get_or "" (host_path left)) (get_or "" (host_path right)) &&
  match volume_mode left, volume_mode right with
  | RW, RW | RO, RO => true
  | _, _ => false
  end.

Record PortMapping := mkPortMapping {
  host_port : Z;
  container_port : Z;
  pm_protocol : option string }.
Definition port_mapping_eqb (left right : PortMapping) : bool :=
  (host_port left =? host_port right) && (container_port left =? container_port right) &&
  String.eqb (get_or "" (pm_protocol left)) (get_or "" (pm_protocol right)).

Record Parameter_ := mkParameter { param_key : string; param_value : string }.
Definition parameter_eqb (left right : Parameter_) : bool :=
  String.eqb (param_key left) (param_key right) &&
  String.eqb (param_value left) (param_value right).

Inductive Network := HOST | BRIDGE | NONE | USER.
#[export] Instance Network_eq_dec : EqDecision Network.
Proof. solve_decision. Defined.

Record DockerInfo := mkDockerInfo {
  image : string;
  network : option Network;
  port_mappings : list PortMapping;
  privileged : option bool;
  parameters : list Parameter_;
  force_pull_image : option bool }.
Definition default_DockerInfo : DockerInfo := mkDockerInfo "" None [] None [] None.

Definition docker_eqb (left right : DockerInfo) : bool :=
  if negb (found_eqb port_mapping_eqb (port_mappings left) (port_mappings right)) then false
  else if negb (found_eqb parameter_eqb (parameters left) (parameters right)) then false
  else
    String.eqb (image left) (image right) &&
    bool_decide (get_or HOST (network left) = get_or HOST (network right)) &&
    Bool.eqb (get_or false (privileged left)) (get_or false (privileged right)) &&
    Bool.eqb (get_or false (force_pull_image left)) (get_or false (force_pull_image right)).

Inductive ContainerType := DOCKER | MESOS.
#[export] Instance ContainerType_eq_dec : EqDecision ContainerType.
Proof. solve_decision. Defined.

Record ContainerInfo := mkContainerInfo {
  ct_type : ContainerType;
  ct_volumes : list Volume;
  ct_hostname : option string;
  ct_docker : option DockerInfo }.
Definition default_ContainerInfo : ContainerInfo := mkContainerInfo DOCKER [] None None.

Definition container_eqb (left right : ContainerInfo) : bool :=
  if negb (found_eqb volume_eqb (ct_volumes left) (ct_volumes right)) then false
  else
    bool_decide (ct_type left = ct_type right) &&
    String.eqb (get_or "" (ct_hostname left)) (get_or "" (ct_hostname right)) &&
    docker_eqb (get_or default_DockerInfo (ct_docker left))
      (get_or default_DockerInfo (ct_docker right)).

Inductive Visibility := FRAMEWORK | CLUSTER | EXTERNAL.
#[export] Instance Visibility_eq_dec : EqDecision Visibility.
Proof. solve_decision. Defined.

Record Port := mkPort {
  number : Z;
  port_name : option string;
  port_protocol : option string;
  port_visibility : option Visibility }.
Definition port_eqb (left right : Port) : bool :=
  (number left =? number right) &&
  String.eqb (get_or "" (port_name left)) (get_or "" (port_name right)) &&
  String.eqb (get_or "" (port_protocol left)) (get_or "" (port_protocol right)) &&
  bool_decide (get_or FRAMEWORK (port_visibility left) =
               get_or FRAMEWORK (port_visibility right)).

Definition ports_eqb (left right : list Port) : bool := found_eqb port_eqb left right.

Record DiscoveryInfo := mkDiscoveryInfo {
  visibility : Visibility;
  di_name : option string;
  di_environment : option string;
  di_location : option string;
  di_version : option string;
  di_ports : option (list Port);
  di_labels : option Labels }.
Definition default_DiscoveryInfo : DiscoveryInfo :=
  mkDiscoveryInfo FRAMEWORK None None None None None None.

Definition discovery_eqb (left right : DiscoveryInfo) : bool :=
  bool_decide (visibility left = visibility right) &&
  String.eqb (get_or "" (di_name left)) (get_or "" (di_name right)) &&
  String.eqb (get_or "" (di_environment left)) (get_or "" (di_environment right)) &&
  String.eqb (get_or "" (di_location left)) (get_or "" (di_location right)) &&
  String.eqb (get_or "" (di_version left)) (get_or "" (di_version right)) &&
  ports_eqb (get_or [] (di_ports left)) (get_or [] (di_ports right)) &&
  labels_eqb (get_or [] (di_labels left)) (get_or [] (di_labels right)).

(** ** Executors, agents, tasks *)

(** [a && b] where both may end the process; [b] is evaluated only after [a]. *)
Definition and_then (a b : outcome bool) : outcome bool :=
  x ← a; if (x : bool) then b else Ok false.

(** [Resources(left) == Resources(right)] on repeated fields. *)
Definition resources_field_eq `{Icl} (left right : list Resource) : outcome bool :=
  l ← Resources_of_list left;
  r ← Resources_of_list right;
  resources_eq l r.

Inductive ExecutorType := EXECUTOR_UNKNOWN | DEFAULT | CUSTOM.
#[export] Instance ExecutorType_eq_dec : EqDecision ExecutorType.
Proof. solve_decision. Defined.

Record ExecutorInfo := mkExecutorInfo {
  ex_type : option ExecutorType;
  ex_executor_id : string;
  ex_framework_id : option string;
  ex_command : option CommandInfo;
  ex_container : option ContainerInfo;
  ex_resources : list Resource;
  ex_name : option string;
  ex_source : option string;
  ex_data : option string;
  ex_discovery : option DiscoveryInfo;
  (* [DurationInfo] in nanoseconds *)
  ex_shutdown_grace_period : option Z;
  ex_labels : option Labels }.

Definition executor_eq `{Icl} (left right : ExecutorInfo) : outcome bool :=
  if has (ex_type left) && has (ex_type right) &&
     negb (bool_decide (get_or EXECUTOR_UNKNOWN (ex_type left) =
                        get_or EXECUTOR_UNKNOWN (ex_type right)))
  then Ok false
  else
    and_then (Ok (Bool.eqb (has (ex_type left)) (has (ex_type right)) &&
                  id_eqb (ex_executor_id left) (ex_executor_id right) &&
                  String.eqb (get_or "" (ex_data left)) (get_or "" (ex_data right))))
   (and_then (resources_field_eq (ex_resources left) (ex_resources right))
      (Ok (command_eqb (get_or default_CommandInfo (ex_command left))
             (get_or default_CommandInfo (ex_command right)) &&
           id_eqb (get_or "" (ex_framework_id left)) (get_or "" (ex_framework_id right)) &&
           String.eqb (get_or "" (ex_name left)) (get_or "" (ex_name right)) &&
           String.eqb (get_or "" (ex_source left)) (get_or "" (ex_source right)) &&
           container_eqb (get_or default_ContainerInfo (ex_container left))
             (get_or default_ContainerInfo (ex_container right)) &&
           discovery_eqb (get_or default_DiscoveryInfo (ex_discovery left))
             (get_or default_DiscoveryInfo (ex_discovery right))))).

Definition executor_neq `{Icl} (left right : ExecutorInfo) : outcome bool :=
  negb <$> executor_eq left right.

Record MasterInfo := mkMasterInfo {
  mi_id : string;
  mi_ip : Z;
  mi_port : Z;
  mi_pid : option string;
  mi_hostname : option string;
  mi_version : option string }.
Definition master_eqb (left right : MasterInfo) : bool :=
  String.eqb (mi_id left) (mi_id right) && (mi_ip left =? mi_ip right) &&
  (mi_port left =? mi_port right) &&
  String.eqb (get_or "" (mi_pid left)) (get_or "" (mi_pid right)) &&
  String.eqb (get_or "" (mi_hostname left)) (get_or "" (mi_hostname right)) &&
  String.eqb (get_or "" (mi_version left)) (get_or "" (mi_version right)).

Record SlaveInfo := mkSlaveInfo {
  sl_hostname : string;
  sl_port : option Z;
  sl_resources : list Resource;
  sl_attributes : Attributes;
  sl_id : option string;
  sl_checkpoint : option bool }.
Definition slave_eq `{Icl} (left right : SlaveInfo) : outcome bool :=
  and_then (Ok (String.eqb (sl_hostname left) (sl_hostname right)))
 (and_then (resources_field_eq (sl_resources left) (sl_resources right))
 (and_then (attributes_eq (sl_attributes left) (sl_attributes right))
   (Ok (id_eqb (get_or "" (sl_id left)) (get_or "" (sl_id right)) &&
        Bool.eqb (get_or false (sl_checkpoint left)) (get_or false (sl_checkpoint right)) &&
        (get_or 5051 (sl_port left) =? get_or 5051 (sl_port right)))))).

Inductive StatusSource := SOURCE_MASTER | SOURCE_SLAVE | SOURCE_EXECUTOR.
#[export] Instance StatusSource_eq_dec : EqDecision StatusSource.
Proof. solve_decision. Defined.

(** [reason] is the number of an enumerator of [TaskStatus::Reason], whose
    default is REASON_COMMAND_EXECUTOR_FAILED, 0. *)
Record TaskStatus := mkTaskStatus {
  st_task_id : string;
  st_state : TaskState;
  st_data : option string;
  st_message : option string;
  st_source : option StatusSource;
  st_reason : option Z;
  st_slave_id : option string;
  st_executor_id : option string;
  st_timestamp : option double;
  st_uuid : option string;
  st_healthy : option bool }.

Definition task_status_eqb (left right : TaskStatus) : bool :=
  id_eqb (st_task_id left) (st_task_id right) &&
  bool_decide (st_state left = st_state right) &&
  String.eqb (get_or "" (st_data left)) (get_or "" (st_data right)) &&
  String.eqb (get_or "" (st_message left)) (get_or "" (st_message right)) &&
  id_eqb (get_or "" (st_slave_id left)) (get_or "" (st_slave_id right)) &&
  deqb (get_or dzero (st_timestamp left)) (get_or dzero (st_timestamp right)) &&
  id_eqb (get_or "" (st_executor_id left)) (get_or "" (st_executor_id right)) &&
  Bool.eqb (get_or false (st_healthy left)) (get_or false (st_healthy right)) &&
  bool_decide (get_or SOURCE_MASTER (st_source left) = get_or SOURCE_MASTER (st_source right)) &&
  (get_or 0 (st_reason left) =? get_or 0 (st_reason right)) &&
  String.eqb (get_or "" (st_uuid left)) (get_or "" (st_uuid right)).
Definition task_status_neqb (left right : TaskStatus) : bool :=
  negb (task_status_eqb left right).

Record Task := mkTask {
  tk_name : string;
  tk_task_id : string;
  tk_framework_id : string;
  tk_executor_id : option string;
  tk_slave_id : string;
  tk_state : TaskState;
  tk_resources : list Resource;
  tk_statuses : list TaskStatus;
  tk_status_update_state : option TaskState;
  tk_status_update_uuid : option string;
  tk_labels : option Labels;
  tk_discovery : option DiscoveryInfo;
  tk_user : option string }.

Definition task_eq `{Icl} (left right : Task) : outcome bool :=
  if negb (ordered_eqb (fun l r => negb (task_status_neqb l r))
             (tk_statuses left) (tk_statuses right))
  then Ok false
  else
    and_then (Ok (String.eqb (tk_name left) (tk_name right) &&
                  id_eqb (tk_task_id left) (tk_task_id right) &&
                  id_eqb (tk_framework_id left) (tk_framework_id right) &&
                  id_eqb (get_or "" (tk_executor_id left)) (get_or "" (tk_executor_id right)) &&
                  id_eqb (tk_slave_id left) (tk_slave_id right) &&
                  bool_decide (tk_state left = tk_state right)))
   (and_then (resources_field_eq (tk_resources left) (tk_resources right))
      (Ok (bool_decide (get_or TASK_STAGING (tk_status_update_state left) =
                        get_or TASK_STAGING (tk_status_update_state right)) &&
           String.eqb (get_or "" (tk_status_update_uuid left))
             (get_or "" (tk_status_update_uuid right)) &&
           labels_eqb (get_or [] (tk_labels left)) (get_or [] (tk_labels right)) &&
           discovery_eqb (get_or default_DiscoveryInfo (tk_discovery left))
             (get_or default_DiscoveryInfo (tk_discovery right)) &&
           String.eqb (get_or "" (tk_user left)) (get_or "" (tk_user right))))).

(** [TaskInfo], [URL] and [ResourceStatistics] compare their serialization;
    [TaskGroupInfo] holds [TaskInfo]s. *)
Section Serialized.
Context {T : Type} (SerializeAsString : T → string).
Definition serialized_eqb (left right : T) : bool :=
  String.eqb (SerializeAsString left) (SerializeAsString right).
Definition url_eqb (left right : T) : bool := serialized_eqb left right.
Definition resource_statistics_eqb (left right : T) : bool := serialized_eqb left right.
Definition task_group_eqb (left right : list T) : bool :=
  found_eqb serialized_eqb left right.
End Serialized.

Definition labels_neqb (left right : Labels) : bool := negb (labels_eqb left right).

(** ** Hashes *)

(** [boost::hash_combine(seed, v)] for strings and for [size_t]: the new seed. *)
Class HashCombine := {
  hash_combine : Z → string → Z;
  hash_combine_size : Z → Z → Z }.

Definition uri_hash `{HashCombine} (uri : URI) : Z :=
  let seed := 0 in
  let seed := if is_extract uri then u64_wrap (seed + 11) else seed in
  let seed := if is_executable uri then u64_wrap (seed + 2003) else seed in
  hash_combine seed (value uri).

Fixpoint container_id_hash `{HashCombine} (c : ContainerID) : Z :=
  match c with
  | mkContainerID v p =>
      let seed := hash_combine 0 v in
      match p with
      | Some parent => hash_combine_size seed (container_id_hash parent)
      | None => seed
      end
  end.

(** [ExecutorID], [FrameworkID], [OfferID], [SlaveID], [TaskID],
    [ResourceProviderID] *)
Definition id_hash `{HashCombine} (id : string) : Z := hash_combine 0 id.

Definition framework_executor_hash `{HashCombine} (p : string * string) : Z :=
  let seed := hash_combine_size 0 (id_hash p.1) in
  hash_combine_size seed (id_hash p.2).

Definition machine_hash `{HashCombine} (m : MachineID) : Z :=
  let seed := hash_combine 0 (lower (get_or "" (hostname m))) in
  hash_combine seed (get_or "" (ip m)).

(** [TaskState], [TaskStatus_Source], [TaskStatus_Reason], [Image::Type]: the number
    of the enumerator, as [size_t]. *)
Definition enum_hash (number : Z) : Z := u64_wrap number.

(** ** Printing *)

Fixpoint print_container_id (c : ContainerID) : string :=
  match c with
  | mkContainerID v p =>
      match p with
      | Some parent => print_container_id parent ++ "." ++ v
      | None => v
      end
  end.

Definition print_id (id : string) : string := id.
Definition print_executor_id (executorId : string) : string := executorId.
Definition print_framework_id (frameworkId : string) : string := frameworkId.
Definition print_offer_id (offerId : string) : string := offerId.
Definition print_slave_id (slaveId : string) : string := slaveId.

Definition print_machine_id (m : MachineID) : string :=
  if has (hostname m) && has (ip m)
  then get_or "" (hostname m) ++ " (" ++ get_or "" (ip m) ++ ")"
  else if has (hostname m) then get_or "" (hostname m)
  else "(" ++ get_or "" (ip m) ++ ")".

(** A vector or repeated field: [ [ a, b ] ]. *)
Fixpoint print_items {A : Type} (print : A → string) (first : bool) (l : list A) : string :=
  match l with
  | [] => ""
  | x :: l' => (if first then "" else ", ") ++ print x ++ print_items print false l'
  end.
Definition print_list {A : Type} (print : A → string) (l : list A) : string :=
  "[ " ++ print_items print true l ++ " ]".

(** The names of the enumerators, as [TaskState_Name] returns them. *)
Definition TaskState_Name (state : TaskState) : string :=
  match state with
  | TASK_STAGING => "TASK_STAGING" | TASK_STARTING => "TASK_STARTING"
  | TASK_RUNNING => "TASK_RUNNING" | TASK_KILLING => "TASK_KILLING"
  | TASK_FINISHED => "TASK_FINISHED" | TASK_FAILED => "TASK_FAILED"
  | TASK_KILLED => "TASK_KILLED" | TASK_ERROR => "TASK_ERROR"
  | TASK_LOST => "TASK_LOST" | TASK_DROPPED => "TASK_DROPPED"
  | TASK_UNREACHABLE => "TASK_UNREACHABLE" | TASK_GONE => "TASK_GONE"
  | TASK_GONE_BY_OPERATOR => "TASK_GONE_BY_OPERATOR" | TASK_UNKNOWN => "TASK_UNKNOWN"
  end.

(** messages.cpp: a [StatusUpdate].  [uuid_text] is [UUID::fromBytes] followed by
    [stringify]; reading the value of a failed [Try] ends the process. *)
Record StatusUpdate := mkStatusUpdate {
  upd_framework_id : string;
  upd_status : TaskStatus;
  upd_uuid : option string }.

Definition print_status_update (uuid_text : string → option string) (update : StatusUpdate)
    : outcome string :=
  uuid ← match upd_uuid update with
         | None => Ok ""
         | Some bytes =>
             match uuid_text bytes with
             | Some text => Ok (" (UUID: " ++ text ++ ")")
             | None => Fatal
             end
         end;
  Ok (TaskState_Name (st_state (upd_status update)) ++ uuid ++
      " for task " ++ print_id (st_task_id (upd_status update)) ++
      match st_healthy (upd_status update) with
      | Some healthy =>
          " in health state " ++ (if healthy : bool then "healthy" else "unhealthy")
      | None => ""
      end ++
      " of framework " ++ print_id (upd_framework_id update)).
