(* ===== verification/TypeUtilsLaws.v ===== *)
(** * TypeUtilsLaws: what the operators on messages decide

    On messages whose repeated fields have no duplicates, [operator==] of
    commands, containers and discovery information decides equality up to the
    order of these fields, so it is an equivalence; equal keys of hash tables
    have equal hashes; the printed form of a container id determines it. *)

From S2P Require Import Prelude Binary64 Ranges IntervalSets StoutStrings Values Url Attributes Resource Resources ResourcesLaws ResourcesEqual Fetcher Scheduler TypeUtils.

(** ** What a comparison decides

    [same] is the relation that [eqb] decides when the left operand is
    [distinct]; it is an equivalence and keeps [distinct]. *)
Class Decides {A : Type} (eqb : A → A → bool) (distinct : A → Prop) (same : relation A) := {
  decides_iff : ∀ l r, distinct l → eqb l r = true ↔ same l r;
  decides_equiv :: Equivalence same;
  decides_distinct : ∀ l r, same l r → distinct l → distinct r }.

Section Decides.
Context {A : Type} (eqb : A → A → bool) (distinct : A → Prop) (same : relation A).
Context `{!Decides eqb distinct same}.

Lemma decides_equivalence (x y z : A) :
  distinct x → distinct y →
  eqb x x = true ∧ (eqb x y = true → eqb y x = true) ∧
  (eqb x y = true → eqb y z = true → eqb x z = true).
Proof.
  intros Hx Hy. rewrite !decides_iff by done.
  split; [reflexivity|]. split; [by symmetry|by etransitivity].
Qed.
End Decides.

(** Comparisons of a key decide its equality, on every message. *)
Lemma decides_key {A K : Type} (eqb : A → A → bool) (key : A → K) :
  (∀ x y, eqb x y = true ↔ key x = key y) →
  Decides eqb (fun _ => True) (fun x y => key x = key y).
Proof.
  intros Hk. split; [auto| |auto].
  split; [done|by intros ??|by intros ??? ->].
Qed.

(** A permutation of the keys of a repeated field. *)
Definition permuted {A K : Type} (key : A → K) (l r : list A) : Prop :=
  map key l ≡ₚ map key r.
Definition no_dup {A K : Type} (key : A → K) (l : list A) : Prop := NoDup (map key l).

Lemma permuted_equiv {A K : Type} (key : A → K) : Equivalence (permuted key).
Proof.
  unfold permuted. split; [by intros ?|intros ???; by symmetry|intros ?????; by etransitivity].
Qed.

Section Found.
Context {A K : Type} (eqb : A → A → bool) (key : A → K).
Context (Hkey : ∀ x y, eqb x y = true ↔ key x = key y).

Lemma found_eqb_iff (l r : list A) :
  found_eqb eqb l r = true ↔
  length l = length r ∧ ∀ k, k ∈ map key l → k ∈ map key r.
Proof using Hkey.
  unfold found_eqb. destruct (Nat.eqb_spec (length l) (length r)) as [Hl|Hl]; cbn [negb].
  2:{ split; [done|]. by intros [? _]. }
  rewrite all_true. split.
  - intros Ha. split; [done|]. intros k (x & -> & Hx)%list_elem_of_fmap.
    apply Ha, any_true in Hx as (y & Hy & ->%Hkey). by apply list_elem_of_fmap_2.
  - intros [_ Ha] x Hx. apply any_true.
    destruct (proj1 (list_elem_of_fmap _ _ _) (Ha (key x) (list_elem_of_fmap_2 _ _ _ Hx)))
      as (y & Hk & Hy).
    exists y. split; [done|by apply Hkey].
Qed.

(** Without duplicates on the left, the loops decide permutation. *)
Lemma found_eqb_permuted (l r : list A) :
  no_dup key l → found_eqb eqb l r = true ↔ permuted key l r.
Proof using Hkey.
  intros Hd. rewrite found_eqb_iff. unfold permuted. split.
  - intros [Hl Hin]. apply submseteq_length_Permutation.
    + by apply NoDup_submseteq.
    + rewrite !length_map. lia.
  - intros Hp. split; [|by intros k; rewrite Hp].
    apply Permutation_length in Hp. by rewrite !length_map in Hp.
Qed.

#[global] Instance found_decides :
  Decides (found_eqb eqb) (no_dup key) (permuted key).
Proof using Hkey.
  split; [apply found_eqb_permuted|apply permuted_equiv|].
  intros l r Hp. unfold permuted, no_dup in *. by rewrite Hp.
Qed.

Lemma found_eqb_refl (l : list A) : found_eqb eqb l l = true.
Proof using Hkey. by apply found_eqb_iff. Qed.
End Found.

Lemma ordered_eqb_iff (l r : list string) : ordered_eqb String.eqb l r = true ↔ l = r.
Proof.
  unfold ordered_eqb. destruct (Nat.eqb_spec (length l) (length r)) as [Hl|Hl]; cbn [negb].
  2:{ split; [done|]. by intros ->. }
  revert r Hl. induction l as [|x l IH]; intros [|y r] Hl; try done.
  cbn in *. rewrite andb_true_iff, String.eqb_eq, IH by lia. split; [|by intros [= -> ->]].
  by intros [-> ->].
Qed.

(** ** The keys of the messages *)

Definition uri_key (u : URI) : string * bool * bool :=
  (value u, is_executable u, is_extract u).
Definition variable_key (v : Variable_) : string * string :=
  (var_name v, get_or "" (var_value v)).
Definition volume_key (v : Volume) : string * string * bool :=
  (container_path v, get_or "" (host_path v),
   match volume_mode v with RW => true | RO => false end).
Definition port_mapping_key (p : PortMapping) : Z * Z * string :=
  (host_port p, container_port p, get_or "" (pm_protocol p)).
Definition parameter_key (p : Parameter_) : string * string := (param_key p, param_value p).
Definition port_key (p : Port) : Z * string * string * Visibility :=
  (number p, get_or "" (port_name p), get_or "" (port_protocol p),
   get_or FRAMEWORK (port_visibility p)).
Definition label_text_key (l : Label) : string * string :=
  (label_key l, get_or "" (label_value l)).

(** Turn a comparison of fields into an equality of tuples. *)
Ltac field_tests :=
  rewrite ?andb_true_iff, ?String.eqb_eq, ?Z.eqb_eq, ?eqb_true_iff, ?bool_decide_eq_true.
Ltac key_equality := field_tests; split; [by intuition congruence|by intros [= ]; intuition].

Lemma uri_eqb_key (x y : URI) : uri_eqb x y = true ↔ uri_key x = uri_key y.
Proof. unfold uri_eqb, uri_key. key_equality. Qed.
Lemma variable_eqb_key (x y : Variable_) :
  variable_eqb x y = true ↔ variable_key x = variable_key y.
Proof. unfold variable_eqb, variable_key. key_equality. Qed.
Lemma volume_eqb_key (x y : Volume) : volume_eqb x y = true ↔ volume_key x = volume_key y.
Proof.
  unfold volume_eqb, volume_key.
  destruct (volume_mode x), (volume_mode y); rewrite ?andb_true_r, ?andb_false_r;
    field_tests; (split; [by intuition congruence|by intros [= ]; intuition]).
Qed.
Lemma port_mapping_eqb_key (x y : PortMapping) :
  port_mapping_eqb x y = true ↔ port_mapping_key x = port_mapping_key y.
Proof. unfold port_mapping_eqb, port_mapping_key. key_equality. Qed.
Lemma parameter_eqb_key (x y : Parameter_) :
  parameter_eqb x y = true ↔ parameter_key x = parameter_key y.
Proof. unfold parameter_eqb, parameter_key. key_equality. Qed.
Lemma port_eqb_key (x y : Port) : port_eqb x y = true ↔ port_key x = port_key y.
Proof. unfold port_eqb, port_key. key_equality. Qed.
Lemma label_eqb_key (x y : Label) : label_eqb x y = true ↔ label_text_key x = label_text_key y.
Proof. unfold label_eqb, label_text_key. key_equality. Qed.

(** ** Composition: a message compares its fields *)

Lemma decides_on {A B : Type} (f : B → A) (eqb : A → A → bool) (distinct : A → Prop)
    (same : relation A) :
  Decides eqb distinct same →
  Decides (fun x y => eqb (f x) (f y)) (fun x => distinct (f x)) (fun x y => same (f x) (f y)).
Proof.
  intros HD. split; [by intros; apply decides_iff| |by intros ??; apply decides_distinct].
  split; [intros ?; reflexivity|intros ???; by symmetry|intros ?????; by etransitivity].
Qed.

Lemma decides_and {A : Type} (eqb1 eqb2 : A → A → bool) (d1 d2 : A → Prop)
    (s1 s2 : relation A) :
  Decides eqb1 d1 s1 → Decides eqb2 d2 s2 →
  Decides (fun x y => eqb1 x y && eqb2 x y) (fun x => d1 x ∧ d2 x)
    (fun x y => s1 x y ∧ s2 x y).
Proof.
  intros H1 H2. split.
  - intros l r [Hd1 Hd2]. rewrite andb_true_iff.
    by rewrite (decides_iff (Decides := H1)), (decides_iff (Decides := H2)) by done.
  - split.
    + intros ?. split; reflexivity.
    + intros ?? [??]. by split; symmetry.
    + intros ??? [??] [??]. by split; etransitivity.
  - intros l r [Hs1 Hs2] [Hd1 Hd2]. split.
    + exact (decides_distinct (Decides := H1) l r Hs1 Hd1).
    + exact (decides_distinct (Decides := H2) l r Hs2 Hd2).
Qed.

Lemma decides_ext {A : Type} (eqb eqb' : A → A → bool) (d : A → Prop) (s : relation A) :
  (∀ x y, eqb' x y = eqb x y) → Decides eqb d s → Decides eqb' d s.
Proof.
  intros He HD. split; [|apply HD|apply HD]. intros l r Hd. rewrite He. by apply decides_iff.
Qed.

(** The fields of a command whose comparison is an equality of values. *)
Definition command_key (c : CommandInfo) : list string * string * string * bool :=
  (cmd_arguments c, get_or "" (cmd_value c), get_or "" (cmd_user c),
   get_or true (cmd_shell c)).
Definition command_key_eqb (l r : CommandInfo) : bool :=
  ordered_eqb String.eqb (cmd_arguments l) (cmd_arguments r) &&
  String.eqb (get_or "" (cmd_value l)) (get_or "" (cmd_value r)) &&
  String.eqb (get_or "" (cmd_user l)) (get_or "" (cmd_user r)) &&
  Bool.eqb (get_or true (cmd_shell l)) (get_or true (cmd_shell r)).
Lemma command_key_eqb_iff (l r : CommandInfo) :
  command_key_eqb l r = true ↔ command_key l = command_key r.
Proof.
  unfold command_key_eqb, command_key.
  rewrite !andb_true_iff, ordered_eqb_iff. key_equality.
Qed.

Definition command_env (c : CommandInfo) : Environment := get_or [] (cmd_environment c).

(** Two commands are the same up to the order of URIs and variables. *)
Definition distinct_command (c : CommandInfo) : Prop :=
  no_dup uri_key (cmd_uris c) ∧ no_dup variable_key (command_env c) ∧ True.
Definition same_command (l r : CommandInfo) : Prop :=
  permuted uri_key (cmd_uris l) (cmd_uris r) ∧
  permuted variable_key (command_env l) (command_env r) ∧
  command_key l = command_key r.

#[export] Instance command_decides : Decides command_eqb distinct_command same_command.
Proof.
  eapply decides_ext; [|apply decides_and;
    [apply (decides_on cmd_uris), found_decides, uri_eqb_key|apply decides_and;
    [apply (decides_on command_env), found_decides, variable_eqb_key
    |apply decides_key, command_key_eqb_iff]]].
  intros l r. unfold command_eqb, command_key_eqb, environment_eqb, command_env.
  destruct (found_eqb uri_eqb _ _), (ordered_eqb _ _ _), (found_eqb variable_eqb _ _); done.
Qed.

(** Docker: port mappings and parameters in any order. *)
Definition docker_key (d : DockerInfo) : string * Network * bool * bool :=
  (image d, get_or HOST (network d), get_or false (privileged d),
   get_or false (force_pull_image d)).
Definition docker_key_eqb (l r : DockerInfo) : bool :=
  String.eqb (image l) (image r) &&
  bool_decide (get_or HOST (network l) = get_or HOST (network r)) &&
  Bool.eqb (get_or false (privileged l)) (get_or false (privileged r)) &&
  Bool.eqb (get_or false (force_pull_image l)) (get_or false (force_pull_image r)).
Lemma docker_key_eqb_iff (l r : DockerInfo) :
  docker_key_eqb l r = true ↔ docker_key l = docker_key r.
Proof. unfold docker_key_eqb, docker_key. key_equality. Qed.

Definition distinct_docker (d : DockerInfo) : Prop :=
  no_dup port_mapping_key (port_mappings d) ∧ no_dup parameter_key (parameters d) ∧ True.
Definition same_docker (l r : DockerInfo) : Prop :=
  permuted port_mapping_key (port_mappings l) (port_mappings r) ∧
  permuted parameter_key (parameters l) (parameters r) ∧ docker_key l = docker_key r.

#[export] Instance docker_decides : Decides docker_eqb distinct_docker same_docker.
Proof.
  eapply decides_ext; [|apply decides_and;
    [apply (decides_on port_mappings), found_decides, port_mapping_eqb_key|apply decides_and;
    [apply (decides_on parameters), found_decides, parameter_eqb_key
    |apply decides_key, docker_key_eqb_iff]]].
  intros l r. unfold docker_eqb, docker_key_eqb.
  destruct (found_eqb port_mapping_eqb _ _), (found_eqb parameter_eqb _ _); done.
Qed.

(** Containers: volumes in any order. *)
Definition container_key (c : ContainerInfo) : ContainerType * string :=
  (ct_type c, get_or "" (ct_hostname c)).
Definition container_key_eqb (l r : ContainerInfo) : bool :=
  bool_decide (ct_type l = ct_type r) &&
  String.eqb (get_or "" (ct_hostname l)) (get_or "" (ct_hostname r)).
Lemma container_key_eqb_iff (l r : ContainerInfo) :
  container_key_eqb l r = true ↔ container_key l = container_key r.
Proof. unfold container_key_eqb, container_key. key_equality. Qed.
Definition docker_of (c : ContainerInfo) : DockerInfo := get_or default_DockerInfo (ct_docker c).

Definition distinct_container (c : ContainerInfo) : Prop :=
  no_dup volume_key (ct_volumes c) ∧ distinct_docker (docker_of c) ∧ True.
Definition same_container (l r : ContainerInfo) : Prop :=
  permuted volume_key (ct_volumes l) (ct_volumes r) ∧
  same_docker (docker_of l) (docker_of r) ∧ container_key l = container_key r.

#[export] Instance container_decides :
  Decides container_eqb distinct_container same_container.
Proof.
  eapply decides_ext; [|apply decides_and;
    [apply (decides_on ct_volumes), found_decides, volume_eqb_key|apply decides_and;
    [apply (decides_on docker_of), docker_decides
    |apply decides_key, container_key_eqb_iff]]].
  intros l r. unfold container_eqb, container_key_eqb. fold (docker_of l) (docker_of r).
  destruct (found_eqb volume_eqb _ _), (bool_decide _), (String.eqb _ _), (docker_eqb _ _); done.
Qed.

(** Discovery: ports and labels in any order. *)
Definition discovery_key (d : DiscoveryInfo)
    : Visibility * string * string * string * string :=
  (visibility d, get_or "" (di_name d), get_or "" (di_environment d),
   get_or "" (di_location d), get_or "" (di_version d)).
Definition discovery_key_eqb (l r : DiscoveryInfo) : bool :=
  bool_decide (visibility l = visibility r) &&
  String.eqb (get_or "" (di_name l)) (get_or "" (di_name r)) &&
  String.eqb (get_or "" (di_environment l)) (get_or "" (di_environment r)) &&
  String.eqb (get_or "" (di_location l)) (get_or "" (di_location r)) &&
  String.eqb (get_or "" (di_version l)) (get_or "" (di_version r)).
Lemma discovery_key_eqb_iff (l r : DiscoveryInfo) :
  discovery_key_eqb l r = true ↔ discovery_key l = discovery_key r.
Proof. unfold discovery_key_eqb, discovery_key. key_equality. Qed.
Definition ports_of (d : DiscoveryInfo) : list Port := get_or [] (di_ports d).
Definition labels_of (d : DiscoveryInfo) : Labels := get_or [] (di_labels d).

Definition distinct_discovery (d : DiscoveryInfo) : Prop :=
  no_dup port_key (ports_of d) ∧ no_dup label_text_key (labels_of d) ∧ True.
Definition same_discovery (l r : DiscoveryInfo) : Prop :=
  permuted port_key (ports_of l) (ports_of r) ∧
  permuted label_text_key (labels_of l) (labels_of r) ∧ discovery_key l = discovery_key r.

#[export] Instance discovery_decides :
  Decides discovery_eqb distinct_discovery same_discovery.
Proof.
  eapply decides_ext; [|apply decides_and;
    [apply (decides_on ports_of), found_decides, port_eqb_key|apply decides_and;
    [apply (decides_on labels_of), found_decides, label_eqb_key
    |apply decides_key, discovery_key_eqb_iff]]].
  intros l r. unfold discovery_eqb, ports_eqb. fold (discovery_key_eqb l r).
  change labels_eqb with (found_eqb label_eqb). fold (ports_of l) (ports_of r).
  fold (labels_of l) (labels_of r).
  destruct (found_eqb port_eqb _ _), (found_eqb label_eqb _ _), (discovery_key_eqb l r); done.
Qed.

(** ** Executors *)

Lemma Ok_eq_iff {A : Type} (x y : A) : Ok x = Ok y ↔ x = y.
Proof. split; [by intros [= ->]|by intros ->]. Qed.

Lemma and_then_true (a b : outcome bool) : and_then a b = Ok true ↔ a = Ok true ∧ b = Ok true.
Proof.
  unfold and_then. destruct a as [[]|e|]; cbn; intuition congruence.
Qed.

Definition command_of (e : ExecutorInfo) : CommandInfo :=
  get_or default_CommandInfo (ex_command e).
Definition container_of (e : ExecutorInfo) : ContainerInfo :=
  get_or default_ContainerInfo (ex_container e).
Definition discovery_of (e : ExecutorInfo) : DiscoveryInfo :=
  get_or default_DiscoveryInfo (ex_discovery e).

Definition distinct_executor (e : ExecutorInfo) : Prop :=
  distinct_command (command_of e) ∧ distinct_container (container_of e) ∧
  distinct_discovery (discovery_of e).

(** Two descriptions of one executor. *)
Definition same_executor `{Icl} (l r : ExecutorInfo) : Prop :=
  ex_type l = ex_type r ∧ ex_executor_id l = ex_executor_id r ∧
  get_or "" (ex_data l) = get_or "" (ex_data r) ∧
  get_or "" (ex_framework_id l) = get_or "" (ex_framework_id r) ∧
  get_or "" (ex_name l) = get_or "" (ex_name r) ∧
  get_or "" (ex_source l) = get_or "" (ex_source r) ∧
  same_command (command_of l) (command_of r) ∧
  same_container (container_of l) (container_of r) ∧
  same_discovery (discovery_of l) (discovery_of r) ∧
  resources_field_eq (ex_resources l) (ex_resources r) = Ok true.

Lemma ex_type_test (l r : option ExecutorType) :
  has l && has r &&
    negb (bool_decide (get_or EXECUTOR_UNKNOWN l = get_or EXECUTOR_UNKNOWN r)) = false ∧
  Bool.eqb (has l) (has r) = true ↔ l = r.
Proof. destruct l as [[]|], r as [[]|]; cbn; split; intuition (done || congruence). Qed.

Lemma executor_eq_iff `{Icl} (l r : ExecutorInfo) :
  distinct_executor l → executor_eq l r = Ok true ↔ same_executor l r.
Proof.
  intros (Hc & Hk & Hd). unfold executor_eq, same_executor, id_eqb.
  rewrite <-(ex_type_test (ex_type l) (ex_type r)).
  fold (command_of l) (command_of r) (container_of l) (container_of r)
    (discovery_of l) (discovery_of r).
  rewrite <-(decides_iff _ (command_of r) Hc), <-(decides_iff _ (container_of r) Hk),
    <-(decides_iff _ (discovery_of r) Hd), <-!String.eqb_eq.
  destruct (has (ex_type l) && _ && _) eqn:Et.
  { split; [done|]. by intros [[? _] _]. }
  rewrite !and_then_true, !Ok_eq_iff, !andb_true_iff. tauto.
Qed.

Lemma resources_field_sym `{Icl} (a b : list Resource) :
  resources_field_eq a b = Ok true → resources_field_eq b a = Ok true.
Proof.
  unfold resources_field_eq, resources_eq. intros (x & -> & Hx)%bind_Ok.
  apply bind_Ok in Hx as (y & -> & Hy). cbn [mbind outcome_bind] in *.
  destruct (contains x y) as [[]| |]; cbn in Hy; try done. by rewrite Hy.
Qed.

Lemma resources_field_refl `{IclLaws} (a : list Resource) (rs : Resources) :
  Resources_of_list a = Ok rs → resources_wf rs → resources_field_eq a a = Ok true.
Proof.
  intros Ha Hwf. unfold resources_field_eq. rewrite Ha. cbn [mbind outcome_bind].
  by apply same_holdings_eq.
Qed.


(** Executors that differ in their labels only are equal. *)
Example executor_labels_ignored :
  let e labels := mkExecutorInfo None "e" None None None [] None None None None None labels in
  executor_eq (H:=gset_icl) (e (Some [mkLabel "k" None])) (e None) = Ok true.
Proof. vm_compute. reflexivity. Qed.

(** Without the hypothesis the relation is not symmetric: URIs [a, a] and [a, b]. *)
Definition uris_command (l : list string) : CommandInfo :=
  mkCommandInfo (map (fun v => mkURI v None None None None) l) None None None [] None.
Lemma command_eq_not_symmetric :
  command_eqb (uris_command ["a"; "a"]) (uris_command ["a"; "b"]) = true ∧
  command_eqb (uris_command ["a"; "b"]) (uris_command ["a"; "a"]) = false.
Proof. by split. Qed.

(** ** Hashes *)

(** Induction along the parents. *)
Lemma container_id_ind (P : ContainerID → Prop) :
  (∀ v, P (mkContainerID v None)) →
  (∀ v p, P p → P (mkContainerID v (Some p))) → ∀ c, P c.
Proof. intros Hroot Hnested. fix IH 1. intros [v [p|]]; [apply Hnested, IH|apply Hroot]. Qed.

(** The contract of a key of [std::unordered_map]: equal keys have equal hashes. *)
Class HashKey {A : Type} (eqb : A → A → bool) (hash : A → Z) : Prop :=
  hash_equal : ∀ x y, eqb x y = true → hash x = hash y.

Section Hashes.
Context `{HashCombine}.

#[export] Instance id_hash_key : HashKey id_eqb id_hash.
Proof. by intros x y ->%String.eqb_eq. Qed.

#[export] Instance uri_hash_key : HashKey uri_eqb uri_hash.
Proof. intros x y [= Hv He Hx]%uri_eqb_key. unfold uri_hash. by rewrite Hv, He, Hx. Qed.

#[export] Instance machine_hash_key : HashKey machine_eqb machine_hash.
Proof.
  intros x y. unfold machine_eqb, machine_hash. field_tests. by intros [[[_ ->] _] ->].
Qed.

#[export] Instance container_id_hash_key : HashKey container_id_eqb container_id_hash.
Proof.
  intros x. induction x as [v|v p IH] using container_id_ind; intros [w [q|]]; cbn;
    rewrite ?andb_false_r, ?andb_true_r; try done.
  - by intros ->%String.eqb_eq.
  - intros [->%String.eqb_eq Hp]%andb_true_iff. by rewrite (IH q Hp).
Qed.
End Hashes.

(** Keys that compare equal have the same hash, for every function that
    [boost::hash_combine] may be: URIs (up to unset flags), nested container ids,
    the plain ids, pairs of framework and executor ids, and machine ids, whose
    host names compare without case.  A hash table of these keys finds an
    element through any key equal to its own. *)
Theorem equal_keys_hash_equal `{HashCombine} (u v : URI) (c d : ContainerID)
    (i j i' j' : string) (m n : MachineID) :
  uri_eqb u v = true → container_id_eqb c d = true → id_eqb i j = true →
  id_eqb i' j' = true → machine_eqb m n = true →
  uri_hash u = uri_hash v ∧ container_id_hash c = container_id_hash d ∧
  id_hash i = id_hash j ∧
  framework_executor_hash (i, i') = framework_executor_hash (j, j') ∧
  machine_hash m = machine_hash n.
Proof.
  intros Hu Hc Hi Hi' Hm. unfold framework_executor_hash. cbn [fst snd].
  by rewrite (hash_equal (hash := uri_hash) _ _ Hu),
    (hash_equal (hash := container_id_hash) _ _ Hc), (hash_equal (hash := id_hash) _ _ Hi),
    (hash_equal (hash := id_hash) _ _ Hi'), (hash_equal (hash := machine_hash) _ _ Hm).
Qed.

(** ** Container ids *)

(** The values from the root of the nesting to the container. *)
Fixpoint id_chain (c : ContainerID) : list string :=
  match c with
  | mkContainerID v (Some p) => id_chain p ++ [v]
  | mkContainerID v None => [v]
  end%list.

Lemma id_chain_nonempty (c : ContainerID) : id_chain c ≠ [].
Proof. destruct c as [v [p|]]; cbn; [by destruct (id_chain p)|done]. Qed.

Lemma id_chain_eq (x y : ContainerID) :
  container_id_eqb x y = true ↔ id_chain x = id_chain y.
Proof.
  revert y. induction x as [v|v p IH] using container_id_ind; intros [w [q|]]; cbn;
    rewrite ?andb_false_r, ?andb_true_r, ?andb_true_iff, ?String.eqb_eq.
  - split; [done|]. intros E. apply (app_inj_tail []) in E as [E _]. symmetry in E.
    by apply id_chain_nonempty in E.
  - split; [by intros ->|by intros [= ->]].
  - rewrite IH. split; [by intros [-> ->]|]. by intros [-> ->]%app_inj_tail.
  - split; [done|]. intros E. apply (app_inj_tail _ []) in E as [E _].
    by apply id_chain_nonempty in E.
Qed.

Lemma str_join_snoc (sep : string) (l : list string) (v : string) :
  l ≠ [] → str_join sep (l ++ [v])%list = str_join sep l ++ sep ++ v.
Proof.
  intros Hne. induction l as [|w l IH]; [done|]. destruct l as [|w' l]; [done|].
  change ((w :: w' :: l) ++ [v])%list with (w :: w' :: (l ++ [v]))%list.
  rewrite (str_join_cons sep w w' (l ++ [v])%list), (str_join_cons sep w w' l).
  change (w' :: l ++ [v])%list with ((w' :: l) ++ [v])%list.
  rewrite IH by done. by rewrite !str_app_assoc.
Qed.

Lemma print_container_id_join (c : ContainerID) :
  print_container_id c = str_join "." (id_chain c).
Proof.
  induction c as [v|v p IH] using container_id_ind; cbn [print_container_id id_chain]; [done|].
  by rewrite str_join_snoc, IH by apply id_chain_nonempty.
Qed.

(** The printed form of a container id, its values from the root joined by
    dots, determines the id: when no value has a dot, splitting the text at the
    dots gives the chain of values back, and two ids print alike exactly when
    [operator==] holds for them. *)
Theorem container_id_roundtrip (c d : ContainerID) :
  Forall (without ".") (id_chain c) → Forall (without ".") (id_chain d) →
  split (print_container_id c) "." None = id_chain c ∧
  (print_container_id c = print_container_id d ↔ container_id_eqb c d = true).
Proof.
  assert (Hsplit : ∀ e, Forall (without ".") (id_chain e) →
            split (print_container_id e) "." None = id_chain e).
  { intros e He. rewrite print_container_id_join, split_fields. apply fields_join; [done|apply id_chain_nonempty|done]. }
  intros Hc Hd. split; [by apply Hsplit|]. rewrite id_chain_eq. split.
  - intros E. by rewrite <-(Hsplit c), <-(Hsplit d), E.
  - intros E. by rewrite !print_container_id_join, E.
Qed.

(** The order ignores the parents: it does not tell apart two containers of
    different parents that [operator==] tells apart. *)
Lemma container_order_conflates :
  let c := mkContainerID "x" (Some (mkContainerID "a" None)) in
  let d := mkContainerID "x" (Some (mkContainerID "b" None)) in
  container_id_eqb c d = false ∧ container_id_ltb c d = false ∧ container_id_ltb d c = false.
Proof. by vm_compute. Qed.

(** ** Examples *)
Module TypeUtilsSession.

Definition variables (l : list (string * string)) : Environment :=
  map (fun p => mkVariable p.1 (Some p.2)) l.
Definition uri_named (v : string) : URI := mkURI v None None None None.

(** One executor described twice, with URIs and variables in another order and
    a flag left to its default. *)
Definition executor_with (c : CommandInfo) : ExecutorInfo :=
  mkExecutorInfo (Some CUSTOM) "exec" None (Some c) None [] (Some "name") None None None None None.
Definition command1 : CommandInfo :=
  mkCommandInfo [uri_named "a"; uri_named "b"] (Some (variables [("X", "1"); ("Y", "2")]))
    (Some true) (Some "run") ["-v"] None.
Definition command2 : CommandInfo :=
  mkCommandInfo [uri_named "b"; uri_named "a"] (Some (variables [("Y", "2"); ("X", "1")]))
    None (Some "run") ["-v"] (Some "").

Lemma distinct_session (c : CommandInfo) :
  no_dup uri_key (cmd_uris c) → no_dup variable_key (command_env c) →
  distinct_executor (executor_with c).
Proof. intros. repeat split; try done; constructor. Qed.


(** A stand-in for [boost::hash_combine]. *)
#[local] Instance sum_hash : HashCombine := {|
  hash_combine seed s := seed + Z.of_nat (String.length s);
  hash_combine_size seed n := 31 * seed + n |}.

Lemma equal_keys_hash_equal_witness :
  uri_hash (uri_named "a") = uri_hash (mkURI "a" (Some false) (Some true) (Some true) None) ∧
  machine_hash (mkMachineID (Some "Host") None) = machine_hash (mkMachineID (Some "hOST") None).
Proof.
  destruct (equal_keys_hash_equal (uri_named "a")
    (mkURI "a" (Some false) (Some true) (Some true) None)
    (mkContainerID "c" (Some (mkContainerID "p" None)))
    (mkContainerID "c" (Some (mkContainerID "p" None)))
    "f" "f" "e" "e" (mkMachineID (Some "Host") None) (mkMachineID (Some "hOST") None))
    as (Hu & _ & _ & _ & Hm); [reflexivity..|]. by split.
Defined.

Definition nested : ContainerID :=
  mkContainerID "c" (Some (mkContainerID "b" (Some (mkContainerID "a" None)))).

Lemma container_id_roundtrip_witness : split "a.b.c" "." None = ["a"; "b"; "c"].
Proof.
  apply (container_id_roundtrip nested nested); repeat constructor.
Defined.

Example status_update_text :
  print_status_update (fun _ => Some "u-1")
    (mkStatusUpdate "f" (mkTaskStatus "t" TASK_RUNNING None None None None None None None
                           None (Some true)) (Some "bytes"))
  = Ok "TASK_RUNNING (UUID: u-1) for task t in health state healthy of framework f" ∧
  print_list print_id ["t1"; "t2"] = "[ t1, t2 ]" ∧
  print_machine_id (mkMachineID (Some "h") (Some "1.2.3.4")) = "h (1.2.3.4)".
Proof. by repeat split. Qed.
End TypeUtilsSession.
