(* ===== verification/TypeUtilsV1.v ===== *)
(** * TypeUtilsV1: the operators of the v1 API (v1/mesos.hpp)

    The v1 messages have the fields of the unversioned ones; their inline
    operators and hashes are written out in v1/mesos.hpp again.  They differ from
    type_utils.hpp in the container ids: [operator==], [operator!=] and the hash
    read the value only, not the parents.

    The theorem compares the two: in v1 every pair of ids is ordered in exactly one
    way and equal ids have equal hashes, while two nested containers of different
    parents are one key ([v1_ids_are_coherent]); in the unversioned API they are two
    keys that no order tells apart ([container_order_conflates]). *)

From S2P Require Import Prelude Binary64 StoutStrings Values Resource Fetcher Scheduler TypeUtils TypeUtilsLaws.

Module V1.

(** ** Equality *)

Definition container_id_eqb (left right : ContainerID) : bool :=
  String.eqb (container_value left) (container_value right).
Definition executor_id_eqb (left right : string) : bool := String.eqb left right.
Definition framework_id_eqb (left right : string) : bool := String.eqb left right.
Definition framework_eqb (left right : FrameworkInfo) : bool :=
  String.eqb (fi_name left) (fi_name right) && String.eqb (fi_user left) (fi_user right).
(** [OfferID], [ResourceProviderID], [AgentID], [TaskID] *)
Definition id_eqb (left right : string) : bool := String.eqb left right.
(** [TimeInfo], [DurationInfo] *)
Definition nanoseconds_eqb (left right : Z) : bool := left =? right.

(** With a string on the right. *)
Definition container_id_eqb_string (left : ContainerID) (right : string) : bool :=
  String.eqb (container_value left) right.
Definition id_eqb_string (left right : string) : bool := String.eqb left right.

Definition region_eqb (left right : FaultDomain) : bool :=
  String.eqb (region_name left) (region_name right).
Definition zone_eqb (left right : FaultDomain) : bool :=
  String.eqb (zone_name left) (zone_name right).
Definition fault_domain_eqb (left right : FaultDomain) : bool :=
  region_eqb left right && zone_eqb left right.
Definition domain_eqb (left right : option FaultDomain) : bool :=
  fault_domain_eqb (get_or (mkFaultDomain "" "") left) (get_or (mkFaultDomain "" "") right).

Definition machine_eqb (left right : MachineID) : bool :=
  Bool.eqb (has (hostname left)) (has (hostname right)) &&
  String.eqb (lower (get_or "" (hostname left))) (lower (get_or "" (hostname right))) &&
  Bool.eqb (has (ip left)) (has (ip right)) &&
  String.eqb (get_or "" (ip left)) (get_or "" (ip right)).

(** ** Inequality and order *)

Definition container_id_neqb (left right : ContainerID) : bool :=
  negb (String.eqb (container_value left) (container_value right)).
(** [ExecutorID], [FrameworkID], [ResourceProviderID], [AgentID] *)
Definition id_neqb (left right : string) : bool := negb (String.eqb left right).
Definition nanoseconds_neqb (left right : Z) : bool := negb (nanoseconds_eqb left right).
Definition region_neqb (left right : FaultDomain) : bool :=
  negb (String.eqb (region_name left) (region_name right)).

Definition container_id_ltb (left right : ContainerID) : bool :=
  String.ltb (container_value left) (container_value right).
Definition id_ltb (left right : string) : bool := String.ltb left right.

(** ** Printing of repeated fields and vectors *)

Fixpoint print_items {A : Type} (print : A → string) (first : bool) (l : list A) : string :=
  match l with
  | [] => ""
  | x :: l' => (if first then "" else ", ") ++ print x ++ print_items print false l'
  end.
Definition print_list {A : Type} (print : A → string) (l : list A) : string :=
  "[ " ++ print_items print true l ++ " ]".

(** ** Hashes *)

Section hashes.
Context `{HashCombine}.

Definition uri_hash (uri : URI) : Z :=
  let seed := 0 in
  let seed := if is_extract uri then u64_wrap (seed + 11) else seed in
  let seed := if is_executable uri then u64_wrap (seed + 2003) else seed in
  hash_combine seed (value uri).
Definition container_id_hash (containerId : ContainerID) : Z :=
  hash_combine 0 (container_value containerId).
(** [ExecutorID], [FrameworkID], [OfferID], [AgentID], [TaskID] *)
Definition id_hash (id : string) : Z := hash_combine 0 id.
(** [TaskState], [TaskStatus_Source], [TaskStatus_Reason], [Image::Type]: the number
    of the enumerator, as [size_t]. *)
Definition enum_hash (number : Z) : Z := u64_wrap number.
Definition framework_executor_hash (pair : string * string) : Z :=
  let seed := hash_combine_size 0 (id_hash pair.1) in
  hash_combine_size seed (id_hash pair.2).
Definition machine_hash (machineId : MachineID) : Z :=
  let seed := hash_combine 0 (lower (get_or "" (hostname machineId))) in
  hash_combine seed (get_or "" (ip machineId)).
End hashes.

(** ** Facts *)

(** Exactly one of [l < r], [l == r], [r < l]. *)
Definition one_way {A : Type} (eqb ltb : A → A → bool) : Prop :=
  ∀ l r, (ltb l r, eqb l r, ltb r l) ∈ [(true, false, false); (false, true, false);
                                        (false, false, true)].

Lemma string_compare_refl (s : string) : String.compare s s = Eq.
Proof.
  pose proof (String.compare_antisym s s) as Ha. by destruct (String.compare s s).
Qed.

Lemma string_one_way : one_way String.eqb String.ltb.
Proof.
  intros l r. unfold String.ltb. rewrite (String.compare_antisym r l).
  destruct (String.compare l r) eqn:Hc.
  - apply String.compare_eq_iff in Hc as ->. rewrite String.eqb_refl. cbn. set_solver.
  - assert (String.eqb l r = false) as ->.
    { apply String.eqb_neq. intros ->. by rewrite string_compare_refl in Hc. }
    cbn. set_solver.
  - assert (String.eqb l r = false) as ->.
    { apply String.eqb_neq. intros ->. by rewrite string_compare_refl in Hc. }
    cbn. set_solver.
Qed.

(** The v1 operators fit together: [!=] is the negation of [==]; of container ids,
    and of the other ids, exactly one of [<], [==] and [>] holds; equal URIs,
    container ids, ids and machine ids have equal hashes.  The price is that
    [==] of container ids is coarser than in the unversioned API: it forgets the
    parents. *)
Theorem v1_ids_are_coherent `{HashCombine} (u v : URI) (c d : ContainerID) (i j : string)
    (m n : MachineID) :
  container_id_neqb c d = negb (container_id_eqb c d) ∧
  one_way container_id_eqb container_id_ltb ∧ one_way id_eqb id_ltb ∧
  (uri_eqb u v = true → uri_hash u = uri_hash v) ∧
  (container_id_eqb c d = true → container_id_hash c = container_id_hash d) ∧
  (id_eqb i j = true → id_hash i = id_hash j) ∧
  (machine_eqb m n = true → machine_hash m = machine_hash n) ∧
  (TypeUtils.container_id_eqb c d = true → container_id_eqb c d = true).
Proof.
  split_and!.
  - done.
  - intros l r. apply string_one_way.
  - apply string_one_way.
  - apply (hash_equal (hash := TypeUtils.uri_hash)).
  - unfold container_id_eqb, container_id_hash. by intros ->%String.eqb_eq.
  - by intros ->%String.eqb_eq.
  - apply (hash_equal (hash := TypeUtils.machine_hash)).
  - destruct c as [cv cp], d as [dv dp]. unfold container_id_eqb. cbn.
    by intros [[? _]%andb_true_iff _]%andb_true_iff.
Qed.

(** Two nested containers of different parents are one key of a v1 hash table. *)
Lemma v1_container_ids_conflate :
  let c := mkContainerID "x" (Some (mkContainerID "a" None)) in
  let d := mkContainerID "x" (Some (mkContainerID "b" None)) in
  container_id_eqb c d = true ∧ TypeUtils.container_id_eqb c d = false.
Proof. by vm_compute. Qed.

(** A printed list starts and ends with its brackets, and the printers agree. *)
Lemma print_items_v0 {A : Type} (print : A → string) b l :
  print_items print b l = TypeUtils.print_items print b l.
Proof. revert b. induction l as [|x l IH]; intros b; cbn; [done|]. by rewrite IH. Qed.
End V1.
