(* ===== verification/StoutPath.v ===== *)
(** * StoutPath: the rest of stout's strings.hpp, path.hpp and numify.hpp

    What [StoutStrings] (the scanners), [Fetcher] ([path::join] of two paths and
    [Path::basename]) and [TypeUtils] ([strings::lower]) leave: [remove] anywhere in a
    text, [pairs], [join], [upper], the rest of the [Path] class and its operators.

    A path is read as the list of its components, the maximal runs of characters between
    slashes; the theorems say that [join] appends these lists, and that [dirname] and
    [basename] take one apart. *)

From S2P Require Import Prelude StoutStrings Values Fetcher TypeUtils TypeUtilsV1.
#[local] Open Scope nat_scope.

(** ** strings.hpp *)

(** [strings::remove] in the mode [ANY]: the loop erases the first occurrence until there
    is none; [None] when [fuel] iterations do not suffice. *)
Fixpoint remove_loop (fuel : nat) (result substring : string) : option string :=
  match find_str result substring 0 with
  | None => Some result
  | Some index =>
      match fuel with
      | O => None
      | S fuel' =>
          remove_loop fuel' (str_replace result index (String.length substring) "") substring
      end
  end.

(** [result[pairs[0]].push_back(pairs[1])] *)
Definition push_back (k v : string) (result : gmap string (list string)) :
  gmap string (list string) :=
  <[k := (default [] (result !! k) ++ [v])%list]> result.

Definition pairs_step (delims2 : string) (result : gmap string (list string)) (token : string) :
  gmap string (list string) :=
  match tokenize token delims2 None with
  | [k; v] => push_back k v result
  | _ => result
  end.

Definition pairs (s delims1 delims2 : string) : gmap string (list string) :=
  foldl (pairs_step delims2) ∅ (tokenize s delims1 None).

(** [strings::join] of an iterable: the separator is added while the iterator has not
    reached the end. *)
Fixpoint join_loop (result separator : string) (i : list string) : string :=
  match i with
  | [] => result
  | x :: i' =>
      let result := (result ++ x)%string in
      join_loop (match i' with [] => result | _ => (result ++ separator)%string end) separator i'
  end.
Definition strings_join (separator : string) (i : list string) : string := join_loop "" separator i.

(** [internal::join] of arguments, which writes to a stream. *)
Fixpoint join_args (stream separator head : string) (tail : list string) : string :=
  match tail with
  | [] => (stream ++ head)%string
  | next :: tail' => join_args ((stream ++ head) ++ separator)%string separator next tail'
  end.

(** [::toupper] in the C locale *)
Definition toupper (c : ascii) : ascii :=
  if (97 <=? nat_of_ascii c) && (nat_of_ascii c <=? 122)
  then ascii_of_nat (nat_of_ascii c - 32) else c.
Fixpoint upper (s : string) : string :=
  match s with
  | "" => ""
  | String c s' => String (toupper c) (upper s')
  end%string.

(** ** numify.hpp *)

(** [numify] of an optional text; the result is a [Result]: a number, none, or an error. *)
Definition numify_option {T : Type} (lexical_cast hex_extract : string → option T)
    (negate : T → T) (s : option string) : outcome (option T) :=
  match s with
  | Some s => t ← numify lexical_cast hex_extract negate s; Ok (Some t)
  | None => Ok None
  end.

(** ** path.hpp *)

(** [path::join] of a vector *)
Definition path_join_all (paths : list string) : string :=
  match paths with
  | [] => ""
  | p :: paths' => foldl path_join p paths'
  end.

Definition path_absolute (path : string) : bool := startsWith_char path "/".

(** The characters of [value] up to and including the position [end_]; all of them when
    it is [npos]. *)
Definition up_to (value : string) (end_ : option nat) : string :=
  match end_ with
  | Some e => substr value 0 (e + 1)
  | None => value
  end.

Definition path_dirname (value : string) : string :=
  if str_empty value then "."
  else
    let end_ := Some (String.length value - 1) in
    let end_ := if endsWith_char value "/" then find_last_not_of (up_to value end_) "/"
                else end_ in
    match find_last_of (up_to value end_) "/" with
    | None => "."
    | Some O => "/"
    | Some e =>
        match find_last_not_of (up_to value (Some e)) "/" with
        | None => "/"
        | Some e => substr value 0 (e + 1)
        end
    end.

Definition path_extension (value : string) : option string :=
  let _basename := path_basename value in
  let index := find_last_of _basename "." in
  if String.eqb _basename "." || String.eqb _basename ".." then None
  else substr_from _basename <$> index.

(** The operators of [Path], on [left.string()] and [right.string()]. *)
Definition Path_eqb (left right : string) : bool := String.eqb left right.
Definition Path_neqb (left right : string) : bool := negb (Path_eqb left right).
Definition Path_ltb (left right : string) : bool := String.ltb left right.
Definition Path_gtb (left right : string) : bool := Path_ltb right left.
Definition Path_leb (left right : string) : bool := negb (Path_gtb left right).
Definition Path_geb (left right : string) : bool := negb (Path_ltb left right).

(** ** The components of a path *)

Definition slash (c : ascii) : bool := mem_char c "/".
Definition components (path : string) : list string := words slash path.

Lemma words_app_delim (p : ascii → bool) (a b : string) (d : ascii) :
  p d = true → words p (a ++ String d b) = (words p a ++ words p b)%list.
Proof.
  intros Hd. induction a as [|c a IH]; cbn; [by rewrite Hd|]. rewrite IH.
  destruct (p c); [done|].
  replace (ends_here p (a ++ String d b)) with (ends_here p a) by (by destruct a; cbn).
  destruct (ends_here p a) eqn:He; [done|].
  destruct (words p a) as [|w ws] eqn:Hw; [|done].
  destruct a as [|e a]; [done|]. cbn in He, Hw. rewrite He in Hw.
  destruct (ends_here p a); [done|]. by destruct (words p a).
Qed.

Lemma words_app_skip (p : ascii → bool) (a b : string) :
  str_all p b = true → words p (a ++ b) = words p a.
Proof.
  destruct b as [|d b]; cbn; [by rewrite str_app_nil|]. intros [Hd Hb]%andb_true_iff.
  by rewrite words_app_delim, (words_all p b Hb), app_nil_r.
Qed.

Lemma rfind_sub_char (c : ascii) (s : string) :
  rfind_sub (String c "") s = rfind_char (Ascii.eqb c) s.
Proof.
  induction s as [|d s IH]; [done|]. cbn [rfind_sub rfind_char].
  by rewrite IH, prefix_char.
Qed.

Lemma slash_char_eqb c : slash c = Ascii.eqb "/" c.
Proof. unfold slash. cbn [mem_char]. by rewrite orb_false_r, Ascii.eqb_sym. Qed.

Lemma components_remove_suffix (a : string) : components (remove_suffix a "/") = components a.
Proof.
  unfold remove_suffix. rewrite rfind_sub_char.
  destruct (rfind_char _ a) as [i|] eqn:E; [|done].
  apply rfind_char_Some in E as (x & c & b & -> & <- & Hc & _).
  apply Ascii.eqb_eq in Hc as <-. rewrite str_length_app. cbn [String.length].
  destruct (Nat.eqb_spec (String.length x) (String.length x + S (String.length b) - 1)) as [Hl|]; [|done].
  destruct b as [|d b]; [|cbn in Hl; lia]. unfold substr. cbn [str_drop].
  rewrite <-Hl, str_take_app. symmetry. by apply words_snoc.
Qed.

Lemma components_remove_prefix (b : string) : components (remove_prefix b "/") = components b.
Proof.
  unfold remove_prefix. destruct (find_str b "/" 0) as [[|n]|] eqn:E; [|done..].
  by apply find_str_start in E as (t & ->).
Qed.

(** [path::join] appends the components, whatever slashes the two paths end and start
    with; so does the join of a vector. *)
Theorem path_join_components (a b : string) :
  components (path_join a b) = (components a ++ components b)%list.
Proof.
  unfold path_join. cbn [String.append]. unfold components at 1.
  rewrite words_app_delim by done. f_equal; [apply components_remove_suffix|].
  apply components_remove_prefix.
Qed.

Theorem path_join_all_components (paths : list string) :
  components (path_join_all paths) = mjoin (components <$> paths).
Proof.
  destruct paths as [|p paths]; [done|]. cbn [path_join_all fmap list_fmap mjoin list_join].
  revert p. induction paths as [|q paths IH]; intros p; cbn [foldl]; [by rewrite app_nil_r|].
  rewrite IH, path_join_components. cbn [fmap list_fmap mjoin list_join]. by rewrite <-app_assoc.
Qed.

(** ** [dirname] and [basename] *)

(** A path with a component, cut before and after its last one. *)
Lemma last_component (v : string) (ws : list string) (w : string) :
  components v = (ws ++ [w])%list →
  ∃ a t, v = (a ++ w ++ t)%string ∧ w ≠ "" ∧ str_all (fun c => negb (slash c)) w = true ∧
         str_all slash t = true ∧ components a = ws ∧
         (a = "" ∨ ∃ a', a = (a' ++ "/")%string).
Proof.
  intros Hv. unfold components in *.
  destruct (rfind_char (fun c => negb (slash c)) v) as [i|] eqn:E.
  2:{ apply rfind_char_None in E. rewrite words_all in Hv; [by destruct ws|].
      rewrite <-E. apply str_all_ext. intros c. by rewrite negb_involutive. }
  apply rfind_char_Some in E as (x & c & t & Hx & _ & Hc & Ht).
  assert (Hall : str_all slash t = true).
  { rewrite <-Ht. apply str_all_ext. intros d. by rewrite negb_involutive. }
  set (y := (x ++ String c "")%string).
  assert (Hy : v = (y ++ t)%string) by (subst y; rewrite Hx, str_app_assoc; done).
  rewrite Hy, words_app_skip in Hv by done.
  destruct (rfind_char slash y) as [j|] eqn:Ey.
  - apply rfind_char_Some in Ey as (a' & d & w' & Hyw & _ & Hd & Hw').
    assert (d = "/"%char) as ->.
    { rewrite slash_char_eqb in Hd. by apply Ascii.eqb_eq in Hd as <-. }
    assert (Hne : w' ≠ "").
    { intros ->. unfold y in Hyw. pose proof (str_back_snoc x c) as Hb.
      rewrite Hyw, str_back_snoc in Hb. injection Hb as <-. done. }
    rewrite Hyw, words_app_delim in Hv by done.
    rewrite <-(str_app_nil w'), words_token in Hv by done. cbn [words] in Hv.
    apply app_inj_tail in Hv as [<- <-].
    exists (a' ++ "/")%string, t. split_and!; try done.
    + by rewrite Hy, Hyw, !str_app_assoc.
    + by apply words_snoc.
    + right. by exists a'.
  - apply rfind_char_None in Ey.
    assert (Hne : y ≠ "") by (subst y; by destruct x).
    rewrite <-(str_app_nil y), words_token in Hv by done. cbn [words] in Hv.
    destruct ws as [|w0 ws]; [|by destruct ws]. cbn in Hv. injection Hv as <-.
    exists "", t. split_and!; try done. by left.
Qed.

Lemma str_snoc (s : string) : s ≠ "" → ∃ a c, s = (a ++ String c "")%string.
Proof.
  induction s as [|d s IH]; [done|]. intros _. destruct s as [|e s].
  - by exists "", d.
  - destruct IH as (a & c & ->); [done|]. by exists (String d a), c.
Qed.

Lemma rfind_char_absent (p : ascii → bool) (s : string) :
  str_all (fun x => negb (p x)) s = true → rfind_char p s = None.
Proof.
  induction s as [|c s IH]; cbn; [done|].
  intros [->%negb_true_iff Hs]%andb_true_iff. by rewrite IH.
Qed.

(** The last position where [p] holds. *)
Lemma rfind_char_last (p : ascii → bool) (a b : string) (c : ascii) :
  p c = true → str_all (fun x => negb (p x)) b = true →
  rfind_char p (a ++ String c b) = Some (String.length a).
Proof.
  intros Hc Hb. rewrite (rfind_char_app p a (String c b) 0); [by rewrite Nat.add_0_r|].
  cbn. by rewrite (rfind_char_absent p b Hb), Hc.
Qed.

Lemma all_slashes (t : string) :
  str_all slash t = true ↔ str_all (fun c => negb (negb (slash c))) t = true.
Proof.
  rewrite (str_all_ext (fun c => negb (negb (slash c))) slash); [done|].
  intros c. apply negb_involutive.
Qed.

Lemma up_to_app (a b : string) : a ≠ "" → up_to (a ++ b) (Some (String.length a - 1)) = a.
Proof.
  intros (x & c & ->)%str_snoc. cbn [up_to]. unfold substr. cbn [str_drop].
  rewrite str_length_app. cbn [String.length].
  replace (String.length x + 1 - 1 + 1) with (String.length (x ++ String c ""))
    by (rewrite str_length_app; cbn; lia). apply str_take_app.
Qed.

Section cut.
Context (a w t : string).
Context (Hw : w ≠ "") (Hws : str_all (fun c => negb (slash c)) w = true).
Context (Ht : str_all slash t = true).

Lemma whole_nonempty : (a ++ w ++ t)%string ≠ "".
Proof. destruct a, w; done. Qed.

Lemma front_nonempty : (a ++ w)%string ≠ "".
Proof. destruct a, w; done. Qed.

(** The position both functions start from: that of the last character that is no
    trailing slash. *)
Lemma trailing_end :
  (if endsWith_char (a ++ w ++ t) "/" then find_last_not_of (a ++ w ++ t) "/"
   else Some (String.length (a ++ w ++ t) - 1)) = Some (String.length (a ++ w) - 1).
Proof.
  destruct (str_snoc w Hw) as (w' & c & Hwc).
  assert (Hc : slash c = false).
  { rewrite Hwc, str_all_app in Hws. cbn [str_all] in Hws. rewrite andb_true_r in Hws.
    by apply andb_true_iff in Hws as [_ ?%negb_true_iff]. }
  unfold endsWith_char. destruct t as [|d t'] eqn:Et.
  - rewrite !str_app_nil, Hwc, <-str_app_assoc, str_back_snoc.
    destruct (Ascii.eqb_spec c "/") as [->|_]; done.
  - rewrite <-Et in *. assert (Hne : t ≠ "") by (by rewrite Et).
    rewrite <-str_app_assoc, (str_back_app _ t Hne). destruct (str_snoc t Hne) as (u & e & Hu).
    assert (e = "/"%char) as ->.
    { rewrite Hu, str_all_app in Ht. cbn [str_all] in Ht. rewrite andb_true_r, slash_char_eqb in Ht.
      apply andb_true_iff in Ht as [_ He]. by apply Ascii.eqb_eq in He. }
    replace (str_back t) with (Some "/"%char) by (by rewrite Hu, str_back_snoc).
    cbn [Ascii.eqb Bool.eqb]. unfold find_last_not_of.
    change (fun c => negb (mem_char c "/")) with (fun c => negb (slash c)).
    rewrite Hwc, !str_app_assoc. cbn [String.append]. rewrite <-str_app_assoc.
    rewrite (rfind_char_last _ (a ++ w') t c); [|by rewrite Hc|by apply all_slashes].
    f_equal. rewrite <-str_app_assoc, (str_length_app (a ++ w')). cbn. lia.
Qed.

Lemma whole_up_to : up_to (a ++ w ++ t) (Some (String.length (a ++ w ++ t) - 1)) = (a ++ w ++ t)%string.
Proof.
  rewrite <-(str_app_nil (a ++ w ++ t)) at 1. apply up_to_app, whole_nonempty.
Qed.

Lemma front_up_to : up_to (a ++ w ++ t) (Some (String.length (a ++ w) - 1)) = (a ++ w)%string.
Proof. rewrite <-str_app_assoc. apply up_to_app, front_nonempty. Qed.

Lemma whole_not_empty : str_empty (a ++ w ++ t) = false.
Proof. pose proof whole_nonempty. by destruct (a ++ w ++ t)%string. Qed.

(** What stands before the last component is empty or ends with a slash. *)
Context (Ha : a = "" ∨ ∃ a', a = (a' ++ "/")%string).

Lemma cut_basename : path_basename (a ++ w ++ t) = w.
Proof.
  unfold path_basename. rewrite whole_not_empty, trailing_end.
  change (substr (a ++ w ++ t) 0 (String.length (a ++ w) - 1 + 1))
    with (up_to (a ++ w ++ t) (Some (String.length (a ++ w) - 1))).
  rewrite front_up_to. unfold find_last_of, substr.
  assert (Hl : String.length (a ++ w) - 1 + 1 = String.length a + String.length w).
  { rewrite str_length_app. destruct w; [done|]. cbn. lia. }
  rewrite Hl. destruct Ha as [->|(a' & ->)].
  - cbn [String.append]. rewrite rfind_char_absent by done. cbn [str_drop String.length].
    rewrite Nat.add_0_l, Nat.sub_0_r. apply str_take_app.
  - replace ((a' ++ "/") ++ w)%string with (a' ++ String "/" w)%string by (by rewrite str_app_assoc).
    rewrite (rfind_char_last _ a' w "/") by done.
    replace (S (String.length a')) with (String.length (a' ++ "/")) by (rewrite str_length_app; cbn; lia).
    rewrite str_drop_app. replace (_ + _ - _) with (String.length w) by lia. apply str_take_app.
Qed.

Lemma cut_dirname :
  (a = "" ∧ path_dirname (a ++ w ++ t) = ".") ∨
  (a ≠ "" ∧ components (path_dirname (a ++ w ++ t)) = components a ∧
   path_absolute (path_dirname (a ++ w ++ t)) = path_absolute (a ++ w ++ t)).
Proof.
  unfold path_dirname. rewrite whole_not_empty, whole_up_to, trailing_end, front_up_to.
  unfold find_last_of. destruct Ha as [->|(a' & ->)].
  { left. split; [done|]. cbn [String.append]. by rewrite rfind_char_absent. }
  right. split; [by destruct a'|].
  replace ((a' ++ "/") ++ w)%string with (a' ++ String "/" w)%string by (by rewrite str_app_assoc).
  rewrite (rfind_char_last _ a' w "/") by done.
  destruct (String.length a') as [|n] eqn:Hn.
  { destruct a'; [|done]. done. }
  assert (Hup : up_to ((a' ++ "/") ++ w ++ t) (Some (S n)) = (a' ++ "/")%string).
  { rewrite <-Hn. replace (String.length a') with (String.length (a' ++ "/") - 1)
      by (rewrite str_length_app; cbn; lia). apply up_to_app. by destruct a'. }
  rewrite Hup. unfold find_last_not_of. cbn beta iota.
  destruct (rfind_char _ (a' ++ "/")) as [e|] eqn:E.
  - apply rfind_char_Some in E as (x & c & b & Hx & <- & Hc & Hb).
    change (fun c => mem_char c "/") with slash in *. rewrite Hx.
    unfold substr. cbn [str_drop]. rewrite str_app_assoc. cbn [String.append].
    rewrite str_take_snoc. split.
    + symmetry. change (String c b) with (String c "" ++ b)%string. rewrite <-str_app_assoc.
      by apply words_app_skip, all_slashes.
    + by destruct x.
  - apply rfind_char_None in E. change (fun c => mem_char c "/") with slash in *.
    apply all_slashes in E. split; [symmetry; by apply words_all|].
    destruct a' as [|c a']; [done|]. cbn [str_all String.append] in E. apply andb_true_iff in E as [E _].
    rewrite slash_char_eqb in E. apply Ascii.eqb_eq in E as <-. done.
Qed.
End cut.

(** [dirname] and [basename] take a path apart: of a path whose last component is [w],
    [basename] is [w], and [dirname] is absolute when the path is and has the other
    components; a single component of a relative path is in ["."]. *)
Theorem dirname_basename (v : string) (ws : list string) (w : string) :
  components v = (ws ++ [w])%list →
  path_basename v = w ∧
  (ws = [] ∧ path_absolute v = false ∧ path_dirname v = "." ∨
   components (path_dirname v) = ws ∧ path_absolute (path_dirname v) = path_absolute v).
Proof.
  intros (a & t & -> & Hw & Hws & Ht & Hc & Ha)%last_component.
  split; [by apply cut_basename|].
  destruct (cut_dirname a w t Hw Hws Ht Ha) as [[-> Hd]|(_ & Hd & Habs)].
  - left. rewrite Hd. split_and!; [done| |done]. destruct w as [|c w]; [done|].
    cbn [str_all] in Hws. apply andb_true_iff in Hws as [Hs%negb_true_iff _].
    rewrite slash_char_eqb, Ascii.eqb_sym in Hs. exact Hs.
  - right. by rewrite Hd, Habs.
Qed.

(** A path without a component is empty or consists of slashes. *)
Lemma dirname_basename_root (v : string) :
  components v = [] →
  (v = "" ∧ path_basename v = "." ∧ path_dirname v = ".") ∨
  (v ≠ "" ∧ path_basename v = "/" ∧ path_dirname v = "/").
Proof.
  intros Hv. destruct v as [|c v]; [by left|]. right. split; [done|].
  assert (Hall : str_all slash (String c v) = true).
  { destruct (rfind_char (fun c => negb (slash c)) (String c v)) as [i|] eqn:E.
    - apply rfind_char_Some in E as (a & d & b & Hx & _ & Hd%negb_true_iff & Hb%all_slashes).
      exfalso. revert Hv. unfold components. rewrite Hx. clear -Hd Hb. revert d Hd.
      induction a as [|e a IH]; intros d Hd; cbn [words String.append].
      + rewrite Hd. destruct (ends_here slash b); [done|]. by destruct (words slash b).
      + destruct (slash e); [by apply IH|]. destruct (ends_here _ _); [done|].
        by destruct (words _ _).
    - by apply all_slashes, rfind_char_None. }
  assert (Hlast : find_last_not_of (String c v) "/" = None)
    by (apply rfind_char_absent; by apply all_slashes in Hall).
  destruct (str_snoc (String c v)) as (a & d & Hs); [done|].
  assert (d = "/"%char) as ->.
  { rewrite Hs, str_all_app in Hall. cbn [str_all] in Hall.
    rewrite andb_true_r, slash_char_eqb in Hall. apply andb_true_iff in Hall as [_ He].
    by apply Ascii.eqb_eq in He. }
  unfold path_basename, path_dirname. cbn [str_empty].
  replace (endsWith_char (String c v) "/") with true
    by (unfold endsWith_char; by rewrite Hs, str_back_snoc).
  assert (Hw : up_to (String c v) (Some (String.length (String c v) - 1)) = String c v).
  { rewrite <-(str_app_nil (String c v)) at 1. by apply up_to_app. }
  rewrite Hw, Hlast. split; [done|]. change (up_to (String c v) None) with (String c v).
  unfold find_last_of. rewrite Hs, (rfind_char_last _ a "" "/") by done.
  destruct (String.length a) as [|n] eqn:Hn; [done|].
  replace (S n) with (String.length (a ++ "/") - 1) by (rewrite str_length_app; cbn; lia).
  replace (up_to (a ++ "/") _) with (a ++ "/")%string; [by rewrite <-Hs, Hlast|].
  rewrite <-(str_app_nil (a ++ "/")) at 2. symmetry. apply up_to_app. by destruct a.
Qed.

(** ** [extension] *)

(** The extension is the end of the basename from its last dot on; there is none exactly
    when the basename has no dot or is ["."] or [".."]. *)
Theorem extension_correct (v : string) :
  match path_extension v with
  | Some e => ∃ stem rest, path_basename v = (stem ++ e)%string ∧ e = String "." rest ∧
                           str_all (fun c => negb (Ascii.eqb c ".")) rest = true
  | None => path_basename v = "." ∨ path_basename v = ".." ∨
            str_all (fun c => negb (Ascii.eqb c ".")) (path_basename v) = true
  end.
Proof.
  assert (Hp : ∀ s, str_all (fun c => negb (mem_char c ".")) s =
                    str_all (fun c => negb (Ascii.eqb c ".")) s).
  { intros s. apply str_all_ext. intros c. cbn [mem_char]. by rewrite orb_false_r. }
  unfold path_extension. set (b := path_basename v).
  destruct (String.eqb_spec b ".") as [->|H1]; [by left|].
  destruct (String.eqb_spec b "..") as [->|H2]; [by right; left|]. cbn [orb].
  unfold find_last_of. destruct (rfind_char _ b) as [i|] eqn:E; cbn [fmap option_fmap option_map].
  - apply rfind_char_Some in E as (stem & c & rest & -> & <- & Hc & Hr). rewrite Hp in Hr.
    cbn [mem_char] in Hc. rewrite orb_false_r in Hc. apply Ascii.eqb_eq in Hc as ->.
    unfold substr_from. rewrite str_drop_app. by exists stem, rest.
  - right; right. rewrite <-Hp. by apply rfind_char_None.
Qed.

(** The comment of [extension] promises [None] for a basename that consists of dots; one of
    three has the extension ["."]. *)
Example extension_of_dots : path_extension "..." = Some ".".
Proof. reflexivity. Qed.

(** ** [pairs] *)

(** The values of the tokens that are a pair with the key [k], in the order of the text. *)
Definition pair_value (delims2 k token : string) : option string :=
  match tokenize token delims2 None with
  | [k'; v] => if decide (k' = k) then Some v else None
  | _ => None
  end.

Lemma pairs_fold (delims2 : string) (tokens : list string) (result : gmap string (list string)) k :
  default [] (foldl (pairs_step delims2) result tokens !! k) =
    (default [] (result !! k) ++ omap (pair_value delims2 k) tokens)%list ∧
  (is_Some (foldl (pairs_step delims2) result tokens !! k) ↔
   is_Some (result !! k) ∨ omap (pair_value delims2 k) tokens ≠ []).
Proof.
  revert result. induction tokens as [|token tokens IH]; intros result.
  { cbn. rewrite app_nil_r. split; [done|]. split; [by left|by intros [?|?]]. }
  cbn [foldl omap list_omap]. destruct (IH (pairs_step delims2 result token)) as [-> ->].
  unfold pairs_step, pair_value, push_back. clear IH.
  destruct (tokenize token delims2 None) as [|k' [|v [|? ?]]]; try done.
  destruct (decide (k' = k)) as [->|Hne].
  - rewrite lookup_insert_eq. cbn. rewrite <-app_assoc. split; [done|]. split; [by right|by left].
  - by rewrite lookup_insert_ne.
Qed.

(** [pairs] maps a key to the values it is paired with, in the order of the text, and only
    the keys that have one. *)
Theorem pairs_correct (s delims1 delims2 k : string) :
  let values := omap (pair_value delims2 k) (tokenize s delims1 None) in
  pairs s delims1 delims2 !! k = match values with [] => None | _ => Some values end.
Proof.
  cbv zeta. destruct (pairs_fold delims2 (tokenize s delims1 None) ∅ k) as [Hd Hs].
  fold (pairs s delims1 delims2) in *. rewrite lookup_empty in Hd, Hs.
  generalize dependent (omap (pair_value delims2 k) (tokenize s delims1 None)). intros values Hd Hs.
  change (default [] (pairs s delims1 delims2 !! k) = values) in Hd.
  destruct (pairs s delims1 delims2 !! k) as [l|]; cbn in Hd; subst values; [|done].
  destruct l; [|done]. destruct (proj1 Hs) as [[? ?]|?]; [by eexists|done..].
Qed.

(** The example of the comment. *)
Example pairs_example :
  pairs "foo=1;bar=2;baz;foo=3;bam=1=2" ";&" "=" =
    {[ "bar" := ["2"]; "foo" := ["1"; "3"] ]}.
Proof. vm_compute. reflexivity. Qed.

(** ** [join], [upper] *)

Lemma join_loop_app (result separator : string) (i : list string) :
  join_loop result separator i = (result ++ str_join separator i)%string.
Proof.
  revert result. induction i as [|x i IH]; intros result; cbn; [by rewrite str_app_nil|].
  rewrite IH. destruct i as [|y i]; [by rewrite str_app_nil|]. by rewrite !str_app_assoc.
Qed.

Lemma join_args_app (stream separator head : string) (tail : list string) :
  join_args stream separator head tail = (stream ++ str_join separator (head :: tail))%string.
Proof.
  revert stream head. induction tail as [|x tail IH]; intros stream head; [done|].
  cbn [join_args]. by rewrite IH, str_join_cons, !str_app_assoc.
Qed.

(** Joining with a character and splitting at it gives the list back; an iterable and the
    same elements as arguments are joined to the same text. *)
Theorem join_split (d : ascii) (x : string) (l : list string) :
  Forall (fun w => str_all (fun c => negb (Ascii.eqb c d)) w = true) (x :: l) →
  split (strings_join (String d "") (x :: l)) (String d "") None = x :: l ∧
  join_args "" (String d "") x l = strings_join (String d "") (x :: l).
Proof.
  intros Hl. unfold strings_join. rewrite join_loop_app, join_args_app. split; [|done].
  rewrite split_fields. cbn [String.append]. apply fields_join; [|done|].
  - cbn. by rewrite Ascii.eqb_refl.
  - eapply Forall_impl; [exact Hl|]. intros w Hw. cbn beta in *. rewrite <-Hw.
    apply str_all_ext. intros c. cbn [mem_char]. by rewrite orb_false_r.
Qed.

Lemma lower_upper (s : string) : lower (upper s) = lower s ∧ upper (lower s) = upper s.
Proof.
  induction s as [|c s [IHl IHu]]; [done|]. cbn [lower upper]. rewrite IHl, IHu.
  split; f_equal; destruct c as [[] [] [] [] [] [] [] []]; reflexivity.
Qed.

(** ** [remove] *)

Lemma find_sub_fits (sub s : string) i :
  find_sub sub s = Some i → i + String.length sub ≤ String.length s.
Proof.
  revert i. induction s as [|c s IH]; intros i; cbn [find_sub].
  - destruct (String.prefix sub "") eqn:E; [|done]. intros [= <-].
    apply prefix_iff in E as (t & Ht). rewrite Ht, str_length_app. lia.
  - destruct (String.prefix sub (String c s)) eqn:E.
    + intros [= <-]. apply prefix_iff in E as (t & Ht). rewrite Ht, str_length_app. lia.
    + destruct (find_sub sub s) as [j|]; [|done]. intros [= <-].
      specialize (IH j eq_refl). cbn. lia.
Qed.

Lemma erase_length (s sub : string) i :
  find_str s sub 0 = Some i →
  String.length (str_replace s i (String.length sub) "") + String.length sub = String.length s.
Proof.
  unfold find_str. cbn [Nat.leb str_drop]. destruct (find_sub sub s) as [j|] eqn:E; [|done].
  intros [= <-]. apply find_sub_fits in E. unfold str_replace. cbn [String.append].
  rewrite str_length_app, length_str_drop.
  pose proof (f_equal String.length (str_take_drop (0 + j) s)) as Hl.
  rewrite str_length_app, length_str_drop in Hl. cbn in *. lia.
Qed.

(** [remove] anywhere in a text returns after at most as many iterations as the text has
    characters, and leaves no occurrence, also none that an erasure has put together;
    with an empty substring it never returns. *)
Theorem remove_any_correct (s substring : string) :
  (substring ≠ "" →
   ∃ r, remove_loop (String.length s) s substring = Some r ∧ contains r substring = false) ∧
  (∀ fuel, remove_loop fuel s "" = None).
Proof.
  split.
  - intros Hne. assert (Hpos : 0 < String.length substring) by (destruct substring; cbn; [done|lia]).
    remember (String.length s) as n eqn:Hn. assert (Hle : String.length s ≤ n) by lia. clear Hn.
    revert s Hle. induction n as [|n IH]; intros s Hle; cbn [remove_loop];
      (destruct (find_str s substring 0) as [i|] eqn:E;
       [pose proof (erase_length _ _ _ E)|exists s; split; [done|]; unfold contains; by rewrite E]).
    + lia.
    + apply IH. lia.
  - assert (He : ∀ t, find_str t "" 0 = Some 0) by (intros []; reflexivity).
    intros fuel. revert s. induction fuel as [|fuel IH]; intros s; cbn [remove_loop];
      rewrite He; [done|apply IH].
Qed.

(** ** The operators of [Path] *)

(** Exactly one of [<], [==] and [>] holds of two paths, and the other operators follow
    from these. *)
Theorem path_operators (l r : string) :
  (Path_ltb l r, Path_eqb l r, Path_gtb l r) ∈
    [(true, false, false); (false, true, false); (false, false, true)] ∧
  Path_leb l r = Path_ltb l r || Path_eqb l r ∧ Path_geb l r = Path_gtb l r || Path_eqb l r ∧
  Path_neqb l r = Path_ltb l r || Path_gtb l r.
Proof.
  pose proof (V1.string_one_way l r) as Ho.
  unfold Path_leb, Path_geb, Path_neqb, Path_gtb, Path_ltb, Path_eqb in *.
  split; [done|]. rewrite !elem_of_cons, elem_of_nil in Ho.
  by destruct Ho as [[= -> -> ->]|[[= -> -> ->]|[[= -> -> ->]|[]]]].
Qed.
