(* ===== verification/SchedulerDriver.v ===== *)
(** * SchedulerDriver: sched.cpp, and the messages of scheduler_process.cpp

    [MesosSchedulerDriver]: the calls of an application, each guarded by the
    driver's status; [SchedulerNotifyCallback::onInput], which decodes a message
    of the broker and runs its handler; and the steps of a running framework:
    a call, a message, a timer.

    The application is the parameter [Application]: the calls it makes while it
    handles a callback, as a function of all callbacks it has received.  A
    driver call may call the application back (a task that cannot be launched is
    reported at once) and that callback may call the driver again, so the
    executable definition bounds the depth of this nesting; an exhausted depth
    is [Err], never [Ok]. *)

From S2P Require Import Prelude Broker Scheduler.
#[local] Open Scope string_scope.
#[local] Open Scope list_scope.
#[local] Open Scope Z_scope.

(** ** Driver calls *)

(** The methods of [SchedulerDriver], but [join] and [run], which block (DriverJoin.v,
    DriverLife.v); the overload of [launchTasks] for one offer is the one for a list. *)
Inductive DriverCall :=
  | call_start
  | call_stop (failover : bool)
  | call_abort
  | call_killTask (taskId : string)
  | call_launchTasks (offerIds : list string) (tasks : list TaskInfo) (filters : string)
  | call_acceptOffers (offerIds : list string) (operations : list Operation) (filters : string)
  | call_declineOffer (offerId filters : string)
  | call_reviveOffers
  | call_suppressOffers
  | call_acknowledgeStatusUpdate (st : TaskStatus)
  | call_sendFrameworkMessage (executorId slaveId data : string)
  | call_reconcileTasks (statuses : list TaskStatus)
  | call_requestResources (requests : list string).

(** The application's scheduler: the calls made in reply to the last of the
    callbacks received so far. *)
Class Application := react : list Callback → list DriverCall.

Section constructor.
Context `{Os}.

(** The constructor; the broker is a singleton that may exist already. *)
Definition new_driver (f : FrameworkInfo) (m : string) (b : Broker Message) : outcome World :=
  f' ← (if str_eqb (fi_user f) "" then
          match os_user with
          | Some u => Ok (mkFrameworkInfo u (fi_name f) (fi_id f) (fi_rest f))
          | None => Fatal
          end
        else Ok f);
  Ok (mkWorld f' m false DRIVER_NOT_STARTED false None f' false "" false false
        ∅ ∅ b [] 0 []).

End constructor.

(** [new UrbSchedulerProcess(this, scheduler, framework, master)]. *)
Definition new_process (w : World) : World :=
  delay (checkReconcile_after 60)
    (mkWorld (framework w) (master w) true (status w) false None (framework w)
       (has (fi_id (framework w)) && negb (str_eqb (get_or "" (fi_id (framework w))) ""))
       (master w) false false ∅ ∅ (broker w) (timers w) (generated w) (notified w)).

Definition start (w : World) : outcome (Status * World) :=
  if decide (status w = DRIVER_NOT_STARTED) then
    _ ← CHECK (negb (process w));
    Ok (DRIVER_RUNNING, set_status DRIVER_RUNNING (startRegistration (new_process w)))
  else
    w' ← (if decide (status w = DRIVER_STOPPED)
          then (if process w then Ok (startRegistration w) else Fatal)
          else Ok w);
    Ok (DRIVER_RUNNING, set_status DRIVER_RUNNING w').

Definition driver_stop (failover : bool) (w : World) : outcome (Status * World) :=
  match status w with
  | DRIVER_RUNNING | DRIVER_ABORTED =>
      w' ← (if process w then stop failover w else Fatal);
      Ok (match status w with DRIVER_ABORTED => DRIVER_ABORTED | _ => DRIVER_STOPPED end,
          set_status DRIVER_STOPPED w')
  | s => Ok (s, w)
  end.

(** [join] returns when the driver is no longer running; until then it
    blocks. *)
Definition join (w : World) : option Status :=
  if decide (status w = DRIVER_RUNNING) then None else Some (status w).

(** The shape of the other calls: [if (status == DRIVER_RUNNING) process->...]. *)
Definition when_running (f : World → outcome World) (w : World) : outcome (Status * World) :=
  if decide (status w = DRIVER_RUNNING) then
    w' ← (if process w then f w else Fatal); Ok (status w', w')
  else Ok (status w, w).

Definition driver_sendFrameworkMessage (executorId slaveId data : string) (w : World)
    : outcome (Status * World) :=
  when_running (sendFrameworkMessage executorId slaveId data) w.
Definition driver_reconcileTasks (statuses : list TaskStatus) (w : World)
    : outcome (Status * World) :=
  when_running (reconcileTasks statuses) w.
Definition driver_requestResources (requests : list string) (w : World)
    : outcome (Status * World) :=
  when_running (requestResources requests) w.

Section knot.
Context `{Redis} `{Os} `{Application}.

Definition driver_call (cb : Callback → World → outcome World) (c : DriverCall) (w : World)
    : outcome (Status * World) :=
  match c with
  | call_start => start w
  | call_stop failover => driver_stop failover w
  | call_abort => w' ← driver_abort w; Ok (status w', w')
  | call_killTask id => when_running (killTask id) w
  | call_launchTasks offers tasks filters =>
      when_running (launchTasks cb offers tasks filters) w
  | call_acceptOffers offers operations filters =>
      when_running (acceptOffers cb offers operations filters) w
  | call_declineOffer offer filters =>
      when_running (launchTasks cb [offer] [] filters) w
  | call_reviveOffers => when_running reviveOffers w
  | call_suppressOffers => when_running Ok w
  | call_acknowledgeStatusUpdate st => when_running (acknowledgeStatusUpdate st) w
  | call_sendFrameworkMessage e s data => driver_sendFrameworkMessage e s data w
  | call_reconcileTasks sts => driver_reconcileTasks sts w
  | call_requestResources reqs => driver_requestResources reqs w
  end.

(** A callback: the application receives it and makes its calls. *)
Fixpoint callback (depth : nat) (c : Callback) (w : World) : outcome World :=
  match depth with
  | O => Err "call depth"
  | S depth' =>
      let w := set_notified (notified w ++ [c]) w in
      mfold (fun w call => snd <$> driver_call (callback depth') call w) w
            (react (notified w))
  end.

End knot.

(** ** Messages of the broker *)

Inductive MessageType := ERROR | VALID | NIL.

Record InMessage (Json : Type) := mkInMessage {
  m_type : MessageType;
  m_target : string;
  m_payload : Json }.
Arguments mkInMessage {Json} _ _ _.
Arguments m_type {Json} _.
Arguments m_target {Json} _.
Arguments m_payload {Json} _.

(** [json_protobuf::update_from_json] and the accessors of the message, one
    decoder per message; an exception of the conversion is an [Err]. *)
Class JsonProtobuf (Json : Type) := {
  FrameworkRegistered_of_json : Json → outcome (string * string);
  FrameworkReregistered_of_json : Json → outcome (string * string);
  FrameworkError_of_json : Json → outcome string;
  LostSlave_of_json : Json → outcome string;
  RescindResourceOffer_of_json : Json → outcome string;
  ResourceOffers_of_json : Json → outcome (list Offer * list string);
  ExecutorToFramework_of_json : Json → outcome (string * string * string * string);
  StatusUpdate_of_json : Json → outcome (StatusUpdate * string) }.

Inductive Messages :=
  | FRAMEWORK_REGISTERED | FRAMEWORK_REREGISTERED | RESOURCE_OFFERS
  | RESCIND_RESOURCE_OFFER | STATUS_UPDATE | LOST_SLAVE | EXECUTOR_TO_FRAMEWORK
  | FRAMEWORK_ERROR | SERVICE_DISCONNECTED.

(** The table [messages_]. *)
Definition messages_ (target : string) : option Messages :=
  if str_eqb target "FrameworkRegisteredMessage" then Some FRAMEWORK_REGISTERED
  else if str_eqb target "FrameworkReregisteredMessage" then Some FRAMEWORK_REREGISTERED
  else if str_eqb target "ResourceOffersMessage" then Some RESOURCE_OFFERS
  else if str_eqb target "ExecutorToFrameworkMessage" then Some EXECUTOR_TO_FRAMEWORK
  else if str_eqb target "StatusUpdateMessage" then Some STATUS_UPDATE
  else if str_eqb target "RescindResourceOfferMessage" then Some RESCIND_RESOURCE_OFFER
  else if str_eqb target "LostSlaveMessage" then Some LOST_SLAVE
  else if str_eqb target "FrameworkErrorMessage" then Some FRAMEWORK_ERROR
  else if str_eqb target "ServiceDisconnectedMessage" then Some SERVICE_DISCONNECTED
  else None.

Section input.
Context `{Os} `{JsonProtobuf Json}.

Definition onInput (cb : Callback → World → outcome World) (m : InMessage Json) (w : World)
    : outcome World :=
  match m_type m with
  | ERROR => Ok (startRegistration (set_flags false (aborted_ w) (failover_ w) w))
  | _ =>
      let j := m_payload m in
      match messages_ (m_target m) with
      | None => Ok w
      | Some FRAMEWORK_REGISTERED =>
          '(fid, info) ← uncaught (FrameworkRegistered_of_json j);
          registered cb (master_ w) fid info w
      | Some FRAMEWORK_REREGISTERED =>
          '(fid, info) ← uncaught (FrameworkReregistered_of_json j);
          reregistered cb (master_ w) fid info w
      | Some FRAMEWORK_ERROR =>
          message ← uncaught (FrameworkError_of_json j); error cb message w
      | Some LOST_SLAVE =>
          slave ← uncaught (LostSlave_of_json j); lostSlave cb (master_ w) slave w
      | Some RESCIND_RESOURCE_OFFER =>
          offer ← uncaught (RescindResourceOffer_of_json j);
          rescindOffer cb (master_ w) offer w
      | Some RESOURCE_OFFERS =>
          '(offers, pids) ← uncaught (ResourceOffers_of_json j);
          resourceOffers cb (master_ w) offers pids w
      | Some EXECUTOR_TO_FRAMEWORK =>
          '(slave, fid, executor, data) ← uncaught (ExecutorToFramework_of_json j);
          frameworkMessage cb slave fid executor data w
      | Some STATUS_UPDATE =>
          '(update, pid) ← uncaught (StatusUpdate_of_json j);
          statusUpdate cb (master_ w) update pid w
      | Some SERVICE_DISCONNECTED =>
          sendMessage (ReregisterFrameworkMessage (framework_ w) (failover_ w)) w
      end
  end.

End input.

(** ** A running framework *)

Section run.
Context `{Redis} `{Os} `{Application} `{JsonProtobuf Json}.

Inductive Event :=
  | ev_call (c : DriverCall)
  | ev_input (m : InMessage Json)
  | ev_timer (t : TimerMethod).

Definition run_timer (t : TimerMethod) (w : World) : outcome World :=
  match t with
  | doReliableRegistration_after _ => doReliableRegistration w
  | checkReconcile_after _ => checkReconcile w
  end.

Fixpoint remove_one (t : TimerMethod) (l : list TimerMethod) : list TimerMethod :=
  match l with
  | [] => []
  | t' :: l' => if decide (t = t') then l' else t' :: remove_one t l'
  end.

(** What can happen: the application's thread makes a call at any time, the
    channel delivers a message once it has been created and has its callback,
    a timer of the process runs when it is pending. *)
Definition enabled (e : Event) (w : World) : Prop :=
  match e with
  | ev_call _ => True
  | ev_input m =>
      isRunning_ (broker w) = true ∧ (ch_callback <$> pNotifyChannel_ w) = Some true ∧
      m_type m ≠ NIL
  | ev_timer t => process w = true ∧ t ∈ timers w
  end.

Definition run_event (depth : nat) (e : Event) (w : World) : outcome World :=
  match e with
  | ev_call c => snd <$> driver_call (callback depth) c w
  | ev_input m => onInput (callback depth) m w
  | ev_timer t => run_timer t (set_timers (remove_one t (timers w)) w)
  end.

(** The worlds that a framework can be in. *)
Inductive reachable : World → Prop :=
  | reachable_new f m w :
      new_driver f m new_broker = Ok w → reachable w
  | reachable_step depth e w w' :
      reachable w → enabled e w → run_event depth e w = Ok w' → reachable w'.

End run.
