(* ===== verification/SchedulerLaws.v ===== *)
(** * SchedulerLaws: the framework side never crashes and speaks in turn

    The invariant of the worlds a framework can be in, what a driver call can
    change ([calm]), and the theorems on registration, launches and status
    updates.  They hold for every application, every depth of nested calls and
    every behaviour of the broker. *)

From S2P Require Import Prelude Url Broker Scheduler SchedulerDriver.
#[local] Open Scope string_scope.
#[local] Open Scope list_scope.
#[local] Open Scope Z_scope.

(** ** The invariant *)

Record Inv (w : World) : Prop := mkInv {
  inv_process : process w = bool_decide (status w ≠ DRIVER_NOT_STARTED);
  inv_channel : has (pNotifyChannel_ w) = channelsCreated_ w;
  inv_started : channelsCreated_ w = true → process w = true;
  inv_master : channelsCreated_ w = true → master_ w ≠ "";
  inv_connected : connected_ w = true → channelsCreated_ w = true;
  inv_aborted : aborted_ w = true → channelsCreated_ w = true ∧ connected_ w = false }.

Definition is_ack (x : Written Message) : Prop :=
  match w_message x with
  | StatusUpdateAcknowledgementMessage _ _ _ _ => True
  | _ => False
  end.

(** What a driver call, and so a callback, can do to a world with a channel: it
    keeps the registration and the channel, never connects, never leaves the
    aborted state; it writes nothing when aborted, and nothing but
    acknowledgements when disconnected. *)
Record calm (w w' : World) : Prop := mkCalm {
  calm_inv : Inv w';
  calm_process : process w = true → process w' = true;
  calm_framework : framework_ w' = framework_ w;
  calm_master : master_ w' = master_ w;
  calm_channel : pNotifyChannel_ w' = pNotifyChannel_ w;
  calm_created : channelsCreated_ w' = channelsCreated_ w;
  calm_running : isRunning_ (broker w') = isRunning_ (broker w);
  calm_connected : connected_ w' = true → connected_ w = true;
  calm_aborted : aborted_ w = true → aborted_ w' = true;
  calm_written : ∃ l, written (broker w') = written (broker w) ++ l ∧
    (connected_ w = false → Forall is_ack l) ∧ (aborted_ w = true → l = []) }.

(** The result of an operation in [w]: calm when it returns, a crash only when
    there is no channel yet. *)
Definition safe (w : World) (r : outcome World) : Prop :=
  match r with
  | Ok w' => calm w w'
  | Err _ => True
  | Fatal => channelsCreated_ w = false
  end.

(** The application's callbacks, as the operations see them. *)
Definition cb_safe (cb : Callback → World → outcome World) : Prop :=
  ∀ c w, Inv w → process w = true → safe w (cb c w).

Lemma calm_refl (w : World) : Inv w → calm w w.
Proof.
  intros Hi. constructor; try done. exists []. by rewrite app_nil_r.
Qed.

Lemma calm_trans (w1 w2 w3 : World) : calm w1 w2 → calm w2 w3 → calm w1 w3.
Proof.
  intros [I1 P1 F1 M1 C1 D1 R1 N1 A1 (l1 & W1 & K1 & B1)]
         [I2 P2 F2 M2 C2 D2 R2 N2 A2 (l2 & W2 & K2 & B2)].
  constructor; try congruence; eauto.
  exists (l1 ++ l2). split; [by rewrite W2, W1, (assoc_L (++))|]. split.
  - intros Hc. apply Forall_app. split; [by apply K1|]. apply K2.
    destruct (connected_ w2) eqn:E; [|done]. rewrite N1 in Hc; done.
  - intros Ha. by rewrite (B1 Ha), (B2 (A1 Ha)).
Qed.

#[export] Instance calm_transitive : Transitive calm.
Proof. exact calm_trans. Qed.

Lemma safe_bind (w : World) (m : outcome World) (f : World → outcome World) :
  safe w m → (∀ w', calm w w' → safe w' (f w')) → safe w (m ≫= f).
Proof.
  destruct m as [w'|e|]; cbn; [|done|done]. intros Hc Hf. specialize (Hf w' Hc).
  destruct (f w') as [w''|e|]; cbn in *; [|done|].
  - by etrans.
  - by rewrite <-(calm_created _ _ Hc).
Qed.

Lemma safe_mfold {A : Type} (f : World → A → outcome World) (l : list A) (w : World) :
  Inv w → process w = true →
  (∀ w x, Inv w → process w = true → safe w (f w x)) → safe w (mfold f w l).
Proof.
  intros Hi Hp Hf. revert w Hi Hp. induction l as [|x l IH]; intros w Hi Hp; cbn.
  - by apply calm_refl.
  - apply safe_bind; [by apply Hf|]. intros w' Hw'.
    apply IH; [apply Hw'|]. by apply (calm_process _ _ Hw').
Qed.

(** Changes that the invariant and [calm] do not look at. *)
Lemma calm_status (s : Status) (w : World) :
  Inv w → process w = true → s ≠ DRIVER_NOT_STARTED → calm w (set_status s w).
Proof.
  intros [? ? ? ? ? ?] Hp Hs. constructor; cbn; try done.
  - constructor; cbn; try done. by rewrite bool_decide_eq_true_2.
  - exists []. by rewrite app_nil_r.
Qed.

Lemma calm_neutral (w w' : World) :
  Inv w →
  (process w', status w', pNotifyChannel_ w', channelsCreated_ w', framework_ w', master_ w',
   connected_ w', aborted_ w', broker w') =
  (process w, status w, pNotifyChannel_ w, channelsCreated_ w, framework_ w, master_ w,
   connected_ w, aborted_ w, broker w) → calm w w'.
Proof.
  intros [H1 H2 H3 H4 H5 H6] E. injection E as E1 E2 E3 E4 E5 E6 E7 E8 E9.
  constructor; try congruence.
  - constructor; rewrite ?E1, ?E2, ?E3, ?E4, ?E6, ?E7, ?E8; done.
  - exists []. by rewrite E9, app_nil_r.
Qed.

(** ** The operations of the process *)

Lemma channel_exists (w : World) :
  Inv w → channelsCreated_ w = true → ∃ c, pNotifyChannel_ w = Some c.
Proof.
  intros Hi Hc. pose proof (inv_channel _ Hi) as H. rewrite Hc in H.
  destruct (pNotifyChannel_ w); [eauto|done].
Qed.

(** A message changes the broker's log only. *)
Lemma sendMessage_Ok (m : Message) (w : World) :
  Inv w → channelsCreated_ w = true →
  sendMessage m w = Ok (set_broker (write m (broker w)) w).
Proof.
  intros Hi Hc. unfold sendMessage. by destruct (channel_exists w Hi Hc) as (c & ->).
Qed.

Lemma inv_set_broker (b : Broker Message) (w : World) : Inv w → Inv (set_broker b w).
Proof. intros [I1 I2 I3 I4 I5 I6]. by constructor. Qed.

Lemma sendMessage_Fatal (m : Message) (w : World) :
  Inv w → channelsCreated_ w = false → sendMessage m w = Fatal.
Proof.
  intros Hi Hc. pose proof (inv_channel _ Hi) as Hh. unfold sendMessage.
  rewrite Hc in Hh. by destruct (pNotifyChannel_ w).
Qed.

Lemma write_extends (m : Message) (b : Broker Message) :
  ∃ l, written (write m b) = written b ++ l ∧
    (∀ x, x ∈ l → w_message x = m) ∧ isRunning_ (write m b) = isRunning_ b.
Proof.
  destruct (isRunning_ b) eqn:E.
  - eexists [_]. split; [by apply write_running|]. rewrite write_isRunning.
    split; [|done]. by intros x ->%list_elem_of_singleton.
  - exists []. rewrite write_stopped, app_nil_r by done. split_and!; [done| |done].
    by intros x ?%not_elem_of_nil.
Qed.

Lemma calm_send (m : Message) (connected aborted : bool) (w : World) :
  Inv w → channelsCreated_ w = true →
  (connected = true → connected_ w = true ∧ aborted_ w = false) →
  (aborted_ w = true → aborted = true) → (aborted = true → connected = false) →
  (connected_ w = false → match m with StatusUpdateAcknowledgementMessage _ _ _ _ => True | _ => False end) →
  aborted_ w = false →
  calm w (set_flags connected aborted (failover_ w) (set_broker (write m (broker w)) w)).
Proof.
  intros [H1 H2 H3 H4 H5 H6] Hc Hconn Hab Hexcl Hm Hna.
  destruct (write_extends m (broker w)) as (l & Hl & Hml & Hrun).
  constructor; cbn; try done.
  - constructor; cbn; try done. intros ->. auto.
  - intros Ht. by apply Hconn.
  - exists l. split; [done|]. split; [|congruence]. intros Hd%Hm.
    apply Forall_forall. intros x Hx. unfold is_ack. by rewrite (Hml x Hx).
Qed.

Lemma checkMaster_Ok (w : World) :
  Inv w → channelsCreated_ w = true → checkMaster w = Ok tt.
Proof.
  intros Hi Hc. unfold checkMaster, str_eqb.
  by rewrite bool_decide_eq_false_2 by (by apply (inv_master _ Hi)).
Qed.

Lemma send_when_connected_safe (m : World → Message) (w : World) :
  Inv w → safe w (send_when_connected m w).
Proof.
  intros Hi. unfold send_when_connected. destruct (connected_ w) eqn:Hc; [|by apply calm_refl].
  assert (Hch : channelsCreated_ w = true) by (by apply (inv_connected _ Hi)).
  assert (Ha : aborted_ w = false).
  { destruct (aborted_ w) eqn:E; [|done]. apply (inv_aborted _ Hi) in E as []. congruence. }
  rewrite checkMaster_Ok by done. cbn [mbind outcome_bind]. rewrite sendMessage_Ok by done.
  apply (calm_send (m w) (connected_ w) (aborted_ w)); try done; congruence.
Qed.

Lemma not_aborted (w : World) : Inv w → connected_ w = true → aborted_ w = false.
Proof.
  intros Hi Hc. destruct (aborted_ w) eqn:E; [|done].
  apply (inv_aborted _ Hi) in E as []. congruence.
Qed.

Lemma acknowledge_safe (st : TaskStatus) (w : World) :
  Inv w → safe w (acknowledgeStatusUpdate st w).
Proof.
  intros Hi. unfold acknowledgeStatusUpdate.
  destruct (connected_ w) eqn:Hc; [|by apply calm_refl].
  pose proof (inv_connected _ Hi Hc) as Hch.
  rewrite checkMaster_Ok by done. cbn [mbind outcome_bind].
  destruct (ts_uuid st) as [u|], (ts_slave_id st) as [s|]; try by apply calm_refl.
  rewrite sendMessage_Ok by done. pose proof (not_aborted w Hi Hc) as Ha.
  eapply (calm_send _ (connected_ w) (aborted_ w)); try done; congruence.
Qed.

Lemma stop_safe (failover : bool) (w : World) : Inv w → safe w (stop failover w).
Proof.
  intros Hi. unfold stop. destruct (connected_ w) eqn:Hc; [|by apply calm_refl].
  destruct failover; [by apply calm_refl|]. cbn [andb negb].
  pose proof (inv_connected _ Hi Hc) as Hch. pose proof (not_aborted w Hi Hc) as Ha.
  rewrite checkMaster_Ok by done. cbn [mbind outcome_bind].
  rewrite sendMessage_Ok by done.
  refine (calm_send (UnregisterFrameworkMessage (framework_id w)) false (aborted_ w) w _ _ _ _ _ _ _); try done; congruence.
Qed.

Lemma abort_safe (w : World) : Inv w → safe w (abort w).
Proof.
  intros Hi. unfold abort. destruct (connected_ w) eqn:Hc; [|by apply calm_refl].
  pose proof (inv_connected _ Hi Hc) as Hch. pose proof (not_aborted w Hi Hc) as Ha.
  rewrite checkMaster_Ok by done. cbn [mbind outcome_bind].
  rewrite sendMessage_Ok by done.
  refine (calm_send (DeactivateFrameworkMessage (framework_id w)) false true w _ _ _ _ _ _ _); try done; congruence.
Qed.

(** The driver exists whenever its status says so. *)
Lemma process_running (w : World) :
  Inv w → status w ≠ DRIVER_NOT_STARTED → process w = true.
Proof. intros Hi Hs. rewrite (inv_process _ Hi). by apply bool_decide_eq_true_2. Qed.

Lemma driver_abort_safe (w : World) : Inv w → safe w (driver_abort w).
Proof.
  intros Hi. unfold driver_abort. destruct (decide _) as [Hr|Hr]; [|by apply calm_refl].
  assert (Hp : process w = true) by (apply process_running; congruence).
  rewrite Hp. cbn [CHECK mbind outcome_bind].
  apply safe_bind; [by apply abort_safe|]. intros w' Hw'.
  apply calm_status; [apply Hw'|by apply (calm_process _ _ Hw')|done].
Qed.

(** ** Status updates and launches *)

Section launch.
Context `{Os}.
Variable cb : Callback → World → outcome World.
Hypothesis Hcb : cb_safe cb.

Lemma statusUpdateAcknowledgement_safe (update : StatusUpdate) (w : World) :
  Inv w → safe w (statusUpdateAcknowledgement update w).
Proof.
  intros Hi. unfold statusUpdateAcknowledgement.
  destruct (aborted_ w) eqn:Ha; [by apply calm_refl|].
  destruct (channelsCreated_ w) eqn:Hch; [|by rewrite sendMessage_Fatal].
  rewrite sendMessage_Ok by done.
  apply (calm_send _ (connected_ w) (aborted_ w)); try done; congruence.
Qed.

(** The body of [statusUpdate], after its guards. *)
Lemma statusUpdate_safe (from pid : string) (update : StatusUpdate) (w : World) :
  Inv w → process w = true →
  su_framework_id update = framework_id w → safe w (statusUpdate cb from update pid w).
Proof.
  intros Hi Hp Hfid. unfold statusUpdate.
  destruct (aborted_ w) eqn:Ha; [by apply calm_refl|].
  assert (Hgo : ∃ go, (if str_eqb from "" then Ok true else from_leader from w) = Ok go).
  { destruct (str_eqb from ""); [by eauto|]. unfold from_leader.
    destruct (aborted_ w || negb (connected_ w)) eqn:Hn; [by eauto|].
    apply orb_false_iff in Hn as [_ Hn%negb_false_iff].
    rewrite checkMaster_Ok by (try apply (inv_connected _ Hi); done). cbn. eauto. }
  destruct Hgo as ([] & ->); cbn [mbind outcome_bind]; [|by apply calm_refl].
  unfold str_eqb. rewrite bool_decide_eq_true_2 by done. cbn [CHECK mbind outcome_bind].
  apply safe_bind; [by apply Hcb|]. intros w1 H1.
  apply safe_bind.
  { apply statusUpdateAcknowledgement_safe, H1. }
  intros w2 H2. apply calm_neutral; [apply H2|done].
Qed.

Lemma report_lost_safe (message : string) (task : TaskInfo) (w : World) :
  Inv w → process w = true → safe w (report_lost cb message task w).
Proof.
  intros Hi Hp. unfold report_lost.
  assert (Hn : calm w (set_generated (S (generated w)) w)) by (by apply calm_neutral).
  pose proof (statusUpdate_safe "" "" (lost_update message task w)
    (set_generated (S (generated w)) w) (calm_inv _ _ Hn) Hp eq_refl) as Hs.
  destruct (statusUpdate _ _ _ _ _) as [w'|e|]; cbn in *; [|done|done]. by etrans.
Qed.

(** The loop of [launchTasks], whatever the callbacks do. *)
Lemma launch_loop_safe (tasks acc : list TaskInfo) (w : World) :
  Inv w → channelsCreated_ w = true →
  match mfold (launch_step cb) (acc, w) tasks with
  | Ok (result, w') =>
      calm w w' ∧
      result = acc ++ (prepare (framework_id w) <$>
        filter (fun t => task_error (framework_id w) t = None) tasks)
  | Err _ => True
  | Fatal => False
  end.
Proof.
  revert acc w. induction tasks as [|t tasks IH]; intros acc w Hi Hch; cbn [mfold].
  { split; [by apply calm_refl|]. cbn. by rewrite app_nil_r. }
  unfold launch_step at 2. destruct (task_error (framework_id w) t) as [message|] eqn:Et.
  - pose proof (report_lost_safe message t w Hi (inv_started _ Hi Hch)) as Hs.
    destruct (report_lost cb message t w) as [w'|e|]; cbn [mbind outcome_bind]; [|done|].
    2:{ cbn in Hs. congruence. }
    cbn in Hs. specialize (IH acc w').
    destruct (mfold _ _ tasks) as [[result w'']|e|]; [|done|].
    + destruct IH as [Hc ->]; [apply Hs|by rewrite (calm_created _ _ Hs)|].
      split; [by etrans|]. unfold framework_id. rewrite (calm_framework _ _ Hs).
      rewrite filter_cons_False; [done|]. unfold framework_id in Et. by rewrite Et.
    + apply IH; [apply Hs|by rewrite (calm_created _ _ Hs)].
  - cbn [mbind outcome_bind].
    set (w' := set_activeTasks _ w). assert (Hs : calm w w') by (by apply calm_neutral).
    specialize (IH (acc ++ [prepare (framework_id w) t]) w').
    destruct (mfold _ _ tasks) as [[result w'']|e|]; [|done|].
    + destruct IH as [Hc ->]; [apply Hs|done|].
      split; [by etrans|]. rewrite filter_cons_True by done.
      by rewrite <-(assoc_L (++)).
    + apply IH; [apply Hs|done].
Qed.

Lemma launchTasks_safe (offerIds : list string) (tasks : list TaskInfo) (filters : string)
    (w : World) :
  Inv w → process w = true → safe w (launchTasks cb offerIds tasks filters w).
Proof.
  intros Hi Hp. unfold launchTasks. destruct (connected_ w) eqn:Hc.
  - pose proof (inv_connected _ Hi Hc) as Hch. pose proof (launch_loop_safe tasks [] w Hi Hch) as Hl.
    destruct (mfold _ _ tasks) as [[result w']|e|]; cbn [mbind outcome_bind]; [|done|done].
    destruct Hl as [Hw' _]. pose proof (calm_inv _ _ Hw') as Hi'.
    assert (Hch' : channelsCreated_ w' = true) by (by rewrite (calm_created _ _ Hw')).
    rewrite checkMaster_Ok by done. cbn [mbind outcome_bind]. rewrite sendMessage_Ok by done.
    destruct Hw' as [_ P F M C D R N A (l & W & _ & _)], Hi' as [I1 I2 I3 I4 I5 I6].
    destruct (write_extends (LaunchTasksMessage (framework_id w') offerIds result filters)
      (broker w')) as (l' & Hl' & _ & Hr').
    constructor; cbn; try done.
    + congruence.
    + exists (l ++ l'). rewrite Hl', W, (assoc_L (++)). split; [done|].
      split; [congruence|]. rewrite (not_aborted w Hi Hc). done.
  - apply safe_mfold; [done..|]. intros. by apply report_lost_safe.
Qed.

Lemma acceptOffers_safe (offerIds : list string) (ops : list Operation) (filters : string)
    (w : World) :
  Inv w → process w = true → safe w (acceptOffers cb offerIds ops filters w).
Proof.
  intros Hi Hp. apply safe_mfold; [done..|]. intros w' op Hi' Hch'. case_decide.
  - by apply launchTasks_safe.
  - by apply calm_refl.
Qed.

End launch.

(** ** Driver calls and callbacks *)

(** The tasks that a call asks to launch. *)
Definition launched (c : DriverCall) : list TaskInfo :=
  match c with
  | call_launchTasks _ tasks _ => tasks
  | call_acceptOffers _ ops _ =>
      concat (op_task_infos <$> filter (fun op => op_type op = LAUNCH) ops)
  | _ => []
  end.

Lemma when_running_safe (f : World → outcome World) (w : World) :
  Inv w → safe w (f w) → safe w (snd <$> when_running f w).
Proof.
  intros Hi Hf. unfold when_running. destruct (decide _) as [Hr|Hr]; [|by apply calm_refl].
  rewrite process_running by (try done; congruence).
  by destruct (f w) as [w'|e|].
Qed.

Lemma start_safe (w : World) :
  Inv w → process w = true → safe w (snd <$> start w).
Proof.
  intros Hi Hp. unfold start. destruct (decide _) as [Hs|Hs].
  { rewrite (inv_process _ Hi), bool_decide_eq_false_2 in Hp; [done|]. auto. }
  rewrite Hp. destruct (decide _); cbn.
  - pose proof (calm_neutral w (startRegistration w) Hi eq_refl) as Hn.
    by refine (calm_trans _ _ _ Hn (calm_status _ _ (calm_inv _ _ Hn) Hp _)).
  - by apply calm_status.
Qed.

Lemma driver_stop_safe (failover : bool) (w : World) :
  Inv w → safe w (snd <$> driver_stop failover w).
Proof.
  intros Hi. unfold driver_stop.
  destruct (status w) eqn:Hs; try by apply calm_refl.
  all: assert (Hp : process w = true) by (apply process_running; congruence); rewrite Hp.
  all: pose proof (stop_safe failover w Hi) as Ht.
  all: destruct (stop failover w) as [w'|e|]; cbn in *; [|done|done].
  all: etrans; [exact Ht|]; apply calm_status; [apply Ht|by apply (calm_process _ _ Ht)|done].
Qed.

(** Launching no task needs no channel. *)
Lemma launch_nothing `{Os} (cb : Callback → World → outcome World) (offerIds : list string)
    (filters : string) (w : World) :
  Inv w → channelsCreated_ w = false → launchTasks cb offerIds [] filters w = Ok w.
Proof.
  intros Hi Hch. unfold launchTasks. destruct (connected_ w) eqn:Hc; [|done].
  by rewrite (inv_connected _ Hi Hc) in Hch.
Qed.

Lemma accept_nothing `{Os} (cb : Callback → World → outcome World) (offerIds : list string)
    (ops : list Operation) (filters : string) (w : World) :
  Inv w → channelsCreated_ w = false → launched (call_acceptOffers offerIds ops filters) = [] →
  acceptOffers cb offerIds ops filters w = Ok w.
Proof.
  intros Hi Hch. cbn. unfold acceptOffers. induction ops as [|op ops IH]; [done|].
  cbn [mfold]. destruct (decide (op_type op = LAUNCH)) as [Ht|Ht].
  - rewrite filter_cons_True by done. intros [Hop Hl]%app_nil.
    rewrite Hop, launch_nothing by done. by apply IH.
  - rewrite filter_cons_False by done. apply IH.
Qed.

(** Show what a call runs. *)
Ltac open_call :=
  cbn [driver_call driver_sendFrameworkMessage driver_reconcileTasks driver_requestResources].

(** A call of a driver that was started. *)
Lemma driver_call_safe `{Os} (cb : Callback → World → outcome World) (c : DriverCall)
    (w : World) :
  cb_safe cb → Inv w → process w = true → safe w (snd <$> driver_call cb c w).
Proof.
  intros Hcb Hi Hp. destruct c; open_call;
    try (by apply when_running_safe, send_when_connected_safe).
  - by apply start_safe.
  - by apply driver_stop_safe.
  - pose proof (driver_abort_safe w Hi) as Hs. by destruct (driver_abort w).
  - by apply when_running_safe, launchTasks_safe.
  - by apply when_running_safe, acceptOffers_safe.
  - by apply when_running_safe, launchTasks_safe.
  - by apply when_running_safe, calm_refl.
  - by apply when_running_safe, acknowledge_safe.
Qed.

(** A call before [start]: only [start] does anything. *)
Lemma unstarted_call `{Os} (cb : Callback → World → outcome World) (c : DriverCall) (w : World) :
  Inv w → process w = false →
  ∃ s w', driver_call cb c w = Ok (s, w') ∧ Inv w' ∧ broker w' = broker w.
Proof.
  intros Hi Hp. assert (Hs : status w = DRIVER_NOT_STARTED).
  { destruct (decide (status w = DRIVER_NOT_STARTED)) as [|Hs]; [done|].
    by rewrite process_running in Hp. }
  assert (Hrun : ∀ f, ∃ s w', when_running f w = Ok (s, w') ∧ Inv w' ∧ broker w' = broker w).
  { intros f. unfold when_running. rewrite decide_False by congruence. eauto. }
  destruct c; open_call; try apply Hrun.
  - unfold start. rewrite decide_True, Hp by done. cbn. eexists _, _.
    split; [done|]. split; [|done]. by constructor.
  - unfold driver_stop. rewrite Hs. eauto.
  - unfold driver_abort. rewrite decide_False by congruence. cbn. eauto.
Qed.

(** Whatever the application does in its callbacks, at any depth of nesting. *)
Lemma callback_safe `{Os} `{Application} (depth : nat) : cb_safe (callback depth).
Proof.
  induction depth as [|depth IH]; intros c w Hi Hp; [done|]. cbn [callback].
  set (w' := set_notified _ w). assert (Hn : calm w w') by (by apply calm_neutral).
  pose proof (safe_mfold
    (fun w call => snd <$> driver_call (callback depth) call w) (react (notified w')) w'
    (calm_inv _ _ Hn) Hp) as Hs.
  destruct (mfold _ w' _) as [w''|e|]; cbn; [etrans; [exact Hn|]|done|].
  all: apply Hs; intros; by apply driver_call_safe.
Qed.

(** ** Events *)

Section events.
Context `{Redis} `{Os} `{Application} `{JsonProtobuf Json}.

(** What the master and the application owe: the payload of a message decodes, a
    registration or a status update names this framework, and no task is launched
    before the first registration attempt has made the channel. *)
Definition event_ok (e : Event) (w : World) : Prop :=
  match e with
  | ev_call c => launched c = [] ∨ channelsCreated_ w = true
  | ev_input m =>
      let j := m_payload m in
      match messages_ (m_target m) with
      | Some FRAMEWORK_REGISTERED => returns (FrameworkRegistered_of_json j)
      | Some FRAMEWORK_REREGISTERED =>
          ∃ info, FrameworkReregistered_of_json j = Ok (framework_id w, info)
      | Some FRAMEWORK_ERROR => returns (FrameworkError_of_json j)
      | Some LOST_SLAVE => returns (LostSlave_of_json j)
      | Some RESCIND_RESOURCE_OFFER => returns (RescindResourceOffer_of_json j)
      | Some RESOURCE_OFFERS => returns (ResourceOffers_of_json j)
      | Some EXECUTOR_TO_FRAMEWORK => returns (ExecutorToFramework_of_json j)
      | Some STATUS_UPDATE =>
          ∃ update pid, StatusUpdate_of_json j = Ok (update, pid) ∧
                        su_framework_id update = framework_id w
      | _ => True
      end
  | ev_timer _ => True
  end.

(** The outcome of an event: the invariant again, or a crash that [P] allows. *)
Definition outcome_inv_or (P : Prop) (r : outcome World) : Prop :=
  match r with
  | Ok w' => Inv w'
  | Err _ => True
  | Fatal => P
  end.

Lemma safe_outcome (P : Prop) (w : World) (r : outcome World) :
  channelsCreated_ w = true → safe w r → outcome_inv_or P r.
Proof.
  intros Hch. destruct r as [w'|e|]; cbn; [|done|congruence]. apply calm_inv.
Qed.

Lemma registered_inv (depth : nat) (from fid info : string) (P : Prop) (w : World) :
  Inv w → channelsCreated_ w = true →
  outcome_inv_or P (registered (callback depth) from fid info w).
Proof.
  intros Hi Hch. unfold registered. destruct (_ || _) eqn:Hg; [done|].
  apply orb_false_iff in Hg as [[Ha Hc]%orb_false_iff _].
  unfold startHeartbeat. cbn [pNotifyChannel_ set_flags set_framework].
  destruct (channel_exists w Hi Hch) as (c & ->). cbn [mbind outcome_bind].
  destruct Hi as [I1 I2 I3 I4 I5 I6].
  eapply safe_outcome; [|apply callback_safe; [constructor; cbn; try done; congruence|]];
    cbn; auto.
Qed.

Lemma reregistered_inv (depth : nat) (from fid info : string) (w : World) :
  Inv w → channelsCreated_ w = true →
  outcome_inv_or (fid ≠ framework_id w) (reregistered (callback depth) from fid info w).
Proof.
  intros Hi Hch. unfold reregistered. destruct (_ || _) eqn:Hg; [done|].
  apply orb_false_iff in Hg as [[Ha Hc]%orb_false_iff _].
  unfold str_eqb. destruct (bool_decide _) eqn:Hf; cbn [CHECK mbind outcome_bind].
  2:{ apply bool_decide_eq_false in Hf. cbn. congruence. }
  unfold startHeartbeat. cbn [pNotifyChannel_ set_flags].
  destruct (channel_exists w Hi Hch) as (c & ->). cbn [mbind outcome_bind].
  destruct Hi as [I1 I2 I3 I4 I5 I6].
  eapply safe_outcome; [|apply callback_safe; [constructor; cbn; try done; congruence|]];
    cbn; auto.
Qed.

Lemma from_leader_Ok (from : string) (w : World) :
  Inv w → ∃ go, from_leader from w = Ok go.
Proof.
  intros Hi. unfold from_leader. destruct (_ || _) eqn:Hn; [by eauto|].
  apply orb_false_iff in Hn as [_ Hn%negb_false_iff].
  rewrite checkMaster_Ok by (try apply (inv_connected _ Hi); done). cbn. eauto.
Qed.

Lemma statusUpdate_inv (depth : nat) (from pid : string) (update : StatusUpdate) (w : World) :
  Inv w → channelsCreated_ w = true →
  outcome_inv_or (su_framework_id update ≠ framework_id w)
    (statusUpdate (callback depth) from update pid w).
Proof.
  intros Hi Hch. pose proof (inv_started _ Hi Hch) as Hp.
  destruct (decide (su_framework_id update = framework_id w)) as [Hf|Hf].
  { eapply safe_outcome; [done|]. apply statusUpdate_safe; [apply callback_safe|done..]. }
  unfold statusUpdate. destruct (aborted_ w); [done|].
  destruct (from_leader_Ok from w Hi) as (go & ->).
  destruct (str_eqb from ""), go; cbn [mbind outcome_bind]; try done.
  all: unfold str_eqb; rewrite bool_decide_eq_false_2 by congruence; done.
Qed.

(** A payload is decoded, or the exception ends the process. *)
Lemma decode_inv {A : Type} (P : Prop) (r : outcome A) (f : A → outcome World) :
  (¬ returns r → P) → (∀ a, r = Ok a → outcome_inv_or P (f a)) →
  outcome_inv_or P (a ← uncaught r; f a).
Proof.
  intros Hr Hf. destruct (uncaught_returns r) as [(a & Ha & ->)|[Hn ->]]; cbn; auto.
Qed.

Lemma outcome_inv_or_weaken (P Q : Prop) (r : outcome World) :
  (P → Q) → outcome_inv_or P r → outcome_inv_or Q r.
Proof. destruct r; cbn; auto. Qed.

Lemma onInput_inv (depth : nat) (m : InMessage Json) (w : World) :
  Inv w → channelsCreated_ w = true →
  outcome_inv_or (¬ event_ok (ev_input m) w) (onInput (callback depth) m w).
Proof.
  intros Hi Hch. pose proof (inv_started _ Hi Hch) as Hp.
  assert (Hcb : ∀ P c w', calm w w' → outcome_inv_or P (callback depth c w')).
  { intros P c w' Hw. apply (safe_outcome P w'); [by rewrite (calm_created _ _ Hw)|].
    apply callback_safe; [apply Hw|by apply (calm_process _ _ Hw)]. }
  pose proof (calm_refl w Hi) as Hrefl.
  unfold onInput, event_ok. destruct (m_type m).
  { destruct Hi as [I1 I2 I3 I4 I5 I6]. by constructor. }
  all: destruct (messages_ (m_target m)) as [[]|]; [..|done].
  all: try (rewrite sendMessage_Ok by done; by apply inv_set_broker).
  all: apply decode_inv;
    [intros Hn; first [exact Hn
                      |intros (? & ? & Hd & _); apply Hn; eexists; exact Hd
                      |intros (? & Hd); apply Hn; eexists; exact Hd]|].
  all: try (intros [? ?] _; by apply registered_inv).
  all: try (intros [fid info] Hd; eapply outcome_inv_or_weaken; [|by apply reregistered_inv];
            intros Hne (info' & Hd'); congruence).
  all: try (intros [update pid] Hd; eapply outcome_inv_or_weaken; [|by apply statusUpdate_inv];
            intros Hne (update' & pid' & Hd' & Hf); congruence).
  all: try (intros [[[? ?] ?] ?] _;
            unfold frameworkMessage; destruct (aborted_ w); [done|by apply Hcb]).
  all: try (intros [? ?] _).
  all: try (intros ? _).
  all: try (unfold resourceOffers, rescindOffer, lostSlave;
            destruct (from_leader_Ok (master_ w) w Hi) as ([] & ->);
            cbn [mbind outcome_bind]; [|done]; apply Hcb; try done; by apply calm_neutral).
  all: unfold error; destruct (aborted_ w); [done|];
       pose proof (driver_abort_safe w Hi) as Hs; destruct (driver_abort w) as [w'|e|];
       cbn [mbind outcome_bind]; [by apply Hcb|done|cbn in Hs; congruence].
Qed.

(** [createChannels] needs nothing but a master; it keeps or makes the channel. *)
Lemma createChannels_Ok (w : World) :
  Inv w → process w = true → master_ w ≠ "" →
  ∃ w', createChannels w = Ok w' ∧ Inv w' ∧ channelsCreated_ w' = true ∧
    ch_callback <$> pNotifyChannel_ w' = Some true ∧
    written (broker w') = written (broker w) ∧
    isRunning_ (broker w') = isRunning_ (broker w) ∧
    framework_ w' = framework_ w ∧ failover_ w' = failover_ w ∧
    connected_ w' = connected_ w ∧ timers w' = timers w.
Proof.
  intros [I1 I2 I3 I4 I5 I6] Hp Hm. unfold createChannels.
  destruct (channelsCreated_ w) eqn:Hc.
  - destruct (pNotifyChannel_ w) as [c|] eqn:Hn; [|done].
    destruct (queue_command_written (ch_name c) (broker w)) as [Hw Hr].
    eexists. split; [done|]. cbn. rewrite Hc. split; [constructor; cbn; auto|auto 10].
  - cbn [pNotifyChannel_ set_channel broker].
    destruct (queue_command_written (ch_name (createChannel "notify" (broker w))) (broker w))
      as [Hw Hr].
    eexists. split; [done|]. cbn. split; [constructor; cbn; auto|auto 10].
    intros Ha. by destruct (I6 Ha).
Qed.

Lemma timer_inv (t : TimerMethod) (w : World) :
  Inv w → process w = true → outcome_inv_or False (run_timer t w).
Proof.
  intros Hi Hp. destruct t; cbn [run_timer].
  - unfold doReliableRegistration. destruct (_ || _) eqn:Hg; [done|].
    apply orb_false_iff in Hg as [Hc Hm%bool_decide_eq_false].
    destruct (aborted_ w) eqn:Ha.
    { destruct Hi as [I1 I2 I3 I4 I5 I6]. constructor; cbn; try done. intros _. by apply I6. }
    destruct (setUrl _ _) as [r b]. apply (inv_set_broker b) in Hi as Hb.
    destruct r as [[]|e|]; [|destruct Hb as [I1 I2 I3 I4 I5 I6]; by constructor..].
    destruct (createChannels_Ok (set_broker b w)) as (w' & -> & Hw' & Hch & _); [done..|].
    cbn [mbind outcome_bind]. rewrite sendMessage_Ok by done. by apply inv_set_broker.
  - unfold checkReconcile. set (sts := staging_statuses _).
    assert (Hs : safe w (match sts with [] => Ok w | _ => reconcileTasks sts w end)).
    { destruct sts; [by apply calm_refl|]. by apply send_when_connected_safe. }
    destruct (match sts with [] => _ | _ => _ end) as [w'|e|] eqn:Hr; cbn.
    + destruct (calm_inv _ _ Hs) as [I1 I2 I3 I4 I5 I6]. by constructor.
    + done.
    + revert Hr. unfold reconcileTasks, send_when_connected. destruct sts; [done|].
      destruct (connected_ w) eqn:Hc; [|done].
      cbn in Hs. by rewrite (inv_connected _ Hi Hc) in Hs.
Qed.

Lemma early_call (depth : nat) (c : DriverCall) (w : World) :
  Inv w → process w = true → channelsCreated_ w = false → launched c = [] →
  driver_call (callback depth) c w ≠ Fatal.
Proof.
  intros Hi Hp Hch Hl.
  assert (Hc : connected_ w = false).
  { destruct (connected_ w) eqn:E; [|done]. by rewrite (inv_connected _ Hi E) in Hch. }
  assert (Hrun : ∀ f, f w = Ok w → when_running f w ≠ Fatal).
  { intros f Hf. unfold when_running. rewrite Hp, Hf. by destruct (decide _). }
  destruct c; open_call; try apply Hrun; try done;
    try (by unfold killTask, reviveOffers, sendFrameworkMessage, reconcileTasks,
         requestResources, send_when_connected, acknowledgeStatusUpdate; rewrite Hc).
  - unfold start. rewrite Hp. destruct (decide _) as [Hs|]; [|by destruct (decide _)].
    by rewrite (inv_process _ Hi), Hs in Hp.
  - unfold driver_stop, stop. rewrite Hp, Hc. by destruct (status w).
  - unfold driver_abort, abort. rewrite Hp, Hc. by destruct (decide _).
  - cbn in Hl. subst. by apply launch_nothing.
  - by apply accept_nothing.
  - by apply launch_nothing.
Qed.

(** Every event keeps the invariant, and crashes only when [event_ok] fails. *)
Lemma run_event_inv (depth : nat) (e : Event) (w : World) :
  Inv w → enabled e w → outcome_inv_or (¬ event_ok e w) (run_event depth e w).
Proof.
  intros Hi He. destruct e as [c|m|t]; cbn [run_event].
  - destruct (process w) eqn:Hp.
    2:{ destruct (unstarted_call (callback depth) c w Hi Hp) as (s & w' & -> & Hw' & _).
        exact Hw'. }
    pose proof (driver_call_safe (callback depth) c w (callback_safe depth) Hi Hp) as Hs.
    pose proof (early_call depth c w Hi Hp) as Hearly.
    destruct (driver_call _ c w) as [[s w']|e|]; cbn in *; [by apply (calm_inv w)|done|].
    intros [Hl|Hl]; [by apply Hearly|congruence].
  - destruct He as (Hr & Hcb & Ht). apply onInput_inv; [done|].
    rewrite <-(inv_channel _ Hi). by destruct (pNotifyChannel_ w).
  - destruct He as [Hp _].
    assert (Hi' : Inv (set_timers (remove_one t (timers w)) w)).
    { destruct Hi as [I1 I2 I3 I4 I5 I6]. by constructor. }
    pose proof (timer_inv t _ Hi' Hp) as Ht. by destruct (run_timer t _).
Qed.

Lemma reachable_inv (w : World) : reachable w → Inv w.
Proof.
  induction 1 as [f m w Hn|depth e w w' _ IH He Hr].
  - unfold new_driver in Hn. apply bind_Ok in Hn as (f' & _ & [= <-]). by constructor.
  - pose proof (run_event_inv depth e w IH He) as Hs. by rewrite Hr in Hs.
Qed.

End events.

(** ** Enough depth

    A callback runs out of depth only by launching tasks from a status update. *)

Definition halts {A : Type} (r : outcome A) : Prop :=
  match r with Err _ => False | _ => True end.

Lemma halts_bind {A B : Type} (m : outcome A) (f : A → outcome B) :
  halts m → (∀ a, halts (f a)) → halts (m ≫= f).
Proof. destruct m; cbn; auto. Qed.

Lemma halts_fmap {A B : Type} (m : outcome A) (f : A → B) :
  halts m → halts (f <$> m).
Proof. destruct m; cbn; auto. Qed.

Lemma halts_mfold {A B : Type} (f : A → B → outcome A) (l : list B) (a : A) :
  (∀ a x, x ∈ l → halts (f a x)) → halts (mfold f a l).
Proof.
  intros Hf. revert a. induction l as [|x l IH]; intros a; cbn; [done|].
  apply halts_bind; [apply Hf; left|]. intros a'. apply IH. intros. apply Hf. by right.
Qed.

Lemma halts_CHECK (b : bool) : halts (CHECK b).
Proof. by destruct b. Qed.

Lemma halts_sendMessage (m : Message) (w : World) : halts (sendMessage m w).
Proof. unfold sendMessage. by destruct (pNotifyChannel_ w). Qed.

#[export] Hint Resolve halts_CHECK halts_sendMessage : urb.
#[export] Hint Extern 1 (halts (_ ≫= _)) => apply halts_bind; [|intros] : urb.
#[export] Hint Extern 1 (halts (if ?b then _ else _)) => destruct b : urb.
#[export] Hint Extern 1 (halts (Ok _)) => exact I : urb.
#[export] Hint Extern 1 (halts Fatal) => exact I : urb.
#[export] Hint Unfold checkMaster : urb.

Lemma halts_send_when_connected (m : World → Message) (w : World) :
  halts (send_when_connected m w).
Proof. unfold send_when_connected, checkMaster. auto with urb. Qed.

Lemma halts_from_leader (from : string) (w : World) : halts (from_leader from w).
Proof. unfold from_leader, checkMaster. auto with urb. Qed.

#[export] Hint Resolve halts_send_when_connected halts_from_leader : urb.

Section depth.
Context `{Os}.
Variable cb : Callback → World → outcome World.

(** The driver calls the application back for status updates only. *)
Hypothesis Hcb : ∀ st w, halts (cb (cb_statusUpdate st) w).

Lemma halts_report_lost (message : string) (task : TaskInfo) (w : World) :
  halts (report_lost cb message task w).
Proof.
  unfold report_lost, statusUpdate, statusUpdateAcknowledgement. auto 12 with urb.
Qed.

Lemma halts_launchTasks (offerIds : list string) (tasks : list TaskInfo) (filters : string)
    (w : World) : halts (launchTasks cb offerIds tasks filters w).
Proof.
  unfold launchTasks. destruct (connected_ w).
  - apply halts_bind.
    + apply halts_mfold. intros [result w'] t _. unfold launch_step.
      destruct (task_error _ t); [|done].
      apply halts_bind; [apply halts_report_lost|done].
    + intros [result w']. unfold checkMaster. auto with urb.
  - apply halts_mfold. intros. apply halts_report_lost.
Qed.

End depth.

Lemma halts_when_running (f : World → outcome World) (w : World) :
  halts (f w) → halts (when_running f w).
Proof. intros Hf. unfold when_running. auto 8 with urb. Qed.

(** The calls that cannot call the application back return at any depth. *)
Lemma halts_simple_call `{Os} (cb : Callback → World → outcome World) (c : DriverCall)
    (w : World) :
  (∀ offers ts filters, c = call_launchTasks offers ts filters →
     halts (launchTasks cb offers ts filters w)) →
  (∀ offers ops filters, c = call_acceptOffers offers ops filters →
     halts (acceptOffers cb offers ops filters w)) →
  halts (driver_call cb c w).
Proof.
  intros Hl Ha. destruct c; open_call; try apply halts_when_running; eauto with urb.
  - unfold start. auto 8 with urb.
  - unfold driver_stop, stop, checkMaster. destruct (status w); auto 12 with urb.
  - unfold driver_abort, abort, checkMaster. auto 12 with urb.
  - unfold launchTasks. destruct (connected_ w); cbn; auto with urb.
    unfold checkMaster. auto with urb.
  - unfold acknowledgeStatusUpdate, checkMaster.
    destruct (connected_ w), (ts_uuid st), (ts_slave_id st); auto with urb.
Qed.

Lemma halts_launchless_call `{Os} (cb : Callback → World → outcome World) (c : DriverCall)
    (w : World) : launched c = [] → halts (driver_call cb c w).
Proof.
  intros Hl. apply halts_simple_call.
  - intros offers ts filters ->. cbn in Hl. subst. unfold launchTasks, checkMaster.
    destruct (connected_ w); cbn; auto with urb.
  - intros offers ops filters ->. cbn in Hl. unfold acceptOffers.
    apply halts_mfold. intros w' op Hop. destruct (decide _) as [Ht|Ht]; [|done].
    assert (Hnil : op_task_infos op = []).
    { apply list_elem_of_split in Hop as (l1 & l2 & ->).
      rewrite filter_app, filter_cons_True, fmap_app, concat_app in Hl by done.
      apply app_nil in Hl as [_ Hl]. cbn in Hl. by apply app_nil in Hl as [Hl _]. }
    rewrite Hnil. unfold launchTasks, checkMaster.
    destruct (connected_ w'); cbn; auto with urb.
Qed.

Lemma halts_call `{Os} (cb : Callback → World → outcome World) (c : DriverCall)
    (w : World) :
  (∀ st w, halts (cb (cb_statusUpdate st) w)) → halts (driver_call cb c w).
Proof.
  intros Hcb. apply halts_simple_call; intros.
  - by apply halts_launchTasks.
  - unfold acceptOffers. apply halts_mfold. intros. case_decide; [|done].
    by apply halts_launchTasks.
Qed.

Lemma halts_uncaught {A : Type} (r : outcome A) : halts (uncaught r).
Proof. by destruct r. Qed.

Lemma halts_onInput `{Os} `{JsonProtobuf Json} (cb : Callback → World → outcome World)
    (m : InMessage Json) (w : World) :
  (∀ c w, halts (cb c w)) → halts (onInput cb m w).
Proof.
  intros Hcb. unfold onInput. destruct (m_type m); [done|..].
  all: destruct (messages_ (m_target m)) as [[]|]; [..|done].
  all: try (apply halts_bind; [apply halts_uncaught|intros p]).
  all: repeat (match goal with |- halts (let '(_, _) := ?p in _) => destruct p end).
  all: unfold registered, reregistered, startHeartbeat, resourceOffers, rescindOffer,
         statusUpdate, statusUpdateAcknowledgement, lostSlave, frameworkMessage, error,
         driver_abort, abort, checkMaster.
  all: cbn [pNotifyChannel_ set_flags set_framework].
  all: try destruct (pNotifyChannel_ w); auto 15 with urb.
Qed.

Lemma halts_run_timer `{Redis} `{Os} (t : TimerMethod) (w : World) : halts (run_timer t w).
Proof.
  destruct t; cbn [run_timer].
  - unfold doReliableRegistration, createChannels.
    destruct (_ || _); [done|]. destruct (aborted_ w); [done|].
    destruct (setUrl _ _) as [[[]|e|] b]; [|done..].
    apply halts_bind; [|auto with urb]. destruct (pNotifyChannel_ _); [|done].
    by destruct (registerInputCallback _ _).
  - unfold checkReconcile. apply halts_bind; [|done].
    destruct (staging_statuses _); [done|]. apply halts_send_when_connected.
Qed.

Section theorems.
Context `{Redis} `{Os} `{Application} `{JsonProtobuf Json}.

(** The application never launches tasks while it handles a status update. *)
Definition launches_elsewhere : Prop :=
  ∀ h st c, c ∈ react (h ++ [cb_statusUpdate st]) → launched c = [].

Lemma callback_returns (depth : nat) (c : Callback) (w : World) :
  launches_elsewhere → halts (callback (S (S depth)) c w).
Proof.
  intros Happ. cbn [callback]. apply halts_mfold. intros w' call _. apply halts_fmap.
  apply halts_call. intros st w''. cbn [callback]. apply halts_mfold.
  intros w3 c' Hc'. apply halts_fmap, halts_launchless_call. exact (Happ _ _ _ Hc').
Qed.



(** C11: A driver call, with everything the application does in the callbacks
    it causes, speaks only in turn: it never connects the framework and never
    changes its identity or its master; while the framework is disconnected it
    writes nothing but acknowledgements of status updates, and once it is
    aborted it writes nothing. *)
Theorem driver_call_speaks_in_turn (depth : nat) (c : DriverCall) (s : Status) (w w' : World) :
  reachable w → process w = true → driver_call (callback depth) c w = Ok (s, w') →
  framework_ w' = framework_ w ∧ master_ w' = master_ w ∧
  (connected_ w' = true → connected_ w = true) ∧
  (aborted_ w = true → aborted_ w' = true) ∧
  ∃ l, written (broker w') = written (broker w) ++ l ∧
    (connected_ w = false → Forall is_ack l) ∧ (aborted_ w = true → l = []).
Proof.
  intros Hw Hp Hc.
  pose proof (driver_call_safe (callback depth) c w (callback_safe depth)
    (reachable_inv w Hw) Hp) as Hs.
  rewrite Hc in Hs. destruct Hs. auto 10.
Qed.

(** A connected launch sends one LaunchTasks message, last of all it
    writes, holding exactly the acceptable tasks in their order (an executor or a
    command but not both, and no foreign framework id), each with the framework
    id filled in and an empty label set removed, whatever the application does
    while the refused ones are reported to it. *)
Theorem launch_sends_accepted (depth : nat) (offerIds : list string) (tasks : list TaskInfo)
    (filters : string) (w w' : World) :
  reachable w → connected_ w = true → isRunning_ (broker w) = true →
  launchTasks (callback depth) offerIds tasks filters w = Ok w' →
  ∃ l source, written (broker w') = written (broker w) ++ l ++
    [mkWritten MASTER_BROKER_MESOS_ENDPOINT source
       (LaunchTasksMessage (framework_id w) offerIds
          (prepare (framework_id w) <$>
             filter (fun t => task_error (framework_id w) t = None) tasks) filters)].
Proof.
  intros Hw Hc Hr Hl. apply reachable_inv in Hw as Hi.
  pose proof (inv_connected _ Hi Hc) as Hch. unfold launchTasks in Hl. rewrite Hc in Hl.
  pose proof (launch_loop_safe (callback depth) (callback_safe depth) tasks [] w Hi Hch) as Hs.
  destruct (mfold _ _ tasks) as [[result w1]|e|]; [|done|done].
  destruct Hs as [Hcalm ->]. cbn [mbind outcome_bind app] in Hl.
  pose proof (calm_inv _ _ Hcalm) as Hi1.
  assert (Hch1 : channelsCreated_ w1 = true) by (by rewrite (calm_created _ _ Hcalm)).
  rewrite checkMaster_Ok in Hl by done. cbn [mbind outcome_bind] in Hl.
  rewrite sendMessage_Ok in Hl by done. injection Hl as <-. cbn [broker set_broker].
  rewrite write_running by (by rewrite (calm_running _ _ Hcalm)).
  destruct (calm_written _ _ Hcalm) as (l & -> & _).
  exists l, (endpointIdStr_ (broker w1)).
  unfold framework_id. rewrite (calm_framework _ _ Hcalm).
  by rewrite (assoc_L (++)).
Qed.

(** ** Accounting for every task *)

(** The application makes no call while it handles a status update. *)
Definition ignores_updates : Prop := ∀ h st, react (h ++ [cb_statusUpdate st]) = [].

Definition lost_status (message : string) (t : TaskInfo) : TaskStatus :=
  mkTaskStatus (ti_task_id t) TASK_LOST (Some message) None None None.

(** What becomes of a task: a message when it is refused. *)
Definition account (refusal : TaskInfo → option string) (active : gmap string TaskState)
    (t : TaskInfo) : gmap string TaskState :=
  match refusal t with
  | Some _ => delete (ti_task_id t) active
  | None => <[ti_task_id t := TASK_STAGING]> active
  end.

Definition lost_callbacks (refusal : TaskInfo → option string) (tasks : list TaskInfo)
    : list Callback :=
  omap (fun t => (fun m => cb_statusUpdate (lost_status m t)) <$> refusal t) tasks.

Lemma account_other (refusal : TaskInfo → option string) (tasks : list TaskInfo)
    (active : gmap string TaskState) (id : string) :
  id ∉ ti_task_id <$> tasks → foldl (account refusal) active tasks !! id = active !! id.
Proof.
  revert active. induction tasks as [|t tasks IH]; intros active; cbn; [done|].
  intros [Hne Hn]%not_elem_of_cons. rewrite IH by done. unfold account.
  destruct (refusal t).
  - by rewrite lookup_delete_ne.
  - by rewrite lookup_insert_ne.
Qed.

Lemma account_lookup (refusal : TaskInfo → option string) (tasks : list TaskInfo)
    (active : gmap string TaskState) (t : TaskInfo) :
  NoDup (ti_task_id <$> tasks) → t ∈ tasks →
  foldl (account refusal) active tasks !! ti_task_id t =
  match refusal t with Some _ => None | None => Some TASK_STAGING end.
Proof.
  revert active. induction tasks as [|t' tasks IH]; intros active Hnd Ht.
  { by apply not_elem_of_nil in Ht. }
  cbn in *. apply NoDup_cons in Hnd as [Hn Hnd].
  apply elem_of_cons in Ht as [->|Ht]; [|by apply IH].
  rewrite account_other by done. unfold account.
  destruct (refusal t'); [by rewrite lookup_delete_eq|by rewrite lookup_insert_eq].
Qed.

(** A world in which a status update of the driver itself goes through. *)
Definition ready (w w' : World) : Prop :=
  Inv w' ∧ channelsCreated_ w' = true ∧ aborted_ w' = false ∧
  connected_ w' = connected_ w ∧ framework_ w' = framework_ w.

Lemma report_lost_passive (depth : nat) (message : string) (t : TaskInfo) (w0 w : World) :
  ignores_updates → ready w0 w →
  ∃ w', report_lost (callback (S depth)) message t w = Ok w' ∧ ready w0 w' ∧
    notified w' = notified w ++ [cb_statusUpdate (lost_status message t)] ∧
    activeTasks_ w' = delete (ti_task_id t) (activeTasks_ w).
Proof.
  intros Happ (Hi & Hch & Ha & Hc & Hf).
  unfold report_lost, statusUpdate, str_eqb. cbn [aborted_ set_generated]. rewrite Ha.
  rewrite bool_decide_eq_true_2 by done. cbn [mbind outcome_bind].
  rewrite bool_decide_eq_true_2 by done. cbn [CHECK mbind outcome_bind callback].
  cbn [notified set_generated set_notified]. rewrite Happ. cbn [mfold mbind outcome_bind].
  unfold statusUpdateAcknowledgement. cbn [aborted_ set_generated set_notified]. rewrite Ha.
  destruct (channel_exists w Hi Hch) as (c & Hn). unfold sendMessage.
  cbn [pNotifyChannel_ set_generated set_notified]. rewrite Hn. cbn.
  destruct Hi as [I1 I2 I3 I4 I5 I6].
  eexists. split; [done|]. cbn. split; [|done].
  split_and!; cbn; auto. by constructor.
Qed.

Lemma lost_loop (depth : nat) (message : string) (tasks : list TaskInfo) (w0 w : World) :
  ignores_updates → ready w0 w →
  ∃ w', mfold (fun w t => report_lost (callback (S depth)) message t w) w tasks = Ok w' ∧
    notified w' = notified w ++ lost_callbacks (fun _ => Some message) tasks ∧
    activeTasks_ w' = foldl (account (fun _ => Some message)) (activeTasks_ w) tasks.
Proof.
  intros Happ. revert w. induction tasks as [|t tasks IH]; intros w Hw; cbn [mfold].
  { exists w. by rewrite app_nil_r. }
  destruct (report_lost_passive depth message t w0 w Happ Hw) as (w1 & -> & Hw1 & Hn1 & Ha1).
  cbn [mbind outcome_bind]. destruct (IH w1 Hw1) as (w2 & -> & Hn2 & Ha2).
  exists w2. split; [done|]. rewrite Hn2, Ha2, Hn1, Ha1. cbn.
  by rewrite <-(assoc_L (++)).
Qed.

Lemma launch_loop (depth : nat) (tasks acc : list TaskInfo) (w0 w : World) :
  ignores_updates → ready w0 w →
  ∃ result w', mfold (launch_step (callback (S depth))) (acc, w) tasks = Ok (result, w') ∧
    ready w0 w' ∧
    notified w' = notified w ++ lost_callbacks (task_error (framework_id w0)) tasks ∧
    activeTasks_ w' = foldl (account (task_error (framework_id w0))) (activeTasks_ w) tasks.
Proof.
  intros Happ. revert acc w. induction tasks as [|t tasks IH]; intros acc w Hw; cbn [mfold].
  { exists acc, w. by rewrite app_nil_r. }
  assert (Hfid : framework_id w = framework_id w0).
  { unfold framework_id. by destruct Hw as (_ & _ & _ & _ & ->). }
  unfold launch_step at 2. rewrite Hfid. cbn [foldl]. unfold lost_callbacks at 1, account at 2.
  cbn [omap list_omap]. destruct (task_error (framework_id w0) t) as [message|] eqn:Et; cbn [fmap option_fmap option_map].
  - destruct (report_lost_passive depth message t w0 w Happ Hw) as (w1 & -> & Hw1 & Hn1 & Ha1).
    cbn [mbind outcome_bind].
    destruct (IH acc w1 Hw1) as (result & w2 & -> & Hw2 & Hn2 & Ha2).
    exists result, w2. rewrite Hn2, Ha2, Hn1, Ha1, <-(assoc_L (++)). done.
  - cbn [mbind outcome_bind].
    set (w1 := set_activeTasks _ w).
    assert (Hw1 : ready w0 w1).
    { destruct Hw as (Hi & Hch & Ha & Hc & Hf). split_and!; try done.
      by apply (calm_inv w), calm_neutral. }
    destruct (IH (acc ++ [prepare (framework_id w0) t]) w1 Hw1)
      as (result & w2 & -> & Hw2 & Hn2 & Ha2).
    exists result, w2. by rewrite Hn2, Ha2.
Qed.

(** C9: A launch accounts for every task, in every world that can be reached in
    which the channels exist and the driver is not aborted (an aborted one ignores
    the launch), for tasks with distinct ids and an application that only takes
    note of status updates.  The launch returns, the application has received one
    TASK_LOST update for each refused task in their order (all of them when the
    master is disconnected) and for no other, and afterwards each accepted task
    is recorded as staging while no refused one is recorded. *)
Theorem launch_accounts_for_every_task (depth : nat) (offerIds : list string)
    (tasks : list TaskInfo) (filters : string) (w : World) :
  let refusal := if connected_ w then task_error (framework_id w)
                 else fun _ => Some "Master Disconnected" in
  reachable w → channelsCreated_ w = true → aborted_ w = false → ignores_updates →
  NoDup (ti_task_id <$> tasks) →
  ∃ w', launchTasks (callback (S depth)) offerIds tasks filters w = Ok w' ∧
    notified w' = notified w ++ lost_callbacks refusal tasks ∧
    ∀ t, t ∈ tasks → activeTasks_ w' !! ti_task_id t =
      match refusal t with Some _ => None | None => Some TASK_STAGING end.
Proof.
  intros refusal Hw Hch Ha Happ Hnd. apply reachable_inv in Hw as Hi.
  assert (Hready : ready w w) by done. unfold launchTasks.
  destruct (connected_ w) eqn:Hc; subst refusal.
  - destruct (launch_loop depth tasks [] w w Happ Hready)
      as (result & w' & -> & (Hi' & Hch' & _) & Hn & Hact).
    cbn [mbind outcome_bind]. rewrite checkMaster_Ok by done. cbn [mbind outcome_bind].
    rewrite sendMessage_Ok by done. eexists. split; [done|]. cbn. split; [done|].
    intros t Ht. rewrite Hact. by apply account_lookup.
  - destruct (lost_loop depth "Master Disconnected" tasks w w Happ Hready)
      as (w' & -> & Hn & Hact).
    exists w'. split_and!; [done|done|]. intros t Ht. rewrite Hact.
    by apply (account_lookup (fun _ => Some "Master Disconnected")).
Qed.


End theorems.

(** ** Reconciliation *)

Lemma staging_statuses_spec (tasks : gmap string TaskState) (id : string) :
  id ∈ ts_task_id <$> staging_statuses tasks ↔ tasks !! id = Some TASK_STAGING.
Proof.
  unfold staging_statuses, sorted_entries. rewrite list_elem_of_fmap. split.
  - intros (st & -> & ([id' s] & -> & Hin)%list_elem_of_fmap).
    apply list_elem_of_filter in Hin as [-> Hin].
    rewrite (merge_sort_Permutation entry_le) in Hin. by apply elem_of_map_to_list in Hin.
  - intros Hl. exists (mkTaskStatus id TASK_STAGING None None None None). split; [done|].
    apply list_elem_of_fmap. exists (id, TASK_STAGING). split; [done|].
    apply list_elem_of_filter. split; [done|].
    by rewrite (merge_sort_Permutation entry_le), elem_of_map_to_list.
Qed.

Lemma staging_statuses_NoDup (tasks : gmap string TaskState) :
  NoDup (ts_task_id <$> staging_statuses tasks).
Proof.
  assert (Hfst : ts_task_id <$> staging_statuses tasks =
    (filter (fun '(_, s) => s = TASK_STAGING) (sorted_entries tasks)).*1).
  { unfold staging_statuses. rewrite <-list_fmap_compose. by apply list_fmap_ext; intros ? [? ?]. }
  rewrite Hfst. apply (sublist_NoDup _ (sorted_entries tasks).*1).
  - unfold sorted_entries. rewrite (merge_sort_Permutation entry_le).
    apply NoDup_fst_map_to_list.
  - apply fmap_sublist, sublist_filter.
Qed.

(** The reconcile timer asks the master about exactly the tasks recorded as
    staging, each once, and only when there is one; it always re-arms itself and
    changes nothing else of the framework's record of its tasks. *)
Theorem reconcile_asks_for_staging `{Redis} `{Os} `{Application} `{JsonProtobuf Json} (w : World) :
  reachable w → connected_ w = true → isRunning_ (broker w) = true →
  ∃ w' statuses, checkReconcile w = Ok w' ∧
    NoDup (ts_task_id <$> statuses) ∧
    (∀ id, id ∈ ts_task_id <$> statuses ↔ activeTasks_ w !! id = Some TASK_STAGING) ∧
    written (broker w') = written (broker w) ++
      (if decide (statuses = []) then [] else
       [mkWritten MASTER_BROKER_MESOS_ENDPOINT (endpointIdStr_ (broker w))
          (ReconcileTasksMessage (framework_id w) statuses)]) ∧
    timers w' = timers w ++ [checkReconcile_after 60] ∧ activeTasks_ w' = activeTasks_ w.
Proof.
  intros Hw Hc Hr. apply reachable_inv in Hw as Hi.
  pose proof (inv_connected _ Hi Hc) as Hch. unfold checkReconcile.
  pose proof (staging_statuses_spec (activeTasks_ w)) as Hspec.
  pose proof (staging_statuses_NoDup (activeTasks_ w)) as Hnd.
  destruct (staging_statuses (activeTasks_ w)) as [|st sts] eqn:Es.
  - eexists _, []. split; [done|]. split; [done|]. split; [done|].
    cbn. by rewrite app_nil_r.
  - unfold reconcileTasks, send_when_connected. rewrite Hc, checkMaster_Ok by done.
    cbn [mbind outcome_bind]. rewrite sendMessage_Ok by done.
    eexists _, (st :: sts). split; [done|]. split; [done|]. split; [done|].
    cbn. by rewrite write_running.
Qed.

(** ** Where the code falls short *)

(** An application that answers every status update by launching the task
    again. *)
Definition relauncher (t : TaskInfo) : Application :=
  fun h => match last h with
           | Some (cb_statusUpdate _) => [call_launchTasks [] [t] ""]
           | _ => []
           end.

Lemma relaunch_callback `{Os} (t : TaskInfo) (depth : nat) (st : TaskStatus) (w : World) :
  status w = DRIVER_RUNNING → process w = true → connected_ w = false → aborted_ w = false →
  callback (H1 := relauncher t) depth (cb_statusUpdate st) w = Err "call depth".
Proof.
  revert st w. induction depth as [|depth IH]; intros st w Hs Hp Hc Ha; [done|].
  cbn [callback notified set_notified]. unfold react, relauncher. rewrite last_snoc.
  cbn [mfold driver_call]. unfold when_running. cbn [status process set_notified].
  rewrite decide_True, Hp by done. unfold launchTasks. cbn [connected_ set_notified].
  rewrite Hc. cbn [mfold]. unfold report_lost, statusUpdate.
  cbn [aborted_ set_notified set_generated]. rewrite Ha. cbn [mbind outcome_bind].
  unfold str_eqb. rewrite bool_decide_eq_true_2 by done. cbn [mbind outcome_bind].
  rewrite bool_decide_eq_true_2 by done. cbn [CHECK mbind outcome_bind].
  rewrite IH by done. done.
Qed.

(** The driver reports a task it cannot send from inside launchTasks, so an
    application that relaunches lost tasks from its status update callback
    recurses without end while the master is disconnected: no call depth is
    enough for such a launch. *)
Theorem relaunch_never_returns `{Os} (t : TaskInfo) (depth : nat) (w : World) :
  status w = DRIVER_RUNNING → process w = true → connected_ w = false → aborted_ w = false →
  driver_call (callback (H1 := relauncher t) depth) (call_launchTasks [] [t] "") w =
  Err "call depth".
Proof.
  intros Hs Hp Hc Ha. open_call. unfold when_running, launchTasks.
  rewrite decide_True, Hp, Hc by done. cbn [mfold]. unfold report_lost, statusUpdate.
  cbn [aborted_ set_generated]. rewrite Ha. cbn [mbind outcome_bind].
  unfold str_eqb. rewrite bool_decide_eq_true_2 by done. cbn [mbind outcome_bind].
  rewrite bool_decide_eq_true_2 by done. cbn [CHECK mbind outcome_bind].
  by rewrite relaunch_callback.
Qed.

(** Launching a task before the first registration attempt reports it lost and
    then acknowledges the report through a channel that does not exist. *)
Theorem early_launch_crashes `{Os} (cb : Callback → World → outcome World) (t : TaskInfo)
    (w : World) :
  pNotifyChannel_ w = None → connected_ w = false → aborted_ w = false →
  (∀ c w, ∃ n, cb c w = Ok (set_notified n w)) →
  launchTasks cb [] [t] "" w = Fatal.
Proof.
  intros Hn Hc Ha Hcb. unfold launchTasks. rewrite Hc. cbn [mfold].
  unfold report_lost, statusUpdate. cbn [aborted_ set_generated]. rewrite Ha.
  unfold str_eqb. rewrite bool_decide_eq_true_2 by done. cbn [mbind outcome_bind].
  rewrite bool_decide_eq_true_2 by done. cbn [CHECK mbind outcome_bind].
  destruct (Hcb (cb_statusUpdate (su_status (lost_update "Master Disconnected" t w)))
    (set_generated (S (generated w)) w)) as (n & ->). cbn [mbind outcome_bind].
  unfold statusUpdateAcknowledgement, sendMessage. cbn. by rewrite Ha, Hn.
Qed.

(** A malformed master URL is logged and forgotten: the registration attempt
    succeeds without a connection, writes nothing and schedules no retry. *)
Theorem malformed_url_never_registers `{Redis} `{Os} (e : string) (w : World) :
  Inv w → process w = true → connected_ w = false → aborted_ w = false → master_ w ≠ "" →
  isRunning_ (broker w) = false → parse_url (master_ w) = Err e →
  ∃ w', doReliableRegistration w = Ok w' ∧ written (broker w') = written (broker w) ∧
    timers w' = timers w ∧ connected_ w' = false ∧ isRunning_ (broker w') = false.
Proof.
  intros Hi Hp Hc Ha Hm Hr Hurl. unfold doReliableRegistration, str_eqb, setUrl.
  rewrite Hc, bool_decide_eq_false_2, Ha, Hr, Hurl by done. cbn [orb].
  destruct (createChannels_Ok (set_broker (broker w) w))
    as (w' & -> & Hi' & Hch' & _ & Hw' & Hr' & _ & _ & Hc' & Ht'); try done.
  { by apply inv_set_broker. }
  cbn [mbind outcome_bind]. rewrite sendMessage_Ok by done. eexists. split; [done|].
  cbn in *. rewrite write_stopped by congruence. split_and!; congruence.
Qed.

(** Aborting a driver that is not connected sets its status but not [aborted_],
    so the registration that is under way completes: the aborted driver becomes
    connected and its application is called back. *)
Theorem abort_while_disconnected (cb : Callback → World → outcome World)
    (fid info : string) (c : Channel) (w : World) :
  status w = DRIVER_RUNNING → process w = true → connected_ w = false →
  aborted_ w = false → pNotifyChannel_ w = Some c →
  ∃ w1 w2, driver_abort w = Ok w1 ∧ status w1 = DRIVER_ABORTED ∧
    registered cb (master_ w1) fid info w1 = cb (cb_registered fid info) w2 ∧
    connected_ w2 = true ∧ status w2 = DRIVER_ABORTED.
Proof.
  intros Hs Hp Hc Ha Hn. unfold driver_abort, abort.
  rewrite decide_True, Hp, Hc by done. cbn [CHECK mbind outcome_bind].
  eexists _, _. split; [done|]. split; [done|].
  unfold registered, startHeartbeat, str_eqb. cbn [aborted_ connected_ master_ set_status].
  rewrite Ha, Hc, bool_decide_eq_true_2 by done. cbn [orb negb].
  cbn [pNotifyChannel_ set_flags set_framework set_status]. rewrite Hn.
  cbn [mbind outcome_bind]. done.
Qed.

(** An application whose reply to a callback ends with [abort] is not running when
    the callback is over. *)
Lemma callback_aborts `{Os} `{Application} (depth : nat) (c : Callback) (cs : list DriverCall)
    (w w' : World) :
  react (notified w ++ [c]) = cs ++ [call_abort] →
  callback depth c w = Ok w' → status w' ≠ DRIVER_RUNNING.
Proof.
  intros Hr. destruct depth as [|depth]; [done|]. cbn [callback notified set_notified].
  rewrite Hr, mfold_app. intros Hw. outcome_inv. cbn in Hw. outcome_inv.
  destruct a0 as [s w2]. cbn in *. outcome_inv.
  unfold driver_abort in *. case_decide; outcome_inv; done.
Qed.
