(* ===== verification/SchedulerExamples.v ===== *)
(** * SchedulerExamples: a framework that runs

    A broker, an operating system, a master and an application with concrete
    answers, and the session of a framework that starts, registers, receives an
    offer and launches two tasks, one of which the driver refuses.  The session
    witnesses the hypotheses of the theorems of [SchedulerLaws]. *)

From S2P Require Import Prelude Broker Scheduler SchedulerDriver SchedulerLaws.
#[local] Open Scope string_scope.
#[local] Open Scope list_scope.
#[local] Open Scope Z_scope.

#[local] Instance ex_redis : Redis :=
  {| redis_connect := fun _ => Some 7; redis_valid := fun _ _ => true |}.

#[local] Instance ex_os : Os :=
  {| uuid_generate := fun _ => "uuid"; after_uuid := fun _ => ""; time0 := fun n => 1000 + Z.of_nat n;
     os_user := Some "alice"; job_submit_options_env := None |}.

Definition good_task : TaskInfo :=
  mkTaskInfo "good" "task-1" "slave-1" None (Some "sleep 10") (Some []) "".
Definition bad_task : TaskInfo :=
  mkTaskInfo "bad" "task-2" "slave-1" None None None "".
Definition ex_update : StatusUpdate :=
  mkStatusUpdate "fw-1" (Some "slave-1")
    (mkTaskStatus "task-1" TASK_RUNNING None (Some "slave-1") (Some "u1") None) 5 (Some "u1").

(** Launches both tasks on an offer and takes note of everything else. *)
#[local] Instance ex_app : Application :=
  fun h => match last h with
           | Some (cb_resourceOffers _) =>
               [call_launchTasks ["offer-1"] [good_task; bad_task] "filters"]
           | _ => []
           end.

(** Every message carries the same payload. *)
#[local] Instance ex_json : JsonProtobuf unit :=
  {| FrameworkRegistered_of_json := fun _ => Ok ("fw-1", "master");
     FrameworkReregistered_of_json := fun _ => Ok ("fw-1", "master");
     FrameworkError_of_json := fun _ => Ok "error";
     LostSlave_of_json := fun _ => Ok "slave-1";
     RescindResourceOffer_of_json := fun _ => Ok "offer-1";
     ResourceOffers_of_json := fun _ => Ok ([mkOffer "offer-1" "slave-1" ""], []);
     ExecutorToFramework_of_json := fun _ => Ok ("slave-1", "fw-1", "executor-1", "data");
     StatusUpdate_of_json := fun _ => Ok (ex_update, "") |}.

#[local] Instance MessageType_eq_dec : EqDecision MessageType.
Proof. solve_decision. Defined.

#[local] Instance enabled_dec (e : Event (Json := unit)) (w : World) : Decision (enabled e w).
Proof. destruct e; cbn; apply _. Defined.

(** A session: events that are enabled, one after the other. *)
Definition ex_session (evs : list (Event (Json := unit))) (w : World) : outcome World :=
  mfold (fun w e => if decide (enabled e w) then run_event 2 e w else Fatal) w evs.

Lemma ex_session_reachable (evs : list Event) (w w' : World) :
  reachable w → ex_session evs w = Ok w' → reachable w'.
Proof.
  unfold ex_session. intros Hw. apply mfold_invariant; [|done]. intros w1 e w2 _ Hr Hs.
  case_decide; [|done]. by eapply reachable_step.
Qed.

Definition ex_new : World :=
  mkWorld (mkFrameworkInfo "alice" "example" None "") "urb://localhost:6379" false
    DRIVER_NOT_STARTED false None (mkFrameworkInfo "alice" "example" None "") false ""
    false false ∅ ∅ new_broker [] 0 [].

Definition ex_message (target : string) : Event := ev_input (mkInMessage VALID target tt).

Definition ex_registration : list Event :=
  [ev_call call_start; ev_timer (doReliableRegistration_after 0);
   ex_message "FrameworkRegisteredMessage"].

Definition the_world (r : outcome World) : World :=
  match r with Ok w => w | _ => ex_new end.

(** Registered, and after the offer. *)
Definition ex_registered : World :=
  Eval vm_compute in the_world (ex_session ex_registration ex_new).
Definition ex_launched : World :=
  Eval vm_compute in the_world (ex_session (ex_registration ++ [ex_message "ResourceOffersMessage"]) ex_new).

Lemma ex_new_reachable : reachable ex_new.
Proof.
  apply (reachable_new (mkFrameworkInfo "" "example" None "") "urb://localhost:6379").
  reflexivity.
Qed.

Lemma ex_registered_reachable : reachable ex_registered.
Proof.
  apply (ex_session_reachable ex_registration ex_new); [apply ex_new_reachable|].
  vm_compute. reflexivity.
Qed.

Lemma ex_launched_reachable : reachable ex_launched.
Proof.
  apply (ex_session_reachable (ex_registration ++ [ex_message "ResourceOffersMessage"]) ex_new);
    [apply ex_new_reachable|].
  vm_compute. reflexivity.
Qed.

(** The messages of the session: the registration, the acknowledgement of the
    refused task's update, and the launch of the accepted one. *)
Example ex_session_messages :
  target ∘ w_message <$> written (broker ex_launched) =
  ["RegisterFrameworkMessage"; "StatusUpdateAcknowledgementMessage"; "LaunchTasksMessage"].
Proof. vm_compute. reflexivity. Qed.

(** ** The theorems at the session *)

Definition ex_offers : Event := ex_message "ResourceOffersMessage".

Lemma ex_offers_enabled : enabled ex_offers ex_registered.
Proof. apply (bool_decide_unpack (enabled ex_offers ex_registered)). vm_compute. exact I. Qed.

Lemma ex_app_launches_elsewhere : launches_elsewhere.
Proof.
  intros h st c. unfold react, ex_app. rewrite last_snoc. by intros ?%not_elem_of_nil.
Qed.

Lemma ex_app_ignores_updates : ignores_updates.
Proof. intros h st. unfold react, ex_app. by rewrite last_snoc. Qed.



(** The driver after [abort], and a kill that must stay silent. *)
Definition ex_aborted : World :=
  Eval vm_compute in the_world (ex_session (ex_registration ++ [ev_call call_abort; ev_call call_start]) ex_new).

Lemma ex_aborted_reachable : reachable ex_aborted.
Proof.
  apply (ex_session_reachable (ex_registration ++ [ev_call call_abort; ev_call call_start]) ex_new);
    [apply ex_new_reachable|].
  vm_compute. reflexivity.
Qed.

Lemma driver_call_speaks_in_turn_witness :
  aborted_ ex_aborted = true ∧ status ex_aborted = DRIVER_RUNNING ∧
  ∃ w', driver_call (callback 2) (call_launchTasks [] [good_task] "") ex_aborted =
          Ok (DRIVER_RUNNING, w') ∧
    written (broker w') = written (broker ex_aborted).
Proof.
  split; [vm_compute; reflexivity|]. split; [vm_compute; reflexivity|].
  destruct (driver_call (callback 2) (call_launchTasks [] [good_task] "") ex_aborted)
    as [[s w']|e|] eqn:E; [|vm_compute in E; discriminate E..].
  exists w'. split; [vm_compute in E |- *; congruence|].
  destruct (driver_call_speaks_in_turn 2 (call_launchTasks [] [good_task] "") s ex_aborted w')
    as (_ & _ & _ & _ & l & Hl & _ & Hnil);
    [exact ex_aborted_reachable|vm_compute; reflexivity|exact E|].
  rewrite Hl, Hnil; [by rewrite app_nil_r|vm_compute; reflexivity].
Defined.

Lemma launch_sends_accepted_witness :
  ∃ w' l source,
    launchTasks (callback 2) ["offer-1"] [bad_task; good_task] "filters" ex_registered = Ok w' ∧
    written (broker w') = written (broker ex_registered) ++ l ++
      [mkWritten MASTER_BROKER_MESOS_ENDPOINT source
         (LaunchTasksMessage "fw-1" ["offer-1"]
            [mkTaskInfo "good" "task-1" "slave-1" None (Some "sleep 10") None ""] "filters")].
Proof.
  destruct (launchTasks (callback 2) ["offer-1"] [bad_task; good_task] "filters" ex_registered)
    as [w'|e|] eqn:E; [|vm_compute in E; discriminate E..].
  destruct (launch_sends_accepted 2 ["offer-1"] [bad_task; good_task] "filters"
    ex_registered w') as (l & source & Hl);
    [exact ex_registered_reachable|vm_compute; reflexivity|vm_compute; reflexivity|exact E|].
  exists w', l, source. split; [reflexivity|exact Hl].
Defined.

Lemma launch_accounts_for_every_task_witness :
  ∃ w', launchTasks (callback 1) ["offer-1"] [bad_task; good_task] "filters" ex_registered = Ok w' ∧
    notified w' = notified ex_registered ++
      [cb_statusUpdate (lost_status "TaskInfo must have either an 'executor' or a 'command'"
         bad_task)] ∧
    activeTasks_ w' !! "task-1" = Some TASK_STAGING ∧ activeTasks_ w' !! "task-2" = None.
Proof.
  destruct (launch_accounts_for_every_task 0 ["offer-1"] [bad_task; good_task] "filters"
    ex_registered) as (w' & E & Hn & Ha);
    [exact ex_registered_reachable|vm_compute; reflexivity|vm_compute; reflexivity|
     exact ex_app_ignores_updates|apply (bool_decide_unpack _); vm_compute; exact I|].
  exists w'. split; [exact E|]. split; [exact Hn|].
  split; [exact (Ha good_task ltac:(right; left))|exact (Ha bad_task ltac:(left))].
Defined.


Lemma reconcile_asks_for_staging_witness :
  ∃ w' statuses, checkReconcile ex_launched = Ok w' ∧
    written (broker w') = written (broker ex_launched) ++
      [mkWritten MASTER_BROKER_MESOS_ENDPOINT "urb.endpoint.7"
         (ReconcileTasksMessage "fw-1" statuses)] ∧ "task-1" ∈ ts_task_id <$> statuses.
Proof.
  destruct (reconcile_asks_for_staging ex_launched) as (w' & sts & E & _ & Hin & Hw & _);
    [exact ex_launched_reachable|vm_compute; reflexivity|vm_compute; reflexivity|].
  assert (Ht : "task-1" ∈ ts_task_id <$> sts) by (apply Hin; vm_compute; reflexivity).
  exists w', sts. split; [exact E|]. split; [|exact Ht]. rewrite Hw.
  rewrite decide_False by (intros ->; exact (not_elem_of_nil _ Ht)).
  reflexivity.
Defined.

(** Started, and not yet connected. *)
Definition ex_started : World :=
  Eval vm_compute in the_world (ex_session [ev_call call_start] ex_new).

Lemma relaunch_never_returns_witness :
  driver_call (callback (H1 := relauncher good_task) 5) (call_launchTasks [] [good_task] "")
    ex_started = Err "call depth".
Proof. apply relaunch_never_returns; vm_compute; reflexivity. Defined.
