(* ===== verification/Wire.v ===== *)
(** * Wire: a protobuf message from process to process

    [setPayload] and [sendMesosMessage] of the two processes: a message is
    converted ([JsonProtobuf.v]), put under the name of its type into the payload
    of a broker message ([MessageBroker.v]) and written as text.  The service reads
    it and forwards what is under that name; its handler for the messages from
    executors to frameworks ([executor_to_framework] of mesos_handler.py) is
    translated here.  The receiver parses the text of the service, and
    [SchedulerNotifyCallback::onInput] ([SchedulerDriver.v]) decodes the whole
    payload.

    [mesos_pool] holds the types of messages.proto and mesos.proto whose fields
    are all modelled; the others are the parameter [rest].  [mesos_decoders]
    instantiates the decoders of the scheduler with the conversion. *)

From Stdlib Require Import Ascii String SpecFloat.
From S2P Require Import Prelude Binary64 Base64 StoutStrings Url Broker Scheduler SchedulerDriver SchedulerExamples Assoc Json MessageBroker JsonProtobuf JsonProtobufLaws.
#[local] Open Scope string_scope.
#[local] Open Scope list_scope.
#[local] Open Scope Z_scope.

(** ** Sending *)

Section send.
Context (pool : Pool).

(** [UrbSchedulerProcess::setPayload] and [UrbExecutorProcess::setPayload]:
    [message.getPayloadAsJson()[gmessage.GetTypeName()] = json]. *)
Definition set_proto_payload (typeName : string) (gmessage : ProtoMessage) (message : Message)
    : outcome Message :=
  json ← convert_to_json pool typeName gmessage JNull;
  payload ← update_member typeName (fun _ => Ok json) (payloadJson_ message);
  Ok (setPayload payload message).

(** The message that [sendMesosMessage] writes to the channel. *)
Definition mesos_message (typeName : string) (gmessage : ProtoMessage) (target : string)
    : outcome Message :=
  set_proto_payload typeName gmessage (setTarget target Message_default).

(** The overload with the data of the extension. *)
Definition mesos_message_ext (typeName : string) (gmessage : ProtoMessage) (target : string)
    (extData : Json) : outcome Message :=
  m ← mesos_message typeName gmessage target;
  Ok (setExtPayload extData m).

End send.

(** ** The types *)

Definition string_field (type name : string) (n : Z) (l : Label) : FieldDescriptor :=
  mkField name (type ++ "." ++ name) n TYPE_STRING l [] "".
Definition bytes_field (type name : string) (n : Z) : FieldDescriptor :=
  mkField name (type ++ "." ++ name) n TYPE_BYTES LABEL_REQUIRED [] "".
Definition message_field (type name : string) (n : Z) (l : Label) (t : string) : FieldDescriptor :=
  mkField name (type ++ "." ++ name) n TYPE_MESSAGE l [] t.

(** [FrameworkID], [OfferID], [SlaveID], [TaskID] and [ExecutorID]. *)
Definition id_type (type : string) : Descriptor :=
  [string_field type "value" 1 LABEL_REQUIRED].

Definition ExecutorToFrameworkMessage_type : string := "mesos.internal.ExecutorToFrameworkMessage".
Definition FrameworkToExecutorMessage_type : string := "mesos.internal.FrameworkToExecutorMessage".
Definition StatusUpdateAcknowledgementMessage_type : string :=
  "mesos.internal.StatusUpdateAcknowledgementMessage".
Definition LostSlaveMessage_type : string := "mesos.internal.LostSlaveMessage".
Definition RescindResourceOfferMessage_type : string := "mesos.internal.RescindResourceOfferMessage".
Definition FrameworkErrorMessage_type : string := "mesos.internal.FrameworkErrorMessage".

(** The two messages that carry data between a framework and its executor. *)
Definition data_type (type : string) : Descriptor :=
  [message_field type "slave_id" 1 LABEL_REQUIRED "mesos.SlaveID";
   message_field type "framework_id" 2 LABEL_REQUIRED "mesos.FrameworkID";
   message_field type "executor_id" 3 LABEL_REQUIRED "mesos.ExecutorID";
   bytes_field type "data" 4].

Definition schema : list (string * Descriptor) :=
  ((fun t => (t, id_type t)) <$>
     ["mesos.FrameworkID"; "mesos.OfferID"; "mesos.SlaveID"; "mesos.TaskID"; "mesos.ExecutorID"]) ++
  [(ExecutorToFrameworkMessage_type, data_type ExecutorToFrameworkMessage_type);
   (FrameworkToExecutorMessage_type, data_type FrameworkToExecutorMessage_type);
   (StatusUpdateAcknowledgementMessage_type,
    let t := StatusUpdateAcknowledgementMessage_type in
    [message_field t "slave_id" 1 LABEL_REQUIRED "mesos.SlaveID";
     message_field t "framework_id" 2 LABEL_REQUIRED "mesos.FrameworkID";
     message_field t "task_id" 3 LABEL_REQUIRED "mesos.TaskID";
     bytes_field t "uuid" 4]);
   (LostSlaveMessage_type,
    [message_field LostSlaveMessage_type "slave_id" 1 LABEL_REQUIRED "mesos.SlaveID"]);
   (RescindResourceOfferMessage_type,
    [message_field RescindResourceOfferMessage_type "offer_id" 1 LABEL_REQUIRED "mesos.OfferID"]);
   (FrameworkErrorMessage_type,
    [string_field FrameworkErrorMessage_type "message" 2 LABEL_REQUIRED])].

Definition mesos_pool (rest : Pool) : Pool := fun type =>
  match List.find (fun p => String.eqb (fst p) type) schema with
  | Some p => snd p
  | None => rest type
  end.

(** ** Building and reading messages *)

Definition id_message (value : string) : ProtoMessage := mkProto [(1, [PbString value])].

Definition ExecutorToFrameworkMessage (slave framework executor data : string) : ProtoMessage :=
  mkProto [(1, [PbMessage (id_message slave)]); (2, [PbMessage (id_message framework)]);
           (3, [PbMessage (id_message executor)]); (4, [PbString data])].

(** The accessors of a string and of a sub-message; their defaults are empty. *)
Definition get_string (n : Z) (m : ProtoMessage) : string :=
  match alookup n (fields m) with Some (PbString s :: _) => s | _ => "" end.
Definition get_message (n : Z) (m : ProtoMessage) : ProtoMessage :=
  match alookup n (fields m) with Some (PbMessage sub :: _) => sub | _ => default_message end.
Definition get_id (n : Z) (m : ProtoMessage) : string := get_string 1 (get_message n m).

Section receive.
Context (rest : Pool) (u : nat → Z) `{JsonText}.

Definition decoded (typeName : string) (j : Json) : outcome ProtoMessage :=
  update_from_json (mesos_pool rest) u typeName j default_message.

(** The decoders of [onInput]; the messages that carry offers, status updates and
    the description of the master have types outside [schema]. *)
Definition mesos_decoders (other : SchedulerDriver.JsonProtobuf Json)
    : SchedulerDriver.JsonProtobuf Json := {|
  SchedulerDriver.FrameworkRegistered_of_json := SchedulerDriver.FrameworkRegistered_of_json;
  SchedulerDriver.FrameworkReregistered_of_json := SchedulerDriver.FrameworkReregistered_of_json;
  SchedulerDriver.FrameworkError_of_json := fun j =>
    get_string 2 <$> decoded FrameworkErrorMessage_type j;
  SchedulerDriver.LostSlave_of_json := fun j => get_id 1 <$> decoded LostSlaveMessage_type j;
  SchedulerDriver.RescindResourceOffer_of_json := fun j =>
    get_id 1 <$> decoded RescindResourceOfferMessage_type j;
  SchedulerDriver.ResourceOffers_of_json := SchedulerDriver.ResourceOffers_of_json;
  SchedulerDriver.ExecutorToFramework_of_json := fun j =>
    m ← decoded ExecutorToFrameworkMessage_type j;
    Ok (get_id 1 m, get_id 2 m, get_id 3 m, get_string 4 m);
  SchedulerDriver.StatusUpdate_of_json := SchedulerDriver.StatusUpdate_of_json |}.

End receive.

(** ** The service in between

    The processes do not write to each other: what they send goes to the service,
    a Python program, which takes the message out of the payload and forwards it
    as the whole payload of a message of its own.  The [json] module of Python is
    the parameter [PyJson]; its laws speak of texts without numbers that are not
    integers and without characters outside ASCII. *)

Class PyJson := {
  py_loads : string → outcome Json;
  py_dumps : Json → string }.

Definition plain_char (c : ascii) : bool := (0 <? nat_of_ascii c)%nat && (nat_of_ascii c <? 128)%nat.
Definition plain_text (s : string) : bool := forallb plain_char (list_ascii_of_string s).

Fixpoint plain_json (j : Json) : bool :=
  match j with
  | JString s => plain_text s
  | JReal _ => false
  | JArray l => forallb plain_json l
  | JObject l => forallb (fun '(k, v) => plain_text k && plain_json v) l
  | _ => true
  end.

Class PyJsonLaws `{JsonText} `{PyJson} : Prop := {
  py_loads_write : ∀ j, json_wf j = true → plain_json j = true →
    (json_depth j ≤ stackLimit)%nat → py_loads (json_write j) = Ok j;
  json_parse_dumps : ∀ j, json_wf j = true → plain_json j = true →
    (json_depth j ≤ stackLimit)%nat → json_parse (py_dumps j) = j }.

(** [d.get(k, default)] and [d[k]] of a Python dictionary. *)
Definition dict_get (k : string) (d : Json) (j : Json) : outcome Json :=
  match j with
  | JObject l => Ok (default d (member k l))
  | _ => Err "AttributeError"
  end.
Definition dict_item (k : string) (j : Json) : outcome Json :=
  match j with
  | JObject l => match member k l with Some v => Ok v | None => Err "KeyError" end
  | _ => Err "TypeError"
  end.

(** [not message]. *)
Definition py_falsy (j : Json) : bool :=
  match j with
  | JNull => true
  | JBool b => negb b
  | JInt z => z =? 0
  | JReal d => match d with S754_zero _ => true | _ => false end
  | JString s => String.eqb s ""
  | JArray l => bool_decide (l = [])
  | JObject l => match l with [] => true | _ => false end
  end.

(** [Message.__init__] of the service; the keys in the order of their names. *)
Definition service_message (source_id target : string) (payload : Json) : Json :=
  JObject [("payload", payload); ("payload_type", JString "json");
           ("source_id", JString source_id); ("target", JString target)].

(** What the service does with a request: nothing, an event for a framework that
    polls over HTTP, a text written to a channel, or another attempt later. *)
Inductive Relayed :=
  | relay_nothing
  | relay_http (message : Json)
  | relay_write (channel text : string)
  | relay_retry.

Section service.
Context `{PyJson}.

(** [send_executor_message]. *)
Definition send_executor_message (name channel_name : string) (message : Json) : Relayed :=
  relay_write channel_name
    (py_dumps (service_message name "ExecutorToFrameworkMessage" message)).

(** [executor_to_framework]; [frameworks] gives the channel of a framework that the
    service knows, and [name] is the channel of the service. *)
Definition executor_to_framework (frameworks : string → option string) (name : string)
    (request : Json) : outcome Relayed :=
  payload ← dict_get "payload" (JObject []) request;
  message ← dict_get "mesos.internal.ExecutorToFrameworkMessage" JNull payload;
  if py_falsy message then Ok relay_nothing
  else
    framework_id ← dict_item "framework_id" message;
    value ← dict_item "value" framework_id;
    match value with
    | JString id =>
        match frameworks id with
        | Some channel_name =>
            if String.eqb channel_name "http" then
              match message with
              | JObject l => Ok (relay_http (JObject (adelete "framework_id" l)))
              | _ => Err "TypeError"
              end
            else Ok (send_executor_message name channel_name message)
        | None => Ok relay_retry
        end
    | JArray _ | JObject _ => Err "TypeError"
    | _ => Ok relay_retry
    end.

End service.

(** ** Across the broker *)

(** The text that [RedisChannel::write] pushes: it sets the source first. *)
Definition pushed_text `{JsonText} (endpointIdStr : string) (message : Message) : string :=
  toNetworkMessage (setSourceId endpointIdStr message).

Lemma message_reaches pool `{JsonTextLaws} typeName gmessage target endpoint ms :
  convert_to_json pool typeName gmessage JNull = Ok (JObject ms) →
  json_wf (JObject ms) = true → (S (json_depth (JObject ms)) < stackLimit)%nat →
  ∃ m, mesos_message pool typeName gmessage target = Ok m ∧
    json_wf (network_root (setSourceId endpoint m)) = true ∧
    (json_depth (network_root (setSourceId endpoint m)) ≤ stackLimit)%nat ∧
    network_root (setSourceId endpoint m) =
      JObject [("ext_payload", extPayload_ Message_default);
               ("payload", JObject [(typeName, JObject ms)]); ("payload_type", JString "json");
               ("source_id", JString endpoint); ("target", JString target)] ∧
    Message_of_json (json_parse (pushed_text endpoint m)) =
      Ok (setSourceId endpoint
            (setPayload (JObject [(typeName, JObject ms)]) (setTarget target Message_default))).
Proof.
  intros E1 E3 E4.
  set (m := setPayload (JObject [(typeName, JObject ms)]) (setTarget target Message_default)).
  assert (Hs : sendable (payloadJson_ m) = true).
  { apply sendable_spec. cbn in E3, E4 |- *. rewrite E3. cbn. unfold stackLimit in *. lia. }
  exists m. split_and!; [|by apply network_root_wf..|done|by apply (message_received (setSourceId endpoint m))].
  unfold mesos_message, set_proto_payload. by rewrite E1.
Qed.

(** A message of the service, as [Message(Json::Value)] reads it. *)
Lemma service_message_received `{JsonText} source target payload :
  Message_of_json (service_message source target payload) =
  Ok (setPayload payload (setSourceId source (setTarget target Message_default))).
Proof. done. Qed.


(** ** From an executor to its framework *)

Lemma schema_ok : Forall (λ p, descriptor_ok p.2) schema.
Proof. apply (bool_decide_unpack _). by vm_compute. Qed.

Lemma mesos_pool_ok rest : pool_ok rest → pool_ok (mesos_pool rest).
Proof.
  intros Hr type. unfold mesos_pool. destruct (List.find _ schema) as [p|] eqn:E; [|apply Hr].
  apply find_some in E as [E _]. pose proof schema_ok as Hs. rewrite Forall_forall in Hs.
  by apply Hs, list_elem_of_In.
Qed.

Lemma ExecutorToFrameworkMessage_ok rest slave framework executor data :
  msg_ok (mesos_pool rest) ExecutorToFrameworkMessage_type
    (ExecutorToFrameworkMessage slave framework executor data) = true.
Proof. reflexivity. Qed.

(** *** The code is plain text *)

Lemma encode_value_plain v : plain_char (base64_encode_value v) = true.
Proof.
  unfold base64_encode_value. destruct (v >? 63); [done|].
  destruct (nth_in_or_default (Z.to_nat v) encoding newline) as [Hin| ->]; [|done].
  assert (Ha : forallb plain_char encoding = true) by (by vm_compute).
  rewrite forallb_forall in Ha. by apply Ha.
Qed.

Lemma encode_block_plain l s : forallb plain_char (base64_encode_block l s).1 = true.
Proof.
  revert s. induction l as [|c l IH]; intros s; [done|]. cbn [base64_encode_block].
  destruct (encode_char c s) as [out s1] eqn:Ec.
  specialize (IH s1). destruct (base64_encode_block l s1) as [out' s2]. cbn in IH |- *.
  rewrite forallb_app, IH, andb_true_r. unfold encode_char in Ec.
  destruct (e_step s); injection Ec as <- _; cbn -[base64_encode_value plain_char].
  1, 2: by rewrite encode_value_plain.
  rewrite !encode_value_plain. by destruct (_ =? _).
Qed.

Lemma encode_string_plain s code : encode_string s = Ok code → plain_text code = true.
Proof.
  unfold encode_string, plain_text. rewrite encode_whole by done. intros [= <-].
  rewrite list_ascii_of_string_of_list_ascii, forallb_app, encode_block_plain.
  unfold base64_encode_blockend. destruct (e_step _); cbn -[base64_encode_value plain_char];
    by rewrite ?encode_value_plain.
Qed.

(** The JSON of the message. *)
Lemma ExecutorToFrameworkMessage_json rest slave framework executor data code :
  encode_string data = Ok code →
  convert_to_json (mesos_pool rest) ExecutorToFrameworkMessage_type
    (ExecutorToFrameworkMessage slave framework executor data) JNull =
  Ok (JObject [("data", JString code); ("executor_id", JObject [("value", JString executor)]);
               ("framework_id", JObject [("value", JString framework)]);
               ("slave_id", JObject [("value", JString slave)])]).
Proof.
  intros E. lazy -[encode_string]. by rewrite E.
Qed.

(** C18: The data that an executor sends reaches the framework's callback.  The
    message of [UrbExecutorProcess::sendFrameworkMessage], converted and written,
    is read by the service, whose handler writes to the channel of the framework
    a text that the scheduler process parses and decodes, and then it calls
    [frameworkMessage] of the application with the same ids and the same bytes,
    whatever the bytes are.  The ids and the names of the channel of the service
    and of the endpoint of the executor are ASCII, the service knows the framework
    by a channel that is not HTTP, and the driver is not aborted. *)
Theorem executor_data_arrives rest u `{JsonTextLaws} `{!PyJson} `{!PyJsonLaws} `{Scheduler.Os} other cb
    frameworks channel name endpoint slave framework executor data w :
  pool_ok rest → plain_text endpoint = true → plain_text slave = true → plain_text framework = true →
  plain_text executor = true → plain_text name = true →
  frameworks framework = Some channel → channel ≠ "http" → Scheduler.aborted_ w = false →
  ∃ m request text m',
    mesos_message (mesos_pool rest) ExecutorToFrameworkMessage_type
      (ExecutorToFrameworkMessage slave framework executor data)
      "ExecutorToFrameworkMessage" = Ok m ∧
    py_loads (pushed_text endpoint m) = Ok request ∧
    dict_item "target" request = Ok (JString "ExecutorToFrameworkMessage") ∧
    executor_to_framework frameworks name request = Ok (relay_write channel text) ∧
    Message_of_json (json_parse text) = Ok m' ∧
    SchedulerDriver.onInput (H0 := mesos_decoders rest u other) cb
      (SchedulerDriver.mkInMessage SchedulerDriver.VALID (target_ m') (payloadJson_ m')) w =
    cb (Scheduler.cb_frameworkMessage executor slave data) w.
Proof.
  intros Hr Hep Hs Hf He Hn Hfw Hch Ha.
  destruct (encode_decode_string u data) as (code & Ec & _).
  pose proof (ExecutorToFrameworkMessage_json rest slave framework executor data code Ec) as Ej.
  apply encode_string_plain in Ec.
  destruct (msg_roundtrips (mesos_pool rest) (mesos_pool_ok rest Hr) u
    (ExecutorToFrameworkMessage slave framework executor data) ExecutorToFrameworkMessage_type eq_refl)
    as (ms & E1 & E2 & E3 & E4).
  rewrite Ej in E1. injection E1 as <-.
  destruct (message_reaches (mesos_pool rest) ExecutorToFrameworkMessage_type
    (ExecutorToFrameworkMessage slave framework executor data) "ExecutorToFrameworkMessage" endpoint _ Ej)
    as (m & Em & Hwf & Hd & Hroot & _); [done|cbn; unfold stackLimit; lia|].
  eexists m, (network_root (setSourceId endpoint m)), _, _. split; [done|].
  split; [apply py_loads_write; [done| |done]; rewrite Hroot; cbn -[plain_text] | ].
  { rewrite Ec, Hep, Hs, Hf, He. done. }
  rewrite Hroot. split; [done|]. split.
  { unfold executor_to_framework. cbn. rewrite Hfw.
    apply String.eqb_neq in Hch. rewrite Hch. done. }
  rewrite json_parse_dumps; [|done|..].
  2: { cbn -[plain_text]. rewrite Ec, Hs, Hf, He, Hn. done. }
  2: { cbn; unfold stackLimit; lia. }
  split; [apply service_message_received|].
  unfold SchedulerDriver.onInput. cbn -[decoded]. unfold decoded. rewrite E2. cbn.
  unfold Scheduler.frameworkMessage. by rewrite Ha.
Qed.

(** ** At a concrete message *)

Module WireExample.

Definition ex_rest : Pool := fun _ => [].

Lemma ex_rest_ok : pool_ok ex_rest.
Proof. intros type. apply (bool_decide_unpack _). by vm_compute. Qed.

Definition ex_data : string := String "000" (String "200" "abc").

Definition ex_message : ProtoMessage :=
  ExecutorToFrameworkMessage "slave-1" "fw-1" "executor-1" ex_data.

#[local] Existing Instance MessageBrokerSession.binary_text.
#[local] Existing Instance MessageBrokerSession.binary_text_laws.


Lemma json_protobuf_roundtrip_witness :
  ∃ j, convert_to_json (mesos_pool ex_rest) ExecutorToFrameworkMessage_type ex_message JNull = Ok j ∧
       update_from_json (mesos_pool ex_rest) (fun _ => 3)
         ExecutorToFrameworkMessage_type j default_message = Ok ex_message ∧
       json_wf j = true ∧ (json_depth j ≤ 2 * msg_depth ex_message + 1)%nat.
Proof.
  apply (json_protobuf_roundtrip (mesos_pool ex_rest) (fun _ => 3));
    [apply mesos_pool_ok, ex_rest_ok|reflexivity].
Defined.

(** Members in another order than the fields, and a field that is given twice. *)
Definition ex_json : Json :=
  JObject [("executor_id", JObject [("value", JString "e")]);
           ("slave_id", JObject [("value", JString "s")])].

Lemma update_keeps_type_witness :
  ∃ m', update_from_json (mesos_pool ex_rest) (fun _ => 3)
          ExecutorToFrameworkMessage_type ex_json ex_message = Ok m' ∧
        msg_typed (mesos_pool ex_rest) ExecutorToFrameworkMessage_type m' = true.
Proof.
  destruct (update_from_json (mesos_pool ex_rest) (fun _ => 3)
    ExecutorToFrameworkMessage_type ex_json ex_message) as [m'|e|] eqn:E;
    [|vm_compute in E; discriminate E..].
  exists m'. split; [reflexivity|].
  eapply (update_keeps_type (mesos_pool ex_rest) (fun _ => 3)
            ExecutorToFrameworkMessage_type ex_json ex_message);
    [apply mesos_pool_ok, ex_rest_ok|reflexivity|exact E].
Defined.

#[local] Instance ex_os : Scheduler.Os :=
  {| Scheduler.uuid_generate := fun _ => "uuid"; Scheduler.after_uuid := fun _ => ""; Scheduler.time0 := fun n => Z.of_nat n;
     Scheduler.os_user := None; Scheduler.job_submit_options_env := None |}.

Definition ex_other : SchedulerDriver.JsonProtobuf Json :=
  {| SchedulerDriver.FrameworkRegistered_of_json := fun _ => Err "";
     SchedulerDriver.FrameworkReregistered_of_json := fun _ => Err "";
     SchedulerDriver.FrameworkError_of_json := fun _ => Err "";
     SchedulerDriver.LostSlave_of_json := fun _ => Err "";
     SchedulerDriver.RescindResourceOffer_of_json := fun _ => Err "";
     SchedulerDriver.ResourceOffers_of_json := fun _ => Err "";
     SchedulerDriver.ExecutorToFramework_of_json := fun _ => Err "";
     SchedulerDriver.StatusUpdate_of_json := fun _ => Err "" |}.

(** A callback that takes note of nothing. *)
Definition quiet (_ : Scheduler.Callback) (w : Scheduler.World) : outcome Scheduler.World := Ok w.

(** A Python that reads and writes the same texts. *)
#[local] Instance ex_python : PyJson :=
  {| py_loads := fun text => Ok (json_parse text); py_dumps := json_write |}.

#[local] Instance ex_python_laws : PyJsonLaws.
Proof. split; intros j Hw _ Hd; cbn -[json_parse json_write]; by rewrite json_parse_write. Qed.

Definition ex_frameworks (id : string) : option string :=
  if String.eqb id "fw-1" then Some "urb.framework.1" else None.

Lemma executor_data_arrives_witness :
  ∃ m request text m',
    mesos_message (mesos_pool ex_rest) ExecutorToFrameworkMessage_type ex_message
      "ExecutorToFrameworkMessage" = Ok m ∧
    py_loads (pushed_text "urb.endpoint.7" m) = Ok request ∧
    dict_item "target" request = Ok (JString "ExecutorToFrameworkMessage") ∧
    executor_to_framework ex_frameworks "urb.endpoint.0.mesos" request =
      Ok (relay_write "urb.framework.1" text) ∧
    Message_of_json (json_parse text) = Ok m' ∧
    SchedulerDriver.onInput (H0 := mesos_decoders ex_rest (fun _ => 3) ex_other) quiet
      (SchedulerDriver.mkInMessage SchedulerDriver.VALID (target_ m') (payloadJson_ m'))
      SchedulerExamples.ex_new =
    quiet (Scheduler.cb_frameworkMessage "executor-1" "slave-1" ex_data) SchedulerExamples.ex_new.
Proof.
  apply (executor_data_arrives ex_rest (fun _ => 3) ex_other quiet ex_frameworks "urb.framework.1");
    [exact ex_rest_ok|reflexivity..| |reflexivity].
  discriminate.
Defined.

(** What an executor writes is not what a scheduler reads: without the service in
    between the payload does not decode, and the exception ends the process. *)
Example executor_payload_needs_the_service :
  ∃ m m',
    mesos_message (mesos_pool ex_rest) ExecutorToFrameworkMessage_type ex_message
      "ExecutorToFrameworkMessage" = Ok m ∧
    Message_of_json (json_parse (pushed_text "urb.endpoint.7" m)) = Ok m' ∧
    SchedulerDriver.onInput (H0 := mesos_decoders ex_rest (fun _ => 3) ex_other) quiet
      (SchedulerDriver.mkInMessage SchedulerDriver.VALID (target_ m') (payloadJson_ m'))
      SchedulerExamples.ex_new = Fatal.
Proof.
  destruct (message_reaches (mesos_pool ex_rest) ExecutorToFrameworkMessage_type ex_message
    "ExecutorToFrameworkMessage" "urb.endpoint.7" [("data", JString "AMhhYmM=
");
     ("executor_id", JObject [("value", JString "executor-1")]);
     ("framework_id", JObject [("value", JString "fw-1")]);
     ("slave_id", JObject [("value", JString "slave-1")])]) as (m & E1 & _ & _ & _ & E2);
    [by vm_compute|done|cbn; unfold stackLimit; lia|].
  eexists m, _. split_and!; [exact E1|exact E2|by vm_compute].
Qed.

(** An empty sub-message is written as null, and null is refused. *)
Definition nested : Pool := fun type =>
  if String.eqb type "Resource" then [message_field "Resource" "revocable" 9 LABEL_OPTIONAL "RevocableInfo"]
  else [].

Example revocable_resource_rejected :
  ∃ j, convert_to_json nested "Resource" (mkProto [(9, [PbMessage default_message])]) JNull = Ok j ∧
       update_from_json nested (fun _ => 0) "Resource" j
         default_message = Err "expecting JSON object type".
Proof. eexists. split; reflexivity. Qed.

End WireExample.
