(* ===== verification/Python.v ===== *)
(** * Python: the interpreter as the Python bindings see it (native_common/common.hpp)

    The extension modules of python-bindings/ run inside CPython.  The model
    keeps what they owe to the interpreter: the number of strong references they
    own, the pending exception and the interpreter lock; and what they do to the
    driver: the calls on it, in order.

    [PyM A] passes this state along; a null pointer is [None].  The Python code
    on the other side (the classes of mesos_pb2, the application's objects) and
    the serialization of protobuf are parameters. *)

From S2P Require Import Prelude StoutStrings.

(** The objects that cross the boundary. *)
Inductive PyObject :=
  | Py_None
  | PyInt (z : Z)
  | PyString (s : string)
  | PyList (items : list PyObject)
  | PyMessage (typeName bytes : string)
  | PyInstance (name : string).

(** An entry of the module mesos_pb2. *)
Inductive PbEntry := NoEntry | NotAType | AType.

(** The result of [obj.SerializeToString()]. *)
Inductive PyResult := Raises | Returns (o : PyObject).

Class Interpreter := {
  pb2_entry : string → PbEntry;
  FromString : string → string → option PyObject;
  SerializeToString_of : PyObject → PyResult }.

Section PyM.
(** [Call] is the type of the calls on the driver. *)
Context {Call : Type}.

Record Py := mkPy {
  refs : Z;
  err : option string;
  gil : Z;
  calls : list Call }.

Definition PyM (A : Type) : Type := Py → A * Py.
#[global] Instance PyM_ret : MRet PyM := fun A a st => (a, st).
#[global] Instance PyM_bind : MBind PyM := fun A B f m st => let '(a, st') := m st in f a st'.

Definition add_refs (n : Z) : PyM unit := fun st =>
  (tt, mkPy (refs st + n) (err st) (gil st) (calls st)).
Definition set_err (e : option string) : PyM unit := fun st =>
  (tt, mkPy (refs st) e (gil st) (calls st)).
Definition add_gil (n : Z) : PyM unit := fun st =>
  (tt, mkPy (refs st) (err st) (gil st + n) (calls st)).
(** A call on the driver. *)
Definition driver_do (c : Call) : PyM unit := fun st =>
  (tt, mkPy (refs st) (err st) (gil st) (calls st ++ [c])%list).
Definition driver_did (cs : list Call) : PyM unit := fun st =>
  (tt, mkPy (refs st) (err st) (gil st) (calls st ++ cs)%list).

Definition PyErr_Format (msg : string) : PyM unit := set_err (Some msg).
Definition PyErr_Occurred : PyM bool := fun st => (has (err st), st).
Definition PyErr_Print : PyM unit := set_err None.

(** A function that returns a new reference, or raises. *)
Definition new_ref (o : option PyObject) : PyM (option PyObject) :=
  match o with
  | Some x => _ ← add_refs 1; mret (Some x)
  | None => _ ← set_err (Some "exception"); mret None
  end.
Definition Py_XDECREF (o : option PyObject) : PyM unit :=
  match o with Some _ => add_refs (-1) | None => mret tt end.

(** [InterpreterLock lock;] for the rest of the block. *)
Definition InterpreterLock {A : Type} (body : PyM A) : PyM A :=
  _ ← add_gil 1; a ← body; _ ← add_gil (-1); mret a.

(** [PyObject_CallMethod] on the application's object: [method] is what the
    object does now, the calls it makes on the driver and the object it returns,
    [None] when it raises. *)
Definition PyObject_CallMethod (method : string → list PyObject → list Call * option PyObject)
    (name : string) (args : list PyObject) : PyM (option PyObject) :=
  let '(cs, res) := method name args in
  _ ← driver_did cs; new_ref res.

(** ** common.hpp *)

Section Common.
Context `{Interpreter}.

(** [T] is the C++ message, [parse] its [ParseFromZeroCopyStream]. *)
Definition readPythonProtobuf {T : Type} (parse : string → option T) (obj : PyObject)
    : PyM (option T) :=
  match obj with
  | Py_None => mret None
  | _ =>
      match SerializeToString_of obj with
      | Raises => _ ← set_err (Some "exception"); _ ← PyErr_Print; mret None
      | Returns res =>
          _ ← add_refs 1;
          match res with
          | PyString bytes => _ ← add_refs (-1); mret (parse bytes)
          | _ =>
              _ ← set_err (Some "expected string"); _ ← PyErr_Print;
              _ ← add_refs (-1); mret None
          end
      end
  end.

(** [str] is the result of [t.SerializeToString(&str)]. *)
Definition createPythonProtobuf (str : option string) (typeName : string)
    : PyM (option PyObject) :=
  match pb2_entry typeName with
  | NoEntry => _ ← PyErr_Format ("Could not resolve mesos_pb2." ++ typeName); mret None
  | NotAType => _ ← PyErr_Format ("mesos_pb2." ++ typeName ++ " is not a type"); mret None
  | AType =>
      match str with
      | None => _ ← PyErr_Format ("C++ " ++ typeName ++ " SerializeToString failed"); mret None
      | Some str => new_ref (FromString typeName str)
      end
  end.
End Common.

(** ** [PyArg_ParseTuple]

    The formats that the bindings use: any object, a string without NUL, a
    string with its length, an int, a byte. *)
Inductive Format := FO | Fs | Fs_len | Fi | Fb.

Definition format_ok (f : Format) (o : PyObject) : bool :=
  match f, o with
  | FO, _ => true
  | Fs, PyString s => negb (has (find_first_of s (String "000" "") 0))
  | Fs_len, PyString _ => true
  | Fi, PyInt z => (-2147483648 <=? z) && (z <=? 2147483647)
  | Fb, PyInt z => (0 <=? z) && (z <=? 255)
  | _, _ => false
  end.

Fixpoint formats_ok (fs : list Format) (args : list PyObject) : bool :=
  match fs, args with
  | _, [] => true
  | f :: fs', o :: args' => format_ok f o && formats_ok fs' args'
  | [], _ :: _ => false
  end.

Definition PyArg_ParseTuple (args : list PyObject) (required optional : list Format)
    : PyM bool :=
  if (length required <=? length args)%nat && formats_ok (required ++ optional)%list args
  then mret true
  else _ ← set_err (Some "TypeError"); mret false.

(** Read every item of a list: the loops over [PyList_GetItem]. *)
Fixpoint read_items {T : Type} (read : PyObject → PyM (option T)) (message : string)
    (items : list PyObject) : PyM (option (list T)) :=
  match items with
  | [] => mret (Some [])
  | o :: items' =>
      t ← read o;
      match t with
      | None => _ ← PyErr_Format message; mret None
      | Some t =>
          ts ← read_items read message items';
          mret (cons t <$> ts)
      end
  end.

(** [PyInt_FromLong]: a new reference for the caller. *)
Definition PyInt_FromLong (z : Z) : PyM (option PyObject) := new_ref (Some (PyInt z)).

(** ** Waiting for other threads

    [join] waits until the driver has ended, and the destructor of the driver until
    its event thread has; that thread needs the interpreter lock to call the
    application.  A computation of type [Waits A] may wait for ever ([None]). *)

Definition Waits (A : Type) : Type := Py → option (A * Py).
#[global] Instance Waits_ret : MRet Waits := fun A a st => Some (a, st).
#[global] Instance Waits_bind : MBind Waits := fun A B f m st =>
  match m st with Some (a, st') => f a st' | None => None end.
Definition does {A : Type} (m : PyM A) : Waits A := fun st => Some (m st).

(** What [driver->join()] and [delete driver] do: the calls that other threads make in
    the meantime and the status, or nothing when the wait has no end.  That may
    depend on whether the waiting thread has the interpreter lock. *)
Class DriverWaits := {
  joins : bool → list Call → option (list Call * Z);
  deletes : bool → list Call → option (list Call) }.

Section waiting.
Context `{DriverWaits}.

Definition has_lock (st : Py) : bool := 0 <? gil st.

Definition driver_join : Waits Z := fun st =>
  '(cs, status) ← joins (has_lock st) (calls st); Some (status, (driver_did cs st).2).
Definition delete_driver : Waits unit := fun st =>
  cs ← deletes (has_lock st) (calls st); Some (driver_did cs st).

(** [Py_BEGIN_ALLOW_THREADS ... Py_END_ALLOW_THREADS] *)
Definition Py_ALLOW_THREADS {A : Type} (body : Waits A) : Waits A :=
  _ ← does (add_gil (-1)); a ← body; _ ← does (add_gil 1); mret a.

(** [driver->run()] of both drivers: [start], and [join] if the driver runs then
    ([DRIVER_RUNNING] is 2); [answer] is the status that a call returns. *)
Definition driver_run (answer : list Call → Call → Z) (start : Call) : Waits Z :=
  status ← (fun st => Some (answer (calls st) start, (driver_do start st).2));
  if status =? 2 then driver_join else mret status.
End waiting.
End PyM.
Arguments Py : clear implicits.
Arguments PyM : clear implicits.
Arguments Waits : clear implicits.
Arguments DriverWaits : clear implicits.
