(* ===== verification/PythonScheduler.v ===== *)
(** * PythonScheduler: the scheduler extension module

    proxy_scheduler.cpp: [ProxyScheduler] is the [Scheduler] that the C++ driver
    calls; it hands each callback to the application's Python object.
    mesos_scheduler_driver_impl.cpp: the Python class that wraps the C++ driver;
    its methods read their arguments and call the driver. *)

From S2P Require Import Prelude StoutStrings Scheduler SchedulerDriver Python.
#[local] Open Scope string_scope.
#[local] Open Scope list_scope.
#[local] Open Scope Z_scope.

(** The C++ protobuf library on the messages that cross the boundary.  A message
    that the rest of the model keeps as one text goes with its type's name. *)
Class SchedulerProtobuf := {
  ser_text : string → string → option string;
  ser_Offer : Offer → option string;
  ser_TaskStatus : TaskStatus → option string;
  parse_text : string → string → option string;
  parse_FrameworkInfo : string → option FrameworkInfo;
  parse_TaskInfo : string → option TaskInfo;
  parse_TaskStatus : string → option TaskStatus;
  parse_Operation : string → option Operation }.

Section Proxy.
Context `{Interpreter} `{SchedulerProtobuf}.
(** What the application's scheduler does when one of its methods is called. *)
Context (pythonScheduler : string → list PyObject → list DriverCall * option PyObject).
Context (impl : PyObject).

(** The label [cleanup] of every method: an exception is printed and aborts the
    driver; every reference is released. *)
Definition cleanup (objects : list (option PyObject)) : PyM DriverCall unit :=
  occurred ← PyErr_Occurred;
  _ ← (if occurred : bool then _ ← PyErr_Print; driver_do call_abort else mret tt);
  foldr (fun o rest => _ ← Py_XDECREF o; rest) (mret tt) objects.

Definition registered (frameworkId masterInfo : string) : PyM DriverCall unit :=
  InterpreterLock (
    fid ← createPythonProtobuf (ser_text "FrameworkID" frameworkId) "FrameworkID";
    match fid with
    | None => cleanup [fid]
    | Some fid' =>
        minfo ← createPythonProtobuf (ser_text "MasterInfo" masterInfo) "MasterInfo";
        match minfo with
        | None => cleanup [fid; minfo]
        | Some minfo' =>
            res ← PyObject_CallMethod pythonScheduler "registered" [impl; fid'; minfo'];
            cleanup [fid; minfo; res]
        end
    end).

Definition reregistered (masterInfo : string) : PyM DriverCall unit :=
  InterpreterLock (
    minfo ← createPythonProtobuf (ser_text "MasterInfo" masterInfo) "MasterInfo";
    match minfo with
    | None => cleanup [minfo]
    | Some minfo' =>
        res ← PyObject_CallMethod pythonScheduler "reregistered" [impl; minfo'];
        cleanup [minfo; res]
    end).

Definition disconnected : PyM DriverCall unit :=
  InterpreterLock (
    res ← PyObject_CallMethod pythonScheduler "disconnected" [impl];
    cleanup [res]).

(** The loop that fills the list; [PyList_SetItem] steals the reference. *)
Fixpoint offer_items (offers : list Offer) (items : list PyObject)
    : PyM DriverCall (option (list PyObject)) :=
  match offers with
  | [] => mret (Some items)
  | o :: offers' =>
      offer ← createPythonProtobuf (ser_Offer o) "Offer";
      match offer with
      | None => mret None
      | Some offer => _ ← add_refs (-1); offer_items offers' (items ++ [offer])
      end
  end.

Definition resourceOffers (offers : list Offer) : PyM DriverCall unit :=
  InterpreterLock (
    list_ ← new_ref (Some (PyList []));
    items ← offer_items offers [];
    match items with
    | None => cleanup [list_]
    | Some items =>
        res ← PyObject_CallMethod pythonScheduler "resourceOffers" [impl; PyList items];
        cleanup [list_; res]
    end).

Definition offerRescinded (offerId : string) : PyM DriverCall unit :=
  InterpreterLock (
    oid ← createPythonProtobuf (ser_text "OfferID" offerId) "OfferID";
    match oid with
    | None => cleanup [oid]
    | Some oid' =>
        res ← PyObject_CallMethod pythonScheduler "offerRescinded" [impl; oid'];
        cleanup [oid; res]
    end).

Definition statusUpdate (status : TaskStatus) : PyM DriverCall unit :=
  InterpreterLock (
    stat ← createPythonProtobuf (ser_TaskStatus status) "TaskStatus";
    match stat with
    | None => cleanup [stat]
    | Some stat' =>
        res ← PyObject_CallMethod pythonScheduler "statusUpdate" [impl; stat'];
        cleanup [stat; res]
    end).

Definition frameworkMessage (executorId slaveId data : string) : PyM DriverCall unit :=
  InterpreterLock (
    eid ← createPythonProtobuf (ser_text "ExecutorID" executorId) "ExecutorID";
    match eid with
    | None => cleanup [eid]
    | Some eid' =>
        sid ← createPythonProtobuf (ser_text "SlaveID" slaveId) "SlaveID";
        match sid with
        | None => cleanup [eid; sid]
        | Some sid' =>
            res ← PyObject_CallMethod pythonScheduler "frameworkMessage"
                    [impl; eid'; sid'; PyString data];
            cleanup [eid; sid; res]
        end
    end).

Definition slaveLost (slaveId : string) : PyM DriverCall unit :=
  InterpreterLock (
    sid ← createPythonProtobuf (ser_text "SlaveID" slaveId) "SlaveID";
    match sid with
    | None => cleanup [sid]
    | Some sid' =>
        res ← PyObject_CallMethod pythonScheduler "slaveLost" [impl; sid'];
        cleanup [sid; res]
    end).

(** Both ids are created before the first test. *)
Definition executorLost (executorId slaveId : string) (status : Z) : PyM DriverCall unit :=
  InterpreterLock (
    executorIdObj ← createPythonProtobuf (ser_text "ExecutorID" executorId) "ExecutorID";
    slaveIdObj ← createPythonProtobuf (ser_text "SlaveID" slaveId) "SlaveID";
    match executorIdObj, slaveIdObj with
    | Some eid, Some sid =>
        res ← PyObject_CallMethod pythonScheduler "executorLost" [impl; eid; sid; PyInt status];
        cleanup [executorIdObj; slaveIdObj; res]
    | _, _ => cleanup [executorIdObj; slaveIdObj]
    end).

(** The driver stops by itself after [error]: no abort. *)
Definition error (message : string) : PyM DriverCall unit :=
  InterpreterLock (
    res ← PyObject_CallMethod pythonScheduler "error" [impl; PyString message];
    occurred ← PyErr_Occurred;
    _ ← (if occurred : bool then PyErr_Print else mret tt);
    Py_XDECREF res).

(** The virtual functions that the driver calls. *)
Definition proxy (c : Callback) : PyM DriverCall unit :=
  match c with
  | cb_registered frameworkId masterInfo => registered frameworkId masterInfo
  | cb_reregistered masterInfo => reregistered masterInfo
  | cb_resourceOffers offers => resourceOffers offers
  | cb_offerRescinded offerId => offerRescinded offerId
  | cb_statusUpdate status => statusUpdate status
  | cb_slaveLost slaveId => slaveLost slaveId
  | cb_frameworkMessage executorId slaveId data => frameworkMessage executorId slaveId data
  | cb_error message => error message
  end.
End Proxy.

(** A Python framework as the driver sees it: the calls made while the proxy
    handles the last callback.  [behaviour] is the application's object, which may
    remember all callbacks before. *)
Definition idle_python : Py DriverCall := mkPy 0 None 0 [].
Definition python_application `{Interpreter} `{SchedulerProtobuf} (impl : PyObject)
    (behaviour : list Callback → string → list PyObject → list DriverCall * option PyObject)
    : Application := fun history =>
  match last history with
  | None => []
  | Some c => calls (proxy (behaviour history) impl c idle_python).2
  end.

(** ** The wrapper of the driver *)

(** The arguments that the wrapped driver was constructed with. *)
Record DriverConfig := mkDriverConfig {
  cfg_framework : FrameworkInfo;
  cfg_master : string;
  cfg_implicitAcknowledgements : bool;
  cfg_credential : option string }.

Record MesosSchedulerDriverImpl := mkImpl {
  driver : option DriverConfig;
  proxyScheduler : bool;
  self_pythonScheduler : option PyObject }.

Section Impl.
Context `{Interpreter} `{SchedulerProtobuf}.
Context `{!DriverWaits DriverCall}.
(** The status that a driver call returns, as a number. *)
Context (answer : list DriverCall → DriverCall → Z).

Definition MesosSchedulerDriverImpl_new : MesosSchedulerDriverImpl := mkImpl None false None.

Definition bytes_of (o : PyObject) : string :=
  match o with PyString s => s | _ => "" end.
Definition int_of (o : PyObject) : Z := match o with PyInt z => z | _ => 0 end.

(** Returns 0 or -1.  A driver that the object has already is deleted without
    releasing the lock. *)
Definition MesosSchedulerDriverImpl_init (self : MesosSchedulerDriverImpl)
    (args : list PyObject) : Waits DriverCall (Z * MesosSchedulerDriverImpl) :=
  parsed ← does (PyArg_ParseTuple args [FO; FO; Fs] [Fi; FO]);
  match (parsed : bool), args with
  | true, schedulerObj :: frameworkObj :: master :: rest =>
      let tmp := self_pythonScheduler self in
      _ ← does (add_refs 1);
      let self := mkImpl (driver self) (proxyScheduler self) (Some schedulerObj) in
      _ ← does (Py_XDECREF tmp);
      framework ← does (readPythonProtobuf parse_FrameworkInfo frameworkObj);
      match framework with
      | None =>
          _ ← does (PyErr_Format "Could not deserialize Python FrameworkInfo"); mret (-1, self)
      | Some framework =>
          credential ← does (match nth_error rest 1 with
                             | None => mret (Some None)
                             | Some o =>
                                 c ← readPythonProtobuf (parse_text "Credential") o;
                                 mret (Some <$> c)
                             end);
          match credential with
          | None =>
              _ ← does (PyErr_Format "Could not deserialize Python Credential"); mret (-1, self)
          | Some credential =>
              _ ← (if has (driver self) then delete_driver else mret tt);
              let implicitAcknowledgements :=
                match rest with [] => 1 | o :: _ => int_of o end in
              mret (0, mkImpl
                (Some (mkDriverConfig framework (bytes_of master)
                         (negb (implicitAcknowledgements =? 0)) credential))
                true (Some schedulerObj))
          end
      end
  | _, _ => mret (-1, self)
  end.

Definition MesosSchedulerDriverImpl_clear (self : MesosSchedulerDriverImpl)
    : PyM DriverCall MesosSchedulerDriverImpl :=
  _ ← Py_XDECREF (self_pythonScheduler self);
  mret (mkImpl (driver self) (proxyScheduler self) None).

(** Deletes the driver, with other threads allowed, and the proxy, then the reference
    to the scheduler. *)
Definition MesosSchedulerDriverImpl_dealloc (self : MesosSchedulerDriverImpl)
    : Waits DriverCall MesosSchedulerDriverImpl :=
  _ ← (if has (driver self) then Py_ALLOW_THREADS delete_driver else mret tt);
  does (MesosSchedulerDriverImpl_clear (mkImpl None false (self_pythonScheduler self))).

(** The references that the cyclic collector visits. *)
Definition MesosSchedulerDriverImpl_traverse (self : MesosSchedulerDriverImpl)
    : list PyObject := option_list (self_pythonScheduler self).

(** The test at the head of every method. *)
Definition with_driver (self : MesosSchedulerDriverImpl)
    (body : PyM DriverCall (option PyObject)) : PyM DriverCall (option PyObject) :=
  match driver self with
  | None => _ ← PyErr_Format "MesosSchedulerDriverImpl.driver is nullptr"; mret None
  | Some _ => body
  end.

(** [Status status = self->driver->f(); return PyInt_FromLong(status);] *)
Definition call_and_return (c : DriverCall) : PyM DriverCall (option PyObject) := fun st =>
  let status := answer (calls st) c in
  (_ ← driver_do c; PyInt_FromLong status) st.

Definition MesosSchedulerDriverImpl_start (self : MesosSchedulerDriverImpl) :=
  with_driver self (call_and_return call_start).

Definition MesosSchedulerDriverImpl_stop (self : MesosSchedulerDriverImpl)
    (args : list PyObject) : PyM DriverCall (option PyObject) :=
  with_driver self (
    parsed ← PyArg_ParseTuple args [] [Fb];
    if parsed : bool then
      let failover := match args with [] => false | o :: _ => negb (int_of o =? 0) end in
      call_and_return (call_stop failover)
    else mret None).

Definition MesosSchedulerDriverImpl_abort (self : MesosSchedulerDriverImpl) :=
  with_driver self (call_and_return call_abort).

(** The body of [join] and of [run]: the wait releases the lock. *)
Definition wait_and_return (self : MesosSchedulerDriverImpl) (wait : Waits DriverCall Z)
    : Waits DriverCall (option PyObject) :=
  match driver self with
  | None => does (_ ← PyErr_Format "MesosSchedulerDriverImpl.driver is nullptr"; mret None)
  | Some _ => status ← Py_ALLOW_THREADS wait; does (PyInt_FromLong status)
  end.

Definition MesosSchedulerDriverImpl_join (self : MesosSchedulerDriverImpl) :=
  wait_and_return self driver_join.

Definition MesosSchedulerDriverImpl_run (self : MesosSchedulerDriverImpl) :=
  wait_and_return self (driver_run answer call_start).

(** Read one argument, or raise [message]. *)
Definition read_or {T : Type} (parse : string → option T) (message : string) (o : PyObject)
    (k : T → PyM DriverCall (option PyObject)) : PyM DriverCall (option PyObject) :=
  t ← readPythonProtobuf parse o;
  match t with
  | None => _ ← PyErr_Format message; mret None
  | Some t => k t
  end.

(** Read a list argument, or raise. *)
Definition read_list {T : Type} (parse : string → option T) (not_a_list message : string)
    (o : PyObject) (k : list T → PyM DriverCall (option PyObject))
    : PyM DriverCall (option PyObject) :=
  match o with
  | PyList items =>
      ts ← read_items (readPythonProtobuf parse) message items;
      match ts with
      | None => mret None
      | Some ts => k ts
      end
  | _ => _ ← PyErr_Format not_a_list; mret None
  end.

(** The optional [Filters] at the end; the default message is empty. *)
Definition read_filters (rest : list PyObject) (k : string → PyM DriverCall (option PyObject))
    : PyM DriverCall (option PyObject) :=
  match rest with
  | [] => k ""
  | o :: _ => read_or (parse_text "Filters") "Could not deserialize Python Filters" o k
  end.

Definition MesosSchedulerDriverImpl_requestResources (self : MesosSchedulerDriverImpl)
    (args : list PyObject) : PyM DriverCall (option PyObject) :=
  with_driver self (
    parsed ← PyArg_ParseTuple args [FO] [];
    match (parsed : bool), args with
    | true, requestsObj :: _ =>
        read_list (parse_text "Request") "Parameter 2 to requestsResources is not a list"
          "Could not deserialize Python Request" requestsObj
          (fun requests => call_and_return (call_requestResources requests))
    | _, _ => mret None
    end).

Definition MesosSchedulerDriverImpl_launchTasks (self : MesosSchedulerDriverImpl)
    (args : list PyObject) : PyM DriverCall (option PyObject) :=
  with_driver self (
    parsed ← PyArg_ParseTuple args [FO; FO] [FO];
    match (parsed : bool), args with
    | true, offerIdsObj :: tasksObj :: rest =>
        let with_offers (offerIds : list string) :=
          read_list parse_TaskInfo "Parameter 2 to launchTasks is not a list"
            "Could not deserialize Python TaskInfo" tasksObj (fun tasks =>
          read_filters rest (fun filters =>
          call_and_return (call_launchTasks offerIds tasks filters))) in
        match offerIdsObj with
        | PyList _ =>
            read_list (parse_text "OfferID") "" "Could not deserialize Python OfferID"
              offerIdsObj with_offers
        | _ =>
            read_or (parse_text "OfferID") "Could not deserialize Python OfferID" offerIdsObj
              (fun offerId => with_offers [offerId])
        end
    | _, _ => mret None
    end).

Definition MesosSchedulerDriverImpl_killTask (self : MesosSchedulerDriverImpl)
    (args : list PyObject) : PyM DriverCall (option PyObject) :=
  with_driver self (
    parsed ← PyArg_ParseTuple args [FO] [];
    match (parsed : bool), args with
    | true, tidObj :: _ =>
        read_or (parse_text "TaskID") "Could not deserialize Python TaskID" tidObj
          (fun tid => call_and_return (call_killTask tid))
    | _, _ => mret None
    end).

Definition MesosSchedulerDriverImpl_acceptOffers (self : MesosSchedulerDriverImpl)
    (args : list PyObject) : PyM DriverCall (option PyObject) :=
  with_driver self (
    parsed ← PyArg_ParseTuple args [FO; FO] [FO];
    match (parsed : bool), args with
    | true, offerIdsObj :: operationsObj :: rest =>
        read_list (parse_text "OfferID") "Parameter 1 to acceptOffers is not a list"
          "Could not deserialize Python OfferID" offerIdsObj (fun offerIds =>
        read_list parse_Operation "Parameter 2 to acceptOffers is not a list"
          "Could not deserialize Python Offer.Operation" operationsObj (fun operations =>
        read_filters rest (fun filters =>
        call_and_return (call_acceptOffers offerIds operations filters))))
    | _, _ => mret None
    end).

Definition MesosSchedulerDriverImpl_declineOffer (self : MesosSchedulerDriverImpl)
    (args : list PyObject) : PyM DriverCall (option PyObject) :=
  with_driver self (
    parsed ← PyArg_ParseTuple args [FO] [FO];
    match (parsed : bool), args with
    | true, offerIdObj :: rest =>
        read_or (parse_text "OfferID") "Could not deserialize Python OfferID" offerIdObj
          (fun offerId =>
        read_filters rest (fun filters =>
        call_and_return (call_declineOffer offerId filters)))
    | _, _ => mret None
    end).

Definition MesosSchedulerDriverImpl_reviveOffers (self : MesosSchedulerDriverImpl) :=
  with_driver self (call_and_return call_reviveOffers).

Definition MesosSchedulerDriverImpl_suppressOffers (self : MesosSchedulerDriverImpl) :=
  with_driver self (call_and_return call_suppressOffers).

Definition MesosSchedulerDriverImpl_acknowledgeStatusUpdate (self : MesosSchedulerDriverImpl)
    (args : list PyObject) : PyM DriverCall (option PyObject) :=
  with_driver self (
    parsed ← PyArg_ParseTuple args [FO] [];
    match (parsed : bool), args with
    | true, taskStatusObj :: _ =>
        read_or parse_TaskStatus "Could not deserialize Python TaskStatus" taskStatusObj
          (fun taskStatus => call_and_return (call_acknowledgeStatusUpdate taskStatus))
    | _, _ => mret None
    end).

Definition MesosSchedulerDriverImpl_sendFrameworkMessage (self : MesosSchedulerDriverImpl)
    (args : list PyObject) : PyM DriverCall (option PyObject) :=
  with_driver self (
    parsed ← PyArg_ParseTuple args [FO; FO; Fs_len] [];
    match (parsed : bool), args with
    | true, [executorIdObj; slaveIdObj; data] =>
        read_or (parse_text "ExecutorID") "Could not deserialize Python ExecutorID" executorIdObj
          (fun executorId =>
        read_or (parse_text "SlaveID") "Could not deserialize Python SlaveID" slaveIdObj
          (fun slaveId =>
        call_and_return (call_sendFrameworkMessage executorId slaveId (bytes_of data))))
    | _, _ => mret None
    end).

Definition MesosSchedulerDriverImpl_reconcileTasks (self : MesosSchedulerDriverImpl)
    (args : list PyObject) : PyM DriverCall (option PyObject) :=
  with_driver self (
    parsed ← PyArg_ParseTuple args [FO] [];
    match (parsed : bool), args with
    | true, statusesObj :: _ =>
        read_list parse_TaskStatus "Parameter 1 to reconcileTasks is not a list"
          "Could not deserialize Python TaskStatus" statusesObj
          (fun statuses => call_and_return (call_reconcileTasks statuses))
    | _, _ => mret None
    end).

(** The table [MesosSchedulerDriverImpl_methods]; the interpreter refuses
    arguments to a method without ([METH_NOARGS]). *)
Definition no_args (m : Waits DriverCall (option PyObject)) (args : list PyObject)
    : Waits DriverCall (option PyObject) :=
  match args with
  | [] => m
  | _ => does (_ ← PyErr_Format "takes no arguments"; mret None)
  end.

Definition MesosSchedulerDriverImpl_methods (name : string) (self : MesosSchedulerDriverImpl)
    : option (list PyObject → Waits DriverCall (option PyObject)) :=
  let varargs (m : MesosSchedulerDriverImpl → list PyObject → PyM DriverCall (option PyObject)) :=
    Some (fun args => does (m self args)) in
  if String.eqb name "start" then Some (no_args (does (MesosSchedulerDriverImpl_start self)))
  else if String.eqb name "stop" then varargs MesosSchedulerDriverImpl_stop
  else if String.eqb name "abort" then Some (no_args (does (MesosSchedulerDriverImpl_abort self)))
  else if String.eqb name "join" then Some (no_args (MesosSchedulerDriverImpl_join self))
  else if String.eqb name "run" then Some (no_args (MesosSchedulerDriverImpl_run self))
  else if String.eqb name "requestResources" then varargs MesosSchedulerDriverImpl_requestResources
  else if String.eqb name "launchTasks" then varargs MesosSchedulerDriverImpl_launchTasks
  else if String.eqb name "killTask" then varargs MesosSchedulerDriverImpl_killTask
  else if String.eqb name "acceptOffers" then varargs MesosSchedulerDriverImpl_acceptOffers
  else if String.eqb name "declineOffer" then varargs MesosSchedulerDriverImpl_declineOffer
  else if String.eqb name "reviveOffers" then
    Some (no_args (does (MesosSchedulerDriverImpl_reviveOffers self)))
  else if String.eqb name "suppressOffers" then
    Some (no_args (does (MesosSchedulerDriverImpl_suppressOffers self)))
  else if String.eqb name "acknowledgeStatusUpdate" then
    varargs MesosSchedulerDriverImpl_acknowledgeStatusUpdate
  else if String.eqb name "sendFrameworkMessage" then
    varargs MesosSchedulerDriverImpl_sendFrameworkMessage
  else if String.eqb name "reconcileTasks" then varargs MesosSchedulerDriverImpl_reconcileTasks
  else None.
End Impl.
