(* ===== verification/LinkedHashMap.v ===== *)
(** * LinkedHashMap: stout's linkedhashmap.hpp

    A hash map that keeps the order of insertion: a list of entries and a map
    from keys to iterators into it.  An iterator of [std::list] stays valid while
    its node does, so a node is modelled with an identity of its own: [entries_]
    is the list of nodes, [keys_] maps a key to the identity of its node.

    The main result is that the pair of structures implements an association
    list without duplicate keys. *)

From S2P Require Import Prelude.
#[local] Open Scope list_scope.

Section linkedhashmap.
Context {K V : Type} `{Countable K}.

Record LinkedHashMap := mkLHM {
  entries_ : list (nat * (K * V));
  keys_ : gmap K nat;
  next_node : nat }.

Definition lhm_empty : LinkedHashMap := mkLHM [] ∅ 0.

Definition lhm_contains (k : K) (m : LinkedHashMap) : bool := has (keys_ m !! k).

(** The node behind an iterator. *)
Fixpoint deref (i : nat) (l : list (nat * (K * V))) : option (K * V) :=
  match l with
  | [] => None
  | (j, e) :: l' => if decide (i = j) then Some e else deref i l'
  end.

(** [operator[]] up to the returned reference: a missing key gets a node with a
    default value at the end of the list. *)
Definition subscript (d : V) (k : K) (m : LinkedHashMap) : LinkedHashMap :=
  if lhm_contains k m then m
  else mkLHM (entries_ m ++ [(next_node m, (k, d))]) (<[k := next_node m]> (keys_ m))
             (S (next_node m)).

(** Reading through the reference, [keys_[key]->second]. *)
Definition lhm_get (k : K) (m : LinkedHashMap) : option V :=
  match keys_ m !! k with
  | Some i => snd <$> deref i (entries_ m)
  | None => None
  end.

(** [m[k] = v]. *)
Definition assign (d : V) (k : K) (v : V) (m : LinkedHashMap) : LinkedHashMap :=
  let m := subscript d k m in
  match keys_ m !! k with
  | Some i =>
      mkLHM ((fun '(j, (k', v')) => (j, (k', if decide (i = j) then v else v'))) <$> entries_ m)
            (keys_ m) (next_node m)
  | None => m
  end.

Definition erase (k : K) (m : LinkedHashMap) : LinkedHashMap :=
  match keys_ m !! k with
  | Some i => mkLHM (filter (fun '(j, _) => j ≠ i) (entries_ m)) (delete k (keys_ m))
                    (next_node m)
  | None => m
  end.

Definition lhm_keys (m : LinkedHashMap) : list K := (fun '(_, (k, _)) => k) <$> entries_ m.
Definition lhm_values (m : LinkedHashMap) : list V := (fun '(_, (_, v)) => v) <$> entries_ m.

(** ** The association list *)

Definition alist (m : LinkedHashMap) : list (K * V) := snd <$> entries_ m.

Definition alist_assign (k : K) (v : V) (l : list (K * V)) : list (K * V) :=
  if decide (k ∈ l.*1)
  then (fun '(k', v') => (k', if decide (k' = k) then v else v')) <$> l
  else l ++ [(k, v)].

Definition alist_erase (k : K) (l : list (K * V)) : list (K * V) :=
  filter (fun '(k', _) => k' ≠ k) l.

(** The iterators are the nodes of their keys, one per key. *)
Record lhm_inv (m : LinkedHashMap) : Prop := mkLhmInv {
  lhm_nodes : NoDup (entries_ m).*1;
  lhm_fresh : Forall (fun e => e.1 < next_node m)%nat (entries_ m);
  lhm_iter : ∀ k i, keys_ m !! k = Some i ↔ ∃ v, (i, (k, v)) ∈ entries_ m }.

Lemma lhm_empty_inv : lhm_inv lhm_empty.
Proof.
  split; cbn; [constructor|constructor|]. intros k i. rewrite lookup_empty.
  split; [done|]. by intros (v & ?%not_elem_of_nil).
Qed.

Lemma deref_elem (i : nat) (e : K * V) (l : list (nat * (K * V))) :
  NoDup l.*1 → (i, e) ∈ l → deref i l = Some e.
Proof.
  induction l as [|[j e'] l IH]; cbn; [by intros ? ?%not_elem_of_nil|].
  intros [Hj Hnd]%NoDup_cons [[= <- <-]|Hin]%elem_of_cons; [by rewrite decide_True|].
  rewrite decide_False; [by apply IH|]. intros ->. apply Hj. apply list_elem_of_fmap.
  by exists (j, e).
Qed.

Lemma node_unique (m : LinkedHashMap) (i : nat) (e e' : K * V) :
  lhm_inv m → (i, e) ∈ entries_ m → (i, e') ∈ entries_ m → e = e'.
Proof.
  intros Hm He He'. apply (deref_elem i) in He, He'; try apply Hm. congruence.
Qed.

Lemma lhm_contains_iff (m : LinkedHashMap) (k : K) :
  lhm_inv m → lhm_contains k m = true ↔ k ∈ (alist m).*1.
Proof.
  intros Hm. unfold lhm_contains, alist. rewrite <-list_fmap_compose, list_elem_of_fmap.
  pose proof (lhm_iter _ Hm k) as Hk. destruct (keys_ m !! k) as [i|]; cbn; split; try done.
  - intros _. destruct (proj1 (Hk i) eq_refl) as (v & Hin). by exists (i, (k, v)).
  - intros ([j [k' v]] & -> & Hin). by discriminate (proj2 (Hk j) (ex_intro _ v Hin)).
Qed.

Lemma lhm_get_Some (m : LinkedHashMap) (k : K) (v : V) :
  lhm_inv m → lhm_get k m = Some v ↔ (k, v) ∈ alist m.
Proof.
  intros Hm. unfold lhm_get, alist. rewrite list_elem_of_fmap. split.
  - destruct (keys_ m !! k) as [i|] eqn:Ei; [|done].
    apply (lhm_iter _ Hm) in Ei as (v' & Hin). rewrite (deref_elem i (k, v')) by (done || apply Hm).
    intros [= ->]. by exists (i, (k, v)).
  - intros ([i e] & [= <-] & Hin).
    assert (Ei : keys_ m !! k = Some i) by (apply (lhm_iter _ Hm); eauto).
    by rewrite Ei, (deref_elem i (k, v)) by (done || apply Hm).
Qed.

Lemma subscript_inv (d : V) (k : K) (m : LinkedHashMap) :
  lhm_inv m → lhm_inv (subscript d k m) ∧
  alist (subscript d k m) = (if lhm_contains k m then alist m else alist m ++ [(k, d)]).
Proof.
  intros Hm. pose proof Hm as [Hnd Hfr Hit]. unfold subscript, alist.
  destruct (lhm_contains k m) eqn:Hc; [done|]. cbn [entries_].
  split; [|by rewrite fmap_app].
  assert (Hk : keys_ m !! k = None) by (unfold lhm_contains in Hc; by destruct (keys_ m !! k)).
  assert (Hn : next_node m ∉ (entries_ m).*1).
  { intros ([j e] & Hj & Hin)%list_elem_of_fmap. rewrite Forall_forall in Hfr.
    specialize (Hfr _ Hin). cbn in Hfr, Hj. lia. }
  split; cbn [entries_ keys_ next_node].
  - rewrite fmap_app. apply NoDup_app. split; [done|]. split; [|apply NoDup_singleton].
    by intros i Hi ->%list_elem_of_singleton.
  - apply Forall_app. split; [|by constructor; [cbn; lia|]].
    eapply Forall_impl; [exact Hfr|]. intros; cbn in *; lia.
  - intros k' i. destruct (decide (k = k')) as [<-|Hne].
    + rewrite lookup_insert_eq. split.
      * intros [= <-]. exists d. apply elem_of_app. right. by apply list_elem_of_singleton.
      * intros (v & [Hin|[= <- ->]%list_elem_of_singleton]%elem_of_app); [|done].
        assert (Hs : keys_ m !! k = Some i) by (apply Hit; eauto). congruence.
    + rewrite lookup_insert_ne, Hit by done. setoid_rewrite elem_of_app.
      setoid_rewrite list_elem_of_singleton. split; intros (v & Hv); exists v; [auto|].
      destruct Hv as [|[= _ ? _]]; congruence.
Qed.

(** Writing through the iterator of a key that is present. *)
Definition write_node (i : nat) (v : V) (l : list (nat * (K * V))) : list (nat * (K * V)) :=
  (fun '(j, (k', v')) => (j, (k', if decide (i = j) then v else v'))) <$> l.

Lemma write_node_elem (i : nat) (v : V) (l : list (nat * (K * V))) (j : nat) (k : K) :
  (∃ v', (j, (k, v')) ∈ write_node i v l) ↔ ∃ v', (j, (k, v')) ∈ l.
Proof.
  unfold write_node. setoid_rewrite list_elem_of_fmap. split.
  - intros (v' & [j' [k' v'']] & [= -> -> _] & Hin). eauto.
  - intros (v' & Hin). exists (if decide (i = j) then v else v'), (j, (k, v')). done.
Qed.

Lemma write_node_inv (m : LinkedHashMap) (i : nat) (v : V) :
  lhm_inv m → lhm_inv (mkLHM (write_node i v (entries_ m)) (keys_ m) (next_node m)).
Proof.
  intros [Hnd Hfr Hit].
  assert (Hids : (write_node i v (entries_ m)).*1 = (entries_ m).*1).
  { unfold write_node. rewrite <-list_fmap_compose. by apply list_fmap_ext; intros ? [? [? ?]]. }
  split; cbn; [by rewrite Hids| |].
  - rewrite Forall_forall in Hfr |- *. intros e He.
    assert (Hin : e.1 ∈ (entries_ m).*1) by (rewrite <-Hids; by apply list_elem_of_fmap_2).
    apply list_elem_of_fmap in Hin as (e' & -> & Hin). by apply Hfr.
  - intros k j. by rewrite Hit, write_node_elem.
Qed.

Lemma write_node_alist (m : LinkedHashMap) (i : nat) (k : K) (v : V) :
  lhm_inv m → keys_ m !! k = Some i →
  snd <$> write_node i v (entries_ m) =
  (fun '(k', v') => (k', if decide (k' = k) then v else v')) <$> alist m.
Proof.
  intros Hm Hk. unfold write_node, alist. rewrite <-!list_fmap_compose.
  apply list_fmap_ext. intros n [j [k' v']] Hn. cbn. apply list_elem_of_lookup_2 in Hn.
  destruct (decide (i = j)) as [<-|Hij].
  - apply (lhm_iter _ Hm) in Hk as (v'' & Hin).
    pose proof (node_unique m i _ _ Hm Hn Hin) as [= -> _]. by rewrite decide_True.
  - rewrite decide_False; [done|]. intros ->.
    assert (Hs : keys_ m !! k = Some j) by (apply (lhm_iter _ Hm); eauto). congruence.
Qed.

Lemma assign_spec (d : V) (k : K) (v : V) (m : LinkedHashMap) :
  lhm_inv m → lhm_inv (assign d k v m) ∧ alist (assign d k v m) = alist_assign k v (alist m).
Proof.
  intros Hm. destruct (subscript_inv d k m Hm) as [Hs Ha]. unfold assign, alist_assign.
  pose proof (lhm_contains_iff m k Hm) as Hc.
  pose proof (lhm_contains_iff (subscript d k m) k Hs) as Hc'.
  assert (Hk : is_Some (keys_ (subscript d k m) !! k)).
  { unfold subscript, lhm_contains. destruct (keys_ m !! k) eqn:E; cbn; [by rewrite E|].
    rewrite lookup_insert_eq. eauto. }
  destruct Hk as [i Hi]. rewrite Hi.
  split; [by apply write_node_inv|]. unfold alist at 1. cbn [entries_].
  change (fmap _ (entries_ _)) with (write_node i v (entries_ (subscript d k m))).
  rewrite (write_node_alist _ i k v Hs Hi), Ha.
  destruct (lhm_contains k m); case_decide as Hd; try done.
  - destruct Hd. by apply Hc.
  - by apply Hc in Hd.
  - rewrite fmap_app. cbn. rewrite decide_True by done. f_equal.
    rewrite <-(list_fmap_id (alist m)) at 2. apply list_fmap_ext. intros n [k' v'] Hn.
    rewrite decide_False; [done|]. intros ->. apply Hd. apply list_elem_of_lookup_2 in Hn.
    apply list_elem_of_fmap. by exists (k, v').
Qed.

Lemma filter_nodes (i : nat) (k : K) (l : list (nat * (K * V))) :
  (∀ j k' v, (j, (k', v)) ∈ l → j = i ↔ k' = k) →
  snd <$> filter (fun '(j, _) => j ≠ i) l = filter (fun '(k', _) => k' ≠ k) (snd <$> l).
Proof.
  induction l as [|[j [k' v]] l IH]; intros Hl; [done|].
  assert (Hj : j = i ↔ k' = k) by (apply (Hl j k' v); left).
  assert (IH' := IH (fun j k v Hin => Hl j k v (list_elem_of_further _ _ _ Hin))).
  rewrite fmap_cons, !filter_cons. repeat case_decide; cbn in *; try tauto. by f_equal.
Qed.

Lemma erase_spec (k : K) (m : LinkedHashMap) :
  lhm_inv m → lhm_inv (erase k m) ∧ alist (erase k m) = alist_erase k (alist m).
Proof.
  intros Hm. pose proof Hm as [Hnd Hfr Hit]. unfold erase, alist_erase.
  destruct (keys_ m !! k) as [i|] eqn:Hk.
  2:{ split; [done|]. symmetry. apply list_filter_all, Forall_forall. intros [k' v] Hin ->.
      apply list_elem_of_fmap in Hin as ([j e] & [= <-] & Hin).
      assert (Hs : keys_ m !! k = Some j) by (apply Hit; eauto). congruence. }
  assert (Hnode : ∀ j k' v, (j, (k', v)) ∈ entries_ m → j = i ↔ k' = k).
  { intros j k' v Hin. split.
    - intros ->. apply Hit in Hk as (v' & Hin').
      by pose proof (node_unique m i _ _ Hm Hin Hin') as [= -> _].
    - intros ->. assert (Hs : keys_ m !! k = Some j) by (apply Hit; eauto). congruence. }
  split; [|by apply filter_nodes]. split; cbn [entries_ keys_ next_node].
  - eapply sublist_NoDup; [exact Hnd|]. apply fmap_sublist, sublist_filter.
  - rewrite Forall_forall in Hfr |- *. intros e [_ He]%list_elem_of_filter. by apply Hfr.
  - intros k' j. destruct (decide (k = k')) as [<-|Hne].
    + rewrite lookup_delete_eq. split; [done|].
      intros (v & [Hj Hin]%list_elem_of_filter). by apply Hnode in Hin as [_ ?%eq_sym].
    + rewrite lookup_delete_ne, Hit by done. setoid_rewrite list_elem_of_filter.
      split; intros (v & Hv); exists v; [split; [|done]|by destruct Hv].
      intros ->. apply Hnode in Hv as [Hv _]. by apply Hne, eq_sym, Hv.
Qed.

Lemma alist_NoDup (m : LinkedHashMap) : lhm_inv m → NoDup (alist m).*1.
Proof.
  intros Hm. unfold alist. rewrite <-list_fmap_compose.
  apply NoDup_fmap_2_strong; [|by eapply NoDup_fmap_1, (lhm_nodes _ Hm)].
  intros [i [k v]] [j [k' v']] Hi Hj Hk. cbn in Hk. subst k'.
  assert (H1 : keys_ m !! k = Some i) by (apply (lhm_iter _ Hm); eauto).
  assert (H2 : keys_ m !! k = Some j) by (apply (lhm_iter _ Hm); eauto).
  rewrite H1 in H2. injection H2 as <-. f_equal. by apply (node_unique m i).
Qed.

Lemma lhm_values_alist (m : LinkedHashMap) : lhm_values m = (alist m).*2.
Proof.
  unfold lhm_values, alist. rewrite <-list_fmap_compose. by apply list_fmap_ext; intros ? [? [? ?]].
Qed.

(** Erasing a key that [operator[]] has just added, or that was there. *)
Lemma erase_subscript (d : V) (k : K) (m : LinkedHashMap) :
  lhm_inv m → alist (erase k (subscript d k m)) = alist_erase k (alist m).
Proof.
  intros Hm. destruct (subscript_inv d k m Hm) as [Hs Ha].
  destruct (erase_spec k _ Hs) as [_ ->]. rewrite Ha.
  destruct (lhm_contains k m); [done|]. unfold alist_erase.
  rewrite filter_app, filter_cons_False by (cbn; tauto). by rewrite app_nil_r.
Qed.

(** ** Properties *)

Inductive LhmOp := lhm_op_assign (k : K) (v : V) | lhm_op_erase (k : K).

Definition lhm_step (d : V) (m : LinkedHashMap) (op : LhmOp) : LinkedHashMap :=
  match op with
  | lhm_op_assign k v => assign d k v m
  | lhm_op_erase k => erase k m
  end.

Definition alist_step (l : list (K * V)) (op : LhmOp) : list (K * V) :=
  match op with
  | lhm_op_assign k v => alist_assign k v l
  | lhm_op_erase k => alist_erase k l
  end.

(** C27: After any sequence of assignments and erasures, the linked hash map is
    the association list of the same operations: [keys()] and [values()] are its
    columns in the order of insertion (assigning to a present key keeps its
    place), [contains] and [get] look it up, and no key occurs twice. *)
Theorem linked_hash_map_refines (d : V) (ops : list LhmOp) :
  let m := foldl (lhm_step d) lhm_empty ops in
  let l := foldl alist_step [] ops in
  lhm_keys m = l.*1 ∧ lhm_values m = l.*2 ∧ NoDup l.*1 ∧
  ∀ k, (lhm_contains k m = true ↔ k ∈ l.*1) ∧ ∀ v, lhm_get k m = Some v ↔ (k, v) ∈ l.
Proof.
  assert (Hsim : ∀ m l, lhm_inv m → alist m = l →
    lhm_inv (foldl (lhm_step d) m ops) ∧ alist (foldl (lhm_step d) m ops) = foldl alist_step l ops).
  { induction ops as [|op ops IH]; intros m l Hm <-; [done|]. cbn. apply IH.
    - destruct op; cbn; [by apply assign_spec|by apply erase_spec].
    - destruct op; cbn; [by apply assign_spec|by apply erase_spec]. }
  intros m l. destruct (Hsim lhm_empty [] lhm_empty_inv eq_refl) as [Hm Hl].
  fold m in Hm, Hl. fold l in Hl. rewrite <-Hl. split_and!.
  - unfold lhm_keys, alist. rewrite <-list_fmap_compose. by apply list_fmap_ext; intros ? [? [? ?]].
  - apply lhm_values_alist.
  - by apply alist_NoDup.
  - intros k. split; [by apply lhm_contains_iff|]. intros v. by apply lhm_get_Some.
Qed.

End linkedhashmap.
Arguments LinkedHashMap K V {_ _}.
