(* ===== verification/Executor.v ===== *)
(** * Executor: executor_process.cpp, exec.cpp

    The executor side of URB: [UrbExecutorProcess], which registers with the
    slave, runs tasks and reports their status, and [MesosExecutorDriver].  The
    structure is that of [Scheduler] and [SchedulerDriver]: one record for driver
    and process, the application as a parameter that makes driver calls when it is
    called back, and the worlds reached by calls, messages and timers.

    Unacknowledged updates are kept in a linked hash map under their uuid, and
    running tasks under their id. *)

From S2P Require Import Prelude StoutStrings Broker Scheduler SchedulerDriver LinkedHashMap.
#[local] Open Scope string_scope.
#[local] Open Scope list_scope.
#[local] Open Scope Z_scope.

(** ** Data *)

(** [StatusUpdate] as the executor fills it in. *)
Record ExecUpdate := mkExecUpdate {
  eu_framework_id : string;
  eu_executor_id : string;
  eu_slave_id : string;
  eu_status : TaskStatus;
  eu_timestamp : Z;
  eu_uuid : string }.

(** The default-constructed message: its state is the first of the enumeration. *)
Definition default_update : ExecUpdate :=
  mkExecUpdate "" "" "" (mkTaskStatus "" TASK_STAGING None None None None) 0 "".

Definition default_task : TaskInfo := mkTaskInfo "" "" "" None None None "".

(** What the process sends; the registrations carry the channel to reply to. *)
Inductive ExecMessage :=
  | RegisterExecutorMessage (framework_id executor_id : string) (reply_to : option string)
  | ReregisterExecutorMessage (framework_id executor_id : string) (updates : list ExecUpdate)
                              (tasks : list TaskInfo) (reply_to : option string)
  | StatusUpdateMessage (update : ExecUpdate)
  | ExecutorToFrameworkMessage (slave_id framework_id executor_id data : string).

(** The methods of the application's [Executor] that the process calls. *)
Inductive ExecCallback :=
  | ex_registered (executorInfo frameworkInfo slaveInfo : string)
  | ex_reregistered (slaveInfo : string)
  | ex_launchTask (task : TaskInfo)
  | ex_killTask (taskId : string)
  | ex_frameworkMessage (data : string)
  | ex_shutdown
  | ex_error (message : string).

Class ExecEnv := {
  URB_MASTER : option string;
  URB_SLAVE_ID : option string;
  URB_FRAMEWORK_ID : option string;
  URB_EXECUTOR_ID : option string }.

Record ExecWorld := mkExecWorld {
  (* MesosExecutorDriver *)
  process : bool;
  status : Status;
  (* UrbExecutorProcess *)
  frameworkId_ : string;
  executorId_ : string;
  slaveId_ : string;
  channelsCreated_ : bool;
  pNotifyChannel_ : option Channel;
  updates : LinkedHashMap string ExecUpdate;
  tasks_ : LinkedHashMap string TaskInfo;
  aborted_ : bool;
  connected_ : bool;
  (* what they act on *)
  broker : Broker ExecMessage;
  timers : list Z;
  generated : nat;
  notified : list ExecCallback;
  kill_pending : bool }.

Definition set_status (x : Status) (w : ExecWorld) : ExecWorld :=
  mkExecWorld (process w) x (frameworkId_ w) (executorId_ w) (slaveId_ w) (channelsCreated_ w)
    (pNotifyChannel_ w) (updates w) (tasks_ w) (aborted_ w) (connected_ w) (broker w)
    (timers w) (generated w) (notified w) (kill_pending w).

Definition set_channel (created : bool) (c : option Channel) (slave : string) (w : ExecWorld)
    : ExecWorld :=
  mkExecWorld (process w) (status w) (frameworkId_ w) (executorId_ w) slave created c
    (updates w) (tasks_ w) (aborted_ w) (connected_ w) (broker w)
    (timers w) (generated w) (notified w) (kill_pending w).

Definition set_maps (u : LinkedHashMap string ExecUpdate) (t : LinkedHashMap string TaskInfo)
    (w : ExecWorld) : ExecWorld :=
  mkExecWorld (process w) (status w) (frameworkId_ w) (executorId_ w) (slaveId_ w)
    (channelsCreated_ w) (pNotifyChannel_ w) u t (aborted_ w) (connected_ w) (broker w)
    (timers w) (generated w) (notified w) (kill_pending w).

Definition set_flags (aborted connected : bool) (w : ExecWorld) : ExecWorld :=
  mkExecWorld (process w) (status w) (frameworkId_ w) (executorId_ w) (slaveId_ w)
    (channelsCreated_ w) (pNotifyChannel_ w) (updates w) (tasks_ w) aborted connected
    (broker w) (timers w) (generated w) (notified w) (kill_pending w).

Definition set_broker (b : Broker ExecMessage) (w : ExecWorld) : ExecWorld :=
  mkExecWorld (process w) (status w) (frameworkId_ w) (executorId_ w) (slaveId_ w)
    (channelsCreated_ w) (pNotifyChannel_ w) (updates w) (tasks_ w) (aborted_ w)
    (connected_ w) b (timers w) (generated w) (notified w) (kill_pending w).

Definition set_timers (t : list Z) (w : ExecWorld) : ExecWorld :=
  mkExecWorld (process w) (status w) (frameworkId_ w) (executorId_ w) (slaveId_ w)
    (channelsCreated_ w) (pNotifyChannel_ w) (updates w) (tasks_ w) (aborted_ w)
    (connected_ w) (broker w) t (generated w) (notified w) (kill_pending w).

Definition set_generated (n : nat) (w : ExecWorld) : ExecWorld :=
  mkExecWorld (process w) (status w) (frameworkId_ w) (executorId_ w) (slaveId_ w)
    (channelsCreated_ w) (pNotifyChannel_ w) (updates w) (tasks_ w) (aborted_ w)
    (connected_ w) (broker w) (timers w) n (notified w) (kill_pending w).

Definition set_notified (l : list ExecCallback) (w : ExecWorld) : ExecWorld :=
  mkExecWorld (process w) (status w) (frameworkId_ w) (executorId_ w) (slaveId_ w)
    (channelsCreated_ w) (pNotifyChannel_ w) (updates w) (tasks_ w) (aborted_ w)
    (connected_ w) (broker w) (timers w) (generated w) l (kill_pending w).

Definition set_kill_pending (w : ExecWorld) : ExecWorld :=
  mkExecWorld (process w) (status w) (frameworkId_ w) (executorId_ w) (slaveId_ w)
    (channelsCreated_ w) (pNotifyChannel_ w) (updates w) (tasks_ w) (aborted_ w)
    (connected_ w) (broker w) (timers w) (generated w) (notified w) true.

(** ** Sending and registration *)

Definition sendMessage (m : ExecMessage) (w : ExecWorld) : outcome ExecWorld :=
  match pNotifyChannel_ w with
  | None => Fatal
  | Some _ => Ok (set_broker (write m (broker w)) w)
  end.

(** The executor runner's channel: what follows the last colon of the slave id. *)
Definition reply_to (w : ExecWorld) : option string :=
  (fun pos => substr_from (slaveId_ w) (pos + 1)) <$> find_last_of (slaveId_ w) ":".

Definition startRegistration (w : ExecWorld) : ExecWorld := set_timers (timers w ++ [0]) w.

Section registration.
Context `{Redis} `{ExecEnv}.

Definition createChannels (slaveId : string) (w : ExecWorld) : outcome ExecWorld :=
  let w := if channelsCreated_ w then w
           else set_channel true (Some (createChannel "notify" (broker w))) (slaveId_ w) w in
  match pNotifyChannel_ w with
  | None => Fatal
  | Some c =>
      let '(c, b) := registerInputCallback c (broker w) in
      Ok (set_broker b (set_channel (channelsCreated_ w) (Some c) slaveId w))
  end.

Definition doReliableRegistration (w : ExecWorld) : outcome ExecWorld :=
  match URB_MASTER with
  | None => Ok w
  | Some master =>
      let '(r, b) := setUrl master (broker w) in
      let w := set_broker b w in
      match r with
      | Ok _ =>
          w' ← createChannels (slaveId_ w) w;
          sendMessage (RegisterExecutorMessage (frameworkId_ w') (executorId_ w') (reply_to w')) w'
      | _ => Ok (set_timers (timers w ++ [1]) w)
      end
  end.

End registration.

Definition startHeartbeat (w : ExecWorld) : outcome ExecWorld :=
  match pNotifyChannel_ w with
  | None => Fatal
  | Some c => Ok (set_channel (channelsCreated_ w)
                    (Some (setHeartbeatPayload (executorId_ w) c)) (slaveId_ w) w)
  end.

Definition reconnect (from slaveId : string) (w : ExecWorld) : outcome ExecWorld :=
  if aborted_ w then Ok w
  else sendMessage (ReregisterExecutorMessage (frameworkId_ w) (executorId_ w)
                      (lhm_values (updates w)) (lhm_values (tasks_ w)) (reply_to w)) w.

Definition statusUpdateAcknowledgement (slaveId frameworkId taskId uuid : string)
    (w : ExecWorld) : outcome ExecWorld :=
  if aborted_ w || negb (connected_ w) then Ok w
  else
    let ups := subscript default_update uuid (updates w) in
    let eraseTasks := bool_decide
      (ts_state (eu_status (default default_update (lhm_get uuid ups))) = TASK_FINISHED) in
    Ok (set_maps (erase uuid ups)
          (if eraseTasks then erase taskId (tasks_ w) else tasks_ w) w).

(** [UrbExecutorProcess::abort] and [MesosExecutorDriver::abort]. *)
Definition abort (w : ExecWorld) : ExecWorld := set_flags true (connected_ w) w.

Definition driver_abort (w : ExecWorld) : outcome (Status * ExecWorld) :=
  if decide (status w = DRIVER_RUNNING) then
    _ ← CHECK (process w);
    Ok (DRIVER_ABORTED, set_status DRIVER_ABORTED (abort w))
  else Ok (status w, w).

Section handlers.
Context `{Os}.
Variable cb : ExecCallback → ExecWorld → outcome ExecWorld.

Definition registered (executorInfo frameworkInfo slaveInfo : string) (w : ExecWorld)
    : outcome ExecWorld :=
  if aborted_ w then Ok w
  else
    w' ← startHeartbeat (set_flags (aborted_ w) true w);
    cb (ex_registered executorInfo frameworkInfo slaveInfo) w'.

Definition reregistered (slaveInfo : string) (w : ExecWorld) : outcome ExecWorld :=
  if aborted_ w then Ok w
  else
    w' ← startHeartbeat (set_flags (aborted_ w) true w);
    cb (ex_reregistered slaveInfo) w'.

Definition runTask (task : TaskInfo) (w : ExecWorld) : outcome ExecWorld :=
  if aborted_ w || negb (connected_ w) then Ok w
  else
    _ ← CHECK (negb (lhm_contains (ti_task_id task) (tasks_ w)));
    cb (ex_launchTask task)
       (set_maps (updates w) (assign default_task (ti_task_id task) task (tasks_ w)) w).

Definition killTask (taskId : string) (w : ExecWorld) : outcome ExecWorld :=
  if aborted_ w then Ok w else cb (ex_killTask taskId) w.

Definition frameworkMessage (data : string) (w : ExecWorld) : outcome ExecWorld :=
  if aborted_ w || negb (connected_ w) then Ok w else cb (ex_frameworkMessage data) w.

(** The parent after the fork; the child kills it a second later. *)
Definition shutdown (w : ExecWorld) : outcome ExecWorld :=
  if aborted_ w then Ok w
  else
    w' ← cb ex_shutdown (set_kill_pending w);
    Ok (set_flags true (connected_ w') (set_broker (Broker.shutdown (broker w')) w')).

(** The update that is sent and kept for a status. *)
Definition make_update (st : TaskStatus) (n : nat) (w : ExecWorld) : ExecUpdate :=
  mkExecUpdate (frameworkId_ w) (executorId_ w) (slaveId_ w)
    (mkTaskStatus (ts_task_id st) (ts_state st) (ts_message st) (Some (slaveId_ w)) (ts_uuid st)
       (Some (time0 n)))
    (time0 n) (uuid_text n).

Definition sendStatusUpdate (st : TaskStatus) (w : ExecWorld) : outcome ExecWorld :=
  if decide (ts_state st = TASK_STAGING) then
    '(_, w') ← driver_abort w;
    cb (ex_error "Attempted to send TASK_STAGING status update") w'
  else
    let update := make_update st (generated w) w in
    let w := set_generated (S (generated w)) w in
    sendMessage (StatusUpdateMessage update)
      (set_maps (assign default_update (eu_uuid update) update (updates w)) (tasks_ w) w).

Definition sendFrameworkMessage (data : string) (w : ExecWorld) : outcome ExecWorld :=
  sendMessage (ExecutorToFrameworkMessage (slaveId_ w) (frameworkId_ w) (executorId_ w) data) w.

End handlers.

(** ** The driver *)

(** The methods of [ExecutorDriver], but [join] and [run], which block. *)
Inductive ExecCall :=
  | xcall_start
  | xcall_stop
  | xcall_abort
  | xcall_sendStatusUpdate (st : TaskStatus)
  | xcall_sendFrameworkMessage (data : string).

Class ExecApplication := exec_react : list ExecCallback → list ExecCall.

Definition new_driver (b : Broker ExecMessage) : ExecWorld :=
  mkExecWorld false DRIVER_NOT_STARTED "" "" "" false None lhm_empty lhm_empty false false b
    [] 0 [] false.

Section driver.
Context `{Os} `{ExecEnv} `{ExecApplication}.

Definition start (w : ExecWorld) : outcome (Status * ExecWorld) :=
  _ ← CHECK (negb (process w));
  let w := startRegistration
    (mkExecWorld true (status w) (get_or "" URB_FRAMEWORK_ID) (get_or "" URB_EXECUTOR_ID)
       (get_or "" URB_SLAVE_ID) false None lhm_empty lhm_empty false false (broker w)
       (timers w) (generated w) (notified w) (kill_pending w)) in
  if decide (status w = DRIVER_NOT_STARTED)
  then Ok (DRIVER_RUNNING, set_status DRIVER_RUNNING w)
  else Ok (status w, w).

Definition stop (w : ExecWorld) : outcome (Status * ExecWorld) :=
  match status w with
  | DRIVER_RUNNING =>
      _ ← CHECK (process w); Ok (DRIVER_STOPPED, set_status DRIVER_STOPPED w)
  | DRIVER_ABORTED =>
      _ ← CHECK (process w); Ok (DRIVER_ABORTED, set_status DRIVER_STOPPED w)
  | s => Ok (s, w)
  end.

Definition exec_join (w : ExecWorld) : option Status :=
  if decide (status w = DRIVER_RUNNING) then None else Some (status w).

Definition exec_call (cb : ExecCallback → ExecWorld → outcome ExecWorld) (c : ExecCall)
    (w : ExecWorld) : outcome (Status * ExecWorld) :=
  let running (f : ExecWorld → outcome ExecWorld) :=
    if decide (status w = DRIVER_RUNNING) then
      _ ← CHECK (process w); w' ← f w; Ok (status w', w')
    else Ok (status w, w) in
  match c with
  | xcall_start => start w
  | xcall_stop => stop w
  | xcall_abort => driver_abort w
  | xcall_sendStatusUpdate st => running (sendStatusUpdate cb st)
  | xcall_sendFrameworkMessage data => running (sendFrameworkMessage data)
  end.

Fixpoint exec_callback (depth : nat) (c : ExecCallback) (w : ExecWorld) : outcome ExecWorld :=
  match depth with
  | O => Err "call depth"
  | S depth' =>
      let w := set_notified (notified w ++ [c]) w in
      mfold (fun w call => snd <$> exec_call (exec_callback depth') call w) w
            (exec_react (notified w))
  end.

End driver.

(** ** Messages of the broker *)

Class ExecJson (Json : Type) := {
  ExecutorRegistered_of_json : Json → outcome (string * string * string);
  ExecutorReregistered_of_json : Json → outcome string;
  ReconnectExecutor_of_json : Json → outcome string;
  StatusUpdateAcknowledgement_of_json : Json → outcome (string * string * string * string);
  KillTask_of_json : Json → outcome string;
  RunTask_of_json : Json → outcome TaskInfo;
  FrameworkToExecutor_of_json : Json → outcome string;
  ShutdownExecutor_of_json : Json → outcome unit }.

Inductive ExecMessages :=
  | EXECUTOR_REGISTERED | EXECUTOR_REREGISTERED | RECONNECT_EXECUTOR | RUN_TASK | KILL_TASK
  | STATUS_UPDATE_ACKNOWLEDGE | FRAMEWORK_TO_EXECUTOR | SHUTDOWN_EXECUTOR
  | EXEC_SERVICE_DISCONNECTED.

(** The table that the constructor of [ExecutorNotifyCallback] fills. *)
Definition exec_messages (target : string) : option ExecMessages :=
  if str_eqb target "ExecutorRegisteredMessage" then Some EXECUTOR_REGISTERED
  else if str_eqb target "RunTaskMessage" then Some RUN_TASK
  else if str_eqb target "KillTaskMessage" then Some KILL_TASK
  else if str_eqb target "FrameworkToExecutorMessage" then Some FRAMEWORK_TO_EXECUTOR
  else if str_eqb target "ShutdownExecutorMessage" then Some SHUTDOWN_EXECUTOR
  else if str_eqb target "ExecutorReregisteredMessage" then Some EXECUTOR_REREGISTERED
  else if str_eqb target "ReconnectExecutorMessage" then Some RECONNECT_EXECUTOR
  else if str_eqb target "ServiceDisconnectedMessage" then Some EXEC_SERVICE_DISCONNECTED
  else if str_eqb target "StatusUpdateAcknowledgementMessage" then Some STATUS_UPDATE_ACKNOWLEDGE
  else None.

Section input.
Context `{ExecJson Json}.

(** The type of the message is not looked at: an error message has an empty
    target and is ignored like any unknown one. *)
Definition onInput (cb : ExecCallback → ExecWorld → outcome ExecWorld) (m : InMessage Json)
    (w : ExecWorld) : outcome ExecWorld :=
  let j := m_payload m in
  match exec_messages (m_target m) with
  | None => Ok w
  | Some EXECUTOR_REGISTERED =>
      '(executorInfo, frameworkInfo, slaveInfo) ← uncaught (ExecutorRegistered_of_json j);
      registered cb executorInfo frameworkInfo slaveInfo w
  | Some EXECUTOR_REREGISTERED =>
      slaveInfo ← uncaught (ExecutorReregistered_of_json j); reregistered cb slaveInfo w
  | Some RECONNECT_EXECUTOR =>
      slave ← uncaught (ReconnectExecutor_of_json j); reconnect "" slave w
  | Some EXEC_SERVICE_DISCONNECTED => reconnect "" (slaveId_ w) w
  | Some STATUS_UPDATE_ACKNOWLEDGE =>
      '(slave, fid, task, uuid) ← uncaught (StatusUpdateAcknowledgement_of_json j);
      statusUpdateAcknowledgement slave fid task uuid w
  | Some KILL_TASK => task ← uncaught (KillTask_of_json j); killTask cb task w
  | Some RUN_TASK => task ← uncaught (RunTask_of_json j); runTask cb task w
  | Some FRAMEWORK_TO_EXECUTOR =>
      data ← uncaught (FrameworkToExecutor_of_json j); frameworkMessage cb data w
  | Some SHUTDOWN_EXECUTOR => _ ← uncaught (ShutdownExecutor_of_json j); shutdown cb w
  end.

End input.

(** ** A running executor *)

Section run.
Context `{Redis} `{Os} `{ExecEnv} `{ExecApplication} `{ExecJson Json}.

Inductive ExecEvent :=
  | xev_call (c : ExecCall)
  | xev_input (m : InMessage Json)
  | xev_timer (seconds : Z).

Fixpoint remove_timer (t : Z) (l : list Z) : list Z :=
  match l with
  | [] => []
  | t' :: l' => if decide (t = t') then l' else t' :: remove_timer t l'
  end.

Definition exec_enabled (e : ExecEvent) (w : ExecWorld) : Prop :=
  match e with
  | xev_call _ => True
  | xev_input m =>
      isRunning_ (broker w) = true ∧ (ch_callback <$> pNotifyChannel_ w) = Some true ∧
      m_type m ≠ NIL
  | xev_timer t => process w = true ∧ t ∈ timers w
  end.

Definition exec_event (depth : nat) (e : ExecEvent) (w : ExecWorld) : outcome ExecWorld :=
  match e with
  | xev_call c => snd <$> exec_call (exec_callback depth) c w
  | xev_input m => onInput (exec_callback depth) m w
  | xev_timer t => doReliableRegistration (set_timers (remove_timer t (timers w)) w)
  end.

(** The worlds that an executor can be in; two levels of nested calls or more. *)
Inductive exec_reachable : ExecWorld → Prop :=
  | exec_reachable_new : exec_reachable (new_driver new_broker)
  | exec_reachable_step depth e w w' :
      exec_reachable w → exec_enabled e w → exec_event (S (S depth)) e w = Ok w' →
      exec_reachable w'.

End run.
