(* ===== verification/DriverLife.v ===== *)
(** * DriverLife: constructors, destructors and [run] of the drivers (sched.cpp, exec.cpp)

    The four constructors of [MesosSchedulerDriver] set up logging (two of them),
    the acknowledgement mode, the credential and the user of the framework; the
    destructor deletes the process, which waits for the event loop
    (Shutdown.v); [run] is [start] followed by [join].

    glog is seen through what the constructors give it: two flags, and the name of
    the first call of [InitGoogleLogging]. *)

From S2P Require Import Prelude StoutStrings Shutdown TypeUtils Executor Broker Scheduler SchedulerDriver.
#[local] Open Scope string_scope.
#[local] Open Scope Z_scope.

(** ** Logging *)

(** [URB_LOGLEVEL] and [FLAGS_log_dir]. *)
Class LogEnvironment := {
  URB_LOGLEVEL : option string;
  FLAGS_log_dir : string }.

Record Logging := mkLogging {
  FLAGS_minloglevel : Z;
  FLAGS_logtostderr : bool;
  initialized : option string }.

Section constructors.
Context `{LogEnvironment} `{Os}.

(** The level: a warning by default, else a number.  Of the two constructors that
    do this, one catches the exception of [std::stoi] and reports it. *)
Definition read_loglevel (caught : bool) (g : Logging) : outcome Logging :=
  let set x := mkLogging x (FLAGS_logtostderr g) (initialized g) in
  match URB_LOGLEVEL with
  | None | Some "" => Ok (set 1)
  | Some level =>
      match stoi level with
      | Ok x => Ok (set x)
      | other => if caught then Ok g else set <$> other
      end
  end.

(** [std::call_once(once, google::InitGoogleLogging, name)]. *)
Definition call_once (name : string) (g : Logging) : Logging :=
  mkLogging (FLAGS_minloglevel g) (FLAGS_logtostderr g)
    (match initialized g with None => Some name | Some n => Some n end).

Definition start_logging (caught : bool) (name : string) (g : Logging) : outcome Logging :=
  g ← read_loglevel caught g;
  let g := if str_empty FLAGS_log_dir
           then mkLogging (FLAGS_minloglevel g) true (initialized g) else g in
  Ok (call_once name g).

(** ** The scheduler driver *)

Record Driver := mkDriver {
  world : World;
  implicitAcknowlegements : bool;
  credential : option Credential }.

Definition MesosSchedulerDriver_implicit (f : FrameworkInfo) (m : string) (implicit : bool)
    (g : Logging) (b : Broker Message) : outcome (Driver * Logging) :=
  g ← start_logging true (fi_name f) g;
  w ← new_driver f m b;
  Ok (mkDriver w implicit None, g).

Definition MesosSchedulerDriver_plain (f : FrameworkInfo) (m : string)
    (g : Logging) (b : Broker Message) : outcome (Driver * Logging) :=
  g ← start_logging false (fi_name f) g;
  w ← new_driver f m b;
  Ok (mkDriver w true None, g).

Definition MesosSchedulerDriver_full (f : FrameworkInfo) (m : string) (implicit : bool)
    (c : Credential) (g : Logging) (b : Broker Message) : outcome (Driver * Logging) :=
  w ← new_driver f m b;
  Ok (mkDriver w implicit (Some c), g).

Definition MesosSchedulerDriver_credential (f : FrameworkInfo) (m : string) (c : Credential)
    (g : Logging) (b : Broker Message) : outcome (Driver * Logging) :=
  w ← new_driver f m b;
  Ok (mkDriver w true (Some c), g).
End constructors.

(** [~MesosSchedulerDriver]: what the thread has to do (the destructor of the
    process), and the driver afterwards. *)
Definition destroy_driver {M : Type} (d : Driver) : list (Stmt (M := M)) * Driver :=
  let w := world d in
  let code := if process w then destroy_process (channelsCreated_ w) else [] in
  let w' := if process w
            then mkWorld (framework w) (master w) false (status w) (channelsCreated_ w)
                   (pNotifyChannel_ w) (framework_ w) (failover_ w) (master_ w) (connected_ w)
                   (aborted_ w) (savedSlavePids_ w) (activeTasks_ w) (broker w) (timers w)
                   (generated w) (notified w)
            else w in
  (code, mkDriver w' (implicitAcknowlegements d) None).

(** [run]: the status it returns at once, or [None] while it waits in [join]. *)
Definition driver_run (w : World) : outcome (option Status * World) :=
  '(status, w') ← start w;
  Ok (if decide (status = DRIVER_RUNNING) then join w' else Some status, w').

(** ** The executor driver *)

(** [~MesosExecutorDriver] *)
Definition destroy_executor_driver {M : Type} (w : ExecWorld) : list (Stmt (M := M)) :=
  if Executor.process w then destroy_executor_process (Executor.channelsCreated_ w) else [].

Definition executor_run `{ExecEnv} (w : ExecWorld) : outcome (option Status * ExecWorld) :=
  '(status, w') ← Executor.start w;
  Ok (if decide (status = DRIVER_RUNNING) then exec_join w' else Some status, w').

(** ** Facts *)

Section facts.
Context `{LogEnvironment} `{Os}.

(** [std::stoi] accepts the variable, or it is not needed. *)
Definition loglevel_ok : Prop :=
  match URB_LOGLEVEL with
  | None | Some "" => True
  | Some level => ∃ x, stoi level = Ok x
  end.

Lemma start_logging_ok caught name g :
  loglevel_ok → start_logging caught name g = start_logging true name g.
Proof.
  unfold loglevel_ok, start_logging, read_loglevel. intros Hl.
  destruct URB_LOGLEVEL as [[|c l]|]; [done| |done]. destruct Hl as [x Hx]. by rewrite Hx.
Qed.

(** Apart from logging, the constructors differ in the mode and the credential
    only: with a usable log level they all succeed or fail together, and they make
    the same world. *)
Theorem constructors_agree f m implicit c g b w :
  loglevel_ok →
  MesosSchedulerDriver_plain f m g b = MesosSchedulerDriver_implicit f m true g b ∧
  ((∃ g', MesosSchedulerDriver_implicit f m implicit g b = Ok (mkDriver w implicit None, g')) ↔
   MesosSchedulerDriver_full f m implicit c g b = Ok (mkDriver w implicit (Some c), g)) ∧
  MesosSchedulerDriver_credential f m c g b = MesosSchedulerDriver_full f m true c g b.
Proof.
  intros Hl. split_and!; [| |done].
  - unfold MesosSchedulerDriver_plain, MesosSchedulerDriver_implicit.
    by rewrite (start_logging_ok false).
  - unfold MesosSchedulerDriver_implicit, MesosSchedulerDriver_full.
    assert (∃ g', start_logging true (fi_name f) g = Ok g') as [g' Hg].
    { unfold start_logging, read_loglevel. unfold loglevel_ok in Hl.
      destruct URB_LOGLEVEL as [[|a l]|]; cbn; [by eexists| |by eexists].
      destruct Hl as [x Hx]. rewrite Hx. by eexists. }
    rewrite Hg. cbn. destruct (new_driver f m b) as [w'|e|]; cbn; [|split; [by intros []|done]..].
    split; [intros (? & [= -> _])|intros [= ->]]; by eauto.
Qed.

(** With a log level that is not a number, only one of the two that read it
    survives: the exception leaves the other one. *)
Lemma plain_constructor_throws f m implicit g b level e :
  URB_LOGLEVEL = Some level → level ≠ "" → stoi level = Err e →
  MesosSchedulerDriver_plain f m g b = Err e ∧
  (∀ w, new_driver f m b = Ok w →
     ∃ g', MesosSchedulerDriver_implicit f m implicit g b = Ok (mkDriver w implicit None, g')).
Proof.
  intros Hv Hne Hs. unfold MesosSchedulerDriver_plain, MesosSchedulerDriver_implicit.
  unfold start_logging, read_loglevel. rewrite Hv. destruct level as [|a l]; [done|]. rewrite Hs.
  cbn. split; [done|]. intros w Hw. rewrite Hw. cbn. by eexists.
Qed.
End facts.

(** The executor's destructor runs the same code as the scheduler's. *)
Lemma destroy_executor_driver_code {M : Type} (w : ExecWorld) :
  Executor.process w = true → Executor.channelsCreated_ w = true →
  destroy_executor_driver (M := M) w = code_of (c_destroy_process true).
Proof. unfold destroy_executor_driver. by intros -> ->. Qed.

(** [run] waits: [start] leaves the driver running, whatever its status was. *)
Theorem run_waits w r w' :
  driver_run w = Ok (r, w') → r = None ∧ status w' = DRIVER_RUNNING ∧
  ∀ s, join (set_status s w') = if decide (s = DRIVER_RUNNING) then None else Some s.
Proof.
  unfold driver_run, start. intros Hr.
  assert (Hst : r = None ∧ status w' = DRIVER_RUNNING).
  { destruct (decide (status w = DRIVER_NOT_STARTED)).
    - destruct (process w); cbn in Hr; [done|]. injection Hr as <- <-. by unfold join.
    - destruct (decide (status w = DRIVER_STOPPED)), (process w); cbn in Hr; simplify_eq;
        by unfold join. }
  destruct Hst as [-> Hst]. by split_and!.
Qed.

(** The executor's [run] waits after the first start; a driver that was started
    before is not started again, its process is found and the check fails. *)
Lemma executor_run_waits `{ExecEnv} w :
  (Executor.process w = false → Executor.status w = DRIVER_NOT_STARTED →
   ∃ w', executor_run w = Ok (None, w') ∧ Executor.status w' = DRIVER_RUNNING) ∧
  (Executor.process w = true → executor_run w = Fatal).
Proof.
  unfold executor_run, Executor.start. split.
  - intros -> Hs. cbn. rewrite Hs. cbn. eexists. split; [done|reflexivity].
  - by intros ->.
Qed.

(** The destructor of a driver that was started runs the destructor of the process;
    destroying again does nothing. *)
Lemma destroy_driver_once {M : Type} (d : Driver) :
  let '(code, d') := destroy_driver (M := M) d in
  (process (world d) = true → channelsCreated_ (world d) = true →
   code = code_of (c_destroy_process true)) ∧
  credential d' = None ∧ process (world d') = false ∧ destroy_driver (M := M) d' = ([], d').
Proof.
  unfold destroy_driver. destruct (process (world d)) eqn:Hp; cbn.
  - split_and!; try done. by intros _ ->.
  - rewrite Hp. cbn. by split_and!.
Qed.
