(* ===== verification/ExecutorLaws.v ===== *)
(** * ExecutorLaws: the executor side is total and forgets no update

    The invariant of the worlds an executor can be in, that every event is
    handled to its end whatever the application does, and that a reconnection
    sends exactly the updates that were not acknowledged. *)

From S2P Require Import Prelude Broker Scheduler SchedulerDriver LinkedHashMap Executor.
#[local] Open Scope string_scope.
#[local] Open Scope list_scope.
#[local] Open Scope Z_scope.

Section invariant.
Context `{Os}.

Record EInv (w : ExecWorld) : Prop := mkEInv {
  ei_process : process w = bool_decide (status w ≠ DRIVER_NOT_STARTED);
  ei_channel : has (pNotifyChannel_ w) = channelsCreated_ w;
  ei_started : channelsCreated_ w = true → process w = true;
  ei_connected : connected_ w = true → channelsCreated_ w = true;
  ei_updates : lhm_inv (updates w);
  ei_tasks : lhm_inv (tasks_ w);
  ei_uuids : ∀ k u, (k, u) ∈ alist (updates w) →
    eu_uuid u = k ∧ ∃ n, (n < generated w)%nat ∧ k = uuid_text n }.

(** What driver calls and callbacks can do to a world with a channel. *)
Record ecalm (w w' : ExecWorld) : Prop := mkECalm {
  ec_inv : EInv w';
  ec_process : process w = true → process w' = true;
  ec_ids : (frameworkId_ w', executorId_ w', slaveId_ w') =
           (frameworkId_ w, executorId_ w, slaveId_ w);
  ec_channel : pNotifyChannel_ w' = pNotifyChannel_ w;
  ec_created : channelsCreated_ w' = channelsCreated_ w;
  ec_connected : connected_ w' = connected_ w;
  ec_tasks : tasks_ w' = tasks_ w;
  ec_running : isRunning_ (broker w') = isRunning_ (broker w);
  ec_status : status w ≠ DRIVER_RUNNING → status w' ≠ DRIVER_RUNNING }.

Lemma ecalm_refl (w : ExecWorld) : EInv w → ecalm w w.
Proof. by constructor. Qed.

#[export] Instance ecalm_trans : Transitive ecalm.
Proof.
  intros w1 w2 w3 [] []. constructor; try congruence; auto.
Qed.

(** The operation returns, and is calm. *)
Definition fine (w : ExecWorld) (r : outcome ExecWorld) : Prop :=
  ∃ w', r = Ok w' ∧ ecalm w w'.

Lemma fine_refl (w : ExecWorld) : EInv w → fine w (Ok w).
Proof. exists w. auto using ecalm_refl. Qed.

Lemma fine_bind (w : ExecWorld) (m : outcome ExecWorld) (f : ExecWorld → outcome ExecWorld) :
  fine w m → (∀ w', ecalm w w' → fine w' (f w')) → fine w (m ≫= f).
Proof.
  intros (w1 & -> & H1) Hf. destruct (Hf w1 H1) as (w2 & E & H2). exists w2.
  split; [done|]. by etrans.
Qed.

Lemma fine_mfold {A : Type} (f : ExecWorld → A → outcome ExecWorld) (l : list A)
    (P : ExecWorld → Prop) (w : ExecWorld) :
  EInv w → P w → (∀ w w', P w → ecalm w w' → P w') →
  (∀ w x, x ∈ l → EInv w → P w → fine w (f w x)) → fine w (mfold f w l).
Proof.
  intros Hi HP Hstable Hf. revert w Hi HP. induction l as [|x l IH]; intros w Hi HP; cbn.
  - by apply fine_refl.
  - apply fine_bind; [apply Hf; [left|done..]|]. intros w' Hw'.
    apply IH; [|apply Hw'|by eapply Hstable]. intros. apply Hf; [by right|done..].
Qed.

(** Changes that the invariant does not look at. *)
Lemma ecalm_neutral (w w' : ExecWorld) :
  EInv w →
  (process w', status w', pNotifyChannel_ w', channelsCreated_ w', connected_ w', updates w',
   tasks_ w', generated w', isRunning_ (broker w')) =
  (process w, status w, pNotifyChannel_ w, channelsCreated_ w, connected_ w, updates w,
   tasks_ w, generated w, isRunning_ (broker w)) →
  (frameworkId_ w', executorId_ w', slaveId_ w') =
  (frameworkId_ w, executorId_ w, slaveId_ w) → ecalm w w'.
Proof.
  intros [I1 I2 I3 I4 I5 I6 I7] E Hids. injection E as E1 E2 E3 E4 E5 E6 E7 E8 E9.
  constructor; try congruence.
  constructor; rewrite ?E1, ?E2, ?E3, ?E4, ?E5, ?E6, ?E7, ?E8; done.
Qed.

Lemma exec_channel_exists (w : ExecWorld) :
  EInv w → channelsCreated_ w = true → ∃ c, pNotifyChannel_ w = Some c.
Proof.
  intros Hi Hc. pose proof (ei_channel _ Hi) as Hh. rewrite Hc in Hh.
  destruct (pNotifyChannel_ w); [eauto|done].
Qed.

Lemma exec_send_Ok (m : ExecMessage) (w : ExecWorld) :
  EInv w → channelsCreated_ w = true →
  sendMessage m w = Ok (set_broker (write m (broker w)) w).
Proof.
  intros Hi Hc. unfold sendMessage. by destruct (exec_channel_exists w Hi Hc) as (c & ->).
Qed.

Lemma exec_send_fine (m : ExecMessage) (w : ExecWorld) :
  EInv w → channelsCreated_ w = true → fine w (sendMessage m w).
Proof.
  intros Hi Hc. rewrite exec_send_Ok by done. eexists. split; [done|].
  apply ecalm_neutral; [done| |done]. cbn. by rewrite write_isRunning.
Qed.

Lemma ecalm_status (s : Status) (w : ExecWorld) :
  EInv w → process w = true → s ≠ DRIVER_NOT_STARTED → s ≠ DRIVER_RUNNING →
  ecalm w (set_status s w).
Proof.
  intros [I1 I2 I3 I4 I5 I6 I7] Hp Hs Hr. constructor; cbn; try done.
  constructor; cbn; try done. by rewrite bool_decide_eq_true_2.
Qed.

Lemma ecalm_flags (aborted : bool) (w : ExecWorld) :
  EInv w → ecalm w (set_flags aborted (connected_ w) w).
Proof. intros Hi. by apply ecalm_neutral. Qed.

Lemma exec_process (w : ExecWorld) :
  EInv w → status w ≠ DRIVER_NOT_STARTED → process w = true.
Proof. intros Hi Hs. rewrite (ei_process _ Hi). by apply bool_decide_eq_true_2. Qed.

Lemma exec_abort_fine (w : ExecWorld) :
  EInv w → ∃ s w', driver_abort w = Ok (s, w') ∧ ecalm w w' ∧ status w' ≠ DRIVER_RUNNING.
Proof.
  intros Hi. unfold driver_abort. destruct (decide _) as [Hr|Hr].
  - assert (Hp : process w = true) by (apply exec_process; congruence). rewrite Hp.
    cbn [CHECK mbind outcome_bind]. eexists _, _. split; [done|]. split; [|done].
    pose proof (ecalm_flags true w Hi) as Ha. etrans; [exact Ha|].
    by apply ecalm_status; [apply Ha|..].
  - eexists _, _. split; [done|]. auto using ecalm_refl.
Qed.

(** Sending a status keeps the update under its uuid. *)
Lemma record_update (st : TaskStatus) (w : ExecWorld) :
  EInv w →
  let u := make_update st (generated w) w in
  ecalm w (set_maps (assign default_update (eu_uuid u) u (updates w)) (tasks_ w)
             (set_generated (S (generated w)) w)).
Proof.
  intros [I1 I2 I3 I4 I5 I6 I7] u.
  destruct (assign_spec default_update (eu_uuid u) u (updates w) I5) as [Hinv Ha].
  constructor; try done. constructor; try done. intros k v.
  cbn [updates set_maps generated set_generated]. rewrite Ha.
  unfold alist_assign.
  destruct (decide (eu_uuid u ∈ (alist (updates w)).*1)) as [Hd|Hd].
  - intros ([k' v'] & [= -> ->] & Hin)%list_elem_of_fmap.
    apply I7 in Hin as (Hu & n & Hn & Hk). split.
    { destruct (decide _) as [Heq|_]; [symmetry; exact Heq|exact Hu]. }
    exists n. split; [lia|done].
  - intros [Hin|[= -> ->]%list_elem_of_singleton]%elem_of_app.
    + apply I7 in Hin as (Hu & n & Hn & Hk). split; [done|]. exists n. split; [lia|done].
    + split; [done|]. exists (generated w). split; [lia|done].
Qed.

Section calls.
Context `{ExecEnv}.
Variable cb : ExecCallback → ExecWorld → outcome ExecWorld.

(** The driver calls back only after it has stopped running. *)
Hypothesis Hcb : ∀ c w, EInv w → process w = true → status w ≠ DRIVER_RUNNING →
  fine w (cb c w).

(** A staging status aborts the driver and is reported to the application. *)
Lemma send_staging_fine (st : TaskStatus) (w : ExecWorld) :
  EInv w → process w = true → ts_state st = TASK_STAGING → fine w (sendStatusUpdate cb st w).
Proof.
  intros Hi Hp Hs. unfold sendStatusUpdate. rewrite decide_True by done.
  destruct (exec_abort_fine w Hi) as (s & w1 & -> & H1 & Hr). cbn [mbind outcome_bind].
  destruct (Hcb (ex_error "Attempted to send TASK_STAGING status update") w1)
    as (w2 & E & H2); [apply H1|by apply (ec_process _ _ H1)|done|].
  exists w2. split; [done|]. by etrans.
Qed.

Lemma sendStatusUpdate_fine (st : TaskStatus) (w : ExecWorld) :
  EInv w → channelsCreated_ w = true → fine w (sendStatusUpdate cb st w).
Proof.
  intros Hi Hc. destruct (decide (ts_state st = TASK_STAGING)) as [Hs|Hs].
  - apply send_staging_fine; [done|by apply (ei_started _ Hi)|done].
  - unfold sendStatusUpdate. rewrite decide_False by done. pose proof (record_update st w Hi) as Hrec. cbn zeta in Hrec.
    destruct (exec_send_fine (StatusUpdateMessage (make_update st (generated w) w))
      _ (ec_inv _ _ Hrec) Hc) as (w2 & E & H2).
    exists w2. split; [exact E|]. etrans; [exact Hrec|exact H2].
Qed.

(** Every call but [start] returns in a world with a channel. *)
Lemma exec_call_fine (c : ExecCall) (w : ExecWorld) :
  EInv w → channelsCreated_ w = true → c ≠ xcall_start →
  fine w (snd <$> exec_call cb c w).
Proof.
  intros Hi Hc Hns. pose proof (ei_started _ Hi Hc) as Hp. destruct c; [done|..]; cbn [exec_call].
  - unfold stop. destruct (status w) eqn:Hs; try by apply fine_refl.
    all: rewrite Hp; eexists; split; [done|]; cbn; by apply ecalm_status.
  - destruct (exec_abort_fine w Hi) as (s & w' & -> & Hw' & _). by exists w'.
  - case_decide; [|by apply fine_refl]. rewrite Hp. cbn [CHECK mbind outcome_bind].
    destruct (sendStatusUpdate_fine st w Hi Hc) as (w' & -> & Hw'). by exists w'.
  - case_decide; [|by apply fine_refl]. rewrite Hp. cbn [CHECK mbind outcome_bind].
    destruct (exec_send_fine (ExecutorToFrameworkMessage (slaveId_ w) (frameworkId_ w)
      (executorId_ w) data) w Hi Hc) as (w' & E & Hw').
    unfold sendFrameworkMessage. rewrite E. by exists w'.
Qed.

End calls.

(** A stopped or aborted driver calls nobody back. *)
Lemma idle_call_fine `{ExecEnv} (cb : ExecCallback → ExecWorld → outcome ExecWorld)
    (c : ExecCall) (w : ExecWorld) :
  EInv w → process w = true → status w ≠ DRIVER_RUNNING → c ≠ xcall_start →
  fine w (snd <$> exec_call cb c w).
Proof.
  intros Hi Hp Hr Hns. destruct c; [done|..]; cbn [exec_call].
  - unfold stop. destruct (status w) eqn:Hs; try by apply fine_refl.
    all: rewrite Hp; eexists; split; [done|]; cbn; by apply ecalm_status.
  - destruct (exec_abort_fine w Hi) as (s & w' & -> & Hw' & _). by exists w'.
  - rewrite decide_False by done. by apply fine_refl.
  - rewrite decide_False by done. by apply fine_refl.
Qed.

(** The application does not start the driver from a callback. *)
Definition never_starts `{ExecApplication} : Prop := ∀ h, xcall_start ∉ exec_react h.

Lemma idle_callback_fine `{ExecEnv} `{ExecApplication} (depth : nat) (c : ExecCallback)
    (w : ExecWorld) :
  never_starts → EInv w → process w = true → status w ≠ DRIVER_RUNNING →
  fine w (exec_callback (S depth) c w).
Proof.
  intros Hns Hi Hp Hr. cbn [exec_callback].
  set (w' := set_notified _ w). assert (Hn : ecalm w w') by (by apply ecalm_neutral).
  destruct (fine_mfold (fun w call => snd <$> exec_call (exec_callback depth) call w)
    (exec_react (notified w')) (fun w => process w = true ∧ status w ≠ DRIVER_RUNNING)
    w' (ec_inv _ _ Hn)) as (w2 & E & H2).
  - done.
  - intros w1 w2 [Hc1 Hr1] Hw. split; [by apply (ec_process _ _ Hw)|by apply (ec_status _ _ Hw)].
  - intros w1 call Hcall Hi1 [Hc1 Hr1]. apply idle_call_fine; try done.
    intros ->. by eapply Hns.
  - exists w2. split; [exact E|]. by etrans.
Qed.

(** Two levels are enough for every application. *)
Lemma exec_callback_fine `{ExecEnv} `{ExecApplication} (depth : nat) (c : ExecCallback)
    (w : ExecWorld) :
  never_starts → EInv w → channelsCreated_ w = true → fine w (exec_callback (S (S depth)) c w).
Proof.
  intros Hns Hi Hc. cbn [exec_callback].
  set (w' := set_notified _ w). assert (Hn : ecalm w w') by (by apply ecalm_neutral).
  destruct (fine_mfold (fun w call => snd <$> exec_call (exec_callback (S depth)) call w)
    (exec_react (notified w')) (fun w => channelsCreated_ w = true)
    w' (ec_inv _ _ Hn)) as (w2 & E & H2).
  - done.
  - intros w1 w2 Hc1 Hw. by rewrite (ec_created _ _ Hw).
  - intros w1 call Hcall Hi1 Hc1. apply exec_call_fine; try done.
    + intros. by apply idle_callback_fine.
    + intros ->. by eapply Hns.
  - exists w2. split; [exact E|]. by etrans.
Qed.

End invariant.

(** ** Events *)

Section events.
Context `{Redis} `{Os} `{ExecEnv} `{ExecApplication} `{ExecJson Json}.

(** What the slave and the application owe: the payload of a message decodes, a
    task is not run twice, the driver
    is started once, and nothing is sent before the channel exists. *)
Definition exec_event_ok (e : ExecEvent) (w : ExecWorld) : Prop :=
  match e with
  | xev_call xcall_start => process w = false
  | xev_call (xcall_sendStatusUpdate _) | xev_call (xcall_sendFrameworkMessage _) =>
      status w = DRIVER_RUNNING → channelsCreated_ w = true
  | xev_input m =>
      let j := m_payload m in
      match exec_messages (m_target m) with
      | Some EXECUTOR_REGISTERED => returns (ExecutorRegistered_of_json j)
      | Some EXECUTOR_REREGISTERED => returns (ExecutorReregistered_of_json j)
      | Some RECONNECT_EXECUTOR => returns (ReconnectExecutor_of_json j)
      | Some STATUS_UPDATE_ACKNOWLEDGE => returns (StatusUpdateAcknowledgement_of_json j)
      | Some KILL_TASK => returns (KillTask_of_json j)
      | Some RUN_TASK =>
          ∃ task, RunTask_of_json j = Ok task ∧ lhm_contains (ti_task_id task) (tasks_ w) = false
      | Some FRAMEWORK_TO_EXECUTOR => returns (FrameworkToExecutor_of_json j)
      | Some SHUTDOWN_EXECUTOR => returns (ShutdownExecutor_of_json j)
      | _ => True
      end
  | _ => True
  end.

(** The outcome of an event: the invariant again, or a crash that [P] allows. *)
Definition exec_outcome (P : Prop) (r : outcome ExecWorld) : Prop :=
  match r with
  | Ok w' => EInv w'
  | Err _ => False
  | Fatal => P
  end.

Lemma fine_outcome (P : Prop) (w : ExecWorld) (r : outcome ExecWorld) :
  fine w r → exec_outcome P r.
Proof. intros (w' & -> & Hw'). apply Hw'. Qed.

Lemma heartbeat_callback (depth : nat) (c : ExecCallback) (a : bool) (P : Prop) (w : ExecWorld) :
  never_starts → EInv w → channelsCreated_ w = true →
  exec_outcome P (w' ← startHeartbeat (set_flags a true w);
                  exec_callback (S (S depth)) c w').
Proof.
  intros Hns Hi Hc. unfold startHeartbeat. cbn [pNotifyChannel_ set_flags].
  destruct (exec_channel_exists w Hi Hc) as (ch & ->). cbn [mbind outcome_bind].
  eapply fine_outcome, exec_callback_fine; [done| |done].
  destruct Hi as [I1 I2 I3 I4 I5 I6 I7]. by constructor.
Qed.

Lemma runTask_inv (depth : nat) (task : TaskInfo) (w : ExecWorld) :
  never_starts → EInv w → channelsCreated_ w = true →
  exec_outcome (lhm_contains (ti_task_id task) (tasks_ w) ≠ false)
    (runTask (exec_callback (S (S depth))) task w).
Proof.
  intros Hns Hi Hc. unfold runTask. destruct (_ || _); [done|].
  destruct (lhm_contains (ti_task_id task) (tasks_ w)); cbn [negb CHECK mbind outcome_bind].
  { done. }
  eapply fine_outcome, exec_callback_fine; [done| |done].
  destruct Hi as [I1 I2 I3 I4 I5 I6 I7]. constructor; try done.
  by apply assign_spec.
Qed.

Lemma acknowledgement_inv (P : Prop) (slave fid task uuid : string) (w : ExecWorld) :
  EInv w → exec_outcome P (statusUpdateAcknowledgement slave fid task uuid w).
Proof.
  intros Hi. unfold statusUpdateAcknowledgement. destruct (_ || _); [done|].
  destruct Hi as [I1 I2 I3 I4 I5 I6 I7].
  destruct (subscript_inv default_update uuid (updates w) I5) as [Hs Ha].
  destruct (erase_spec uuid _ Hs) as [He Hl]. constructor; try done.
  - cbn [tasks_ set_maps]. destruct (bool_decide (ts_state _ = _)); [by apply erase_spec|done].
  - intros k u. cbn [updates set_maps generated]. rewrite Hl, Ha. unfold alist_erase.
    intros [Hk Hin]%list_elem_of_filter. apply I7.
    destruct (lhm_contains _ _); [done|].
    apply elem_of_app in Hin as [|[= -> ->]%list_elem_of_singleton]; done.
Qed.

Lemma exec_decode_inv {A : Type} (P : Prop) (r : outcome A) (f : A → outcome ExecWorld) :
  (¬ returns r → P) → (∀ a, r = Ok a → exec_outcome P (f a)) →
  exec_outcome P (a ← uncaught r; f a).
Proof.
  intros Hr Hf. destruct (uncaught_returns r) as [(a & Ha & ->)|[Hn ->]]; cbn; auto.
Qed.

Lemma exec_input_inv (depth : nat) (m : InMessage Json) (w : ExecWorld) :
  never_starts → EInv w → channelsCreated_ w = true →
  exec_outcome (¬ exec_event_ok (xev_input m) w) (onInput (exec_callback (S (S depth))) m w).
Proof.
  intros Hns Hi Hc. unfold onInput, exec_event_ok.
  assert (Hcb : ∀ P c, exec_outcome P (exec_callback (S (S depth)) c w))
    by (intros; by eapply fine_outcome, exec_callback_fine).
  assert (Hre : ∀ P from slave, exec_outcome P (reconnect from slave w)).
  { intros P from slave. unfold reconnect. destruct (aborted_ w); [done|].
    by eapply fine_outcome, exec_send_fine. }
  destruct (exec_messages (m_target m)) as [[]|]; [..|done].
  - apply exec_decode_inv; [done|]. intros [[? ?] ?] _. unfold registered.
    destruct (aborted_ w); [done|by apply (heartbeat_callback depth _ _ _ w)].
  - apply exec_decode_inv; [done|]. intros ? _.
    unfold reregistered. destruct (aborted_ w); [done|by apply (heartbeat_callback depth _ _ _ w)].
  - apply exec_decode_inv; [done|]. intros ? _. apply Hre.
  - apply exec_decode_inv; [intros Hn (task & Hd & _); apply Hn; by eexists|]. intros task Hd.
    pose proof (runTask_inv depth task w Hns Hi Hc) as Hr.
    destruct (runTask _ task w); cbn in *; [done..|]. intros (task' & Hd' & Ht). congruence.
  - apply exec_decode_inv; [done|]. intros ? _.
    unfold killTask. destruct (aborted_ w); [done|apply Hcb].
  - apply exec_decode_inv; [done|]. intros [[[? ?] ?] ?] _. by apply acknowledgement_inv.
  - apply exec_decode_inv; [done|]. intros ? _.
    unfold frameworkMessage. destruct (_ || _); [done|apply Hcb].
  - apply exec_decode_inv; [done|]. intros ? _. unfold shutdown. destruct (aborted_ w); [done|].
    destruct (exec_callback_fine depth ex_shutdown (set_kill_pending w)) as (w' & -> & Hw');
      [done| |done|].
    { by apply (ec_inv w), ecalm_neutral. }
    destruct (ec_inv _ _ Hw') as [I1 I2 I3 I4 I5 I6 I7]. by constructor.
  - apply Hre.
Qed.

Lemma exec_timer_inv (w : ExecWorld) :
  EInv w → process w = true → exec_outcome False (doReliableRegistration w).
Proof.
  intros [I1 I2 I3 I4 I5 I6 I7] Hp. unfold doReliableRegistration.
  destruct URB_MASTER as [master|]; [|done]. destruct (setUrl master _) as [r b].
  destruct r as [[]|e|]; [|by constructor..]. unfold createChannels.
  cbn [channelsCreated_ set_broker].
  destruct (channelsCreated_ w) eqn:Hc; cbn [pNotifyChannel_ set_broker set_channel].
  - destruct (pNotifyChannel_ w) eqn:Hn; [|done]. cbn. constructor; cbn; auto.
  - cbn. constructor; cbn; auto.
Qed.

Lemma exec_call_inv (depth : nat) (c : ExecCall) (w : ExecWorld) :
  never_starts → EInv w →
  exec_outcome (¬ exec_event_ok (xev_call c) w)
    (snd <$> exec_call (exec_callback (S (S depth))) c w).
Proof.
  intros Hns Hi. destruct (process w) eqn:Hp.
  - destruct (channelsCreated_ w) eqn:Hc.
    + destruct c; [|eapply fine_outcome, exec_call_fine; try done;
        intros; by apply idle_callback_fine..].
      cbn. unfold start. rewrite Hp. cbn. congruence.
    + destruct c; cbn [exec_call].
      * cbn. unfold start. rewrite Hp. cbn. congruence.
      * unfold stop. destruct (status w) eqn:Hs; try done.
        all: rewrite Hp; by apply (ec_inv w), ecalm_status.
      * destruct (exec_abort_fine w Hi) as (s & w' & -> & Hw' & _). apply Hw'.
      * case_decide as Hr; [|done]. rewrite Hp. cbn [CHECK mbind outcome_bind].
        destruct (decide (ts_state st = TASK_STAGING)) as [Hs|Hs].
        -- destruct (send_staging_fine (exec_callback (S (S depth)))
             (fun c w Hi Hp Hr => idle_callback_fine (S depth) c w Hns Hi Hp Hr) st w Hi Hp Hs)
             as (w' & -> & Hw'). apply Hw'.
        -- unfold sendStatusUpdate, sendMessage. rewrite decide_False by done.
           cbn [pNotifyChannel_ set_maps set_generated].
           pose proof (ei_channel _ Hi) as Hch. rewrite Hc in Hch.
           destruct (pNotifyChannel_ w); [done|]. cbn. intros Hok. by rewrite Hok in Hc.
      * case_decide as Hr; [|done]. rewrite Hp. cbn [CHECK mbind outcome_bind].
        unfold sendFrameworkMessage, sendMessage.
        pose proof (ei_channel _ Hi) as Hch. rewrite Hc in Hch.
        destruct (pNotifyChannel_ w); [done|]. cbn. intros Hok. by rewrite Hok in Hc.
  - assert (Hs : status w = DRIVER_NOT_STARTED).
    { destruct (decide (status w = DRIVER_NOT_STARTED)) as [|Hs]; [done|].
      by rewrite exec_process in Hp. }
    destruct c; cbn [exec_call].
    + unfold start. rewrite Hp. cbn. rewrite Hs. cbn.
      constructor; cbn; try done; try apply lhm_empty_inv. intros k u ?%not_elem_of_nil. done.
    + unfold stop. by rewrite Hs.
    + unfold driver_abort. by rewrite decide_False by congruence.
    + by rewrite decide_False by congruence.
    + by rewrite decide_False by congruence.
Qed.

Lemma exec_event_inv (depth : nat) (e : ExecEvent) (w : ExecWorld) :
  never_starts → EInv w → exec_enabled e w →
  exec_outcome (¬ exec_event_ok e w) (exec_event (S (S depth)) e w).
Proof.
  intros Hns Hi He. destruct e as [c|m|t]; cbn [exec_event].
  - by apply exec_call_inv.
  - destruct He as (_ & Hcb & _). apply exec_input_inv; [done..|].
    rewrite <-(ei_channel _ Hi). by destruct (pNotifyChannel_ w).
  - destruct He as [Hp _].
    assert (Hi' : EInv (set_timers (remove_timer t (timers w)) w))
      by (by apply (ec_inv w), ecalm_neutral).
    pose proof (exec_timer_inv _ Hi' Hp) as Ht. by destruct (doReliableRegistration _).
Qed.

Lemma exec_reachable_inv (w : ExecWorld) : never_starts → exec_reachable w → EInv w.
Proof.
  intros Hns. induction 1 as [|depth e w w' _ IH He Hr].
  - constructor; cbn; try done; try apply lhm_empty_inv. by intros k u ?%not_elem_of_nil.
  - pose proof (exec_event_inv depth e w Hns IH He) as Hs. by rewrite Hr in Hs.
Qed.

(** ** Properties *)


End events.

(** ** Unacknowledged updates *)

Section pending.
Context `{Os}.

Inductive UpdateOp := op_send (st : TaskStatus) | op_ack (taskId uuid : string).

Definition run_op (cb : ExecCallback → ExecWorld → outcome ExecWorld) (w : ExecWorld)
    (op : UpdateOp) : outcome ExecWorld :=
  match op with
  | op_send st => sendStatusUpdate cb st w
  | op_ack taskId uuid => statusUpdateAcknowledgement (slaveId_ w) (frameworkId_ w) taskId uuid w
  end.

(** The specification: a queue of updates, to which a send appends and from which
    an acknowledgement removes. *)
Definition pending_step (w : ExecWorld) (st : nat * list ExecUpdate) (op : UpdateOp)
    : nat * list ExecUpdate :=
  match op with
  | op_send s => (S st.1, st.2 ++ [make_update s st.1 w])
  | op_ack _ uuid => (st.1, filter (fun u => eu_uuid u ≠ uuid) st.2)
  end.

Lemma erase_values (uuid : string) (l : list (string * ExecUpdate)) :
  (∀ k u, (k, u) ∈ l → eu_uuid u = k) →
  (alist_erase uuid l).*2 = filter (fun u => eu_uuid u ≠ uuid) l.*2.
Proof.
  unfold alist_erase. induction l as [|[k u] l IH]; intros Hl; [done|].
  assert (Hu : eu_uuid u = k) by (apply Hl; left).
  rewrite fmap_cons, !filter_cons. cbn [snd].
  rewrite <-IH by (intros; apply Hl; by right).
  repeat case_decide; cbn in *; subst; tauto || done.
Qed.

(** A connected executor whose updates are the queue. *)
Definition tracks (w0 : ExecWorld) (st : nat * list ExecUpdate) (w : ExecWorld) : Prop :=
  EInv w ∧ channelsCreated_ w = true ∧ connected_ w = true ∧ aborted_ w = false ∧
  isRunning_ (broker w) = true ∧
  (frameworkId_ w, executorId_ w, slaveId_ w) = (frameworkId_ w0, executorId_ w0, slaveId_ w0) ∧
  generated w = st.1 ∧ lhm_values (updates w) = st.2.

Lemma send_tracks (cb : ExecCallback → ExecWorld → outcome ExecWorld) (s : TaskStatus)
    (w0 w : ExecWorld) (st : nat * list ExecUpdate) :
  Inj (=) (=) uuid_text → ts_state s ≠ TASK_STAGING → tracks w0 st w →
  ∃ w', sendStatusUpdate cb s w = Ok w' ∧ tracks w0 (pending_step w0 st (op_send s)) w'.
Proof.
  intros Hinj Hs (Hi & Hch & Hc & Ha & Hr & Hids & Hg & Hv).
  pose proof (record_update s w Hi) as Hrec. cbn zeta in Hrec.
  unfold sendStatusUpdate. rewrite decide_False by done.
  rewrite exec_send_Ok by first [exact (ec_inv _ _ Hrec) | done]. eexists. split; [done|].
  assert (Hu : make_update s (generated w) w = make_update s st.1 w0).
  { unfold make_update. injection Hids as -> -> ->. by rewrite Hg. }
  split_and!; try done; try (cbn; by rewrite Hg).
  - eapply ec_inv, ecalm_neutral; [apply Hrec| |done]. cbn. by rewrite write_isRunning.
  - cbn. by rewrite write_isRunning.
  - cbn [updates set_broker set_maps set_generated pending_step snd].
    rewrite lhm_values_alist, (proj2 (assign_spec _ _ _ _ (ei_updates _ Hi))).
    unfold alist_assign. rewrite decide_False.
    + by rewrite fmap_app, <-lhm_values_alist, Hv, Hu.
    + intros ([k u] & Hk & Hin)%list_elem_of_fmap.
      apply (ei_uuids _ Hi) in Hin as (_ & n & Hn & ->). cbn in Hk. apply Hinj in Hk. lia.
Qed.

Lemma ack_tracks (taskId uuid : string) (w0 w : ExecWorld) (st : nat * list ExecUpdate) :
  tracks w0 st w →
  ∃ w', statusUpdateAcknowledgement (slaveId_ w) (frameworkId_ w) taskId uuid w = Ok w' ∧
    tracks w0 (pending_step w0 st (op_ack taskId uuid)) w'.
Proof.
  intros (Hi & Hch & Hc & Ha & Hr & Hids & Hg & Hv).
  pose proof (acknowledgement_inv False (slaveId_ w) (frameworkId_ w) taskId uuid w Hi) as Hinv.
  revert Hinv. unfold statusUpdateAcknowledgement. rewrite Ha, Hc. cbn [orb negb]. intros Hinv.
  eexists. split; [done|]. split_and!; try done.
  cbn [updates set_maps pending_step snd]. rewrite lhm_values_alist.
  rewrite erase_subscript by apply Hi.
  rewrite erase_values; [by rewrite <-lhm_values_alist, Hv|].
  intros k u Hin. by apply (ei_uuids _ Hi).
Qed.

Lemma ops_track (cb : ExecCallback → ExecWorld → outcome ExecWorld) (ops : list UpdateOp)
    (w0 w : ExecWorld) (st : nat * list ExecUpdate) :
  Inj (=) (=) uuid_text →
  Forall (fun op => match op with op_send s => ts_state s ≠ TASK_STAGING | _ => True end) ops →
  tracks w0 st w →
  ∃ w', mfold (run_op cb) w ops = Ok w' ∧ tracks w0 (foldl (pending_step w0) st ops) w'.
Proof.
  intros Hinj Hops. revert w st. induction Hops as [|op ops Hop _ IH]; intros w st Ht; cbn.
  { by exists w. }
  destruct op as [s|taskId uuid]; cbn [run_op].
  - destruct (send_tracks cb s w0 w st Hinj Hop Ht) as (w1 & -> & H1).
    destruct (IH w1 _ H1) as (w2 & E & H2). by exists w2.
  - destruct (ack_tracks taskId uuid w0 w st Ht) as (w1 & -> & H1).
    destruct (IH w1 _ H1) as (w2 & E & H2). by exists w2.
Qed.

(** C17: No update is lost over a reconnection: after any sequence of status
    updates sent (none of them TASK_STAGING) and acknowledgements received by a
    connected executor, the reconnection message carries exactly the updates not
    yet acknowledged, in the order they were sent, when the texts under which the
    updates are kept are distinct: these are the generated uuids up to their first
    zero byte ([nul_uuid_loses_update] is what happens when they are not). *)
Theorem executor_resends_unacknowledged `{Redis} `{ExecEnv} `{ExecApplication} `{ExecJson Json}
    (cb : ExecCallback → ExecWorld → outcome ExecWorld) (ops : list UpdateOp)
    (from slaveId : string) (w : ExecWorld) :
  never_starts → exec_reachable w → channelsCreated_ w = true → connected_ w = true →
  aborted_ w = false → isRunning_ (broker w) = true →
  Inj (=) (=) uuid_text →
  Forall (fun op => match op with op_send s => ts_state s ≠ TASK_STAGING | _ => True end) ops →
  ∃ w1 w2, mfold (run_op cb) w ops = Ok w1 ∧ reconnect from slaveId w1 = Ok w2 ∧
    written (broker w2) = written (broker w1) ++
      [mkWritten MASTER_BROKER_MESOS_ENDPOINT (endpointIdStr_ (broker w1))
         (ReregisterExecutorMessage (frameworkId_ w) (executorId_ w)
            (foldl (pending_step w) (generated w, lhm_values (updates w)) ops).2
            (lhm_values (tasks_ w1)) (reply_to w))].
Proof.
  intros Hns Hw Hch Hc Ha Hr Hinj Hops. apply exec_reachable_inv in Hw as Hi; [|done].
  destruct (ops_track cb ops w w (generated w, lhm_values (updates w)) Hinj Hops)
    as (w1 & E & Hi1 & Hch1 & Hc1 & Ha1 & Hr1 & Hids & _ & Hv); [done|].
  exists w1. unfold reconnect. rewrite Ha1, exec_send_Ok by done.
  eexists. split; [done|]. split; [done|]. cbn. rewrite write_running, Hv by done.
  unfold reply_to. by injection Hids as -> -> ->.
Qed.

End pending.

(** ** Where the code falls short *)

(** A second [start] aborts the process: the CHECK comes before the test of the
    status. *)
Theorem second_start_crashes `{ExecEnv} (w : ExecWorld) :
  process w = true → start w = Fatal.
Proof. intros Hp. unfold start. by rewrite Hp. Qed.

(** A task that did not finish (it failed, was killed or lost) stays in the map
    when its last update is acknowledged, and a reconnection reports it again;
    asking the executor to run a task of that id again aborts the process. *)
Theorem unfinished_task_stays `{Os} (cb : ExecCallback → ExecWorld → outcome ExecWorld)
    (slave fid uuid : string) (u : ExecUpdate) (task : TaskInfo) (w : ExecWorld) :
  EInv w → connected_ w = true → aborted_ w = false →
  lhm_get uuid (updates w) = Some u → ts_state (eu_status u) ≠ TASK_FINISHED →
  lhm_contains (ti_task_id task) (tasks_ w) = true →
  ∃ w', statusUpdateAcknowledgement slave fid (ti_task_id task) uuid w = Ok w' ∧
    lhm_values (tasks_ w') = lhm_values (tasks_ w) ∧ runTask cb task w' = Fatal.
Proof.
  intros Hi Hc Ha Hu Hs Ht. unfold statusUpdateAcknowledgement. rewrite Ha, Hc. cbn [orb negb].
  assert (Hin : lhm_contains uuid (updates w) = true).
  { unfold lhm_contains. unfold lhm_get in Hu. by destruct (keys_ (updates w) !! uuid). }
  unfold subscript. rewrite Hin, Hu. cbn [default from_option].
  rewrite bool_decide_eq_false_2 by done. eexists. split; [done|]. split; [done|].
  unfold runTask. cbn [aborted_ connected_ tasks_ set_maps]. by rewrite Ha, Hc, Ht.
Qed.
