(* ===== verification/ExecutorExamples.v ===== *)
(** * ExecutorExamples: an executor that runs

    Concrete answers for the parameters of the executor, and the session of an
    executor that starts, registers and runs a task.  The session witnesses the
    hypotheses of the theorems of [ExecutorLaws]. *)

From S2P Require Import Prelude Broker Scheduler SchedulerDriver LinkedHashMap Executor.
From S2P Require Import ExecutorLaws.
#[local] Open Scope string_scope.
#[local] Open Scope list_scope.
#[local] Open Scope Z_scope.

#[local] Instance ex_redis : Redis :=
  {| redis_connect := fun _ => Some 9; redis_valid := fun _ _ => true |}.

Fixpoint tally (n : nat) : string :=
  match n with O => "x" | S n' => "x" ++ tally n' end.

#[local] Instance ex_os : Os :=
  {| uuid_generate := tally; after_uuid := fun _ => String Ascii.zero "y"; time0 := fun n => 1000 + Z.of_nat n;
     os_user := None; job_submit_options_env := None |}.

#[local] Instance ex_env : ExecEnv :=
  {| URB_MASTER := Some "urb://localhost"; URB_SLAVE_ID := Some "slave:urb.endpoint.5";
     URB_FRAMEWORK_ID := Some "fw-1"; URB_EXECUTOR_ID := Some "ex-1" |}.

Definition ex_task : TaskInfo := mkTaskInfo "t" "task-1" "slave-1" None None None "".
Definition ex_status (s : TaskState) : TaskStatus := mkTaskStatus "task-1" s None None None None.

(** Reports a launched task as running, and, wrongly, a killed one as staging. *)
#[local] Instance ex_application : ExecApplication :=
  fun h => match last h with
           | Some (ex_launchTask _) => [xcall_sendStatusUpdate (ex_status TASK_RUNNING)]
           | Some (ex_killTask _) => [xcall_sendStatusUpdate (ex_status TASK_STAGING)]
           | _ => []
           end.

#[local] Instance ex_exec_json : ExecJson unit :=
  {| ExecutorRegistered_of_json := fun _ => Ok ("ex", "fw", "slave");
     ExecutorReregistered_of_json := fun _ => Ok "slave";
     ReconnectExecutor_of_json := fun _ => Ok "slave-1";
     StatusUpdateAcknowledgement_of_json := fun _ => Ok ("slave-1", "fw-1", "task-1", "x");
     KillTask_of_json := fun _ => Ok "task-1";
     RunTask_of_json := fun _ => Ok ex_task;
     FrameworkToExecutor_of_json := fun _ => Ok "data";
     ShutdownExecutor_of_json := fun _ => Ok tt |}.

#[local] Instance exec_MessageType_eq_dec : EqDecision MessageType.
Proof. solve_decision. Defined.

#[local] Instance exec_enabled_dec (e : ExecEvent (Json := unit)) (w : ExecWorld) :
  Decision (exec_enabled e w).
Proof. destruct e; cbn; apply _. Defined.

Definition exec_session (evs : list (ExecEvent (Json := unit))) (w : ExecWorld)
    : outcome ExecWorld :=
  mfold (fun w e => if decide (exec_enabled e w) then exec_event 2 e w else Fatal) w evs.

Lemma exec_session_reachable (evs : list ExecEvent) (w w' : ExecWorld) :
  exec_reachable w → exec_session evs w = Ok w' → exec_reachable w'.
Proof.
  unfold exec_session. intros Hw. apply mfold_invariant; [|done]. intros w1 e w2 _ Hr Hs.
  case_decide; [|done]. by eapply (exec_reachable_step 0).
Qed.

Definition xmessage (target : string) : ExecEvent := xev_input (mkInMessage VALID target tt).

Definition exec_start : list ExecEvent :=
  [xev_call xcall_start; xev_timer 0; xmessage "ExecutorRegisteredMessage"].

Definition the_exec_world (r : outcome ExecWorld) : ExecWorld :=
  match r with Ok w => w | _ => new_driver new_broker end.

Definition exec_running : ExecWorld :=
  Eval vm_compute in
    the_exec_world (exec_session (exec_start ++ [xmessage "RunTaskMessage"])
                      (new_driver new_broker)).

Lemma exec_running_reachable : exec_reachable exec_running.
Proof.
  apply (exec_session_reachable (exec_start ++ [xmessage "RunTaskMessage"])
           (new_driver new_broker)); [apply exec_reachable_new|].
  vm_compute. reflexivity.
Qed.

Lemma ex_never_starts : never_starts.
Proof.
  intros h. unfold exec_react, ex_application. destruct (last h) as [[]|];
    rewrite ?not_elem_of_cons; repeat split; try done; apply not_elem_of_nil.
Qed.


Lemma ex_uuid_text (n : nat) : uuid_text n = tally n.
Proof. unfold uuid_text. cbn. induction n as [|n IH]; [done|]. cbn. by rewrite IH. Qed.

Lemma ex_uuids_distinct : Inj (=) (=) uuid_text.
Proof.
  intros m n. rewrite !ex_uuid_text. revert n.
  induction m as [|m IH]; intros [|n]; cbn; intros E; try done.
  - by destruct n.
  - by destruct m.
  - injection E as E. f_equal. by apply IH.
Qed.

(** Two more updates, and the acknowledgement of the first. *)
Definition ex_ops : list UpdateOp :=
  [op_send (ex_status TASK_KILLING); op_ack "task-1" "x"; op_send (ex_status TASK_KILLED)].

Lemma executor_resends_unacknowledged_witness :
  ∃ w1 w2, mfold (run_op (exec_callback 2)) exec_running ex_ops = Ok w1 ∧
    reconnect "" "slave-1" w1 = Ok w2 ∧
    written (broker w2) = written (broker w1) ++
      [mkWritten MASTER_BROKER_MESOS_ENDPOINT (endpointIdStr_ (broker w1))
         (ReregisterExecutorMessage "fw-1" "ex-1"
            [make_update (ex_status TASK_KILLING) 1 exec_running;
             make_update (ex_status TASK_KILLED) 2 exec_running]
            (lhm_values (tasks_ w1)) (Some "urb.endpoint.5"))].
Proof.
  destruct (executor_resends_unacknowledged (exec_callback 2) ex_ops "" "slave-1" exec_running)
    as (w1 & w2 & E1 & E2 & Hw);
    [exact ex_never_starts|exact exec_running_reachable|reflexivity|reflexivity|reflexivity|
     reflexivity|exact ex_uuids_distinct|repeat constructor; discriminate|].
  exists w1, w2. split; [exact E1|]. split; [exact E2|]. rewrite Hw. repeat f_equal.
Defined.

(** Uuids that begin with a zero byte are all the empty text: the second update takes
    the place of the first, which a reconnection does not send again although nobody
    acknowledged it. *)
Definition nul_os : Os :=
  {| uuid_generate := fun n => String Ascii.zero (tally n); after_uuid := fun _ => "";
     time0 := fun n => 1000 + Z.of_nat n; os_user := None; job_submit_options_env := None |}.

Example nul_uuid_loses_update :
  ∃ w1, mfold (run_op (H := nul_os) (exec_callback (H := nul_os) 2)) exec_running
          [op_send (ex_status TASK_KILLING); op_send (ex_status TASK_KILLED)] = Ok w1 ∧
    (ts_state ∘ eu_status <$> lhm_values (updates w1)) = [TASK_RUNNING; TASK_KILLED].
Proof. eexists. split; [vm_compute; reflexivity|]. by vm_compute. Qed.
