(* ===== verification/PythonExecutor.v ===== *)
(** * PythonExecutor: the executor extension module

    proxy_executor.cpp and mesos_executor_driver_impl.cpp, the counterparts of
    the scheduler's module for executors. *)

From S2P Require Import Prelude StoutStrings Scheduler LinkedHashMap Executor Python.
#[local] Open Scope string_scope.
#[local] Open Scope list_scope.
#[local] Open Scope Z_scope.

Class ExecutorProtobuf := {
  ex_ser_text : string → string → option string;
  ex_ser_TaskInfo : TaskInfo → option string;
  ex_parse_TaskStatus : string → option TaskStatus }.

Section Proxy.
Context `{Interpreter} `{ExecutorProtobuf}.
Context (pythonExecutor : string → list PyObject → list ExecCall * option PyObject).
Context (impl : PyObject).

Definition cleanup (objects : list (option PyObject)) : PyM ExecCall unit :=
  occurred ← PyErr_Occurred;
  _ ← (if occurred : bool then _ ← PyErr_Print; driver_do xcall_abort else mret tt);
  foldr (fun o rest => _ ← Py_XDECREF o; rest) (mret tt) objects.

(** The three messages are created before the first test. *)
Definition registered (executorInfo frameworkInfo slaveInfo : string) : PyM ExecCall unit :=
  InterpreterLock (
    executorInfoObj ← createPythonProtobuf (ex_ser_text "ExecutorInfo" executorInfo) "ExecutorInfo";
    frameworkInfoObj ← createPythonProtobuf (ex_ser_text "FrameworkInfo" frameworkInfo) "FrameworkInfo";
    slaveInfoObj ← createPythonProtobuf (ex_ser_text "SlaveInfo" slaveInfo) "SlaveInfo";
    match executorInfoObj, frameworkInfoObj, slaveInfoObj with
    | Some e, Some f, Some s =>
        res ← PyObject_CallMethod pythonExecutor "registered" [impl; e; f; s];
        cleanup [executorInfoObj; frameworkInfoObj; slaveInfoObj; res]
    | _, _, _ => cleanup [executorInfoObj; frameworkInfoObj; slaveInfoObj]
    end).

Definition reregistered (slaveInfo : string) : PyM ExecCall unit :=
  InterpreterLock (
    slaveInfoObj ← createPythonProtobuf (ex_ser_text "SlaveInfo" slaveInfo) "SlaveInfo";
    match slaveInfoObj with
    | None => cleanup [slaveInfoObj]
    | Some s =>
        res ← PyObject_CallMethod pythonExecutor "reregistered" [impl; s];
        cleanup [slaveInfoObj; res]
    end).

Definition disconnected : PyM ExecCall unit :=
  InterpreterLock (
    res ← PyObject_CallMethod pythonExecutor "disconnected" [impl];
    cleanup [res]).

Definition launchTask (task : TaskInfo) : PyM ExecCall unit :=
  InterpreterLock (
    taskObj ← createPythonProtobuf (ex_ser_TaskInfo task) "TaskInfo";
    match taskObj with
    | None => cleanup [taskObj]
    | Some t =>
        res ← PyObject_CallMethod pythonExecutor "launchTask" [impl; t];
        cleanup [taskObj; res]
    end).

Definition killTask (taskId : string) : PyM ExecCall unit :=
  InterpreterLock (
    taskIdObj ← createPythonProtobuf (ex_ser_text "TaskID" taskId) "TaskID";
    match taskIdObj with
    | None => cleanup [taskIdObj]
    | Some t =>
        res ← PyObject_CallMethod pythonExecutor "killTask" [impl; t];
        cleanup [taskIdObj; res]
    end).

Definition frameworkMessage (data : string) : PyM ExecCall unit :=
  InterpreterLock (
    res ← PyObject_CallMethod pythonExecutor "frameworkMessage" [impl; PyString data];
    cleanup [res]).

Definition shutdown : PyM ExecCall unit :=
  InterpreterLock (
    res ← PyObject_CallMethod pythonExecutor "shutdown" [impl];
    cleanup [res]).

Definition error (message : string) : PyM ExecCall unit :=
  InterpreterLock (
    res ← PyObject_CallMethod pythonExecutor "error" [impl; PyString message];
    occurred ← PyErr_Occurred;
    _ ← (if occurred : bool then PyErr_Print else mret tt);
    Py_XDECREF res).

Definition exec_proxy (c : ExecCallback) : PyM ExecCall unit :=
  match c with
  | ex_registered executorInfo frameworkInfo slaveInfo =>
      registered executorInfo frameworkInfo slaveInfo
  | ex_reregistered slaveInfo => reregistered slaveInfo
  | ex_launchTask task => launchTask task
  | ex_killTask taskId => killTask taskId
  | ex_frameworkMessage data => frameworkMessage data
  | ex_shutdown => shutdown
  | ex_error message => error message
  end.
End Proxy.

Definition idle_exec_python : Py ExecCall := mkPy 0 None 0 [].
Definition python_exec_application `{Interpreter} `{ExecutorProtobuf} (impl : PyObject)
    (behaviour : list ExecCallback → string → list PyObject → list ExecCall * option PyObject)
    : ExecApplication := fun history =>
  match last history with
  | None => []
  | Some c => calls (exec_proxy (behaviour history) impl c idle_exec_python).2
  end.

(** ** The wrapper of the driver *)

Record MesosExecutorDriverImpl := mkExecImpl {
  exec_driver : bool;
  proxyExecutor : bool;
  self_pythonExecutor : option PyObject }.

Section Impl.
Context `{Interpreter} `{ExecutorProtobuf}.
Context `{!DriverWaits ExecCall}.
Context (answer : list ExecCall → ExecCall → Z).

Definition MesosExecutorDriverImpl_new : MesosExecutorDriverImpl := mkExecImpl false false None.

Definition MesosExecutorDriverImpl_init (self : MesosExecutorDriverImpl)
    (args : list PyObject) : Waits ExecCall (Z * MesosExecutorDriverImpl) :=
  parsed ← does (PyArg_ParseTuple args [FO] []);
  match (parsed : bool), args with
  | true, pythonExecutor :: _ =>
      let tmp := self_pythonExecutor self in
      _ ← does (add_refs 1);
      _ ← does (Py_XDECREF tmp);
      _ ← (if exec_driver self then delete_driver else mret tt);
      mret (0, mkExecImpl true true (Some pythonExecutor))
  | _, _ => mret (-1, self)
  end.

Definition MesosExecutorDriverImpl_clear (self : MesosExecutorDriverImpl)
    : PyM ExecCall MesosExecutorDriverImpl :=
  _ ← Py_XDECREF (self_pythonExecutor self);
  mret (mkExecImpl (exec_driver self) (proxyExecutor self) None).

Definition MesosExecutorDriverImpl_dealloc (self : MesosExecutorDriverImpl)
    : Waits ExecCall MesosExecutorDriverImpl :=
  _ ← (if exec_driver self then Py_ALLOW_THREADS delete_driver else mret tt);
  does (MesosExecutorDriverImpl_clear (mkExecImpl false false (self_pythonExecutor self))).

Definition MesosExecutorDriverImpl_traverse (self : MesosExecutorDriverImpl)
    : list PyObject := option_list (self_pythonExecutor self).

Definition with_exec_driver (self : MesosExecutorDriverImpl)
    (body : PyM ExecCall (option PyObject)) : PyM ExecCall (option PyObject) :=
  if exec_driver self then body
  else _ ← PyErr_Format "MesosExecutorDriverImpl.driver is nullptr"; mret None.

Definition exec_call_and_return (c : ExecCall) : PyM ExecCall (option PyObject) := fun st =>
  let status := answer (calls st) c in
  (_ ← driver_do c; PyInt_FromLong status) st.

Definition MesosExecutorDriverImpl_start (self : MesosExecutorDriverImpl) :=
  with_exec_driver self (exec_call_and_return xcall_start).
Definition MesosExecutorDriverImpl_stop (self : MesosExecutorDriverImpl) :=
  with_exec_driver self (exec_call_and_return xcall_stop).
Definition MesosExecutorDriverImpl_abort (self : MesosExecutorDriverImpl) :=
  with_exec_driver self (exec_call_and_return xcall_abort).

Definition exec_wait_and_return (self : MesosExecutorDriverImpl) (wait : Waits ExecCall Z)
    : Waits ExecCall (option PyObject) :=
  if exec_driver self then status ← Py_ALLOW_THREADS wait; does (PyInt_FromLong status)
  else does (_ ← PyErr_Format "MesosExecutorDriverImpl.driver is nullptr"; mret None).

Definition MesosExecutorDriverImpl_join (self : MesosExecutorDriverImpl) :=
  exec_wait_and_return self driver_join.
Definition MesosExecutorDriverImpl_run (self : MesosExecutorDriverImpl) :=
  exec_wait_and_return self (driver_run answer xcall_start).

Definition MesosExecutorDriverImpl_sendStatusUpdate (self : MesosExecutorDriverImpl)
    (args : list PyObject) : PyM ExecCall (option PyObject) :=
  with_exec_driver self (
    parsed ← PyArg_ParseTuple args [FO] [];
    match (parsed : bool), args with
    | true, statusObj :: _ =>
        taskStatus ← readPythonProtobuf ex_parse_TaskStatus statusObj;
        match taskStatus with
        | None => _ ← PyErr_Format "Could not deserialize Python TaskStatus"; mret None
        | Some taskStatus => exec_call_and_return (xcall_sendStatusUpdate taskStatus)
        end
    | _, _ => mret None
    end).

Definition MesosExecutorDriverImpl_sendFrameworkMessage (self : MesosExecutorDriverImpl)
    (args : list PyObject) : PyM ExecCall (option PyObject) :=
  with_exec_driver self (
    parsed ← PyArg_ParseTuple args [Fs_len] [];
    match (parsed : bool), args with
    | true, [PyString data] => exec_call_and_return (xcall_sendFrameworkMessage data)
    | _, _ => mret None
    end).

Definition MesosExecutorDriverImpl_methods (name : string) (self : MesosExecutorDriverImpl)
    : option (list PyObject → Waits ExecCall (option PyObject)) :=
  let no_args (m : Waits ExecCall (option PyObject)) :=
    Some (fun args : list PyObject =>
      match args with
      | [] => m
      | _ => does (_ ← PyErr_Format "takes no arguments"; mret None)
      end) in
  if String.eqb name "start" then no_args (does (MesosExecutorDriverImpl_start self))
  else if String.eqb name "stop" then no_args (does (MesosExecutorDriverImpl_stop self))
  else if String.eqb name "abort" then no_args (does (MesosExecutorDriverImpl_abort self))
  else if String.eqb name "join" then no_args (MesosExecutorDriverImpl_join self)
  else if String.eqb name "run" then no_args (MesosExecutorDriverImpl_run self)
  else if String.eqb name "sendStatusUpdate" then
    Some (fun args => does (MesosExecutorDriverImpl_sendStatusUpdate self args))
  else if String.eqb name "sendFrameworkMessage" then
    Some (fun args => does (MesosExecutorDriverImpl_sendFrameworkMessage self args))
  else None.
End Impl.
