(* ===== verification/PythonLaws.v ===== *)
(** * PythonLaws: what the Python bindings guarantee

    Every callback leaves the interpreter as it found it, turns an exception into
    an abort of the driver, and does nothing else to it; every method of the
    wrapped driver either makes one driver call or raises.  Composed with the
    driver: a Python framework whose callback raises is not running afterwards. *)

From S2P Require Import Prelude StoutStrings Broker Scheduler SchedulerDriver SchedulerLaws SchedulerExamples LinkedHashMap Executor Python PythonScheduler PythonExecutor.
#[local] Open Scope string_scope.
#[local] Open Scope list_scope.
#[local] Open Scope Z_scope.

(** ** Conversions *)

(** A reference that was taken and given back. *)
Lemma ref_released (r : Z) : r + 1 + -1 = r.
Proof. lia. Qed.

Section Create.
Context {Call : Type} `{Interpreter}.

(** The object that a C++ message becomes, or none. *)
Definition created (str : option string) (typeName : string) : option PyObject :=
  match pb2_entry typeName, str with
  | AType, Some str => FromString typeName str
  | _, _ => None
  end.

(** It comes with one new reference, or with an exception. *)
Lemma create_Some (str : option string) (typeName : string) (o : PyObject) :
  created str typeName = Some o →
  ∀ st : Py Call, createPythonProtobuf str typeName st =
    (Some o, mkPy (refs st + 1) (err st) (gil st) (calls st)).
Proof.
  unfold created, createPythonProtobuf. intros Hc st.
  destruct (pb2_entry typeName), str; try done. by rewrite Hc.
Qed.

Lemma create_None (str : option string) (typeName : string) :
  created str typeName = None →
  ∃ e, ∀ st : Py Call, createPythonProtobuf str typeName st =
    (None, mkPy (refs st) (Some e) (gil st) (calls st)).
Proof.
  unfold created, createPythonProtobuf. intros Hc.
  destruct (pb2_entry typeName), str; try (eexists; intros st; reflexivity).
  rewrite Hc. by eexists.
Qed.

(** Reading a message leaves the interpreter as it was, whatever the object is. *)
Definition read_message {T : Type} (parse : string → option T) (o : PyObject) : option T :=
  match o with
  | Py_None => None
  | _ => match SerializeToString_of o with
         | Returns (PyString bytes) => parse bytes
         | _ => None
         end
  end.

Lemma read_spec {T : Type} (parse : string → option T) (o : PyObject) (st : Py Call) :
  err st = None → readPythonProtobuf parse o st = (read_message parse o, st).
Proof.
  destruct st as [r e g cs]. cbn. intros ->. unfold readPythonProtobuf, read_message.
  destruct o; try done; destruct (SerializeToString_of _) as [|[]]; try done;
    unfold mbind, PyM_bind; cbn; by rewrite ref_released.
Qed.

Definition read_messages {T : Type} (parse : string → option T) (items : list PyObject)
    : option (list T) := mapM (read_message parse) items.

Lemma read_items_spec {T : Type} (parse : string → option T) (message : string)
    (items : list PyObject) (st : Py Call) :
  err st = None →
  read_items (readPythonProtobuf parse) message items st =
  (read_messages parse items,
   match read_messages parse items with
   | Some _ => st
   | None => mkPy (refs st) (Some message) (gil st) (calls st)
   end).
Proof.
  intros Hs. induction items as [|o items IH]; [done|]. cbn [read_items].
  unfold mbind at 1, PyM_bind at 1. rewrite read_spec by done.
  unfold read_messages. cbn [mapM]. destruct (read_message parse o) as [t|]; [|done].
  cbn [mbind option_bind]. unfold mbind at 1, PyM_bind at 1. rewrite IH.
  unfold read_messages. by destruct (mapM _ items).
Qed.
End Create.

(** What a callback amounts to for the driver: the calls of the application's
    method on the converted arguments, then those that follow an exception. *)
Definition python_effect {Call : Type}
    (method : string → list PyObject → list Call * option PyObject) (impl : PyObject)
    (name : string) (args : option (list PyObject)) (exception : list Call) : list Call :=
  match args with
  | None => exception
  | Some args =>
      let '(cs, res) := method name (impl :: args) in
      cs ++ match res with Some _ => [] | None => exception end
  end.

(** Run a conversion: with its object, or with the exception. *)
Ltac convert :=
  match goal with
  | |- context [@createPythonProtobuf ?C _ ?s ?t ?st] =>
      let o := fresh "o" in let E := fresh "E" in let e := fresh "e" in
      destruct (created s t) as [o|] eqn:E;
      [rewrite (create_Some s t o E)
      |destruct (create_None (Call := C) s t E) as (e & ->)]
  end.
Ltac run_method m :=
  match goal with
  | |- context [m ?name ?args] =>
      let cs := fresh "cs" in let o := fresh "o" in
      unfold PyObject_CallMethod; destruct (m name args) as [cs [o|]]
  end.
Ltac run_python m :=
  repeat (unfold mbind, PyM_bind; cbn; first [convert | run_method m]; cbn);
  unfold PythonScheduler.cleanup, PythonExecutor.cleanup, PyErr_Occurred; cbn;
  unfold mbind, PyM_bind; cbn; unfold mret, PyM_ret.
Ltac same_state :=
  rewrite <-?app_assoc, ?app_nil_r; repeat f_equal; (done || lia).

(** ** Callbacks of the scheduler *)

Section SchedulerProxy.
Context `{Interpreter} `{SchedulerProtobuf}.
Context (method : string → list PyObject → list DriverCall * option PyObject).
Context (impl : PyObject).

(** The Python name of a callback and its arguments as Python objects; [None]
    when one of them cannot be converted. *)
Definition callback_name (c : Callback) : string :=
  match c with
  | cb_registered _ _ => "registered"
  | cb_reregistered _ => "reregistered"
  | cb_resourceOffers _ => "resourceOffers"
  | cb_offerRescinded _ => "offerRescinded"
  | cb_statusUpdate _ => "statusUpdate"
  | cb_slaveLost _ => "slaveLost"
  | cb_frameworkMessage _ _ _ => "frameworkMessage"
  | cb_error _ => "error"
  end.

Definition text_object (typeName v : string) : option PyObject :=
  created (ser_text typeName v) typeName.

Definition callback_args (c : Callback) : option (list PyObject) :=
  match c with
  | cb_registered fid info =>
      f ← text_object "FrameworkID" fid; m ← text_object "MasterInfo" info; Some [f; m]
  | cb_reregistered info => m ← text_object "MasterInfo" info; Some [m]
  | cb_resourceOffers offers =>
      items ← mapM (fun o => created (ser_Offer o) "Offer") offers; Some [PyList items]
  | cb_offerRescinded oid => o ← text_object "OfferID" oid; Some [o]
  | cb_statusUpdate st => s ← created (ser_TaskStatus st) "TaskStatus"; Some [s]
  | cb_slaveLost sid => s ← text_object "SlaveID" sid; Some [s]
  | cb_frameworkMessage eid sid data =>
      e ← text_object "ExecutorID" eid; s ← text_object "SlaveID" sid;
      Some [e; s; PyString data]
  | cb_error message => Some [PyString message]
  end.

(** The abort that follows an exception; [error] is not followed by one. *)
Definition on_exception (c : Callback) : list DriverCall :=
  match c with cb_error _ => [] | _ => [call_abort] end.

Definition callback_effect (c : Callback) : list DriverCall :=
  python_effect method impl (callback_name c) (callback_args c) (on_exception c).

Lemma offer_items_spec (offers : list Offer) (items : list PyObject) :
  match mapM (fun o => created (ser_Offer o) "Offer") offers with
  | Some os => ∀ st, offer_items offers items st = (Some (items ++ os), st)
  | None => ∃ e, ∀ st, offer_items offers items st =
                       (None, mkPy (refs st) (Some e) (gil st) (calls st))
  end.
Proof using.
  revert items. induction offers as [|o offers IH]; intros items; cbn [mapM offer_items].
  { intros st. by rewrite app_nil_r. }
  destruct (created (ser_Offer o) "Offer") as [obj|] eqn:E; cbn [mbind option_bind].
  - specialize (IH (items ++ [obj])). unfold mbind, PyM_bind.
    destruct (mapM _ offers) as [os|]; cbn.
    + intros [r e g cs]. rewrite (create_Some _ _ _ E). cbn.
      rewrite ref_released, IH. by rewrite <-app_assoc.
    + destruct IH as (er & IH). exists er. intros [r e g cs].
      rewrite (create_Some _ _ _ E). cbn. rewrite IH. cbn.
      by rewrite ref_released.
  - destruct (create_None (Call := DriverCall) _ _ E) as (e & Hc). exists e. intros st.
    unfold mbind, PyM_bind. by rewrite Hc.
Qed.

Lemma proxy_spec (c : Callback) (st : Py DriverCall) :
  err st = None →
  proxy method impl c st =
  (tt, mkPy (refs st) None (gil st) (calls st ++ callback_effect c)).
Proof using.
  destruct st as [r er g cs]. cbn. intros ->. unfold callback_effect, python_effect.
  destruct c; cbn [proxy callback_name callback_args]; unfold text_object;
  unfold PythonScheduler.registered, PythonScheduler.reregistered, resourceOffers,
    offerRescinded, statusUpdate, slaveLost, PythonScheduler.frameworkMessage,
    PythonScheduler.error, InterpreterLock.
  1-2, 4-8: run_python method; same_state.
  pose proof (offer_items_spec offers []) as Ho. unfold new_ref, mbind, PyM_bind. cbn.
  destruct (mapM _ offers) as [os|]; cbn.
  - rewrite Ho. run_python method; same_state.
  - destruct Ho as (e & ->). run_python method; same_state.
Qed.

(** The callbacks that this driver never makes behave alike. *)
Lemma disconnected_spec (st : Py DriverCall) :
  err st = None →
  PythonScheduler.disconnected method impl st =
  (tt, mkPy (refs st) None (gil st)
         (calls st ++ python_effect method impl "disconnected" (Some []) [call_abort])).
Proof using.
  destruct st as [r er g cs]. cbn. intros ->. unfold python_effect.
  unfold PythonScheduler.disconnected, InterpreterLock. run_python method; same_state.
Qed.

Lemma executorLost_spec (eid sid : string) (status : Z) (st : Py DriverCall) :
  err st = None →
  executorLost method impl eid sid status st =
  (tt, mkPy (refs st) None (gil st)
         (calls st ++ python_effect method impl "executorLost"
            (e ← text_object "ExecutorID" eid; s ← text_object "SlaveID" sid;
             Some [e; s; PyInt status]) [call_abort])).
Proof using.
  destruct st as [r er g cs]. cbn. intros ->. unfold python_effect, text_object.
  unfold executorLost, InterpreterLock. run_python method; same_state.
Qed.
End SchedulerProxy.

(** ** Callbacks of the executor *)

Section ExecutorProxy.
Context `{Interpreter} `{ExecutorProtobuf}.
Context (method : string → list PyObject → list ExecCall * option PyObject).
Context (impl : PyObject).

Definition exec_callback_name (c : ExecCallback) : string :=
  match c with
  | ex_registered _ _ _ => "registered"
  | ex_reregistered _ => "reregistered"
  | ex_launchTask _ => "launchTask"
  | ex_killTask _ => "killTask"
  | ex_frameworkMessage _ => "frameworkMessage"
  | ex_shutdown => "shutdown"
  | ex_error _ => "error"
  end.

Definition exec_text_object (typeName v : string) : option PyObject :=
  created (ex_ser_text typeName v) typeName.

Definition exec_callback_args (c : ExecCallback) : option (list PyObject) :=
  match c with
  | ex_registered e f s =>
      e ← exec_text_object "ExecutorInfo" e; f ← exec_text_object "FrameworkInfo" f;
      s ← exec_text_object "SlaveInfo" s; Some [e; f; s]
  | ex_reregistered s => s ← exec_text_object "SlaveInfo" s; Some [s]
  | ex_launchTask t => t ← created (ex_ser_TaskInfo t) "TaskInfo"; Some [t]
  | ex_killTask t => t ← exec_text_object "TaskID" t; Some [t]
  | ex_frameworkMessage data => Some [PyString data]
  | ex_shutdown => Some []
  | ex_error message => Some [PyString message]
  end.

Definition exec_on_exception (c : ExecCallback) : list ExecCall :=
  match c with ex_error _ => [] | _ => [xcall_abort] end.

Definition exec_callback_effect (c : ExecCallback) : list ExecCall :=
  python_effect method impl (exec_callback_name c) (exec_callback_args c) (exec_on_exception c).

Lemma exec_proxy_spec (c : ExecCallback) (st : Py ExecCall) :
  err st = None →
  exec_proxy method impl c st =
  (tt, mkPy (refs st) None (gil st) (calls st ++ exec_callback_effect c)).
Proof using.
  destruct st as [r er g cs]. cbn. intros ->. unfold exec_callback_effect, python_effect.
  destruct c; cbn [exec_proxy exec_callback_name exec_callback_args]; unfold exec_text_object;
  unfold PythonExecutor.registered, PythonExecutor.reregistered, PythonExecutor.launchTask,
    PythonExecutor.killTask, PythonExecutor.frameworkMessage, PythonExecutor.shutdown,
    PythonExecutor.error, InterpreterLock;
  run_python method; same_state.
Qed.

Lemma exec_disconnected_spec (st : Py ExecCall) :
  err st = None →
  PythonExecutor.disconnected method impl st =
  (tt, mkPy (refs st) None (gil st)
         (calls st ++ python_effect method impl "disconnected" (Some []) [xcall_abort])).
Proof using.
  destruct st as [r er g cs]. cbn. intros ->. unfold python_effect.
  unfold PythonExecutor.disconnected, InterpreterLock. run_python method; same_state.
Qed.
End ExecutorProxy.

(** ** Methods of the wrapped drivers *)

Section Methods.
Context {Call : Type} (answer : list Call → Call → Z).

(** One call on the driver, whose status is returned with a new reference; or an
    exception and no call. *)
Definition calls_or_raises (m : PyM Call (option PyObject)) : Prop :=
  ∀ st, err st = None →
    (∃ c, m st = (Some (PyInt (answer (calls st) c)),
                  mkPy (refs st + 1) None (gil st) (calls st ++ [c]))) ∨
    (∃ e, m st = (None, mkPy (refs st) (Some e) (gil st) (calls st))).

Lemma raises_only (msg : string) :
  calls_or_raises (_ ← PyErr_Format msg; mret None).
Proof. intros st Hs. right. by exists msg. Qed.

(** Continue after the arguments were parsed. *)
Lemma parse_then (args : list PyObject) (required optional : list Format)
    (f : bool → PyM Call (option PyObject)) :
  (((length required <=? length args)%nat && formats_ok (required ++ optional) args) = true →
   calls_or_raises (f true)) →
  f false = mret None →
  calls_or_raises (parsed ← PyArg_ParseTuple args required optional; f parsed).
Proof.
  intros Ht Hf st Hs. unfold PyArg_ParseTuple, mbind, PyM_bind.
  case_if; [by apply Ht|]. right. cbn. rewrite Hf. by eexists.
Qed.

(** *** Methods that may wait *)

Context `{!DriverWaits Call} (start : Call).

(** The methods that wait until the driver has ended. *)
Definition blocking (name : string) : bool := String.eqb name "join" || String.eqb name "run".

(** How such a wait ends, if it does: the status and the calls made in the meantime.
    The thread does not have the lock; [run] starts the driver and only waits for one
    that runs then. *)
Definition waited (name : string) (cs : list Call) : option (Z * list Call) :=
  if String.eqb name "run" then
    let status := answer cs start in
    if status =? 2 then '(more, status) ← joins false (cs ++ [start]); Some (status, start :: more)
    else Some (status, [start])
  else '(more, status) ← joins false cs; Some (status, more).

(** What a method does: it raises, having called nothing and kept nothing; or it waits
    as above; or it makes one driver call.  It returns the status in a new reference,
    and has the lock as before. *)
Definition method_ok (name : string) (m : Waits Call (option PyObject)) : Prop :=
  ∀ st, err st = None → gil st = 1 →
    (∃ e, m st = Some (None, mkPy (refs st) (Some e) 1 (calls st))) ∨
    (if blocking name then
       m st = '(status, cs) ← waited name (calls st);
              Some (Some (PyInt status), mkPy (refs st + 1) None 1 (calls st ++ cs))
     else ∃ c, m st = Some (Some (PyInt (answer (calls st) c)),
                            mkPy (refs st + 1) None 1 (calls st ++ [c]))).

Lemma does_ok (name : string) (m : PyM Call (option PyObject)) :
  blocking name = false → calls_or_raises m → method_ok name (does m).
Proof.
  intros Hb Hm [r e g cs] Hs Hg. cbn in Hs, Hg. subst. rewrite Hb. unfold does.
  destruct (Hm (mkPy r None 1 cs) eq_refl) as [(c & ->)|(e & ->)]; [right|left]; by eexists.
Qed.

Lemma raises_ok (name msg : string) :
  method_ok name (does (_ ← PyErr_Format msg; mret None)).
Proof. intros [r e g cs] Hs Hg. cbn in Hs, Hg. subst. left. by exists msg. Qed.

Lemma join_ok :
  method_ok "join" (status ← Py_ALLOW_THREADS driver_join; does (PyInt_FromLong status)).
Proof.
  intros [r e g cs] Hs Hg. cbn in Hs, Hg. subst. right.
  unfold Py_ALLOW_THREADS, driver_join, waited. cbn. unfold mbind, Waits_bind. cbn.
  change (has_lock _) with false. by destruct (joins false cs) as [[more status]|].
Qed.

Lemma run_ok :
  method_ok "run" (status ← Py_ALLOW_THREADS (driver_run answer start);
                   does (PyInt_FromLong status)).
Proof.
  intros [r e g cs] Hs Hg. cbn in Hs, Hg. subst. right.
  unfold Py_ALLOW_THREADS, driver_run, driver_join, waited. cbn. unfold mbind, Waits_bind. cbn.
  destruct (answer cs start =? 2); cbn; [|done].
  change (has_lock _) with false. destruct (joins false (cs ++ [start])) as [[more status]|]; [|done]. cbn.
  by rewrite <-app_assoc.
Qed.
End Methods.

Lemma call_and_return_sound (answer : list DriverCall → DriverCall → Z) (c : DriverCall) :
  calls_or_raises answer (call_and_return answer c).
Proof. intros [r e g cs] Hs. cbn in Hs. subst. left. by exists c. Qed.

Lemma exec_call_and_return_sound (answer : list ExecCall → ExecCall → Z) (c : ExecCall) :
  calls_or_raises answer (exec_call_and_return answer c).
Proof. intros [r e g cs] Hs. cbn in Hs. subst. left. by exists c. Qed.

(** The next name of a table of methods. *)
Ltac case_name Hm :=
  match type of Hm with
  | context [String.eqb ?name ?k] => destruct (String.eqb_spec name k) as [->|_]
  end.

Create HintDb python.
#[export] Hint Resolve call_and_return_sound exec_call_and_return_sound raises_only : python.

Section SchedulerMethods.
Context `{Interpreter} `{SchedulerProtobuf} `{!DriverWaits DriverCall}.
Context (answer : list DriverCall → DriverCall → Z).

Lemma read_or_sound {T : Type} (parse : string → option T) msg o k :
  (∀ t, calls_or_raises answer (k t)) → calls_or_raises answer (read_or parse msg o k).
Proof using.
  intros Hk st Hs. unfold read_or, mbind, PyM_bind. rewrite read_spec by done.
  destruct (read_message parse o); [by apply Hk|]. right. by eexists.
Qed.

Lemma read_list_sound {T : Type} (parse : string → option T) not_list msg o k :
  (∀ ts, calls_or_raises answer (k ts)) →
  calls_or_raises answer (read_list parse not_list msg o k).
Proof using.
  intros Hk. unfold read_list. destruct o; try apply raises_only.
  intros st Hs. unfold mbind, PyM_bind. rewrite read_items_spec by done.
  destruct (read_messages parse items); [by apply Hk|]. right. by eexists.
Qed.

Lemma read_filters_sound (rest : list PyObject) k :
  (∀ f, calls_or_raises answer (k f)) → calls_or_raises answer (read_filters rest k).
Proof using. intros Hk. destruct rest; [apply Hk|by apply read_or_sound]. Qed.

Lemma with_driver_sound (self : MesosSchedulerDriverImpl) body :
  calls_or_raises answer body → calls_or_raises answer (with_driver self body).
Proof using. intros Hb. unfold with_driver. destruct (driver self); [done|apply raises_only]. Qed.

#[local] Hint Resolve read_or_sound read_list_sound read_filters_sound with_driver_sound
  : python.

(** A method body after its arguments were parsed. *)
Ltac method_body :=
  intros; apply with_driver_sound, parse_then; [|done]; intros Hargs;
  repeat match goal with
  | |- calls_or_raises _ (match ?l with [] => _ | _ => _ end) =>
      is_var l; destruct l; try (cbn in Hargs; rewrite ?andb_false_r in Hargs; done)
  end; auto 10 with python.

Lemma methods_sound (name : string) (self : MesosSchedulerDriverImpl)
    (m : list PyObject → Waits DriverCall (option PyObject)) (args : list PyObject) :
  MesosSchedulerDriverImpl_methods answer name self = Some m →
  method_ok answer call_start name (m args).
Proof using.
  unfold MesosSchedulerDriverImpl_methods. intros Hm.
  assert (Hno : ∀ c, calls_or_raises answer (with_driver self (call_and_return answer c)))
    by (intros; apply with_driver_sound, call_and_return_sound).
  repeat (case_name Hm; [injection Hm as <-|]); [..|done].
  1, 3, 11, 12: destruct args; apply does_ok; done || apply Hno || apply raises_only.
  2, 3: destruct args; [|by apply raises_ok]; unfold no_args;
    unfold MesosSchedulerDriverImpl_join, MesosSchedulerDriverImpl_run, wait_and_return;
    destruct (driver self); [|by apply raises_ok].
  2: by apply join_ok.
  2: by apply run_ok.
  all: apply does_ok; [done|]; try method_body.
  destruct p; auto 10 with python.
Qed.
End SchedulerMethods.

Section ExecutorMethods.
Context `{Interpreter} `{ExecutorProtobuf} `{!DriverWaits ExecCall}.
Context (answer : list ExecCall → ExecCall → Z).

Lemma with_exec_driver_sound (self : MesosExecutorDriverImpl) body :
  calls_or_raises answer body → calls_or_raises answer (with_exec_driver self body).
Proof using.
  intros Hb. unfold with_exec_driver. destruct (exec_driver self); [done|apply raises_only].
Qed.

Lemma exec_methods_sound (name : string) (self : MesosExecutorDriverImpl)
    (m : list PyObject → Waits ExecCall (option PyObject)) (args : list PyObject) :
  MesosExecutorDriverImpl_methods answer name self = Some m →
  method_ok answer xcall_start name (m args).
Proof using.
  unfold MesosExecutorDriverImpl_methods. intros Hm.
  assert (Hno : ∀ c, calls_or_raises answer (with_exec_driver self (exec_call_and_return answer c)))
    by (intros; apply with_exec_driver_sound, exec_call_and_return_sound).
  repeat (case_name Hm; [injection Hm as <-|]); [..|done].
  1-3: destruct args; apply does_ok; done || apply raises_only || apply Hno.
  1, 2: destruct args; [|by apply raises_ok];
    unfold MesosExecutorDriverImpl_join, MesosExecutorDriverImpl_run, exec_wait_and_return;
    destruct (exec_driver self); [|by apply raises_ok].
  1: by apply join_ok.
  1: by apply run_ok.
  all: apply does_ok; [done|]; apply with_exec_driver_sound, parse_then; [|done]; intros Hargs.
  - destruct args as [|o args]; [done|]. intros st Hs. unfold mbind, PyM_bind.
    rewrite read_spec by done. destruct (read_message _ o); [by apply exec_call_and_return_sound|].
    right. by eexists.
  - destruct args as [|[] [|o' args]]; try done. apply exec_call_and_return_sound.
Qed.
End ExecutorMethods.

(** C37: A callback into Python, for the scheduler and for the executor: starting
    without a pending exception, it ends without one, with the interpreter lock
    and every reference given back, and its whole effect on the driver is: the
    calls that the application's method makes on the converted arguments,
    followed by one [abort] if an argument could not be converted or the method
    raised.  Only an exception in [error] is not followed by an [abort].  The
    callbacks [disconnected] and [executorLost], which this driver never makes, are
    included. *)
Theorem python_callbacks_tidy `{Interpreter} `{SchedulerProtobuf} `{ExecutorProtobuf}
    (method : string → list PyObject → list DriverCall * option PyObject)
    (exec_method : string → list PyObject → list ExecCall * option PyObject)
    (impl : PyObject) (c : Callback) (x : ExecCallback) (eid sid : string) (code : Z)
    (st : Py DriverCall) (xst : Py ExecCall) :
  err st = None → err xst = None →
  let tidy effect := (tt, mkPy (refs st) None (gil st) (calls st ++ effect)) in
  let xtidy effect := (tt, mkPy (refs xst) None (gil xst) (calls xst ++ effect)) in
  proxy method impl c st = tidy (callback_effect method impl c) ∧
  PythonScheduler.disconnected method impl st =
    tidy (python_effect method impl "disconnected" (Some []) [call_abort]) ∧
  executorLost method impl eid sid code st =
    tidy (python_effect method impl "executorLost"
            (e ← text_object "ExecutorID" eid; s ← text_object "SlaveID" sid;
             Some [e; s; PyInt code]) [call_abort]) ∧
  exec_proxy exec_method impl x xst = xtidy (exec_callback_effect exec_method impl x) ∧
  PythonExecutor.disconnected exec_method impl xst =
    xtidy (python_effect exec_method impl "disconnected" (Some []) [xcall_abort]).
Proof.
  intros. split_and!; [by apply proxy_spec|by apply disconnected_spec|by apply executorLost_spec
                      |by apply exec_proxy_spec|by apply exec_disconnected_spec].
Qed.

(** C38: Every method in the tables of the wrapped drivers, [join] and [run] among
    them, for any arguments, called with the interpreter lock and no exception.
    Either it raises, and then it made no driver call and kept no reference.  Or,
    [join] and [run] apart, it makes exactly one driver call and returns the status
    that the driver answered, in a new reference and without an exception.  [join]
    waits for the driver without the lock, and returns the status that the wait
    ends with (it does not return when the wait has no end); [run] starts the driver
    first, and only waits when it runs then.  All of them have the lock afterwards. *)
Theorem python_methods_call_or_raise `{Interpreter} `{SchedulerProtobuf} `{ExecutorProtobuf}
    `{!DriverWaits DriverCall} `{!DriverWaits ExecCall}
    (answer : list DriverCall → DriverCall → Z) (xanswer : list ExecCall → ExecCall → Z)
    (name xname : string) (self : MesosSchedulerDriverImpl) (xself : MesosExecutorDriverImpl)
    (m : list PyObject → Waits DriverCall (option PyObject))
    (xm : list PyObject → Waits ExecCall (option PyObject)) (args : list PyObject) :
  MesosSchedulerDriverImpl_methods answer name self = Some m →
  MesosExecutorDriverImpl_methods xanswer xname xself = Some xm →
  method_ok answer call_start name (m args) ∧ method_ok xanswer xcall_start xname (xm args).
Proof.
  intros Hm Hx. split; [by eapply methods_sound|by eapply exec_methods_sound].
Qed.

(** A Python application hands its tasks to the driver unchanged: [launchTasks]
    on lists of messages makes the driver call with the messages that they
    serialize to, in order, and the filters, empty when they are not given. *)
Theorem python_launchTasks_delivers `{Interpreter} `{SchedulerProtobuf}
    (answer : list DriverCall → DriverCall → Z) (self : MesosSchedulerDriverImpl)
    (cfg : DriverConfig) (ids tasks : list PyObject) (filters : option PyObject)
    (offerIds : list string) (taskInfos : list TaskInfo) (f : string) (st : Py DriverCall) :
  driver self = Some cfg → err st = None →
  read_messages (parse_text "OfferID") ids = Some offerIds →
  read_messages parse_TaskInfo tasks = Some taskInfos →
  match filters with
  | Some o => read_message (parse_text "Filters") o = Some f
  | None => f = ""
  end →
  let c := call_launchTasks offerIds taskInfos f in
  MesosSchedulerDriverImpl_launchTasks answer self
    (PyList ids :: PyList tasks :: option_list filters) st =
  (Some (PyInt (answer (calls st) c)), mkPy (refs st + 1) None (gil st) (calls st ++ [c])).
Proof.
  intros Hd Hs Hi Ht Hf c. destruct st as [r e g cs]. cbn in Hs. subst e.
  unfold MesosSchedulerDriverImpl_launchTasks, with_driver. rewrite Hd.
  replace (PyArg_ParseTuple _ _ _) with (mret true : PyM DriverCall bool) by (by destruct filters).
  unfold mbind at 1, PyM_bind at 1. unfold mret at 1, PyM_ret at 1.
  unfold read_list at 1, mbind at 1, PyM_bind at 1. rewrite read_items_spec, Hi by done.
  unfold read_list at 1, mbind at 1, PyM_bind at 1. rewrite read_items_spec, Ht by done.
  destruct filters as [o|].
  - change (read_filters _) with
      (read_or (parse_text "Filters") "Could not deserialize Python Filters" o).
    unfold read_or, mbind at 1, PyM_bind at 1. by rewrite read_spec, Hf.
  - by subst f.
Qed.

(** ** A Python framework *)

(** The application's method raises in reply to the callback [c], or cannot be
    given its arguments. *)
Definition python_raises `{Interpreter} `{SchedulerProtobuf}
    (method : string → list PyObject → list DriverCall * option PyObject) (impl : PyObject)
    (c : Callback) : Prop :=
  match callback_args c with
  | None => True
  | Some args => (method (callback_name c) (impl :: args)).2 = None
  end.

(** C23: A Python framework that raises an exception in a callback other than
    [error], at any depth of nesting, is not running any more when the callback is
    over: a driver that was running is aborted.  And the callback is over after at
    most two levels of nested calls, in every reachable world with a channel, when
    the application launches no task from its status update callback. *)
Theorem python_exception_stops_driver `{Redis} `{Os} `{Interpreter} `{SchedulerProtobuf}
    `{SchedulerDriver.JsonProtobuf Json}
    (impl : PyObject)
    (behaviour : list Callback → string → list PyObject → list DriverCall * option PyObject)
    (c : Callback) (w : World) :
  let app := python_application impl behaviour in
  (∀ message, c ≠ cb_error message) →
  python_raises (behaviour (Scheduler.notified w ++ [c])) impl c →
  (∀ depth w', @callback _ app depth c w = Ok w' → Scheduler.status w' ≠ DRIVER_RUNNING) ∧
  (@reachable _ _ app _ _ w → Scheduler.channelsCreated_ w = true → @launches_elsewhere app →
   ∀ depth, ∃ w', @callback _ app (S (S depth)) c w = Ok w').
Proof.
  intros app Hne Hr. split.
  - intros depth w' Hcb.
    assert (Hreact : ∃ cs, @react app (Scheduler.notified w ++ [c]) = cs ++ [call_abort]).
    { unfold react, app, python_application.
      rewrite last_snoc, proxy_spec by done. cbn [snd calls idle_python app].
      unfold callback_effect, python_effect. unfold python_raises in Hr.
      assert (on_exception c = [call_abort]) as -> by (destruct c; try done; by destruct (Hne message)).
      destruct (callback_args c) as [args|]; [|by exists []].
      destruct (behaviour _ _ _) as [cs res]. cbn in Hr. subst res. by exists cs. }
    destruct Hreact as (cs & Hreact). by eapply callback_aborts.
  - intros Hw Hch Hl depth.
    pose proof (reachable_inv w Hw) as Hi.
    pose proof (callback_safe (S (S depth)) c w Hi (inv_started _ Hi Hch)) as Hs.
    pose proof (callback_returns depth c w Hl) as Hh.
    destruct (callback _ c w) as [w'|e|]; [by exists w'|done|]. cbn in Hs. congruence.
Qed.

(** ** A session

    Messages serialize to their own text; the Python classes are all there.  The
    application declines the first offer of each list, and raises when it is told
    that an agent is lost. *)
Module PythonSession.

#[local] Instance interpreter : Interpreter := {|
  pb2_entry _ := AType;
  FromString t b := Some (PyMessage t b);
  SerializeToString_of o :=
    match o with PyMessage _ b => Returns (PyString b) | _ => Raises end |}.
#[local] Instance protobuf : SchedulerProtobuf := {|
  ser_text _ v := Some v;
  ser_Offer o := Some (of_id o);
  ser_TaskStatus s := Some (ts_task_id s);
  parse_text _ b := Some b;
  parse_FrameworkInfo b := if String.eqb b "bad" then None else Some (mkFrameworkInfo b b None "");
  parse_TaskInfo b := Some (mkTaskInfo b b "agent" None None None "");
  parse_TaskStatus b := Some (mkTaskStatus b TASK_RUNNING None None None None);
  parse_Operation _ := None |}.
#[local] Instance exec_protobuf : ExecutorProtobuf := {|
  ex_ser_text _ v := Some v;
  ex_ser_TaskInfo t := Some (ti_task_id t);
  ex_parse_TaskStatus b := Some (mkTaskStatus b TASK_RUNNING None None None None) |}.
#[local] Instance os : Os := {|
  uuid_generate _ := "u"; after_uuid _ := ""; time0 _ := 0; os_user := Some "bob"; job_submit_options_env := None |}.

Definition scheduler (history : list Callback) (name : string) (args : list PyObject)
    : list DriverCall * option PyObject :=
  match name, args with
  | "resourceOffers", [_; PyList (PyMessage _ id :: _)] =>
      ([call_declineOffer id ""], Some Py_None)
  | "slaveLost", _ => ([], None)
  | _, _ => ([], Some Py_None)
  end.
Definition executor (name : string) (args : list PyObject) : list ExecCall * option PyObject :=
  ([xcall_sendFrameworkMessage name], None).

Definition answer0 (cs : list DriverCall) (c : DriverCall) : Z := 2.
Definition xanswer0 (cs : list ExecCall) (c : ExecCall) : Z := 2.
Definition wrapped : MesosSchedulerDriverImpl :=
  mkImpl (Some (mkDriverConfig (mkFrameworkInfo "u" "n" None "") "m" true None)) true
    (Some (PyInstance "scheduler")).

Lemma python_callbacks_tidy_witness :
  proxy (scheduler []) Py_None (cb_resourceOffers [mkOffer "o1" "a" ""; mkOffer "o2" "a" ""])
    (mkPy 3 None 0 []) = (tt, mkPy 3 None 0 [call_declineOffer "o1" ""]) ∧
  exec_proxy executor Py_None ex_shutdown (mkPy 3 None 0 []) =
    (tt, mkPy 3 None 0 [xcall_sendFrameworkMessage "shutdown"; xcall_abort]).
Proof.
  destruct (python_callbacks_tidy (scheduler []) executor Py_None
    (cb_resourceOffers [mkOffer "o1" "a" ""; mkOffer "o2" "a" ""]) ex_shutdown "e" "s" 1
    (mkPy 3 None 0 []) (mkPy 3 None 0 []) eq_refl eq_refl) as (H1 & _ & _ & H4 & _).
  split; [exact H1|exact H4].
Defined.

(** The drivers end when another thread aborts them. *)
#[local] Instance waits : DriverWaits DriverCall :=
  {| joins _ _ := Some ([call_abort], 3); deletes _ _ := Some [] |}.
#[local] Instance exec_waits : DriverWaits ExecCall :=
  {| joins _ _ := Some ([xcall_abort], 3); deletes _ _ := Some [] |}.

Lemma python_methods_call_or_raise_witness :
  method_ok answer0 call_start "join" (MesosSchedulerDriverImpl_join wrapped) ∧
  method_ok xanswer0 xcall_start "run"
    (MesosExecutorDriverImpl_run xanswer0 (mkExecImpl true true None)) ∧
  MesosExecutorDriverImpl_run xanswer0 (mkExecImpl true true None) (mkPy 0 None 1 []) =
    Some (Some (PyInt 3), mkPy 1 None 1 [xcall_start; xcall_abort]).
Proof.
  destruct (python_methods_call_or_raise answer0 xanswer0 "join" "run" wrapped
    (mkExecImpl true true None) _ _ [] eq_refl eq_refl) as [Hj Hr].
  split; [exact Hj|]. split; [exact Hr|]. reflexivity.
Defined.

Lemma python_launchTasks_delivers_witness :
  MesosSchedulerDriverImpl_launchTasks answer0 wrapped
    [PyList [PyMessage "OfferID" "o"]; PyList [PyMessage "TaskInfo" "t"]] idle_python =
  (Some (PyInt 2),
   mkPy 1 None 0 [call_launchTasks ["o"] [mkTaskInfo "t" "t" "agent" None None None ""] ""]).
Proof.
  exact (python_launchTasks_delivers answer0 wrapped
    (mkDriverConfig (mkFrameworkInfo "u" "n" None "") "m" true None)
    [PyMessage "OfferID" "o"] [PyMessage "TaskInfo" "t"] None ["o"]
    [mkTaskInfo "t" "t" "agent" None None None ""] "" idle_python
    eq_refl eq_refl eq_refl eq_refl eq_refl).
Defined.

(** A framework with this application that has registered. *)
#[local] Existing Instance SchedulerExamples.ex_redis.
#[local] Existing Instance SchedulerExamples.ex_json.
#[local] Instance python_app : Application := python_application Py_None scheduler.

Definition py_new : World :=
  mkWorld (mkFrameworkInfo "bob" "example" None "") "urb://localhost:6379" false
    DRIVER_NOT_STARTED false None (mkFrameworkInfo "bob" "example" None "") false ""
    false false ∅ ∅ new_broker [] 0 [].
Definition py_event (e : Event (Json := unit)) (w : World) : World :=
  match run_event 3 e w with Ok w' => w' | _ => py_new end.
Definition py_started : World := Eval vm_compute in py_event (ev_call call_start) py_new.
Definition py_connecting : World :=
  Eval vm_compute in py_event (ev_timer (doReliableRegistration_after 0)) py_started.
Definition py_registered : World :=
  Eval vm_compute in
    py_event (ev_input (mkInMessage VALID "FrameworkRegisteredMessage" tt)) py_connecting.

Lemma py_registered_reachable : reachable py_registered.
Proof.
  eapply (reachable_step 3 (ev_input (mkInMessage VALID "FrameworkRegisteredMessage" tt)) py_connecting);
    [|repeat split; done|vm_compute; reflexivity].
  eapply (reachable_step 3 (ev_timer (doReliableRegistration_after 0)) py_started);
    [|split; [done|by apply (bool_decide_unpack _)]|vm_compute; reflexivity].
  eapply (reachable_step 3 (ev_call call_start) py_new); [|done|vm_compute; reflexivity].
  apply (reachable_new (mkFrameworkInfo "" "example" None "") "urb://localhost:6379").
  reflexivity.
Qed.

Lemma py_launches_elsewhere : launches_elsewhere.
Proof.
  intros h st c. unfold react, python_app, python_application. rewrite last_snoc.
  vm_compute. intros Hc. by apply not_elem_of_nil in Hc.
Qed.

(** The application raises when it is told that an agent is lost. *)
Lemma python_exception_stops_driver_witness :
  Scheduler.status py_registered = DRIVER_RUNNING ∧
  ∃ w', callback 2 (cb_slaveLost "a") py_registered = Ok w' ∧
        Scheduler.status w' ≠ DRIVER_RUNNING.
Proof.
  split; [reflexivity|].
  destruct (python_exception_stops_driver Py_None scheduler (cb_slaveLost "a") py_registered)
    as [Hstop Hret]; [discriminate|reflexivity|].
  destruct (Hret py_registered_reachable eq_refl py_launches_elsewhere 0%nat) as (w' & E).
  exists w'. split; [exact E|]. exact (Hstop 2%nat w' E).
Defined.

(** Initialised a second time with a message that does not parse, the wrapper
    keeps its driver but already has the new scheduler object. *)
Example init_failure_swaps_scheduler :
  ∃ self st,
    MesosSchedulerDriverImpl_init wrapped
      [PyInstance "other"; PyMessage "FrameworkInfo" "bad"; PyString "m"] idle_python =
      Some (-1, self, st) ∧
    driver self = driver wrapped ∧
    self_pythonScheduler self = Some (PyInstance "other") ∧ has (err st) = true.
Proof. eexists _, _. split; [vm_compute; reflexivity|]. by repeat split. Qed.
End PythonSession.
