(* ===== verification/Jni.v ===== *)
(** * Jni: the Java VM as the Java bindings see it (convert.cpp, construct.cpp)

    The native code behind the Java classes.  The model keeps, for the current
    thread, whether it is attached to the VM, how many Java frames are below it,
    the pending exception, the byte arrays it has pinned and the weak global
    references it holds; and the calls made on the driver.

    Using a null class, method or array is an error of the native code that ends
    the process: [Fatal].  The Java classes have the fields and methods that the
    code looks up; everything else about the Java side is a parameter. *)

From S2P Require Import Prelude StoutStrings.

Inductive jobject :=
  | jnull
  | jmessage (class bytes : string)
  | jstring (s : string)
  | jbytes (s : string)
  | jint (z : Z)
  | jlist (items : list jobject) (fails : bool)   (* [hasNext] throws at its end *)
  | jinstance (name : string).

Class JavaSide := {
  (** is the class loader of the library's loading thread known? *)
  mesosClassLoader : bool;
  (** [FindClass], with slashes; [loadClass], with dots *)
  FindClass : string → bool;
  loadClass : string → bool;
  (** [T.parseFrom(data)] and [obj.toByteArray()], or an exception *)
  parseFrom : string → string → option jobject;
  toByteArray : jobject → option string }.

Section Jm.
Context {Call : Type}.

Record Jvm := mkJvm {
  attached : bool;
  frames : nat;
  exception : bool;
  pinned : Z;
  weak : Z;
  jcalls : list Call }.

Definition Jm (A : Type) : Type := Jvm → outcome (A * Jvm).
#[global] Instance Jm_ret : MRet Jm := fun A a st => Ok (a, st).
#[global] Instance Jm_bind : MBind Jm := fun A B f m st =>
  match m st with
  | Ok (a, st') => f a st'
  | Err e => Err e
  | Fatal => Fatal
  end.
Definition crash {A : Type} : Jm A := fun _ => Fatal.

Definition set_attached (b : bool) : Jm unit := fun st =>
  Ok (tt, mkJvm b (frames st) (exception st) (pinned st) (weak st) (jcalls st)).
Definition set_exception (b : bool) : Jm unit := fun st =>
  Ok (tt, mkJvm (attached st) (frames st) b (pinned st) (weak st) (jcalls st)).
Definition add_pinned (n : Z) : Jm unit := fun st =>
  Ok (tt, mkJvm (attached st) (frames st) (exception st) (pinned st + n) (weak st) (jcalls st)).
Definition add_weak (n : Z) : Jm unit := fun st =>
  Ok (tt, mkJvm (attached st) (frames st) (exception st) (pinned st) (weak st + n) (jcalls st)).
Definition did (cs : list Call) : Jm unit := fun st =>
  Ok (tt, mkJvm (attached st) (frames st) (exception st) (pinned st) (weak st)
            (jcalls st ++ cs)%list).

(** Attaching an attached thread changes nothing; a thread with Java frames
    cannot be detached. *)
Definition AttachCurrentThread : Jm unit := set_attached true.
Definition DetachCurrentThread : Jm unit := fun st =>
  match frames st with
  | O => set_attached false st
  | S _ => Ok (tt, st)
  end.
Definition ExceptionCheck : Jm bool := fun st => Ok (exception st, st).
Definition ExceptionClear : Jm unit := set_exception false.

(** [env->GetObjectClass(o)] *)
Definition GetObjectClass (o : jobject) : Jm unit :=
  match o with jnull => crash | _ => mret tt end.

(** ** convert.cpp *)

Section Convert.
Context `{JavaSide}.

(** The class name with dots for slashes. *)
Fixpoint binary_name (s : string) : string :=
  match s with
  | "" => ""
  | String c s' => String (if Ascii.eqb c "/" then "."%char else c) (binary_name s')
  end.

(** [None] is a null class. *)
Definition FindMesosClass (className : string) : Jm (option string) :=
  pending ← ExceptionCheck;
  if pending : bool then mret None
  else
    let found := if mesosClassLoader then loadClass (binary_name className)
                 else FindClass className in
    if found then mret (Some className) else _ ← set_exception true; mret None.

(** [GetStaticMethodID] on the class that was found. *)
Definition static_method (clazz : option string) : Jm unit :=
  match clazz with Some _ => mret tt | None => crash end.

(** [convert<T>] of a protobuf message: [data] is what [SerializeToString] wrote. *)
Definition convert_message (typeName : string) (data : string) : Jm jobject :=
  clazz ← FindMesosClass ("org/apache/mesos/Protos$" ++ typeName);
  _ ← static_method clazz;
  match parseFrom typeName data with
  | Some o => mret o
  | None => _ ← set_exception true; mret jnull
  end.

(** The instances, one per message type; [data] is its serialization. *)
Definition convert_FrameworkID (data : string) : Jm jobject := convert_message "FrameworkID" data.
Definition convert_FrameworkInfo (data : string) : Jm jobject := convert_message "FrameworkInfo" data.
Definition convert_MasterInfo (data : string) : Jm jobject := convert_message "MasterInfo" data.
Definition convert_ExecutorID (data : string) : Jm jobject := convert_message "ExecutorID" data.
Definition convert_TaskID (data : string) : Jm jobject := convert_message "TaskID" data.
Definition convert_SlaveID (data : string) : Jm jobject := convert_message "SlaveID" data.
Definition convert_SlaveInfo (data : string) : Jm jobject := convert_message "SlaveInfo" data.
Definition convert_OfferID (data : string) : Jm jobject := convert_message "OfferID" data.
Definition convert_TaskInfo (data : string) : Jm jobject := convert_message "TaskInfo" data.
Definition convert_TaskStatus (data : string) : Jm jobject := convert_message "TaskStatus" data.
Definition convert_Offer (data : string) : Jm jobject := convert_message "Offer" data.
Definition convert_ExecutorInfo (data : string) : Jm jobject := convert_message "ExecutorInfo" data.

(** [NewStringUTF(s.c_str())]: up to the first NUL. *)
Fixpoint until_nul (s : string) : string :=
  match s with
  | "" => ""
  | String c s' => if Ascii.eqb c "000" then "" else String c (until_nul s')
  end.
Definition convert_string (s : string) : Jm jobject := mret (jstring (until_nul s)).

(** [convert<Status>]: the constant of the enumeration with that number. *)
Definition convert_Status (status : Z) : Jm jobject :=
  clazz ← FindMesosClass "org/apache/mesos/Protos$Status";
  _ ← static_method clazz;
  mret (jint status).

(** [getFieldID]: [Ok (Some v)] when the class has the field. *)
Inductive Field := NoSuchField | OtherException | HasField (v : jobject).
Definition getFieldID (f : Field) : Jm (outcome (option jobject)) :=
  match f with
  | HasField v => mret (Ok (Some v))
  | NoSuchField => mret (Ok None)
  | OtherException => _ ← set_exception true; mret (Err "Unexpected exception")
  end.

(** ** construct.cpp *)

(** [parse] of the bytes must succeed: a [CHECK]. *)
Definition construct_message {T : Type} (parse : string → option T) (o : jobject) : Jm T :=
  _ ← GetObjectClass o;
  match toByteArray o with
  | None => crash
  | Some bytes =>
      _ ← add_pinned 1;
      match parse bytes with
      | None => crash
      | Some t => _ ← add_pinned (-1); mret t
      end
  end.

(** The instances; [parse] is the parser of the type. *)
Section Instances.
Context {T : Type} (parse : string → option T).
Definition construct_FrameworkInfo (o : jobject) : Jm T := construct_message parse o.
Definition construct_Credential (o : jobject) : Jm T := construct_message parse o.
Definition construct_Filters (o : jobject) : Jm T := construct_message parse o.
Definition construct_ExecutorID (o : jobject) : Jm T := construct_message parse o.
Definition construct_TaskID (o : jobject) : Jm T := construct_message parse o.
Definition construct_SlaveID (o : jobject) : Jm T := construct_message parse o.
Definition construct_OfferID (o : jobject) : Jm T := construct_message parse o.
Definition construct_TaskInfo (o : jobject) : Jm T := construct_message parse o.
Definition construct_TaskStatus (o : jobject) : Jm T := construct_message parse o.
Definition construct_Request (o : jobject) : Jm T := construct_message parse o.
Definition construct_Operation (o : jobject) : Jm T := construct_message parse o.
End Instances.

Definition construct_string (o : jobject) : Jm string :=
  match o with jstring s => mret s | _ => crash end.
Definition construct_bool (b : Z) : bool := b =? 1.

(** A byte array argument. *)
Definition construct_bytes (o : jobject) : Jm string :=
  match o with
  | jbytes s => _ ← add_pinned 1; _ ← add_pinned (-1); mret s
  | _ => crash
  end.

(** The loop over the iterator of a collection: an exception of [hasNext] ends
    the loop and stays pending. *)
Fixpoint construct_items {T : Type} (construct : jobject → Jm T) (items : list jobject)
    : Jm (list T) :=
  match items with
  | [] => mret []
  | o :: items' =>
      t ← construct o;
      ts ← construct_items construct items';
      mret (t :: ts)
  end.
Definition construct_collection {T : Type} (construct : jobject → Jm T) (o : jobject)
    : Jm (list T) :=
  match o with
  | jlist items fails =>
      ts ← construct_items construct items;
      _ ← (if fails : bool then set_exception true else mret tt);
      mret ts
  | _ => crash
  end.

(** ** Callbacks into Java *)

(** [java] is what the application's object does when a method is called: the
    calls it makes on the driver, and whether it throws. *)
Definition CallVoidMethod (java : string → list jobject → list Call * bool)
    (name : string) (args : list jobject) : Jm unit :=
  let '(cs, throws) := java name args in
  _ ← did cs; set_exception throws.

(** The end of every callback. *)
Definition finish (abort : Call) : Jm unit :=
  thrown ← ExceptionCheck;
  if thrown : bool then
    _ ← ExceptionClear; _ ← DetachCurrentThread; did [abort]
  else DetachCurrentThread.
End Convert.
End Jm.
Arguments Jvm : clear implicits.
Arguments Jm : clear implicits.
