(* ===== verification/JniScheduler.v ===== *)
(** * JniScheduler: org_apache_mesos_MesosSchedulerDriver.cpp

    [JNIScheduler], the [Scheduler] that hands the driver's callbacks to the Java
    object, and the native methods of the Java class MesosSchedulerDriver. *)

From S2P Require Import Prelude StoutStrings Scheduler SchedulerDriver Jni.
#[local] Open Scope string_scope.
#[local] Open Scope list_scope.
#[local] Open Scope Z_scope.

(** The C++ protobuf library.  [SerializeToString] leaves the string empty when
    it fails, which the callers do not test. *)
Class JniProtobuf := {
  j_ser : string → string → string;
  j_ser_Offer : Offer → string;
  j_ser_TaskStatus : TaskStatus → string;
  j_parse : string → string → option string;
  j_parse_FrameworkInfo : string → option FrameworkInfo;
  j_parse_TaskInfo : string → option TaskInfo;
  j_parse_TaskStatus : string → option TaskStatus;
  j_parse_Operation : string → option Operation }.

Section Callbacks.
Context `{JavaSide} `{JniProtobuf}.
(** The application's scheduler, the object behind the weak reference to the
    driver, null once the driver was collected. *)
Context (java : string → list jobject → list DriverCall * bool) (jdriver : jobject).

(** Attach, look up the field [scheduler] and the method. *)
Definition enter : Jm DriverCall unit :=
  _ ← AttachCurrentThread; GetObjectClass jdriver.

Definition registered (frameworkId masterInfo : string) : Jm DriverCall unit :=
  _ ← enter;
  jframeworkId ← convert_FrameworkID (j_ser "FrameworkID" frameworkId);
  jmasterInfo ← convert_MasterInfo (j_ser "MasterInfo" masterInfo);
  _ ← ExceptionClear;
  _ ← CallVoidMethod java "registered" [jdriver; jframeworkId; jmasterInfo];
  finish call_abort.

Definition reregistered (masterInfo : string) : Jm DriverCall unit :=
  _ ← enter;
  jmasterInfo ← convert_MasterInfo (j_ser "MasterInfo" masterInfo);
  _ ← ExceptionClear;
  _ ← CallVoidMethod java "reregistered" [jdriver; jmasterInfo];
  finish call_abort.

Definition disconnected : Jm DriverCall unit :=
  _ ← enter;
  _ ← ExceptionClear;
  _ ← CallVoidMethod java "disconnected" [jdriver];
  finish call_abort.

(** The loop that fills the ArrayList. *)
Fixpoint convert_offers (offers : list Offer) : Jm DriverCall (list jobject) :=
  match offers with
  | [] => mret []
  | o :: offers' =>
      joffer ← convert_Offer (j_ser_Offer o);
      joffers ← convert_offers offers';
      mret (joffer :: joffers)
  end.

Definition resourceOffers (offers : list Offer) : Jm DriverCall unit :=
  _ ← enter;
  joffers ← convert_offers offers;
  _ ← ExceptionClear;
  _ ← CallVoidMethod java "resourceOffers" [jdriver; jlist joffers false];
  finish call_abort.

Definition offerRescinded (offerId : string) : Jm DriverCall unit :=
  _ ← enter;
  jofferId ← convert_OfferID (j_ser "OfferID" offerId);
  _ ← ExceptionClear;
  _ ← CallVoidMethod java "offerRescinded" [jdriver; jofferId];
  finish call_abort.

Definition statusUpdate (status : TaskStatus) : Jm DriverCall unit :=
  _ ← enter;
  jstatus ← convert_TaskStatus (j_ser_TaskStatus status);
  _ ← ExceptionClear;
  _ ← CallVoidMethod java "statusUpdate" [jdriver; jstatus];
  finish call_abort.

Definition frameworkMessage (executorId slaveId data : string) : Jm DriverCall unit :=
  _ ← enter;
  let jdata := jbytes data in
  jexecutorId ← convert_ExecutorID (j_ser "ExecutorID" executorId);
  jslaveId ← convert_SlaveID (j_ser "SlaveID" slaveId);
  _ ← ExceptionClear;
  _ ← CallVoidMethod java "frameworkMessage" [jdriver; jexecutorId; jslaveId; jdata];
  finish call_abort.

Definition slaveLost (slaveId : string) : Jm DriverCall unit :=
  _ ← enter;
  jslaveId ← convert_SlaveID (j_ser "SlaveID" slaveId);
  _ ← ExceptionClear;
  _ ← CallVoidMethod java "slaveLost" [jdriver; jslaveId];
  finish call_abort.

Definition executorLost (executorId slaveId : string) (status : Z) : Jm DriverCall unit :=
  _ ← enter;
  jexecutorId ← convert_ExecutorID (j_ser "ExecutorID" executorId);
  jslaveId ← convert_SlaveID (j_ser "SlaveID" slaveId);
  _ ← ExceptionClear;
  _ ← CallVoidMethod java "executorLost" [jdriver; jexecutorId; jslaveId; jint status];
  finish call_abort.

Definition error (message : string) : Jm DriverCall unit :=
  _ ← enter;
  jmessage ← convert_string message;
  _ ← ExceptionClear;
  _ ← CallVoidMethod java "error" [jdriver; jmessage];
  finish call_abort.

Definition jni_scheduler (c : Callback) : Jm DriverCall unit :=
  match c with
  | cb_registered frameworkId masterInfo => registered frameworkId masterInfo
  | cb_reregistered masterInfo => reregistered masterInfo
  | cb_resourceOffers offers => resourceOffers offers
  | cb_offerRescinded offerId => offerRescinded offerId
  | cb_statusUpdate status => statusUpdate status
  | cb_slaveLost slaveId => slaveLost slaveId
  | cb_frameworkMessage executorId slaveId data => frameworkMessage executorId slaveId data
  | cb_error message => error message
  end.
End Callbacks.

(** A Java framework as the driver sees it; a callback that ends the process
    makes no further calls. *)
Definition native_thread : Jvm DriverCall := mkJvm false 0 false 0 0 [].
Definition java_application `{JavaSide} `{JniProtobuf} (jdriver : jobject)
    (behaviour : list Callback → string → list jobject → list DriverCall * bool)
    : Application := fun history =>
  match last history with
  | None => []
  | Some c =>
      match jni_scheduler (behaviour history) jdriver c native_thread with
      | Ok (_, st) => jcalls st
      | _ => []
      end
  end.

(** ** Native methods *)

Record DriverConfig := mkDriverConfig {
  cfg_framework : FrameworkInfo;
  cfg_master : string;
  cfg_implicitAcknowledgements : bool;
  cfg_credential : option string }.

(** The Java object: the fields set by its constructor, and the pointers kept in
    [__scheduler] and [__driver]. *)
Record MesosSchedulerDriver := mkJavaDriver {
  f_framework : jobject;
  f_master : jobject;
  f_implicitAcknowledgements : Field;
  f_credential : Field;
  __scheduler : bool;
  __driver : option DriverConfig }.

Section Natives.
Context `{JavaSide} `{JniProtobuf}.
Context (answer : list DriverCall → DriverCall → Z).

Definition with_pointers (thiz : MesosSchedulerDriver) (scheduler : bool)
    (driver : option DriverConfig) : MesosSchedulerDriver :=
  mkJavaDriver (f_framework thiz) (f_master thiz) (f_implicitAcknowledgements thiz)
    (f_credential thiz) scheduler driver.

Definition initialize (thiz : MesosSchedulerDriver) : Jm DriverCall MesosSchedulerDriver :=
  _ ← add_weak 1;
  let thiz := with_pointers thiz true (__driver thiz) in
  implicitAcknowledgements ← getFieldID (f_implicitAcknowledgements thiz);
  match implicitAcknowledgements with
  | Ok implicitAcknowledgements =>
      let jimplicitAcknowledgements :=
        match implicitAcknowledgements with Some (jint z) => z | _ => 1 end in
      credential ← getFieldID (f_credential thiz);
      match credential with
      | Ok credential =>
          let jcredential := get_or jnull credential in
          framework ← construct_FrameworkInfo j_parse_FrameworkInfo (f_framework thiz);
          master ← construct_string (f_master thiz);
          credential ← match jcredential with
                       | jnull => mret None
                       | o => c ← construct_Credential (j_parse "Credential") o; mret (Some c)
                       end;
          mret (with_pointers thiz true
            (Some (mkDriverConfig framework master (construct_bool jimplicitAcknowledgements)
                     credential)))
      | _ => mret thiz
      end
  | _ => mret thiz
  end.

(** Deletes the driver and the scheduler; the pointers stay as they are. *)
Definition finalize (thiz : MesosSchedulerDriver) : Jm DriverCall unit :=
  if __scheduler thiz then add_weak (-1) else crash.

(** [driver->f()] through the pointer, and the status converted. *)
Definition native_call (thiz : MesosSchedulerDriver) (c : DriverCall) : Jm DriverCall jobject :=
  match __driver thiz with
  | None => crash
  | Some _ => fun st =>
      let status := answer (jcalls st) c in
      (_ ← did [c]; convert_Status status) st
  end.

Definition native_start (thiz : MesosSchedulerDriver) := native_call thiz call_start.
Definition native_stop (thiz : MesosSchedulerDriver) (failover : Z) :=
  native_call thiz (call_stop (negb (failover =? 0))).
Definition native_abort (thiz : MesosSchedulerDriver) := native_call thiz call_abort.

Definition native_acknowledgeStatusUpdate (thiz : MesosSchedulerDriver) (jtaskStatus : jobject)
    : Jm DriverCall jobject :=
  taskStatus ← construct_TaskStatus j_parse_TaskStatus jtaskStatus;
  native_call thiz (call_acknowledgeStatusUpdate taskStatus).

Definition native_sendFrameworkMessage (thiz : MesosSchedulerDriver)
    (jexecutorId jslaveId jdata : jobject) : Jm DriverCall jobject :=
  executorId ← construct_ExecutorID (j_parse "ExecutorID") jexecutorId;
  slaveId ← construct_SlaveID (j_parse "SlaveID") jslaveId;
  temp ← construct_bytes jdata;
  native_call thiz (call_sendFrameworkMessage executorId slaveId temp).

Definition native_killTask (thiz : MesosSchedulerDriver) (jtaskId : jobject)
    : Jm DriverCall jobject :=
  taskId ← construct_TaskID (j_parse "TaskID") jtaskId;
  native_call thiz (call_killTask taskId).

(** The two overloads of [launchTasks]. *)
Definition native_launchTasks_offer (thiz : MesosSchedulerDriver)
    (jofferId jtasks jfilters : jobject) : Jm DriverCall jobject :=
  offerId ← construct_OfferID (j_parse "OfferID") jofferId;
  tasks ← construct_collection (construct_TaskInfo j_parse_TaskInfo) jtasks;
  filters ← construct_Filters (j_parse "Filters") jfilters;
  native_call thiz (call_launchTasks [offerId] tasks filters).

Definition native_launchTasks (thiz : MesosSchedulerDriver)
    (jofferIds jtasks jfilters : jobject) : Jm DriverCall jobject :=
  offers ← construct_collection (construct_OfferID (j_parse "OfferID")) jofferIds;
  tasks ← construct_collection (construct_TaskInfo j_parse_TaskInfo) jtasks;
  filters ← construct_Filters (j_parse "Filters") jfilters;
  native_call thiz (call_launchTasks offers tasks filters).

Definition native_acceptOffers (thiz : MesosSchedulerDriver)
    (jofferIds joperations jfilters : jobject) : Jm DriverCall jobject :=
  offers ← construct_collection (construct_OfferID (j_parse "OfferID")) jofferIds;
  operations ← construct_collection (construct_Operation j_parse_Operation) joperations;
  filters ← construct_Filters (j_parse "Filters") jfilters;
  native_call thiz (call_acceptOffers offers operations filters).

Definition native_declineOffer (thiz : MesosSchedulerDriver) (jofferId jfilters : jobject)
    : Jm DriverCall jobject :=
  offerId ← construct_OfferID (j_parse "OfferID") jofferId;
  filters ← construct_Filters (j_parse "Filters") jfilters;
  native_call thiz (call_declineOffer offerId filters).

Definition native_reviveOffers (thiz : MesosSchedulerDriver) := native_call thiz call_reviveOffers.
Definition native_suppressOffers (thiz : MesosSchedulerDriver) :=
  native_call thiz call_suppressOffers.

Definition native_requestResources (thiz : MesosSchedulerDriver) (jrequests : jobject)
    : Jm DriverCall jobject :=
  requests ← construct_collection (construct_Request (j_parse "Request")) jrequests;
  native_call thiz (call_requestResources requests).

Definition native_reconcileTasks (thiz : MesosSchedulerDriver) (jstatuses : jobject)
    : Jm DriverCall jobject :=
  statuses ← construct_collection (construct_TaskStatus j_parse_TaskStatus) jstatuses;
  native_call thiz (call_reconcileTasks statuses).
End Natives.
