(* ===== verification/JniExecutor.v ===== *)
(** * JniExecutor: org_apache_mesos_MesosExecutorDriver.cpp

    The counterpart of the scheduler's file: [JNIExecutor] and the native methods
    of the Java class MesosExecutorDriver. *)

From S2P Require Import Prelude StoutStrings Scheduler LinkedHashMap Executor Jni.
#[local] Open Scope string_scope.
#[local] Open Scope list_scope.
#[local] Open Scope Z_scope.

Class JniExecProtobuf := {
  jx_ser : string → string → string;
  jx_ser_TaskInfo : TaskInfo → string;
  jx_parse_TaskStatus : string → option TaskStatus }.

Section Callbacks.
Context `{JavaSide} `{JniExecProtobuf}.
Context (java : string → list jobject → list ExecCall * bool) (jdriver : jobject).

Definition enter : Jm ExecCall unit :=
  _ ← AttachCurrentThread; GetObjectClass jdriver.

Definition registered (executorInfo frameworkInfo slaveInfo : string) : Jm ExecCall unit :=
  _ ← enter;
  jexecutorInfo ← convert_ExecutorInfo (jx_ser "ExecutorInfo" executorInfo);
  jframeworkInfo ← convert_FrameworkInfo (jx_ser "FrameworkInfo" frameworkInfo);
  jslaveInfo ← convert_SlaveInfo (jx_ser "SlaveInfo" slaveInfo);
  _ ← ExceptionClear;
  _ ← CallVoidMethod java "registered" [jdriver; jexecutorInfo; jframeworkInfo; jslaveInfo];
  finish xcall_abort.

Definition reregistered (slaveInfo : string) : Jm ExecCall unit :=
  _ ← enter;
  jslaveInfo ← convert_SlaveInfo (jx_ser "SlaveInfo" slaveInfo);
  _ ← ExceptionClear;
  _ ← CallVoidMethod java "reregistered" [jdriver; jslaveInfo];
  finish xcall_abort.

Definition disconnected : Jm ExecCall unit :=
  _ ← enter;
  _ ← ExceptionClear;
  _ ← CallVoidMethod java "disconnected" [jdriver];
  finish xcall_abort.

Definition launchTask (desc : TaskInfo) : Jm ExecCall unit :=
  _ ← enter;
  jdesc ← convert_TaskInfo (jx_ser_TaskInfo desc);
  _ ← ExceptionClear;
  _ ← CallVoidMethod java "launchTask" [jdriver; jdesc];
  finish xcall_abort.

Definition killTask (taskId : string) : Jm ExecCall unit :=
  _ ← enter;
  jtaskId ← convert_TaskID (jx_ser "TaskID" taskId);
  _ ← ExceptionClear;
  _ ← CallVoidMethod java "killTask" [jdriver; jtaskId];
  finish xcall_abort.

Definition frameworkMessage (data : string) : Jm ExecCall unit :=
  _ ← enter;
  let jdata := jbytes data in
  _ ← ExceptionClear;
  _ ← CallVoidMethod java "frameworkMessage" [jdriver; jdata];
  finish xcall_abort.

Definition shutdown : Jm ExecCall unit :=
  _ ← enter;
  _ ← ExceptionClear;
  _ ← CallVoidMethod java "shutdown" [jdriver];
  finish xcall_abort.

Definition error (message : string) : Jm ExecCall unit :=
  _ ← enter;
  jmessage ← convert_string message;
  _ ← ExceptionClear;
  _ ← CallVoidMethod java "error" [jdriver; jmessage];
  finish xcall_abort.

Definition jni_executor (c : ExecCallback) : Jm ExecCall unit :=
  match c with
  | ex_registered executorInfo frameworkInfo slaveInfo =>
      registered executorInfo frameworkInfo slaveInfo
  | ex_reregistered slaveInfo => reregistered slaveInfo
  | ex_launchTask task => launchTask task
  | ex_killTask taskId => killTask taskId
  | ex_frameworkMessage data => frameworkMessage data
  | ex_shutdown => shutdown
  | ex_error message => error message
  end.
End Callbacks.

(** The pointers kept in [__executor] and [__driver]. *)
Record MesosExecutorDriver := mkJavaExecDriver { __executor : bool; __driver : bool }.

Section Natives.
Context `{JavaSide} `{JniExecProtobuf}.
Context (answer : list ExecCall → ExecCall → Z).

Definition initialize (thiz : MesosExecutorDriver) : Jm ExecCall MesosExecutorDriver :=
  _ ← add_weak 1; mret (mkJavaExecDriver true true).

Definition finalize (thiz : MesosExecutorDriver) : Jm ExecCall unit :=
  if __executor thiz then add_weak (-1) else crash.

Definition native_call (thiz : MesosExecutorDriver) (c : ExecCall) : Jm ExecCall jobject :=
  if __driver thiz then fun st =>
    let status := answer (jcalls st) c in
    (_ ← did [c]; convert_Status status) st
  else crash.

Definition native_start (thiz : MesosExecutorDriver) := native_call thiz xcall_start.
Definition native_stop (thiz : MesosExecutorDriver) := native_call thiz xcall_stop.
Definition native_abort (thiz : MesosExecutorDriver) := native_call thiz xcall_abort.

Definition native_sendStatusUpdate (thiz : MesosExecutorDriver) (jstatus : jobject)
    : Jm ExecCall jobject :=
  taskStatus ← construct_TaskStatus jx_parse_TaskStatus jstatus;
  native_call thiz (xcall_sendStatusUpdate taskStatus).

Definition native_sendFrameworkMessage (thiz : MesosExecutorDriver) (jdata : jobject)
    : Jm ExecCall jobject :=
  temp ← construct_bytes jdata;
  native_call thiz (xcall_sendFrameworkMessage temp).
End Natives.
