(* ===== verification/JniLoad.v ===== *)
(** * JniLoad: loading the library, and the other conversions (convert.cpp, construct.cpp)

    [JNI_OnLoad] remembers the class loader of the thread that loads the library,
    as a weak global reference, and marks the Java class as loaded; [JNI_OnUnLoad]
    gives the reference back.  [Library] is this state of the native library; the
    class lookups of Jni.v see its loader through [mesosClassLoader].

    Here are also the conversions that the bindings of the two drivers do not use:
    maps, [TaskState], [FrameworkID] and [ExecutorInfo].  Those of the v1 API are inside
    a comment in the source. *)

From S2P Require Import Prelude StoutStrings Jni.

(** ** The library *)

Record Library := mkLibrary { loader : bool; loaded : bool }.

(** The Java side with the loader that the library has. *)
Definition with_loader (side : JavaSide) (l : Library) : JavaSide := {|
  mesosClassLoader := loader l;
  FindClass := @FindClass side;
  loadClass := @loadClass side;
  parseFrom := @parseFrom side;
  toByteArray := @toByteArray side |}.

Definition JNI_ERR : Z := -1.
Definition JNI_VERSION_1_2 : Z := 65538.

Section load.
Context {Call : Type} (side : JavaSide).

(** [version_ok]: [GetEnv] succeeds; [contextClassLoader]: the loading thread has a
    class loader. *)
Definition JNI_OnLoad (version_ok contextClassLoader : bool) (l : Library)
    : Jm Call (Z * Library) :=
  if negb version_ok then mret (JNI_ERR, l)
  else
    l ← (if contextClassLoader then _ ← add_weak 1; mret (mkLibrary true (loaded l))
         else mret l);
    clazz ← FindMesosClass (H := with_loader side l) "org/apache/mesos/MesosNativeLibrary";
    _ ← static_method clazz;
    mret (JNI_VERSION_1_2, mkLibrary (loader l) true).

Definition JNI_OnUnLoad (version_ok : bool) (l : Library) : Jm Call Library :=
  if negb version_ok then mret l
  else if loader l then _ ← add_weak (-1); mret (mkLibrary false (loaded l)) else mret l.
End load.

(** ** Conversions *)

Section conversions.
Context {Call : Type} `{JavaSide}.

Definition convert_TaskState (state : Z) : Jm Call jobject :=
  clazz ← FindMesosClass "org/apache/mesos/Protos$TaskState";
  _ ← static_method clazz;
  mret (jint state).

Section Instances.
Context {T : Type} (parse : string → option T).
Definition construct_FrameworkID (o : jobject) : Jm Call T := construct_message parse o.
Definition construct_ExecutorInfo (o : jobject) : Jm Call T := construct_message parse o.
End Instances.

(** [construct<TaskState>]: the class has no static method [getNumber], so
    [GetStaticMethodID] throws and returns null, which [CallIntMethod] uses. *)
Definition construct_TaskState (o : jobject) : Jm Call Z :=
  if FindClass "org/apache/mesos/Protos$TaskState" then _ ← set_exception true; crash
  else crash.

(** [construct<map<string, string>>]: [entries] are what the iterator of the entry
    set returns. *)
Fixpoint construct_entries (entries : list (jobject * jobject)) (result : gmap string string)
    : Jm Call (gmap string string) :=
  match entries with
  | [] => mret result
  | (jkey, jvalue) :: entries' =>
      key ← construct_string jkey;
      value ← construct_string jvalue;
      construct_entries entries' (<[key := value]> result)
  end.
Definition construct_map (entries : list (jobject * jobject)) : Jm Call (gmap string string) :=
  construct_entries entries ∅.
End conversions.

(** ** Facts *)

Section facts.
Context {Call : Type} (side : JavaSide).

(** The references that loading takes are given back by unloading, and loading
    marks the class loaded exactly when it succeeds. *)
Theorem load_then_unload (c : bool) (st st1 : Jvm Call) (r : Z) (l : Library) :
  JNI_OnLoad side true c (mkLibrary false false) st = Ok ((r, l), st1) →
  r = JNI_VERSION_1_2 ∧ loaded l = true ∧ loader l = c ∧
  ∃ st2, JNI_OnUnLoad true l st1 = Ok (mkLibrary false true, st2) ∧ weak st2 = weak st.
Proof.
  unfold JNI_OnLoad, FindMesosClass, ExceptionCheck. intros Hl.
  unfold mbind, Jm_bind in Hl. destruct c; cbn in Hl; unfold mbind, Jm_bind in Hl; cbn in Hl;
    destruct (exception st); cbn in Hl; try done.
  - destruct (loadClass _); unfold mret, Jm_ret in Hl; cbn in Hl; simplify_eq. split_and!; [done..|].
    eexists. split; [reflexivity|]. cbn. lia.
  - destruct (FindClass _); unfold mret, Jm_ret in Hl; cbn in Hl; simplify_eq. split_and!; [done..|].
    eexists. split; [reflexivity|]. done.
Qed.

(** A Java map whose keys are distinct strings arrives as the same map. *)
Lemma construct_map_spec `{JavaSide} (entries : list (string * string)) (st : Jvm Call) :
  NoDup entries.*1 →
  construct_map ((λ p, (jstring p.1, jstring p.2)) <$> entries) st =
  Ok (list_to_map entries, st).
Proof.
  intros Hd. unfold construct_map.
  assert (Hgen : ∀ m : gmap string string, (∀ k, k ∈ entries.*1 → m !! k = None) →
    construct_entries ((λ p, (jstring p.1, jstring p.2)) <$> entries) m st =
    Ok (list_to_map entries ∪ m, st)).
  { induction entries as [|[k v] entries IH]; intros m Hm; cbn.
    - by rewrite (left_id_L ∅ (∪)).
    - apply NoDup_cons in Hd as [Hk Hd]. unfold mbind, Jm_bind. cbn.
      rewrite (IH Hd).
      + do 2 f_equal. rewrite <-insert_union_l, insert_union_r; [done|].
        by apply not_elem_of_list_to_map_1.
      + intros k' Hk'. rewrite lookup_insert_ne by (intros ->; done). apply Hm. by right. }
  rewrite Hgen by done. by rewrite (right_id_L ∅ (∪)).
Qed.
End facts.
