(* ===== verification/JniLaws.v ===== *)
(** * JniLaws: what the Java bindings guarantee

    A callback whose arguments convert runs the Java method once, turns an
    exception into an abort of the driver and leaves the thread as the VM asks;
    a native method that returns has made exactly one driver call.  A conversion
    that fails is not turned into an abort: the exception is dropped and Java
    gets null, or the process ends. *)

From S2P Require Import Prelude StoutStrings Broker Scheduler SchedulerDriver SchedulerLaws LinkedHashMap Executor Jni JniScheduler JniExecutor.
#[local] Open Scope string_scope.
#[local] Open Scope list_scope.
#[local] Open Scope Z_scope.

(** ** Conversions *)

Lemma jm_bind_Ok {Call A B : Type} (m : Jm Call A) (f : A → Jm Call B) (a : A)
    (st st' : Jvm Call) :
  m st = Ok (a, st') → (m ≫= f) st = f a st'.
Proof. intros Hm. unfold mbind, Jm_bind. by rewrite Hm. Qed.

Section Convert.
Context {Call : Type} `{JavaSide}.

Definition class_found (className : string) : bool :=
  if mesosClassLoader then loadClass (binary_name className) else FindClass className.

(** The object that a serialized message becomes. *)
Definition java_object (typeName data : string) : option jobject :=
  if class_found ("org/apache/mesos/Protos$" ++ typeName) then parseFrom typeName data
  else None.

Lemma convert_message_spec (typeName data : string) (o : jobject) (st : Jvm Call) :
  exception st = false → java_object typeName data = Some o →
  convert_message typeName data st = Ok (o, st).
Proof.
  intros He. unfold java_object, class_found. intros Ho.
  unfold convert_message, FindMesosClass, ExceptionCheck, mbind, Jm_bind. rewrite He.
  destruct (if mesosClassLoader then _ else _); [|done]. cbn. by rewrite Ho.
Qed.

(** A thread that leaves a callback: detached, unless Java is below it. *)
Definition left_thread (st : Jvm Call) (cs : list Call) : Jvm Call :=
  mkJvm (match frames st with O => false | S _ => true end) (frames st) false
    (pinned st) (weak st) (jcalls st ++ cs).

(** What a callback amounts to for the driver. *)
Definition java_effect (java : string → list jobject → list Call * bool) (name : string)
    (args : list jobject) (abort : Call) : list Call :=
  let '(cs, throws) := java name args in cs ++ if throws : bool then [abort] else [].

Lemma call_and_finish (java : string → list jobject → list Call * bool) name args abort
    (st : Jvm Call) :
  attached st = true →
  (_ ← ExceptionClear; _ ← CallVoidMethod java name args; finish abort) st =
  Ok (tt, left_thread st (java_effect java name args abort)).
Proof.
  destruct st as [a f e p w cs]. cbn. intros ->.
  unfold CallVoidMethod, java_effect, left_thread, finish, DetachCurrentThread, mbind, Jm_bind.
  cbn. destruct (java name args) as [cs' []]; cbn; destruct f; cbn;
    by rewrite ?app_nil_r, ?app_assoc.
Qed.
End Convert.

(** Run the conversions of a callback, in order; split its arguments. *)
Ltac convert_one :=
  match goal with
  | E : java_object ?t ?d = Some ?o |- _ =>
      erewrite jm_bind_Ok; [clear E|apply (convert_message_spec t d o); [reflexivity|exact E]]
  end.
Ltac option_args :=
  repeat match goal with
  | H : (_ ≫= _) = Some _ |- _ => apply bind_Some in H as (? & ? & H)
  | H : Some _ = Some _ |- _ => injection H as <-
  end.

Section SchedulerCallbacks.
Context `{JavaSide} `{JniProtobuf}.
Context (java : string → list jobject → list DriverCall * bool) (jdriver : jobject).

(** The Java name of a callback, and its arguments when all of them convert. *)
Definition java_name (c : Callback) : string :=
  match c with
  | cb_registered _ _ => "registered"
  | cb_reregistered _ => "reregistered"
  | cb_resourceOffers _ => "resourceOffers"
  | cb_offerRescinded _ => "offerRescinded"
  | cb_statusUpdate _ => "statusUpdate"
  | cb_slaveLost _ => "slaveLost"
  | cb_frameworkMessage _ _ _ => "frameworkMessage"
  | cb_error _ => "error"
  end.

Definition text_object (typeName v : string) : option jobject :=
  java_object typeName (j_ser typeName v).

Definition java_args (c : Callback) : option (list jobject) :=
  match c with
  | cb_registered fid info =>
      f ← text_object "FrameworkID" fid; m ← text_object "MasterInfo" info; Some [f; m]
  | cb_reregistered info => m ← text_object "MasterInfo" info; Some [m]
  | cb_resourceOffers offers =>
      items ← mapM (fun o => java_object "Offer" (j_ser_Offer o)) offers;
      Some [jlist items false]
  | cb_offerRescinded oid => o ← text_object "OfferID" oid; Some [o]
  | cb_statusUpdate st => s ← java_object "TaskStatus" (j_ser_TaskStatus st); Some [s]
  | cb_slaveLost sid => s ← text_object "SlaveID" sid; Some [s]
  | cb_frameworkMessage eid sid data =>
      e ← text_object "ExecutorID" eid; s ← text_object "SlaveID" sid;
      Some [e; s; jbytes data]
  | cb_error message => Some [jstring (until_nul message)]
  end.

Lemma convert_offers_spec (offers : list Offer) (items : list jobject) (st : Jvm DriverCall) :
  exception st = false →
  mapM (fun o => java_object "Offer" (j_ser_Offer o)) offers = Some items →
  convert_offers offers st = Ok (items, st).
Proof using.
  intros He. revert items. induction offers as [|o offers IH]; intros items; cbn.
  { by intros [= <-]. }
  destruct (java_object "Offer" _) as [j|] eqn:Ej; [|done].
  destruct (mapM _ offers) as [js|] eqn:Em; [|done]. intros [= <-].
  unfold mbind, Jm_bind. unfold convert_Offer. rewrite (convert_message_spec _ _ j) by done.
  by rewrite (IH js).
Qed.

Lemma jni_scheduler_spec (c : Callback) (args : list jobject) (st : Jvm DriverCall) :
  exception st = false → jdriver ≠ jnull → java_args c = Some args →
  jni_scheduler java jdriver c st =
  Ok (tt, left_thread st (java_effect java (java_name c) (jdriver :: args) call_abort)).
Proof using.
  destruct st as [a f e p w cs]. cbn [exception]. intros -> Hd Ha.
  assert (Henter : JniScheduler.enter jdriver (mkJvm a f false p w cs) =
                   Ok (tt, mkJvm true f false p w cs)) by (by destruct jdriver).
  assert (Hcall : ∀ name args,
    (_ ← ExceptionClear; _ ← CallVoidMethod java name args; finish call_abort)
      (mkJvm true f false p w cs) =
    Ok (tt, left_thread (mkJvm a f false p w cs) (java_effect java name args call_abort))).
  { intros. by rewrite call_and_finish. }
  destruct c; cbn [jni_scheduler java_name java_args] in *; unfold text_object in Ha;
    option_args;
    unfold JniScheduler.registered, JniScheduler.reregistered, resourceOffers, offerRescinded,
      statusUpdate, slaveLost, JniScheduler.frameworkMessage, JniScheduler.error;
    (erewrite jm_bind_Ok; [|exact Henter]).
  3: { erewrite jm_bind_Ok; [apply Hcall|by apply convert_offers_spec]. }
  all: repeat convert_one; apply Hcall.
Qed.
End SchedulerCallbacks.

Section ExecutorCallbacks.
Context `{JavaSide} `{JniExecProtobuf}.
Context (java : string → list jobject → list ExecCall * bool) (jdriver : jobject).

Definition java_exec_name (c : ExecCallback) : string :=
  match c with
  | ex_registered _ _ _ => "registered"
  | ex_reregistered _ => "reregistered"
  | ex_launchTask _ => "launchTask"
  | ex_killTask _ => "killTask"
  | ex_frameworkMessage _ => "frameworkMessage"
  | ex_shutdown => "shutdown"
  | ex_error _ => "error"
  end.

Definition exec_text_object (typeName v : string) : option jobject :=
  java_object typeName (jx_ser typeName v).

Definition java_exec_args (c : ExecCallback) : option (list jobject) :=
  match c with
  | ex_registered e f s =>
      e ← exec_text_object "ExecutorInfo" e; f ← exec_text_object "FrameworkInfo" f;
      s ← exec_text_object "SlaveInfo" s; Some [e; f; s]
  | ex_reregistered s => s ← exec_text_object "SlaveInfo" s; Some [s]
  | ex_launchTask t => t ← java_object "TaskInfo" (jx_ser_TaskInfo t); Some [t]
  | ex_killTask t => t ← exec_text_object "TaskID" t; Some [t]
  | ex_frameworkMessage data => Some [jbytes data]
  | ex_shutdown => Some []
  | ex_error message => Some [jstring (until_nul message)]
  end.

Lemma jni_executor_spec (c : ExecCallback) (args : list jobject) (st : Jvm ExecCall) :
  exception st = false → jdriver ≠ jnull → java_exec_args c = Some args →
  jni_executor java jdriver c st =
  Ok (tt, left_thread st (java_effect java (java_exec_name c) (jdriver :: args) xcall_abort)).
Proof using.
  destruct st as [a f e p w cs]. cbn [exception]. intros -> Hd Ha.
  assert (Henter : JniExecutor.enter jdriver (mkJvm a f false p w cs) =
                   Ok (tt, mkJvm true f false p w cs)) by (by destruct jdriver).
  assert (Hcall : ∀ name args,
    (_ ← ExceptionClear; _ ← CallVoidMethod java name args; finish xcall_abort)
      (mkJvm true f false p w cs) =
    Ok (tt, left_thread (mkJvm a f false p w cs) (java_effect java name args xcall_abort))).
  { intros. by rewrite call_and_finish. }
  destruct c; cbn [jni_executor java_exec_name java_exec_args] in *;
    unfold exec_text_object in Ha; option_args;
    unfold JniExecutor.registered, JniExecutor.reregistered, JniExecutor.launchTask,
      JniExecutor.killTask, JniExecutor.frameworkMessage, JniExecutor.shutdown,
      JniExecutor.error;
    (erewrite jm_bind_Ok; [|exact Henter]); repeat convert_one; apply Hcall.
Qed.
End ExecutorCallbacks.

(** C36: A callback into Java whose arguments convert, for the scheduler and for
    the executor: the Java method is called once, an exception that it throws is
    cleared and followed by one [abort] of the driver, nothing else is done to the
    driver, no byte array stays pinned, and the thread is left detached unless
    there are Java frames below the callback, in which case it stays attached. *)
Theorem java_callbacks_tidy `{JavaSide} `{JniProtobuf} `{JniExecProtobuf}
    (java : string → list jobject → list DriverCall * bool)
    (xjava : string → list jobject → list ExecCall * bool)
    (jdriver : jobject) (c : Callback) (x : ExecCallback) (args xargs : list jobject)
    (st : Jvm DriverCall) (xst : Jvm ExecCall) :
  exception st = false → exception xst = false → jdriver ≠ jnull →
  java_args c = Some args → java_exec_args x = Some xargs →
  jni_scheduler java jdriver c st =
    Ok (tt, left_thread st (java_effect java (java_name c) (jdriver :: args) call_abort)) ∧
  jni_executor xjava jdriver x xst =
    Ok (tt, left_thread xst (java_effect xjava (java_exec_name x) (jdriver :: xargs) xcall_abort)).
Proof. intros. split; [by apply jni_scheduler_spec|by apply jni_executor_spec]. Qed.

(** ** Native methods *)

(** If it returns: one driver call, its status, and the VM as it was, without an
    exception.  A native method that is entered or comes to the conversion of the
    status with an exception pending ends the process. *)
Definition calls_once {Call : Type} (answer : list Call → Call → Z) (m : Jm Call jobject)
    : Prop :=
  ∀ st, match m st with
    | Ok (r, st') => exception st = false ∧ ∃ c, r = jint (answer (jcalls st) c) ∧
        st' = mkJvm (attached st) (frames st) false (pinned st) (weak st) (jcalls st ++ [c])
    | Err _ => False
    | Fatal => True
    end.

(** Reading an argument changes nothing but may leave an exception. *)
Definition with_exception {Call : Type} (e : bool) (st : Jvm Call) : Jvm Call :=
  mkJvm (attached st) (frames st) (exception st || e) (pinned st) (weak st) (jcalls st).
Definition reads {Call T : Type} (m : Jm Call T) : Prop :=
  ∀ st, match m st with
    | Ok (_, st') => ∃ e, st' = with_exception e st
    | Err _ => False
    | Fatal => True
    end.

Section Reads.
Context {Call : Type} `{JavaSide}.

Lemma with_exception_false (st : Jvm Call) : with_exception false st = st.
Proof. destruct st. unfold with_exception. cbn. by rewrite orb_false_r. Qed.

Lemma ret_reads {T : Type} (t : T) : reads (Call := Call) (mret t).
Proof. intros st. exists false. by rewrite with_exception_false. Qed.

Lemma reads_bind {A B : Type} (m : Jm Call A) (g : A → Jm Call B) :
  reads m → (∀ a, reads (g a)) → reads (m ≫= g).
Proof.
  intros Hm Hg st. unfold mbind, Jm_bind. specialize (Hm st).
  destruct (m st) as [[a st']|e|]; [|done|done]. destruct Hm as (e & ->).
  specialize (Hg a (with_exception e st)). destruct (g a _) as [[b st'']|e'|]; [|done|done].
  destruct Hg as (e' & ->). exists (e || e'). unfold with_exception. cbn.
  by rewrite orb_assoc.
Qed.

Lemma construct_reads {T : Type} (parse : string → option T) (o : jobject) :
  reads (Call := Call) (construct_message parse o).
Proof.
  intros st. unfold construct_message, mbind, Jm_bind.
  destruct o; try done; destruct (toByteArray _) as [b|]; try done; cbn;
    destruct (parse b); cbn; try done; exists false; destruct st; unfold with_exception; cbn;
    rewrite orb_false_r; do 2 f_equal; lia.
Qed.

Lemma bytes_reads (o : jobject) : reads (Call := Call) (construct_bytes o).
Proof.
  intros st. unfold construct_bytes, mbind, Jm_bind. destruct o; try done. cbn.
  exists false. destruct st. unfold with_exception. cbn. rewrite orb_false_r. f_equal. lia.
Qed.

Lemma items_reads {T : Type} (construct : jobject → Jm Call T) (items : list jobject) :
  (∀ o, reads (construct o)) → reads (construct_items construct items).
Proof.
  intros Hc. induction items as [|o items IH]; cbn [construct_items]; [apply ret_reads|].
  apply reads_bind; [apply Hc|]. intros t. apply reads_bind; [done|]. intros ts. apply ret_reads.
Qed.

Lemma collection_reads {T : Type} (construct : jobject → Jm Call T) (o : jobject) :
  (∀ o', reads (construct o')) → reads (construct_collection construct o).
Proof.
  intros Hc. destruct o; try done. cbn [construct_collection].
  apply reads_bind; [by apply items_reads|]. intros ts. apply reads_bind; [|intros _; apply ret_reads].
  destruct fails; [|apply ret_reads]. intros st. exists true. unfold with_exception.
  by rewrite orb_true_r.
Qed.

Lemma calls_after_reads {T : Type} (answer : list Call → Call → Z) (m : Jm Call T)
    (g : T → Jm Call jobject) :
  reads m → (∀ t, calls_once answer (g t)) → calls_once answer (m ≫= g).
Proof.
  intros Hm Hg st. unfold mbind, Jm_bind. specialize (Hm st).
  destruct (m st) as [[t st']|e|]; [|done|done]. destruct Hm as (e & ->).
  specialize (Hg t (with_exception e st)). destruct (g t _) as [[r st'']|e'|]; [|done|done].
  cbn in Hg. destruct Hg as [[He _]%orb_false_iff Hg]. done.
Qed.

(** The driver call and the conversion of its status. *)
Lemma driver_call_once (answer : list Call → Call → Z) (c : Call) :
  calls_once answer (fun st =>
    let status := answer (jcalls st) c in (_ ← did [c]; convert_Status status) st).
Proof.
  intros st. unfold convert_Status, FindMesosClass, ExceptionCheck, mbind, Jm_bind. cbn.
  destruct (exception st) eqn:He; [done|].
  destruct (if mesosClassLoader then _ else _); cbn; [|done]. split; [done|]. by exists c.
Qed.
End Reads.

Create HintDb jni.
#[export] Hint Resolve construct_reads bytes_reads collection_reads : jni.

Section Natives.
Context `{JavaSide} `{JniProtobuf} `{JniExecProtobuf}.
Context (answer : list DriverCall → DriverCall → Z) (xanswer : list ExecCall → ExecCall → Z).

Lemma native_call_once (thiz : MesosSchedulerDriver) (c : DriverCall) :
  calls_once answer (JniScheduler.native_call answer thiz c).
Proof using.
  unfold JniScheduler.native_call. destruct (JniScheduler.__driver thiz); [|done].
  apply driver_call_once.
Qed.

Lemma exec_native_call_once (thiz : MesosExecutorDriver) (c : ExecCall) :
  calls_once xanswer (JniExecutor.native_call xanswer thiz c).
Proof using.
  unfold JniExecutor.native_call. destruct (JniExecutor.__driver thiz); [|done].
  apply driver_call_once.
Qed.

(** The native methods of the two Java classes, with their arguments. *)
Inductive native : Jm DriverCall jobject → Prop :=
  | n_start thiz : native (JniScheduler.native_start answer thiz)
  | n_stop thiz failover : native (JniScheduler.native_stop answer thiz failover)
  | n_abort thiz : native (JniScheduler.native_abort answer thiz)
  | n_acknowledge thiz o : native (native_acknowledgeStatusUpdate answer thiz o)
  | n_message thiz e s d : native (JniScheduler.native_sendFrameworkMessage answer thiz e s d)
  | n_kill thiz o : native (native_killTask answer thiz o)
  | n_launch_offer thiz o t f : native (native_launchTasks_offer answer thiz o t f)
  | n_launch thiz o t f : native (native_launchTasks answer thiz o t f)
  | n_accept thiz o t f : native (native_acceptOffers answer thiz o t f)
  | n_decline thiz o f : native (native_declineOffer answer thiz o f)
  | n_revive thiz : native (native_reviveOffers answer thiz)
  | n_suppress thiz : native (native_suppressOffers answer thiz)
  | n_request thiz o : native (native_requestResources answer thiz o)
  | n_reconcile thiz o : native (native_reconcileTasks answer thiz o).
Inductive exec_native : Jm ExecCall jobject → Prop :=
  | xn_start thiz : exec_native (JniExecutor.native_start xanswer thiz)
  | xn_stop thiz : exec_native (JniExecutor.native_stop xanswer thiz)
  | xn_abort thiz : exec_native (JniExecutor.native_abort xanswer thiz)
  | xn_status thiz o : exec_native (native_sendStatusUpdate xanswer thiz o)
  | xn_message thiz o : exec_native (JniExecutor.native_sendFrameworkMessage xanswer thiz o).

Ltac native_body :=
  repeat (apply calls_after_reads; [by eauto with jni|intros ?]);
  apply native_call_once || apply exec_native_call_once.

(** A native method of the Java drivers that returns, whatever its arguments,
    has made exactly one driver call and returns the status that the driver
    answered; no byte array stays pinned, no exception is pending and the thread
    is attached as before.  It never returns after an exception of the Java side. *)
Theorem java_natives_call_once (m : Jm DriverCall jobject) (x : Jm ExecCall jobject) :
  native m → exec_native x → calls_once answer m ∧ calls_once xanswer x.
Proof using.
  intros Hm Hx. split.
  - destruct Hm; native_body.
  - destruct Hx; native_body.
Qed.
End Natives.

(** ** A Java framework *)

(** A Java framework that throws an exception in a callback, [error] included
    and at any depth of nesting, is not running any more when the callback is
    over: a driver that was running is aborted. *)
Theorem java_exception_stops_driver `{Os} `{JavaSide} `{JniProtobuf} (jdriver : jobject)
    (behaviour : list Callback → string → list jobject → list DriverCall * bool)
    (depth : nat) (c : Callback) (args : list jobject) (w w' : World) :
  jdriver ≠ jnull → java_args c = Some args →
  (behaviour (Scheduler.notified w ++ [c]) (java_name c) (jdriver :: args)).2 = true →
  @callback _ (java_application jdriver behaviour) depth c w = Ok w' →
  Scheduler.status w' ≠ DRIVER_RUNNING.
Proof.
  intros Hd Ha Ht.
  assert (Hreact : ∃ cs, @react (java_application jdriver behaviour)
            (Scheduler.notified w ++ [c]) = cs ++ [call_abort]).
  { unfold react, java_application. rewrite last_snoc.
    rewrite (jni_scheduler_spec _ _ _ args) by done. cbn [jcalls left_thread native_thread app].
    unfold java_effect. destruct (behaviour _ _ _) as [cs throws]. cbn in Ht. subst.
    by exists cs. }
  destruct Hreact as (cs & Hreact). by eapply callback_aborts.
Qed.

(** A conversion that fails is not reported to the driver.  With one argument, the
    exception is dropped and the Java method is called with null; with two, the
    second conversion finds the exception and ends the process. *)
Lemma failed_conversion_passes_null `{JavaSide} `{JniProtobuf}
    (java : string → list jobject → list DriverCall * bool) (jdriver : jobject) (oid : string) :
  jdriver ≠ jnull → class_found "org/apache/mesos/Protos$OfferID" = true →
  parseFrom "OfferID" (j_ser "OfferID" oid) = None →
  jni_scheduler java jdriver (cb_offerRescinded oid) native_thread =
  Ok (tt, left_thread native_thread
            (java_effect java "offerRescinded" [jdriver; jnull] call_abort)).
Proof.
  intros Hd Hc Hp. cbn [jni_scheduler]. unfold offerRescinded, convert_OfferID, convert_message.
  unfold class_found in Hc.
  erewrite jm_bind_Ok; [|unfold JniScheduler.enter; by destruct jdriver].
  erewrite jm_bind_Ok.
  2:{ unfold FindMesosClass, mbind, Jm_bind. cbn. cbn in Hc. rewrite Hc. cbn. by rewrite Hp. }
  by rewrite call_and_finish.
Qed.

(** ** A session *)
Module JniSession.

#[local] Instance java_side : JavaSide := {|
  mesosClassLoader := true;
  FindClass _ := false;
  loadClass name := String.prefix "org.apache.mesos.Protos$" name;
  parseFrom t b := Some (jmessage t b);
  toByteArray o := match o with jmessage _ b => Some b | _ => None end |}.
#[local] Instance j_protobuf : JniProtobuf := {|
  j_ser _ v := v;
  j_ser_Offer o := of_id o;
  j_ser_TaskStatus s := ts_task_id s;
  j_parse _ b := Some b;
  j_parse_FrameworkInfo b := Some (mkFrameworkInfo b b None "");
  j_parse_TaskInfo b := Some (mkTaskInfo b b "agent" None None None "");
  j_parse_TaskStatus b := Some (mkTaskStatus b TASK_RUNNING None None None None);
  j_parse_Operation _ := None |}.
#[local] Instance jx_protobuf : JniExecProtobuf := {|
  jx_ser _ v := v;
  jx_ser_TaskInfo t := ti_task_id t;
  jx_parse_TaskStatus b := Some (mkTaskStatus b TASK_RUNNING None None None None) |}.
#[local] Instance os : Os := {|
  uuid_generate _ := "u"; after_uuid _ := ""; time0 _ := 0; os_user := Some "bob"; job_submit_options_env := None |}.

(** Declines the first offer; throws when an agent is lost. *)
Definition scheduler (history : list Callback) (name : string) (args : list jobject)
    : list DriverCall * bool :=
  match name, args with
  | "resourceOffers", [_; jlist (jmessage _ id :: _) _] => ([call_declineOffer id ""], false)
  | "slaveLost", _ => ([], true)
  | _, _ => ([], false)
  end.
Definition executor (name : string) (args : list jobject) : list ExecCall * bool :=
  ([xcall_sendFrameworkMessage name], true).
Definition this : jobject := jinstance "driver".

Definition answer0 (cs : list DriverCall) (c : DriverCall) : Z := 2.
Definition xanswer0 (cs : list ExecCall) (c : ExecCall) : Z := 2.
Definition java_driver : MesosSchedulerDriver :=
  mkJavaDriver jnull jnull NoSuchField NoSuchField true
    (Some (JniScheduler.mkDriverConfig (mkFrameworkInfo "u" "n" None "") "m" true None)).

(** One callback on a thread of the driver, one below a Java frame. *)
Lemma java_callbacks_tidy_witness :
  jni_scheduler (scheduler []) this (cb_resourceOffers [mkOffer "o1" "a" ""; mkOffer "o2" "a" ""])
    native_thread = Ok (tt, mkJvm false 0 false 0 0 [call_declineOffer "o1" ""]) ∧
  jni_executor executor this ex_shutdown (mkJvm true 1 false 0 0 []) =
    Ok (tt, mkJvm true 1 false 0 0 [xcall_sendFrameworkMessage "shutdown"; xcall_abort]).
Proof.
  exact (java_callbacks_tidy (scheduler []) executor this
    (cb_resourceOffers [mkOffer "o1" "a" ""; mkOffer "o2" "a" ""]) ex_shutdown
    [jlist [jmessage "Offer" "o1"; jmessage "Offer" "o2"] false] []
    native_thread (mkJvm true 1 false 0 0 []) eq_refl eq_refl
    ltac:(discriminate) eq_refl eq_refl).
Defined.

Lemma java_natives_call_once_witness :
  native_killTask answer0 java_driver (jmessage "TaskID" "t") native_thread =
    Ok (jint 2, mkJvm false 0 false 0 0 [call_killTask "t"]) ∧
  calls_once answer0 (native_killTask answer0 java_driver (jmessage "TaskID" "t")) ∧
  calls_once xanswer0 (JniExecutor.native_stop xanswer0 (mkJavaExecDriver true true)).
Proof.
  split; [reflexivity|].
  apply (java_natives_call_once answer0 xanswer0); constructor.
Defined.

Definition running : World :=
  mkWorld (mkFrameworkInfo "u" "n" None "") "urb://h" true DRIVER_RUNNING false None
    (mkFrameworkInfo "u" "n" None "") false "urb://h" false false ∅ ∅ new_broker [] 0 [].

Lemma java_exception_stops_driver_witness :
  match @callback os (java_application this scheduler) 3 (cb_slaveLost "a") running with
  | Ok w' => Scheduler.status w' ≠ DRIVER_RUNNING
  | _ => False
  end.
Proof.
  destruct (@callback os (java_application this scheduler) 3 (cb_slaveLost "a") running)
    as [w'|e|] eqn:E; [|vm_compute in E; discriminate..].
  apply (java_exception_stops_driver this scheduler 3 (cb_slaveLost "a")
    [jmessage "SlaveID" "a"] running w'); [discriminate|reflexivity|reflexivity|exact E].
Defined.

(** The constructor arguments reach the C++ driver. *)
Example initialize_reads_fields :
  match JniScheduler.initialize (mkJavaDriver (jmessage "FrameworkInfo" "f") (jstring "urb://h")
                      NoSuchField (HasField jnull) false None) native_thread with
  | Ok (thiz, st) =>
      JniScheduler.__driver thiz =
        Some (JniScheduler.mkDriverConfig (mkFrameworkInfo "f" "f" None "") "urb://h" true None) ∧
      weak st = 1
  | _ => False
  end.
Proof. by split. Qed.

(** After the driver object was collected, a callback ends the process. *)
Example callback_after_collection :
  jni_scheduler (scheduler []) jnull (cb_slaveLost "a") native_thread = Fatal.
Proof. reflexivity. Qed.
End JniSession.
