(* ===== verification/PythonModule.v ===== *)
(** * PythonModule: the extension modules and their types (module.cpp)

    Each of the two Python modules ([_scheduler], [_executor]) defines one type, the
    driver object, and exports it when it is initialised.  Everything that Python can
    do with an object of the type goes through the slots of its type object:
    [PyTypeObject] has the ones that the tables fill.  [Session] is what the interpreter
    does with one object: after [tp_new] any sequence of initialisations, method calls
    and passes of the cyclic collector, in the end [tp_dealloc].

    [TypeLaws] is the contract of the slots on references, the lock and waiting; both
    tables satisfy it, and the theorem on sessions is proved from it. *)

From S2P Require Import Prelude Scheduler Executor SchedulerDriver Python PythonScheduler PythonExecutor PythonLaws.
#[local] Open Scope Z_scope.

(** ** Type objects *)

Section types.
Context {Call Self : Type}.

Record PyTypeObject := mkPyTypeObject {
  tp_name : string;
  have_gc : bool;
  tp_new : Self;
  tp_init : Self → list PyObject → Waits Call (Z * Self);
  tp_methods : string → Self → option (list PyObject → Waits Call (option PyObject));
  tp_traverse : Self → list PyObject;
  tp_clear : Self → PyM Call Self;
  tp_dealloc : Self → Waits Call Self }.

(** What the interpreter does with an object: [self.__init__(args)], [self.name(args)],
    and [tp_clear] by the cyclic collector.  The caller drops what a method returns,
    and handles an exception before it does anything else with the object. *)
Inductive Use :=
  | use_init (args : list PyObject)
  | use_call (name : string) (args : list PyObject)
  | use_collect.

Definition use (T : PyTypeObject) (u : Use) (self : Self) : Waits Call Self :=
  match u with
  | use_init args => r ← tp_init T self args; mret r.2
  | use_call name args =>
      match tp_methods T name self with
      | Some m => res ← m args; _ ← does (Py_XDECREF res); mret self
      | None => _ ← does (PyErr_Format "AttributeError"); mret self
      end
  | use_collect => if have_gc T then does (tp_clear T self) else mret self
  end.

Fixpoint uses (T : PyTypeObject) (us : list Use) (self : Self) : Waits Call Self :=
  match us with
  | [] => mret self
  | u :: us' => self ← use T u self; _ ← does (set_err None); uses T us' self
  end.

(** The life of one object. *)
Definition session (T : PyTypeObject) (us : list Use) : Waits Call Self :=
  self ← uses T us (tp_new T); tp_dealloc T self.

(** How often the object is initialised. *)
Definition inits (us : list Use) : nat :=
  length (List.filter (λ u, match u with use_init _ => true | _ => false end) us).

(** ** The contract of the slots *)

(** The references an object owns are those the collector visits. *)
Definition owned (T : PyTypeObject) (self : Self) : Z := Z.of_nat (length (tp_traverse T self)).

(** [m], called with the lock, changes the references by what the object owns more or
    less after it, and has the lock again when it returns.  [always] says when it does
    return. *)
Definition accounts {A : Type} (T : PyTypeObject) (self : Self) (m : Waits Call A)
    (object : A → Self) (always : Prop) : Prop :=
  ∀ st, err st = None → gil st = 1 →
    match m st with
    | Some (a, st') => refs st' = refs st + owned T (object a) - owned T self ∧ gil st' = 1
    | None => ¬ always
    end.

Context `{!DriverWaits Call}.

(** The waits for the driver end, as long as the waiting thread does not have the lock. *)
Definition waits_end : Prop :=
  (∀ cs, is_Some (joins false cs)) ∧ (∀ cs, is_Some (deletes false cs)).

(** [wraps] tells whether the object has a driver. *)
Class TypeLaws (T : PyTypeObject) (wraps : Self → bool) : Prop := {
  collected : have_gc T = true;
  new_owns_nothing : tp_traverse T (tp_new T) = [];
  new_wraps_nothing : wraps (tp_new T) = false;
  init_accounts : ∀ self args, accounts T self (tp_init T self args) snd (wraps self = false);
  clear_accounts : ∀ self, accounts T self (does (tp_clear T self)) id True;
  clear_wraps : ∀ self st, wraps (tp_clear T self st).1 = wraps self;
  dealloc_accounts : ∀ self, accounts T self (tp_dealloc T self) id waits_end;
  dealloc_releases : ∀ self st self' st',
    tp_dealloc T self st = Some (self', st') → tp_traverse T self' = [];
  methods_return : ∀ name self m args st, tp_methods T name self = Some m →
    err st = None → gil st = 1 →
    match m args st with
    | Some (res, st') => refs st' = refs st + (if has res then 1 else 0) ∧ gil st' = 1
    | None => ¬ waits_end
    end }.

Section laws.
Context (T : PyTypeObject) (wraps : Self → bool) `{!TypeLaws T wraps}.

Lemma use_accounts u self :
  accounts T self (use T u self) id
    (waits_end ∧ (wraps self = false ∨ inits [u] = 0%nat)).
Proof.
  intros st Hs Hl. unfold id. destruct u as [args|name args|]; cbn [use].
  - pose proof (init_accounts self args st Hs Hl) as Hi.
    unfold mbind, Waits_bind. destruct (tp_init T self args st) as [[[z self'] st']|]; [done|].
    intros [_ [Hw|Hw]]; [by apply Hi|done].
  - destruct (tp_methods T name self) as [m|] eqn:Em;
      [|unfold mbind, Waits_bind; cbn; split; [lia|done]].
    pose proof (methods_return name self m args st Em Hs Hl) as Hm.
    unfold mbind, Waits_bind. destruct (m args st) as [[res st']|]; [|by intros [? _]].
    destruct Hm as [Hr Hg]. destruct res; cbn in Hr |- *; split; (done || lia).
  - rewrite collected. pose proof (clear_accounts self st Hs Hl) as Hc. cbn in Hc |- *.
    by destruct (tp_clear T self st).
Qed.

(** A use other than an initialisation leaves the driver where it is. *)
Lemma use_wraps u self st self' st' :
  use T u self st = Some (self', st') → inits [u] = 0%nat → wraps self' = wraps self.
Proof.
  destruct u as [args|name args|]; cbn [use]; [done| |].
  - destruct (tp_methods T name self) as [m|].
    + unfold mbind, Waits_bind. destruct (m args st) as [[res st1]|]; [|done].
      by destruct res; intros [= <- _] _.
    + by intros [= <- _] _.
  - rewrite collected. unfold does. intros E _. pose proof (clear_wraps self st) as Hw.
    destruct (tp_clear T self st) as [self1 st1]. by simplify_eq.
Qed.

Lemma inits_cons u us : inits (u :: us) = (inits [u] + inits us)%nat.
Proof. unfold inits. cbn. by destruct u. Qed.

Lemma uses_accounts us self :
  accounts T self (uses T us self) id
    (waits_end ∧ (inits us ≤ if wraps self then 0 else 1)%nat).
Proof.
  revert self. induction us as [|u us IH]; intros self st Hs Hl; cbn [uses]; unfold id.
  - cbn. split; [lia|done].
  - pose proof (use_accounts u self st Hs Hl) as Hu. pose proof (use_wraps u self st) as Hw.
    unfold mbind, Waits_bind. rewrite inits_cons.
    destruct (use T u self st) as [[self' st']|].
    + destruct Hu as [Hr Hg]. cbn [does set_err fst snd].
      pose proof (IH self' (mkPy (refs st') None (gil st') (calls st')) eq_refl Hg) as Hn.
      destruct (uses T us self' _) as [[self2 st2]|]; unfold id in *.
      * destruct Hn as [Hr' Hg']. cbn in Hr'. split; [rewrite Hr', Hr; lia|done].
      * intros [He Hi]. apply Hn. split; [done|]. specialize (Hw _ _ eq_refl).
        destruct u; cbn in Hi, Hw; destruct (wraps self), (wraps self'); lia || by rewrite Hw in *.
    + intros [He Hi]. apply Hu. split; [done|].
      destruct (wraps self); [right; lia|by left].
Qed.

Lemma uses_err us self st self' st' :
  err st = None → uses T us self st = Some (self', st') → err st' = None.
Proof using.
  revert self st. induction us as [|u us IH]; intros self st Hs; cbn [uses].
  - by intros [= _ <-].
  - unfold mbind, Waits_bind. destruct (use T u self st) as [[self1 st1]|]; [|done].
    by apply IH.
Qed.

(** A whole life leaves the references and the lock as they were, and comes to its
    end when the waits do and the object is initialised once. *)
Lemma session_balanced us st :
  err st = None → gil st = 1 →
  match session T us st with
  | Some (_, st') => refs st' = refs st ∧ gil st' = 1
  | None => ¬ (waits_end ∧ (inits us ≤ 1)%nat)
  end.
Proof.
  intros Hs Hl. pose proof (uses_accounts us (tp_new T) st Hs Hl) as Hu.
  pose proof (uses_err us (tp_new T) st) as He. rewrite new_wraps_nothing in Hu.
  unfold session, mbind, Waits_bind.
  destruct (uses T us (tp_new T) st) as [[self st']|]; [|done]. destruct Hu as [Hr Hg].
  pose proof (dealloc_accounts self st' (He _ _ Hs eq_refl) Hg) as Hd.
  pose proof (dealloc_releases self st') as Hrel.
  destruct (tp_dealloc T self st') as [[self2 st2]|]; [|by intros [? _]].
  destruct Hd as [Hr' Hg']. split; [|done]. rewrite Hr', Hr. unfold owned, id.
  rewrite new_owns_nothing, (Hrel _ _ eq_refl). cbn. lia.
Qed.
End laws.
End types.
Arguments PyTypeObject : clear implicits.

(** ** The two types *)

Definition MesosSchedulerDriverImplType `{Interpreter} `{SchedulerProtobuf} `{!DriverWaits DriverCall}
    (answer : list DriverCall → DriverCall → Z)
    : PyTypeObject DriverCall MesosSchedulerDriverImpl :=
  mkPyTypeObject "_mesos.MesosSchedulerDriverImpl" true
    MesosSchedulerDriverImpl_new MesosSchedulerDriverImpl_init
    (MesosSchedulerDriverImpl_methods answer) MesosSchedulerDriverImpl_traverse
    MesosSchedulerDriverImpl_clear MesosSchedulerDriverImpl_dealloc.

Definition MesosExecutorDriverImplType `{Interpreter} `{ExecutorProtobuf} `{!DriverWaits ExecCall}
    (answer : list ExecCall → ExecCall → Z)
    : PyTypeObject ExecCall MesosExecutorDriverImpl :=
  mkPyTypeObject "_mesos.MesosExecutorDriverImpl" true
    MesosExecutorDriverImpl_new MesosExecutorDriverImpl_init
    (MesosExecutorDriverImpl_methods answer) MesosExecutorDriverImpl_traverse
    MesosExecutorDriverImpl_clear MesosExecutorDriverImpl_dealloc.

(** ** Initialisation of a module *)

(** Whether mesos_pb2 can be imported, the type made ready and the module created. *)
Class Importer := {
  imports_pb2 : bool;
  PyType_Ready_ok : bool;
  Py_InitModule_ok : bool }.

(** The globals of the library and the attributes of the new module. *)
Record Module := mkModule {
  threads_enabled : bool;
  mesos_pb2 : bool;
  attributes : list string }.
Definition no_module : Module := mkModule false false [].

(** [init_scheduler] and [init_executor] for the class [name].  [PyModule_AddObject]
    takes over the reference that [Py_INCREF] made, and reads through a null module. *)
Definition init_module `{Importer} {Call : Type} (name : string) (st : Py Call)
    : outcome (Module * Py Call) :=
  if imports_pb2 then
    let st := (add_refs 1 st).2 in
    if PyType_Ready_ok then
      if Py_InitModule_ok then Ok (mkModule true true [name], st) else Fatal
    else Ok (mkModule true true [], (set_err (Some "exception") st).2)
  else Ok (mkModule true false [], (set_err (Some "exception") st).2).

Definition init_scheduler `{Importer} := init_module (Call := DriverCall) "MesosSchedulerDriverImpl".
Definition init_executor `{Importer} := init_module (Call := ExecCall) "MesosExecutorDriverImpl".

(** The module has its class exactly when no exception is pending, and then
    mesos_pb2, which the conversions use, is there. *)
Lemma init_module_spec `{Importer} {Call : Type} name (st st' : Py Call) m :
  err st = None → init_module name st = Ok (m, st') →
  (attributes m = [name] ↔ err st' = None) ∧ (attributes m = [name] → mesos_pb2 m = true) ∧
  refs st' = refs st + (if mesos_pb2 m then 1 else 0).
Proof.
  intros Hs. unfold init_module.
  destruct imports_pb2, PyType_Ready_ok, Py_InitModule_ok; intros; simplify_eq;
    cbn; split_and!; (done || lia).
Qed.

(** ** The contract holds *)

Definition scheduler_wraps (self : MesosSchedulerDriverImpl) : bool := has (driver self).

(** Evaluates a slot on an object whose reference is known. *)
Ltac slot_accounts :=
  cbv [owned id]; cbn; unfold mbind, Waits_bind, PyM_bind, mret, PyM_ret; cbn;
  (split; [lia|done]).

(** The deletion of the driver that an object may have. *)
Lemma delete_accounts {Call : Type} `{!DriverWaits Call} (driver : bool) (st : Py Call) :
  match (if driver then delete_driver else mret tt) st with
  | Some (_, st') => refs st' = refs st ∧ gil st' = gil st
  | None => driver = true
  end.
Proof. destruct driver; [|done]. unfold delete_driver. by destruct (deletes _ _). Qed.

(** The end of an initialisation that succeeds: a driver may be deleted first. *)
Ltac finish_init :=
  match goal with
  | |- context [(if ?b then delete_driver else mret tt) ?st] =>
      let H := fresh in let Hr := fresh in let Hg := fresh in
      pose proof (delete_accounts b st) as H;
      destruct ((if b then delete_driver else mret tt) st) as [[? ?]|];
      [destruct H as [Hr Hg]; cbv [owned id]; cbn in Hr, Hg |- *; rewrite Hr;
       split; [lia|done]
      |unfold scheduler_wraps; cbn; by rewrite H]
  end.

(** The methods of both tables keep no reference but the one they return. *)
Lemma method_ok_returns {Call : Type} `{!DriverWaits Call} answer start name
    (m : Waits Call (option PyObject)) st :
  method_ok answer start name m → err st = None → gil st = 1 →
  match m st with
  | Some (res, st') => refs st' = refs st + (if has res then 1 else 0) ∧ gil st' = 1
  | None => ¬ waits_end
  end.
Proof.
  intros Hm Hs Hl. destruct (Hm st Hs Hl) as [(e & ->)|Hb]; [cbn; split; [lia|done]|].
  destruct (blocking name); [|destruct Hb as (c & ->); by cbn].
  assert (Hw : waits_end → is_Some (waited answer start name (calls st))).
  { intros [Hj _]. unfold waited. destruct (String.eqb name "run").
    - destruct (_ =? 2); [|done]. destruct (Hj (calls st ++ [start])%list) as ([? ?] & ->). done.
    - destruct (Hj (calls st)) as ([? ?] & ->). done. }
  rewrite Hb. destruct (waited answer start name (calls st)) as [[status cs]|]; cbn; [done|].
  intros He. by destruct (Hw He).
Qed.

(** Reading an argument keeps no reference, so [init] owns exactly what it stores. *)
#[export] Instance scheduler_type_laws `{Interpreter} `{SchedulerProtobuf}
    `{!DriverWaits DriverCall} (answer : list DriverCall → DriverCall → Z) :
  TypeLaws (MesosSchedulerDriverImplType answer) scheduler_wraps.
Proof.
  split; try done.
  - intros [d p o] args [r e g cs] Hs Hl. cbn in Hs, Hl. subst e g.
    cbn [tp_init MesosSchedulerDriverImplType].
    unfold MesosSchedulerDriverImpl_init, PyArg_ParseTuple, mbind, Waits_bind, does.
    case_if; [|slot_accounts].
    destruct args as [|o1 [|o2 [|o3 rest]]]; try done.
    cbn [mret PyM_ret self_pythonScheduler fst snd add_refs driver has].
    destruct o as [old|]; cbn [Py_XDECREF add_refs mret PyM_ret refs err gil calls fst snd];
      rewrite read_spec by done;
      (destruct (read_message parse_FrameworkInfo o2); [|slot_accounts]);
      (destruct (nth_error rest 1) as [o'|];
       [unfold mbind, PyM_bind; rewrite read_spec by done; destruct (read_message _ o');
        [cbn [fmap option_fmap option_map mret PyM_ret]|slot_accounts]
       |cbn [mret PyM_ret]]);
      finish_init.
  - intros [d p [o|]] st Hs Hl; slot_accounts.
  - by intros [d p [o|]] st.
  - intros [d p o] [r e g cs] Hs Hl. cbn in Hs, Hl. subst e g.
    cbn [tp_dealloc MesosSchedulerDriverImplType]. unfold MesosSchedulerDriverImpl_dealloc.
    destruct d as [d|]; cbn [has driver].
    + unfold Py_ALLOW_THREADS, delete_driver, mbind, Waits_bind, does. cbn.
      change (has_lock _) with false. destruct (deletes false cs) as [cs'|] eqn:E.
      * destruct o; slot_accounts.
      * cbn. intros [_ Hw]. destruct (Hw cs) as (? & Hw'). congruence.
    + destruct o; slot_accounts.
  - intros [d p o] st self' st'. cbn [tp_dealloc MesosSchedulerDriverImplType].
    unfold MesosSchedulerDriverImpl_dealloc, mbind, Waits_bind, does. cbn [driver].
    destruct ((if has d then Py_ALLOW_THREADS delete_driver else mret tt) st) as [[u st1]|];
      [|done]. cbn.
    unfold MesosSchedulerDriverImpl_clear. by destruct o; intros [= <- _].
  - intros name self m args st Hm Hs Hl. eapply method_ok_returns; [|done|done].
    exact (methods_sound answer name self m args Hm).
Qed.

#[export] Instance executor_type_laws `{Interpreter} `{ExecutorProtobuf}
    `{!DriverWaits ExecCall} (answer : list ExecCall → ExecCall → Z) :
  TypeLaws (MesosExecutorDriverImplType answer) exec_driver.
Proof.
  split; try done.
  - intros [d p o] args [r e g cs] Hs Hl. cbn in Hs, Hl. subst e g.
    cbn [tp_init MesosExecutorDriverImplType].
    unfold MesosExecutorDriverImpl_init, PyArg_ParseTuple, mbind, Waits_bind, does.
    case_if; [|slot_accounts]. destruct args as [|o1 args]; [done|]. cbn.
    destruct o, d; cbn; unfold delete_driver, mbind, option_bind; cbn;
      try (destruct (deletes _ _); cbn; [|done]); slot_accounts.
  - intros [d p [o|]] st Hs Hl; slot_accounts.
  - by intros [d p [o|]] st.
  - intros [d p o] [r e g cs] Hs Hl. cbn in Hs, Hl. subst e g.
    cbn [tp_dealloc MesosExecutorDriverImplType]. unfold MesosExecutorDriverImpl_dealloc.
    destruct d; cbn [exec_driver].
    + unfold Py_ALLOW_THREADS, delete_driver, mbind, Waits_bind, does. cbn.
      change (has_lock _) with false. destruct (deletes false cs) as [cs'|] eqn:E.
      * destruct o; slot_accounts.
      * cbn. intros [_ Hw]. destruct (Hw cs) as (? & Hw'). congruence.
    + destruct o; slot_accounts.
  - intros [d p o] st self' st'. cbn [tp_dealloc MesosExecutorDriverImplType].
    unfold MesosExecutorDriverImpl_dealloc, mbind, Waits_bind, does. cbn [exec_driver].
    destruct ((if d then Py_ALLOW_THREADS delete_driver else mret tt) st) as [[u st1]|];
      [|done]. cbn.
    unfold MesosExecutorDriverImpl_clear. by destruct o; intros [= <- _].
  - intros name self m args st Hm Hs Hl. eapply method_ok_returns; [|done|done].
    exact (exec_methods_sound answer name self m args Hm).
Qed.

(** ** Properties *)

(** What a life of an object with the type [T] guarantees. *)
Definition leaks_nothing {Call Self : Type} `{!DriverWaits Call} (T : PyTypeObject Call Self)
    (us : list Use) (st : Py Call) : Prop :=
  match session T us st with
  | Some (_, st') => refs st' = refs st ∧ gil st' = 1
  | None => ¬ (waits_end ∧ (inits us ≤ 1)%nat)
  end ∧
  ∀ self st', uses T us (tp_new T) st = Some (self, st') →
    refs st' = refs st + Z.of_nat (length (tp_traverse T self)).

(** C35: A driver object leaks nothing, whatever the application does with it: after its
    creation, any sequence of initialisations (successful or not, repeated or not),
    calls of any method, [join] and [run] included, with any arguments, and passes of
    the cyclic collector, and its end, the module owns the references it owned before,
    and the thread has the interpreter lock again.  The collector sees every reference
    that the object owns in between.  And such a life does come to its end when the
    waits for the driver do for a thread without the lock, and the object is
    initialised at most once: [join], [run] and the deletion of the driver release the
    lock while they wait (a second initialisation does not). *)
Theorem python_objects_leak_nothing `{Interpreter} `{SchedulerProtobuf} `{ExecutorProtobuf}
    `{!DriverWaits DriverCall} `{!DriverWaits ExecCall}
    (answer : list DriverCall → DriverCall → Z) (xanswer : list ExecCall → ExecCall → Z)
    us xus st xst :
  err st = None → gil st = 1 → err xst = None → gil xst = 1 →
  leaks_nothing (MesosSchedulerDriverImplType answer) us st ∧
  leaks_nothing (MesosExecutorDriverImplType xanswer) xus xst.
Proof.
  assert (Hgen : ∀ (Call Self : Type) (W : DriverWaits Call) (T : PyTypeObject Call Self) wraps
    (_ : TypeLaws T wraps) us st, err st = None → gil st = 1 → leaks_nothing T us st).
  { intros Call Self W T wraps HT us' st' Hs Hl. split; [by eapply session_balanced|].
    intros self st1 E. pose proof (uses_accounts T wraps us' (tp_new T) st' Hs Hl) as Hu.
    rewrite E in Hu. destruct Hu as [-> _]. unfold owned, id. rewrite new_owns_nothing. cbn. lia. }
  intros. split; by eapply Hgen; [apply _|..].
Qed.

Module ModuleExample.
#[local] Instance interpreter : Interpreter := {|
  pb2_entry _ := AType;
  FromString t b := Some (PyMessage t b);
  SerializeToString_of o :=
    match o with PyMessage _ b => Returns (PyString b) | _ => Raises end |}.
#[local] Instance protobuf : SchedulerProtobuf := {|
  ser_text _ v := Some v;
  ser_Offer o := Some (of_id o);
  ser_TaskStatus s := Some (ts_task_id s);
  parse_text _ b := Some b;
  parse_FrameworkInfo b := Some (mkFrameworkInfo b b None "");
  parse_TaskInfo b := None;
  parse_TaskStatus b := None;
  parse_Operation _ := None |}.
#[local] Instance exec_protobuf : ExecutorProtobuf := {|
  ex_ser_text _ v := Some v;
  ex_ser_TaskInfo t := Some (ti_task_id t);
  ex_parse_TaskStatus b := None |}.

(** Initialised, asked for an unknown method, started, and run. *)
Definition life : list Use :=
  [use_init [PyInstance "s"; PyMessage "FrameworkInfo" "f"; PyString "m"];
   use_call "nothing" []; use_call "start" []; use_call "run" []].

(** The driver ends when somebody aborts it; a thread that waits with the lock waits for
    ever. *)
#[local] Instance waits : DriverWaits DriverCall :=
  {| joins lock _ := if lock then None else Some ([call_abort], 3);
     deletes lock _ := if lock then None else Some [] |}.
#[local] Instance exec_waits : DriverWaits ExecCall :=
  {| joins lock _ := None; deletes lock _ := None |}.

Lemma python_objects_leak_nothing_witness :
  let T := MesosSchedulerDriverImplType (fun _ _ => 2) in
  ∃ self st', session T life (mkPy 7 None 1 []) = Some (self, st') ∧
    refs st' = 7 ∧ gil st' = 1 ∧ calls st' = [call_start; call_start; call_abort].
Proof.
  destruct (python_objects_leak_nothing (fun _ _ => 2) (fun _ _ => 2) life []
    (mkPy 7 None 1 []) (mkPy 0 None 1 []) eq_refl eq_refl eq_refl eq_refl) as [[Hs _] _].
  intros T. fold T in Hs.
  destruct (session T life (mkPy 7 None 1 [])) as [[self st']|] eqn:E.
  - destruct Hs as [Hr Hg]. exists self, st'. split; [reflexivity|]. split; [exact Hr|].
    split; [exact Hg|]. vm_compute in E. injection E as _ <-. reflexivity.
  - exfalso. apply Hs. split; [|cbn; lia]. split; intros cs; eexists; reflexivity.
Defined.

(** A second initialisation deletes the driver with the lock held, and may wait for
    ever. *)
Example second_init_keeps_lock :
  let T := MesosSchedulerDriverImplType (fun _ _ => 2) in
  let init := use_init [PyInstance "s"; PyMessage "FrameworkInfo" "f"; PyString "m"] in
  uses T [init; init] (tp_new T) (mkPy 7 None 1 []) = None.
Proof. reflexivity. Qed.
End ModuleExample.
