(* ===== verification/BindingsJoin.v ===== *)
(** * BindingsJoin: the blocking methods of the bindings

    [join] and [run] of the Python driver objects (PythonScheduler.v,
    PythonExecutor.v) and [join] of the Java ones, here, block until the driver has
    ended, and the driver ends through callbacks and calls of other threads.  In
    Python these need the interpreter lock, so the methods release it while they
    wait ([Py_BEGIN_ALLOW_THREADS]); in Java they do not.

    The wait of the driver is a parameter: the calls that the other threads make in
    the meantime and the status it returns, or [None] when the driver never ends
    (when it does end is the subject of DriverJoin.v).  A method that does not
    return is [None]. *)

From S2P Require Import Prelude Scheduler Executor SchedulerDriver Python PythonScheduler PythonExecutor Jni JniScheduler JniExecutor.
#[local] Open Scope Z_scope.

(** ** Java *)

Section java.
Context `{JavaSide}.

Definition native_wait {Call : Type} (wait : list Call → option (list Call * Z))
    (st : Jvm Call) : option (outcome (jobject * Jvm Call)) :=
  '(cs, status) ← wait (jcalls st);
  Some ((_ ← did cs; convert_Status status) st).

Definition native_join (thiz : MesosSchedulerDriver)
    (join : list DriverCall → option (list DriverCall * Z)) (st : Jvm DriverCall)
    : option (outcome (jobject * Jvm DriverCall)) :=
  match JniScheduler.__driver thiz with None => Some Fatal | Some _ => native_wait join st end.

Definition native_exec_join (thiz : MesosExecutorDriver)
    (join : list ExecCall → option (list ExecCall * Z)) (st : Jvm ExecCall)
    : option (outcome (jobject * Jvm ExecCall)) :=
  if JniExecutor.__driver thiz then native_wait join st else Some Fatal.
End java.

(** ** Facts about Python *)

(** If the lock were kept and no callback could run, the method would not return. *)
Lemma waiting_with_lock_hangs {Call : Type} `{!DriverWaits Call} (st : Py Call) :
  (∀ cs, joins true cs = None) → 0 < gil st → driver_join st = None.
Proof.
  intros Hj Hg. unfold driver_join, has_lock. by rewrite (proj2 (Z.ltb_lt _ _) Hg), Hj.
Qed.

(** [run] is [start], then [join] when the driver runs: it makes the call, waits without
    the lock, and returns what [join] returns; a driver object without a driver raises
    and calls nothing. *)
Theorem python_run_is_start_then_join `{!DriverWaits DriverCall}
    (answer : list DriverCall → DriverCall → Z) (self : MesosSchedulerDriverImpl) st :
  gil st = 1 → answer (calls st) call_start = 2 →
  MesosSchedulerDriverImpl_run answer self st =
  match driver self with
  | Some _ =>
      MesosSchedulerDriverImpl_join self
        (mkPy (refs st) (err st) (gil st) (calls st ++ [call_start])%list)
  | None =>
      Some (None, mkPy (refs st) (Some "MesosSchedulerDriverImpl.driver is nullptr")%string
                    (gil st) (calls st))
  end.
Proof.
  destruct st as [r e g cs]. cbn. intros -> Ha.
  unfold MesosSchedulerDriverImpl_run, MesosSchedulerDriverImpl_join, wait_and_return.
  destruct (driver self) as [d|]; [|done].
  unfold Py_ALLOW_THREADS, driver_run, driver_join, mbind, Waits_bind. cbn. by rewrite Ha.
Qed.
